(** * VaultHealth import pipeline: a shallow embedding and its properties

    The development follows the TypeScript sources of the import,
    normalisation and deduplication pipeline:

    - [insights/dataQuality.ts]   robust statistics and per-session quality
    - [importers/eightSleep.ts]   the wearable (Eight Sleep) session parser
    - [importers/pipeline.ts]     completeness score, merge, deduplication
                                  and the [importFile] orchestrator
    - [scripts/importAppleHealthStream.ts]  the chunked XML scanner

    Conventions of the embedding.

    - A JavaScript [number] is an exact rational ([Q]); rounding, [NaN] and
      the infinities of IEEE doubles are outside the model.  Numbers are
      compared with [Qeq] ([==]), as [===] compares values.
    - A field that may be [undefined] at run time is an [option]; [None] is
      [undefined].  Records read back from JSON are not checked against the
      TypeScript interfaces, so every numeric field of a session is
      optional here, whether or not the interface marks it with [?].
    - Exceptions are values of [exn]; a computation that may throw returns
      a [result].  A [Promise] is identified with its settled value.
    - What the code takes from its host (the clock, [JSON.parse], the
      hash, the record store's failures, [parseFloat], [Date]) is a
      parameter of the embedding, bundled in a record or a section.

    The first part of the file holds the embedding, module by module in
    the order above, each followed by the declarative descriptions its
    properties are stated with.  The second part holds the properties. *)

From Stdlib Require Import Strings.String Strings.Ascii Strings.Byte.
From Stdlib Require Import Bool Arith ZArith QArith Qabs Qround Lia Lqa.
From Stdlib Require Import List Permutation Sorted.
Import ListNotations.

Local Open Scope Q_scope.

(** ** JavaScript numbers and truthiness *)

Definition num := option Q.

Definition Qltb (a b : Q) : bool := negb (Qle_bool b a).

(** [x > c] for a possibly undefined [x]: a comparison with [undefined]
    is false. *)
Definition num_gt (x : num) (c : Q) : bool :=
  match x with Some v => Qltb c v | None => false end.

Definition num_le (x : num) (c : Q) : bool :=
  match x with Some v => Qle_bool v c | None => false end.

(** Truthiness of a number: [undefined] and [0] are falsy. *)
Definition truthy (x : num) : bool :=
  match x with Some v => negb (Qeq_bool v 0) | None => false end.

(** [a || b] on numbers. *)
Definition num_or (a b : num) : num := if truthy a then a else b.

(** [a ?? b]: only [undefined] (and [null]) fall through. *)
Definition num_nullish (a b : num) : num :=
  match a with Some _ => a | None => b end.

(** [a + b]; an undefined operand gives [NaN], which every later
    comparison treats like [undefined]. *)
Definition num_add (a b : num) : num :=
  match a, b with Some x, Some y => Some (x + y) | _, _ => None end.

(** ** Canonical records ([types/schema.ts]) *)

(** Values of an open [Record<string, unknown>] bag. *)
#[local] Unset Elimination Schemes.
Inductive jsval : Type :=
| VUndefined
| VNull
| VBool (b : bool)
| VNum (q : Q)
| VStr (s : string)
| VArr (l : list jsval)
| VObj (fields : list (string * jsval)).
#[local] Set Elimination Schemes.

Definition obj := list (string * jsval).

Fixpoint obj_get (k : string) (o : obj) : jsval :=
  match o with
  | [] => VUndefined
  | (k', v) :: o' => if String.eqb k k' then v else obj_get k o'
  end.

Fixpoint obj_has (k : string) (o : obj) : bool :=
  match o with
  | [] => false
  | (k', _) :: o' => String.eqb k k' || obj_has k o'
  end.

(** Assignment [o[k] = v]: an existing key keeps its place. *)
Fixpoint obj_set (k : string) (v : jsval) (o : obj) : obj :=
  match o with
  | [] => [(k, v)]
  | (k', v') :: o' =>
      if String.eqb k k' then (k, v) :: o' else (k', v') :: obj_set k v o'
  end.

(** Spread [{...a, ...b}]. *)
Definition obj_spread (a b : obj) : obj :=
  fold_left (fun acc kv => obj_set (fst kv) (snd kv) acc) b a.

(** [Boolean(v)]. *)
Definition js_truthy (v : jsval) : bool :=
  match v with
  | VUndefined | VNull => false
  | VBool b => b
  | VNum q => negb (Qeq_bool q 0)
  | VStr s => negb (String.eqb s EmptyString)
  | VArr _ | VObj _ => true
  end.

Record DataQualityFlags := {
  isComplete : bool;
  hasOutliers : bool;
  outlierFields : list string;
  sensorGaps : Q;
  manuallyExcluded : bool;
  exclusionReason : option string
}.

Record SleepSession := {
  id : string;
  userId : string;
  sourceId : string;
  date : string;
  startedAt : string;
  endedAt : string;
  durationSeconds : num;
  timeInBedSeconds : num;
  deepSeconds : num;
  remSeconds : num;
  lightSeconds : num;
  awakeSeconds : num;
  sleepOnsetLatency : num;
  wakeAfterSleepOnset : num;
  efficiency : num;
  avgHeartRate : num;
  minHeartRate : num;
  maxHeartRate : num;
  avgHrv : num;
  avgRespiratoryRate : num;
  avgBedTempC : num;
  avgRoomTempC : num;
  dataQuality : DataQualityFlags;
  vendorData : option obj
}.

Definition defaultQualityFlags : DataQualityFlags :=
  {| isComplete := true; hasOutliers := false; outlierFields := [];
     sensorGaps := 0; manuallyExcluded := false; exclusionReason := None |}.

(** ** Robust statistics and data quality ([insights/dataQuality.ts]) *)

Module DataQuality.

Inductive LimitKey :=
| heartRate | minHeartRateL | maxHeartRateL | hrv | respiratoryRate
| sleepDuration | deepPercent | remPercent | bodyTemp | roomTemp
| workoutDuration | calories.

Record Limit := { lmin : Q; lmax : Q }.

Definition HARD_LIMITS (k : LimitKey) : Limit :=
  match k with
  | heartRate => {| lmin := 25; lmax := 220 |}
  | minHeartRateL => {| lmin := 25; lmax := 120 |}
  | maxHeartRateL => {| lmin := 40; lmax := 220 |}
  | hrv => {| lmin := 5; lmax := 300 |}
  | respiratoryRate => {| lmin := 4; lmax := 40 |}
  | sleepDuration => {| lmin := 30 * 60; lmax := 16 * 60 * 60 |}
  | deepPercent => {| lmin := 0; lmax := 60 |}
  | remPercent => {| lmin := 0; lmax := 60 |}
  | bodyTemp => {| lmin := 15; lmax := 45 |}
  | roomTemp => {| lmin := -10; lmax := 50 |}
  | workoutDuration => {| lmin := 60; lmax := 8 * 60 * 60 |}
  | calories => {| lmin := 0; lmax := 5000 |}
  end.

Definition DEFAULT_MAD_THRESHOLD : Q := 35 # 10.

(** [[...values].sort((a, b) => a - b)]: a stable ascending sort. *)
Fixpoint insert (x : Q) (l : list Q) : list Q :=
  match l with
  | [] => [x]
  | y :: l' => if Qle_bool x y then x :: l else y :: insert x l'
  end.

Fixpoint sort (l : list Q) : list Q :=
  match l with
  | [] => []
  | x :: l' => insert x (sort l')
  end.

Definition median (values : list Q) : Q :=
  match values with
  | [] => 0
  | _ =>
      let sorted := sort values in
      let mid := (length sorted / 2)%nat in
      if Nat.eqb (length sorted mod 2) 0
      then (nth (mid - 1) sorted 0 + nth mid sorted 0) / 2
      else nth mid sorted 0
  end.

Definition medianAbsoluteDeviation (values : list Q) : Q :=
  match values with
  | [] => 0
  | _ =>
      let med := median values in
      let deviations := map (fun v => Qabs (v - med)) values in
      median deviations
  end.

Definition robustZScore (value med mad : Q) : Q :=
  if Qeq_bool mad 0 then 0
  else (value - med) / (mad / (6745 # 10000)).

(** [p] is a percentage in [0, 100] at every call site, so both indices
    fall inside the array. *)
Definition percentile (values : list Q) (p : Q) : Q :=
  match values with
  | [] => 0
  | _ =>
      let sorted := sort values in
      let index := (p / 100) * (inject_Z (Z.of_nat (length sorted)) - 1) in
      let lower := Qfloor index in
      let upper := Qceiling index in
      if Z.eqb lower upper then nth (Z.to_nat lower) sorted 0
      else nth (Z.to_nat lower) sorted 0 * (inject_Z upper - index)
           + nth (Z.to_nat upper) sorted 0 * (index - inject_Z lower)
  end.

Inductive ViolationKind := below_min | above_max.

Record HardLimitViolation := {
  v_field : string;
  v_value : Q;
  v_limit : Limit;
  v_violation : ViolationKind
}.

Definition checkHardLimits (value : num) (field : string) (limitKey : LimitKey)
  : option HardLimitViolation :=
  match value with
  | None => None
  | Some v =>
      let limits := HARD_LIMITS limitKey in
      if Qltb v (lmin limits) then
        Some {| v_field := field; v_value := v; v_limit := limits;
                v_violation := below_min |}
      else if Qltb (lmax limits) v then
        Some {| v_field := field; v_value := v; v_limit := limits;
                v_violation := above_max |}
      else None
  end.

Inductive Quality := good | warning | bad.
Inductive Action := include | exclude_from_baseline | flag_for_review.

Record SleepQualityReport := {
  session : SleepSession;
  hardLimitViolations : list HardLimitViolation;
  r_outlierFields : list string;
  r_isComplete : bool;
  missingFields : list string;
  overallQuality : Quality;
  suggestedAction : Action
}.

Record BaselineEntry := { b_median : Q; b_mad : Q }.

(** [{ [metric: string]: { median, mad } }] *)
Definition Baseline := list (string * BaselineEntry).

Fixpoint baseline_get (field : string) (b : Baseline) : option BaselineEntry :=
  match b with
  | [] => None
  | (k, e) :: b' => if String.eqb field k then Some e else baseline_get field b'
  end.

Record Check := {
  c_value : num;
  c_field : string;
  c_limitKey : LimitKey;
  c_required : bool
}.

Definition checks (s : SleepSession) : list Check :=
  [ {| c_value := minHeartRate s; c_field := "minHeartRate";
       c_limitKey := minHeartRateL; c_required := false |};
    {| c_value := avgHeartRate s; c_field := "avgHeartRate";
       c_limitKey := heartRate; c_required := false |};
    {| c_value := maxHeartRate s; c_field := "maxHeartRate";
       c_limitKey := maxHeartRateL; c_required := false |};
    {| c_value := avgHrv s; c_field := "avgHrv";
       c_limitKey := hrv; c_required := false |};
    {| c_value := avgRespiratoryRate s; c_field := "avgRespiratoryRate";
       c_limitKey := respiratoryRate; c_required := false |};
    {| c_value := durationSeconds s; c_field := "durationSeconds";
       c_limitKey := sleepDuration; c_required := true |};
    {| c_value := avgBedTempC s; c_field := "avgBedTempC";
       c_limitKey := bodyTemp; c_required := false |};
    {| c_value := avgRoomTempC s; c_field := "avgRoomTempC";
       c_limitKey := roomTemp; c_required := false |} ].

(** The first loop: one pass over [checks], pushing violations and missing
    required fields. *)
Fixpoint runChecks (cs : list Check)
  (viol : list HardLimitViolation) (missing : list string)
  : list HardLimitViolation * list string :=
  match cs with
  | [] => (viol, missing)
  | c :: cs' =>
      match c_value c with
      | None =>
          runChecks cs' viol
            (if c_required c then missing ++ [c_field c] else missing)
      | Some _ =>
          match checkHardLimits (c_value c) (c_field c) (c_limitKey c) with
          | Some v => runChecks cs' (viol ++ [v]) missing
          | None => runChecks cs' viol missing
          end
      end
  end.

Definition opt_push {A} (l : list A) (o : option A) : list A :=
  match o with Some a => l ++ [a] | None => l end.

Definition stageChecks (s : SleepSession) (viol : list HardLimitViolation)
  : list HardLimitViolation :=
  match num_add (num_add (deepSeconds s) (remSeconds s)) (lightSeconds s),
        deepSeconds s, remSeconds s with
  | Some totalSleep, Some deep, Some rem =>
      if Qltb 0 totalSleep then
        let deepPct := (deep / totalSleep) * 100 in
        let remPct := (rem / totalSleep) * 100 in
        let viol1 :=
          opt_push viol (checkHardLimits (Some deepPct) "deepPercent" deepPercent) in
        opt_push viol1 (checkHardLimits (Some remPct) "remPercent" remPercent)
      else viol
  | _, _, _ => viol
  end.

Definition metricsToCheck (s : SleepSession) : list (string * num) :=
  [ ("avgHrv"%string, avgHrv s);
    ("minHeartRate"%string, minHeartRate s);
    ("avgRespiratoryRate"%string, avgRespiratoryRate s);
    ("durationSeconds"%string, durationSeconds s) ].

Fixpoint outlierScan (b : Baseline) (madThreshold : Q)
  (ms : list (string * num)) (out : list string) : list string :=
  match ms with
  | [] => out
  | (field, value) :: ms' =>
      match value, baseline_get field b with
      | Some v, Some e =>
          let zScore := robustZScore v (b_median e) (b_mad e) in
          if Qltb madThreshold (Qabs zScore)
          then outlierScan b madThreshold ms' (out ++ [field])
          else outlierScan b madThreshold ms' out
      | _, _ => outlierScan b madThreshold ms' out
      end
  end.

Definition checkSleepSessionQuality (s : SleepSession)
  (baseline : option Baseline) (madThreshold : Q) : SleepQualityReport :=
  let '(viol0, missing) := runChecks (checks s) [] [] in
  let viol := stageChecks s viol0 in
  let outliers :=
    match baseline with
    | Some b => outlierScan b madThreshold (metricsToCheck s) []
    | None => []
    end in
  let complete := Nat.eqb (length missing) 0 in
  let '(q, a) :=
    if Nat.ltb 0 (length viol) then (bad, exclude_from_baseline)
    else if Nat.leb 2 (length outliers) then (warning, flag_for_review)
    else if Nat.eqb (length outliers) 1 || negb complete then (warning, include)
    else (good, include) in
  {| session := s;
     hardLimitViolations := viol;
     r_outlierFields := outliers;
     r_isComplete := complete;
     missingFields := missing;
     overallQuality := q;
     suggestedAction := a |}.

(** The decision policy as the specification words it: any hard violation
    gives bad / exclude; otherwise two or more outlier fields give warning /
    flag for review; otherwise exactly one outlier field or a missing
    required field gives warning / include; otherwise good / include. *)
Definition policy_from_spec (hardViolations outliers : nat)
  (missingRequired : bool) : Quality * Action :=
  if Nat.leb 1 hardViolations then (bad, exclude_from_baseline)
  else if Nat.leb 2 outliers then (warning, flag_for_review)
  else if Nat.eqb outliers 1 || missingRequired then (warning, include)
  else (good, include).

Record MetricBaseline := {
  metric : string;
  mb_median : Q;
  mb_mad : Q;
  mb_mean : Q;
  stdDev : Q;
  low : Q;
  high : Q;
  p25 : Q;
  p75 : Q;
  sampleSize : nat;
  excludedCount : nat
}.

Definition sum (l : list Q) : Q := fold_left Qplus l 0.

Section Baseline.

(** [Math.sqrt] is a primitive of the host. *)
Variable Math_sqrt : Q -> Q.

Definition calculateBaseline (values : list Q) (metric : string)
  (excludeOutliers : bool) (madThreshold : Q) : MetricBaseline :=
  match values with
  | [] =>
      {| metric := metric; mb_median := 0; mb_mad := 0; mb_mean := 0;
         stdDev := 0; low := 0; high := 0; p25 := 0; p75 := 0;
         sampleSize := 0; excludedCount := 0 |}
  | _ =>
      let med := median values in
      let mad := medianAbsoluteDeviation values in
      let filteredValues :=
        if excludeOutliers && Qltb 0 mad
        then filter (fun v => Qle_bool (Qabs (robustZScore v med mad)) madThreshold)
                    values
        else values in
      let excluded :=
        if excludeOutliers && Qltb 0 mad
        then (length values - length filteredValues)%nat
        else 0%nat in
      let finalMedian := median filteredValues in
      let finalMad := medianAbsoluteDeviation filteredValues in
      let n := inject_Z (Z.of_nat (length filteredValues)) in
      let mean := sum filteredValues / n in
      let variance :=
        fold_left (fun acc v => acc + (v - mean) * (v - mean)) filteredValues 0 / n in
      {| metric := metric;
         mb_median := finalMedian;
         mb_mad := finalMad;
         mb_mean := mean;
         stdDev := Math_sqrt variance;
         low := finalMedian - 2 * finalMad;
         high := finalMedian + 2 * finalMad;
         p25 := percentile filteredValues 25;
         p75 := percentile filteredValues 75;
         sampleSize := length filteredValues;
         excludedCount := excluded |}
  end.

End Baseline.

(** *** The checks one by one, and a session for the witnesses *)

Definition violationsOf (c : Check) : list HardLimitViolation :=
  match checkHardLimits (c_value c) (c_field c) (c_limitKey c) with
  | Some v => [v]
  | None => []
  end.

Definition missingOf (c : Check) : list string :=
  match c_value c with
  | None => if c_required c then [c_field c] else []
  | Some _ => []
  end.

Definition hrv400 : SleepSession :=
  {| id := "s1"; userId := "u"; sourceId := "src"; date := "2024-03-01";
     startedAt := "2024-03-01T23:00:00.000Z";
     endedAt := "2024-03-02T07:00:00.000Z";
     durationSeconds := Some 27000; timeInBedSeconds := Some 28800;
     deepSeconds := Some 5400; remSeconds := Some 5400;
     lightSeconds := Some 16200; awakeSeconds := Some 1800;
     sleepOnsetLatency := None; wakeAfterSleepOnset := None;
     efficiency := Some 94; avgHeartRate := Some 55;
     minHeartRate := Some 48; maxHeartRate := Some 70;
     avgHrv := Some 400; avgRespiratoryRate := Some 14;
     avgBedTempC := None; avgRoomTempC := None;
     dataQuality := defaultQualityFlags; vendorData := None |}.

End DataQuality.

(** ** JavaScript [Map<string, V>]: insertion ordered, [set] on a key that
       is present keeps its position *)

Section JsMap.
Context {V : Type}.

Definition Map := list (string * V).

Fixpoint Map_get (k : string) (m : Map) : option V :=
  match m with
  | [] => None
  | (k', v) :: m' => if String.eqb k k' then Some v else Map_get k m'
  end.

Fixpoint Map_set (k : string) (v : V) (m : Map) : Map :=
  match m with
  | [] => [(k, v)]
  | (k', v') :: m' =>
      if String.eqb k k' then (k, v) :: m' else (k', v') :: Map_set k v m'
  end.

End JsMap.
Arguments Map : clear implicits.

(** ** Completeness score, merge and deduplication ([importers/pipeline.ts]) *)

Module Pipeline.

Definition getSessionCompleteness (s : SleepSession) : nat :=
  let score := 0%nat in
  let score := if num_gt (durationSeconds s) 0 then (score + 10)%nat else score in
  let score := if num_gt (deepSeconds s) 0 then (score + 5)%nat else score in
  let score := if num_gt (remSeconds s) 0 then (score + 5)%nat else score in
  let score := if num_gt (lightSeconds s) 0 then (score + 5)%nat else score in
  let score := if num_gt (awakeSeconds s) 0 then (score + 2)%nat else score in
  let score := if truthy (minHeartRate s) && num_gt (minHeartRate s) 0
               then (score + 5)%nat else score in
  let score := if truthy (avgHrv s) && num_gt (avgHrv s) 0
               then (score + 5)%nat else score in
  let score := if truthy (efficiency s) && num_gt (efficiency s) 0
                  && num_le (efficiency s) 100
               then (score + 3)%nat else score in
  let score := if truthy (avgRespiratoryRate s) && num_gt (avgRespiratoryRate s) 0
               then (score + 3)%nat else score in
  let score := match avgBedTempC s with
               | Some _ => (score + 2)%nat
               | None => score
               end in
  score.

(** [s.vendorData?.source] *)
Definition vendorSource (s : SleepSession) : jsval :=
  match vendorData s with
  | Some o => obj_get "source" o
  | None => VUndefined
  end.

(** [...s.vendorData] inside an object literal; spreading [undefined]
    adds nothing. *)
Definition vendorBag (s : SleepSession) : obj :=
  match vendorData s with Some o => o | None => [] end.

Definition mergeSessions (existing incoming : SleepSession) : SleepSession :=
  let existingScore := getSessionCompleteness existing in
  let incomingScore := getSessionCompleteness incoming in
  let base := if (incomingScore <=? existingScore)%nat then existing else incoming in
  let supplement := if (incomingScore <=? existingScore)%nat then incoming else existing in
  {| id := id base;
     userId := userId base;
     sourceId := sourceId base;
     date := date base;
     startedAt := startedAt base;
     endedAt := endedAt base;
     durationSeconds := durationSeconds base;
     timeInBedSeconds := timeInBedSeconds base;
     deepSeconds := num_or (deepSeconds base) (deepSeconds supplement);
     remSeconds := num_or (remSeconds base) (remSeconds supplement);
     lightSeconds := num_or (lightSeconds base) (lightSeconds supplement);
     awakeSeconds := num_or (awakeSeconds base) (awakeSeconds supplement);
     sleepOnsetLatency := sleepOnsetLatency base;
     wakeAfterSleepOnset := wakeAfterSleepOnset base;
     efficiency :=
       if truthy (efficiency base) && num_le (efficiency base) 100
       then efficiency base
       else if truthy (efficiency supplement) && num_le (efficiency supplement) 100
       then efficiency supplement
       else efficiency base;
     avgHeartRate := num_or (avgHeartRate base) (avgHeartRate supplement);
     minHeartRate := num_or (minHeartRate base) (minHeartRate supplement);
     maxHeartRate := maxHeartRate base;
     avgHrv := num_or (avgHrv base) (avgHrv supplement);
     avgRespiratoryRate :=
       num_or (avgRespiratoryRate base) (avgRespiratoryRate supplement);
     avgBedTempC := num_nullish (avgBedTempC base) (avgBedTempC supplement);
     avgRoomTempC := num_nullish (avgRoomTempC base) (avgRoomTempC supplement);
     dataQuality := dataQuality base;
     vendorData :=
       Some (obj_set "mergedSources"
               (VArr (filter js_truthy [vendorSource base; vendorSource supplement]))
               (obj_spread (vendorBag supplement) (vendorBag base))) |}.

(** [merged.id = existing.id] *)
Definition set_id (s : SleepSession) (i : string) : SleepSession :=
  {| id := i;
     userId := userId s; sourceId := sourceId s; date := date s;
     startedAt := startedAt s; endedAt := endedAt s;
     durationSeconds := durationSeconds s;
     timeInBedSeconds := timeInBedSeconds s;
     deepSeconds := deepSeconds s; remSeconds := remSeconds s;
     lightSeconds := lightSeconds s; awakeSeconds := awakeSeconds s;
     sleepOnsetLatency := sleepOnsetLatency s;
     wakeAfterSleepOnset := wakeAfterSleepOnset s;
     efficiency := efficiency s;
     avgHeartRate := avgHeartRate s; minHeartRate := minHeartRate s;
     maxHeartRate := maxHeartRate s; avgHrv := avgHrv s;
     avgRespiratoryRate := avgRespiratoryRate s;
     avgBedTempC := avgBedTempC s; avgRoomTempC := avgRoomTempC s;
     dataQuality := dataQuality s; vendorData := vendorData s |}.

Record DedupResult := {
  sessions : list SleepSession;
  mergedCount : nat;
  skippedCount : nat
}.

(** First loop of [deduplicateSessions]: the most complete stored session
    of the user per date. *)
Definition existingStep (user : string) (existingByDate : Map SleepSession)
  (session : SleepSession) : Map SleepSession :=
  if String.eqb (userId session) user then
    let key := date session in
    match Map_get key existingByDate with
    | None => Map_set key session existingByDate
    | Some existing =>
        if (getSessionCompleteness existing <? getSessionCompleteness session)%nat
        then Map_set key session existingByDate
        else existingByDate
    end
  else existingByDate.

(** Second loop: incoming sessions of one date are merged pairwise. *)
Definition incomingStep (incomingByDate : Map SleepSession)
  (session : SleepSession) : Map SleepSession :=
  let key := date session in
  match Map_get key incomingByDate with
  | Some existing => Map_set key (mergeSessions existing session) incomingByDate
  | None => Map_set key session incomingByDate
  end.

(** Third loop: each incoming date against the stored representative. *)
Definition dedupStep (existingByDate : Map SleepSession) (acc : DedupResult)
  (entry : string * SleepSession) : DedupResult :=
  let '(date, session) := entry in
  match Map_get date existingByDate with
  | Some existing =>
      let existingScore := getSessionCompleteness existing in
      let incomingScore := getSessionCompleteness session in
      if (existingScore <? incomingScore)%nat then
        let merged := set_id (mergeSessions existing session) (id existing) in
        {| sessions := sessions acc ++ [merged];
           mergedCount := S (mergedCount acc);
           skippedCount := skippedCount acc |}
      else
        {| sessions := sessions acc;
           mergedCount := mergedCount acc;
           skippedCount := S (skippedCount acc) |}
  | None =>
      {| sessions := sessions acc ++ [session];
         mergedCount := mergedCount acc;
         skippedCount := skippedCount acc |}
  end.

(** [deduplicateSessions(sessions, userId)]; [existingSessions] is what
    [getAll('sleepSessions')] returned. *)
Definition deduplicateSessions (existingSessions : list SleepSession)
  (sessions : list SleepSession) (user : string) : DedupResult :=
  let existingByDate := fold_left (existingStep user) existingSessions [] in
  let incomingByDate := fold_left incomingStep sessions [] in
  fold_left (dedupStep existingByDate) incomingByDate
    {| sessions := []; mergedCount := 0; skippedCount := 0 |}.

Definition validateEfficiency (efficiency : num) : num :=
  match efficiency with
  | None => None
  | Some e =>
      if Qltb e 0 then Some 0
      else if Qltb 100 e then Some 100
      else Some e
  end.

(** [Math.round]: the nearest integer, halves rounded up. *)
Definition Math_round (x : Q) : Q := inject_Z (Qfloor (x + (1 # 2))).

Definition roundIfTruthy (x : num) : num :=
  match x with
  | Some v => if truthy x then Some (Math_round v) else None
  | None => None
  end.

Definition validateSession (s : SleepSession) : SleepSession :=
  {| id := id s;
     userId := userId s; sourceId := sourceId s; date := date s;
     startedAt := startedAt s; endedAt := endedAt s;
     durationSeconds := durationSeconds s;
     timeInBedSeconds := timeInBedSeconds s;
     deepSeconds := deepSeconds s; remSeconds := remSeconds s;
     lightSeconds := lightSeconds s; awakeSeconds := awakeSeconds s;
     sleepOnsetLatency := sleepOnsetLatency s;
     wakeAfterSleepOnset := wakeAfterSleepOnset s;
     efficiency := validateEfficiency (efficiency s);
     avgHeartRate := roundIfTruthy (avgHeartRate s);
     minHeartRate := roundIfTruthy (minHeartRate s);
     maxHeartRate := maxHeartRate s;
     avgHrv := roundIfTruthy (avgHrv s);
     avgRespiratoryRate := avgRespiratoryRate s;
     avgBedTempC := avgBedTempC s; avgRoomTempC := avgRoomTempC s;
     dataQuality := dataQuality s; vendorData := vendorData s |}.

(** *** Merge and deduplication, described declaratively *)

Definition baseOf (existing incoming : SleepSession) : SleepSession :=
  if (getSessionCompleteness incoming <=? getSessionCompleteness existing)%nat
  then existing else incoming.

Definition supplementOf (existing incoming : SleepSession) : SleepSession :=
  if (getSessionCompleteness incoming <=? getSessionCompleteness existing)%nat
  then incoming else existing.

(** The fields merged with [||]. *)
Definition orFields : list (SleepSession -> num) :=
  [deepSeconds; remSeconds; lightSeconds; awakeSeconds; minHeartRate;
   avgHeartRate; avgHrv; avgRespiratoryRate].

(** The fields merged with [??]. *)
Definition nullishFields : list (SleepSession -> num) :=
  [avgBedTempC; avgRoomTempC].

(** The numeric fields copied from the base. *)
Definition baseFields : list (SleepSession -> num) :=
  [durationSeconds; timeInBedSeconds; sleepOnsetLatency; wakeAfterSleepOnset;
   maxHeartRate].

Definition validEfficiency (e : num) : bool := truthy e && num_le e 100.

(** A rich session whose respiratory rate reads 0 and whose efficiency is
    out of range, and a sparse one for the same night. *)
Definition richA : SleepSession :=
  {| id := "a"; userId := "u"; sourceId := "src-a"; date := "2024-03-01";
     startedAt := "2024-03-01T23:00:00.000Z";
     endedAt := "2024-03-02T07:00:00.000Z";
     durationSeconds := Some 27000; timeInBedSeconds := Some 28800;
     deepSeconds := Some 5400; remSeconds := Some 5400;
     lightSeconds := Some 16200; awakeSeconds := Some 1800;
     sleepOnsetLatency := None; wakeAfterSleepOnset := None;
     efficiency := Some 150; avgHeartRate := Some 55;
     minHeartRate := Some 48; maxHeartRate := Some 70;
     avgHrv := Some 60; avgRespiratoryRate := Some 0;
     avgBedTempC := None; avgRoomTempC := None;
     dataQuality := defaultQualityFlags;
     vendorData := Some [("source"%string, VStr "Watch")] |}.

Definition sparseB : SleepSession :=
  {| id := "b"; userId := "u"; sourceId := "src-b"; date := "2024-03-01";
     startedAt := "2024-03-01T23:10:00.000Z";
     endedAt := "2024-03-02T06:50:00.000Z";
     durationSeconds := Some 26000; timeInBedSeconds := None;
     deepSeconds := None; remSeconds := None;
     lightSeconds := None; awakeSeconds := None;
     sleepOnsetLatency := None; wakeAfterSleepOnset := None;
     efficiency := Some 90; avgHeartRate := None;
     minHeartRate := None; maxHeartRate := None;
     avgHrv := None; avgRespiratoryRate := None;
     avgBedTempC := None; avgRoomTempC := None;
     dataQuality := defaultQualityFlags;
     vendorData := Some [("source"%string, VStr "Ring")] |}.

(** The stored sessions of a user for a date, in store order. *)
Definition storedFor (existingSessions : list SleepSession) (user day : string)
  : list SleepSession :=
  filter (fun e => String.eqb (userId e) user && String.eqb (date e) day)
         existingSessions.

(** The most complete session of a list, the earliest among equals. *)
Definition pickMoreComplete (best : option SleepSession) (e : SleepSession)
  : option SleepSession :=
  match best with
  | None => Some e
  | Some b =>
      if (getSessionCompleteness b <? getSessionCompleteness e)%nat
      then Some e else Some b
  end.

Definition mostComplete (l : list SleepSession) : option SleepSession :=
  fold_left pickMoreComplete l None.

(** The incoming sessions of one date, merged pairwise in file order. *)
Definition mergeInto (acc : option SleepSession) (s : SleepSession)
  : option SleepSession :=
  match acc with
  | Some e => Some (mergeSessions e s)
  | None => Some s
  end.

Definition collapsed (sessions : list SleepSession) (day : string)
  : option SleepSession :=
  fold_left mergeInto
    (filter (fun s => String.eqb (date s) day) sessions) None.

(** What deduplication does with the collapsed incoming session of a
    date. *)
Inductive Outcome :=
| AddedAsNew
| Skipped (stored : SleepSession)
| Merged (stored : SleepSession).

Definition outcomeFor (existingSessions : list SleepSession) (user : string)
  (entry : string * SleepSession) : Outcome :=
  match mostComplete (storedFor existingSessions user (fst entry)) with
  | None => AddedAsNew
  | Some e =>
      if (getSessionCompleteness e <? getSessionCompleteness (snd entry))%nat
      then Merged e else Skipped e
  end.

Definition emitted (entry : string * SleepSession) (o : Outcome)
  : list SleepSession :=
  match o with
  | AddedAsNew => [snd entry]
  | Skipped _ => []
  | Merged e => [set_id (mergeSessions e (snd entry)) (id e)]
  end.

Definition isMerged (o : Outcome) : bool :=
  match o with Merged _ => true | _ => false end.
Definition isSkipped (o : Outcome) : bool :=
  match o with Skipped _ => true | _ => false end.

(** The third loop is a map over the incoming dates. *)
Definition stepOutcome (existingByDate : Map SleepSession)
  (entry : string * SleepSession) : Outcome :=
  match Map_get (fst entry) existingByDate with
  | None => AddedAsNew
  | Some e =>
      if (getSessionCompleteness e <? getSessionCompleteness (snd entry))%nat
      then Merged e else Skipped e
  end.

(** A session with its generated identifiers blanked: what two parses of
    one file agree on. *)
Definition forgetIds (s : SleepSession) : SleepSession :=
  {| id := EmptyString;
     userId := userId s; sourceId := EmptyString; date := date s;
     startedAt := startedAt s; endedAt := endedAt s;
     durationSeconds := durationSeconds s;
     timeInBedSeconds := timeInBedSeconds s;
     deepSeconds := deepSeconds s; remSeconds := remSeconds s;
     lightSeconds := lightSeconds s; awakeSeconds := awakeSeconds s;
     sleepOnsetLatency := sleepOnsetLatency s;
     wakeAfterSleepOnset := wakeAfterSleepOnset s;
     efficiency := efficiency s;
     avgHeartRate := avgHeartRate s; minHeartRate := minHeartRate s;
     maxHeartRate := maxHeartRate s; avgHrv := avgHrv s;
     avgRespiratoryRate := avgRespiratoryRate s;
     avgBedTempC := avgBedTempC s; avgRoomTempC := avgRoomTempC s;
     dataQuality := dataQuality s; vendorData := vendorData s |}.

Definition sameData (a b : SleepSession) : Prop := forgetIds a = forgetIds b.

Definition entriesAlike (e1 e2 : string * SleepSession) : Prop :=
  fst e1 = fst e2 /\ sameData (snd e1) (snd e2).

(** The stored session of the witness: the sparse night, already in the
    store. *)
Definition storedB : SleepSession := set_id sparseB "z".

End Pipeline.

(** ** The host's [Date] (ECMAScript time values)

    A time value is a number of milliseconds since the epoch.  The local
    time zone is a fixed offset from UTC (no daylight-saving transitions),
    given in milliseconds east of Greenwich. *)

Module JsDate.

Local Open Scope Z_scope.

Definition msPerDay : Z := 86400000.
Definition msPerHour : Z := 3600000.

(** [new Date(x)]: the time value is [x] truncated towards zero. *)
Definition timeClip (x : Q) : Z := Z.quot (Qnum x) (Zpos (Qden x)).

(** Proleptic Gregorian calendar date of a day number (days since
    1970-01-01), as [YearFromTime], [MonthFromTime] and [DateFromTime]
    compute it. *)
Definition civilFromDays (days : Z) : Z * Z * Z :=
  let z := days + 719468 in
  let era := z / 146097 in
  let doe := z - era * 146097 in
  let yoe := (doe - doe / 1460 + doe / 36524 - doe / 146096) / 365 in
  let y := yoe + era * 400 in
  let doy := doe - (365 * yoe + yoe / 4 - yoe / 100) in
  let mp := (5 * doy + 2) / 153 in
  let d := doy - (153 * mp + 2) / 5 + 1 in
  let m := if mp <? 10 then mp + 3 else mp - 9 in
  (if m <=? 2 then y + 1 else y, m, d).

Definition digit (n : Z) : ascii := ascii_of_nat (48 + Z.to_nat (n mod 10)).

Definition pad2 (n : Z) : string :=
  String (digit (n / 10)) (String (digit n) EmptyString).

Definition pad3 (n : Z) : string :=
  String (digit (n / 100)) (pad2 n).

Definition pad4 (n : Z) : string :=
  String (digit (n / 1000)) (pad3 n).

Definition pad6 (n : Z) : string :=
  String (digit (n / 100000)) (String (digit (n / 10000)) (pad4 n)).

(** Years outside 0..9999 use the expanded, signed six-digit form. *)
Definition isoYear (y : Z) : string :=
  if (0 <=? y) && (y <=? 9999) then pad4 y
  else if y <? 0 then ("-" ++ pad6 (- y))%string
  else ("+" ++ pad6 y)%string.

(** [d.toISOString().split('T')[0]]: the UTC calendar date. *)
Definition isoDate (t : Z) : string :=
  let '(y, m, d) := civilFromDays (t / msPerDay) in
  (isoYear y ++ "-" ++ pad2 m ++ "-" ++ pad2 d)%string.

(** [d.toISOString()] *)
Definition toISOString (t : Z) : string :=
  let ms := t mod msPerDay in
  (isoDate t ++ "T" ++ pad2 (ms / msPerHour) ++ ":"
     ++ pad2 (ms / 60000 mod 60) ++ ":" ++ pad2 (ms / 1000 mod 60)
     ++ "." ++ pad3 (ms mod 1000) ++ "Z")%string.

Section Local.

Variable localOffsetMs : Z.

(** [d.getHours()] *)
Definition getHours (t : Z) : Z := ((t + localOffsetMs) / msPerHour) mod 24.

(** [d.setDate(d.getDate() - 1)]: same local time of day, one local
    calendar day earlier. *)
Definition previousLocalDay (t : Z) : Z := t - msPerDay.

End Local.

End JsDate.

(** ** The wearable session parser ([importers/eightSleep.ts]) *)

Module EightSleep.

Record EightSleepStage := { stage : string; duration : Q }.

Record Timeseries := {
  ts_heartRate : option (list (Q * option Q));
  ts_hrv : option (list (Q * option Q));
  ts_respiratoryRate : option (list (Q * option Q));
  ts_tempBedC : option (list (Q * option Q));
  ts_tempRoomC : option (list (Q * option Q))
}.

Record EightSleepSession := {
  ts : Q;
  stages : option (list EightSleepStage);
  timeseries : option Timeseries
}.

Record StageTotals := { awake : Q; light : Q; deep : Q; rem : Q; out : Q }.

Definition addStage (t : StageTotals) (s : EightSleepStage) : StageTotals :=
  if String.eqb (stage s) "awake" then
    {| awake := awake t + duration s; light := light t; deep := deep t;
       rem := rem t; out := out t |}
  else if String.eqb (stage s) "light" then
    {| awake := awake t; light := light t + duration s; deep := deep t;
       rem := rem t; out := out t |}
  else if String.eqb (stage s) "deep" then
    {| awake := awake t; light := light t; deep := deep t + duration s;
       rem := rem t; out := out t |}
  else if String.eqb (stage s) "rem" then
    {| awake := awake t; light := light t; deep := deep t;
       rem := rem t + duration s; out := out t |}
  else if String.eqb (stage s) "out" then
    {| awake := awake t; light := light t; deep := deep t;
       rem := rem t; out := out t + duration s |}
  else t.

Definition extractTimeseriesValues (data : option (list (Q * option Q))) : list Q :=
  match data with
  | None => []
  | Some points =>
      flat_map (fun p => match snd p with Some v => [v] | None => [] end) points
  end.

Definition mean (values : list Q) : Q :=
  match values with
  | [] => 0
  | _ => fold_left Qplus values 0 / inject_Z (Z.of_nat (length values))
  end.

Definition Qmin (a b : Q) : Q := if Qle_bool a b then a else b.
Definition Qmax (a b : Q) : Q := if Qle_bool a b then b else a.

Definition ifNonEmpty (values : list Q) (f : list Q -> Q) : num :=
  match values with [] => None | _ => Some (f values) end.

(** [Math.min(...values)] and [Math.max(...values)] on a non-empty list. *)
Definition Math_min (values : list Q) : Q :=
  match values with [] => 0 | v :: vs => fold_left Qmin vs v end.
Definition Math_max (values : list Q) : Q :=
  match values with [] => 0 | v :: vs => fold_left Qmax vs v end.

Definition stageToJs (s : EightSleepStage) : jsval :=
  VObj [("stage"%string, VStr (stage s)); ("duration"%string, VNum (duration s))].

Section Transform.

(** Offset of the host's local time zone, in milliseconds. *)
Variable localOffsetMs : Z.

(** [freshId] is the value [generateId()] returns for this session. *)
Definition transformRawSession (raw : EightSleepSession)
  (sourceId userId : string) (_index : nat) (freshId : string)
  : option SleepSession :=
  match stages raw with
  | None | Some [] => None
  | Some rawStages =>
      let stageTotals :=
        fold_left addStage rawStages
          {| awake := 0; light := 0; deep := 0; rem := 0; out := 0 |} in
      let sleepSeconds := light stageTotals + deep stageTotals + rem stageTotals in
      let timeInBed := sleepSeconds + awake stageTotals in
      if Qltb sleepSeconds (3 * 60 * 60) then None
      else
        let startedAt := JsDate.timeClip (ts raw * 1000) in
        let endedAt :=
          JsDate.timeClip (inject_Z startedAt + timeInBed * 1000) in
        let dateObj :=
          if (JsDate.getHours localOffsetMs startedAt <? 6)%Z
          then JsDate.previousLocalDay startedAt
          else startedAt in
        let date := JsDate.isoDate dateObj in
        let tsOf (f : Timeseries -> option (list (Q * option Q))) :=
          match timeseries raw with Some t => f t | None => None end in
        let hrValues := extractTimeseriesValues (tsOf ts_heartRate) in
        let hrvValues := extractTimeseriesValues (tsOf ts_hrv) in
        let rrValues := extractTimeseriesValues (tsOf ts_respiratoryRate) in
        let bedTempValues := extractTimeseriesValues (tsOf ts_tempBedC) in
        let roomTempValues := extractTimeseriesValues (tsOf ts_tempRoomC) in
        Some
          {| id := freshId;
             userId := userId;
             sourceId := sourceId;
             date := date;
             startedAt := JsDate.toISOString startedAt;
             endedAt := JsDate.toISOString endedAt;
             durationSeconds := Some sleepSeconds;
             timeInBedSeconds := Some timeInBed;
             deepSeconds := Some (deep stageTotals);
             remSeconds := Some (rem stageTotals);
             lightSeconds := Some (light stageTotals);
             awakeSeconds := Some (awake stageTotals);
             sleepOnsetLatency := None;
             wakeAfterSleepOnset := Some (awake stageTotals);
             efficiency :=
               if Qltb 0 timeInBed
               then Some ((sleepSeconds / timeInBed) * 100) else None;
             avgHeartRate := ifNonEmpty hrValues mean;
             minHeartRate := ifNonEmpty hrValues Math_min;
             maxHeartRate := ifNonEmpty hrValues Math_max;
             avgHrv := ifNonEmpty hrvValues mean;
             avgRespiratoryRate := ifNonEmpty rrValues mean;
             avgBedTempC := ifNonEmpty bedTempValues mean;
             avgRoomTempC := ifNonEmpty roomTempValues mean;
             dataQuality := defaultQualityFlags;
             vendorData :=
               Some [("originalTimestamp"%string, VNum (ts raw));
                     ("rawStages"%string, VArr (map stageToJs rawStages))] |}
  end.

End Transform.

Definition scenarioB : EightSleepSession :=
  {| ts := 1709334000;
     stages := Some [ {| stage := "deep"; duration := 1800 |};
                      {| stage := "rem"; duration := 900 |};
                      {| stage := "light"; duration := 10800 |};
                      {| stage := "awake"; duration := 300 |} ];
     timeseries := None |}.

(** *** Stage totals by name, and scenario B on a host west of Greenwich *)

Definition named (name : string) (l : list EightSleepStage) : list Q :=
  map duration (filter (fun s => String.eqb (stage s) name) l).

(** The session of scenario B, started at 23:00 local time on 2024-03-01
    on a host five hours west of Greenwich. *)
Definition scenarioB_west : EightSleepSession :=
  {| ts := 1709352000; stages := stages scenarioB; timeseries := None |}.

Definition utcMinus5 : Z := (-18000000)%Z.

End EightSleep.

(** ** JavaScript strings (ASCII fragment) *)

Module JsString.

Local Open Scope string_scope.

Definition isSpace (c : ascii) : bool :=
  let n := nat_of_ascii c in
  (Nat.leb 9 n && Nat.leb n 13) || Nat.eqb n 32.

Fixpoint trimStart (s : string) : string :=
  match s with
  | String c s' => if isSpace c then trimStart s' else s
  | EmptyString => EmptyString
  end.

Fixpoint trimEnd (s : string) : string :=
  match s with
  | EmptyString => EmptyString
  | String c s' =>
      match trimEnd s' with
      | EmptyString => if isSpace c then EmptyString else String c EmptyString
      | t => String c t
      end
  end.

Definition trim (s : string) : string := trimEnd (trimStart s).

Definition startsWith (s p : string) : bool := String.prefix p s.

Definition includes (s sub : string) : bool :=
  match String.index 0 sub s with Some _ => true | None => false end.

Definition lowerChar (c : ascii) : ascii :=
  let n := nat_of_ascii c in
  if Nat.leb 65 n && Nat.leb n 90 then ascii_of_nat (n + 32) else c.

Fixpoint toLowerCase (s : string) : string :=
  match s with
  | EmptyString => EmptyString
  | String c s' => String (lowerChar c) (toLowerCase s')
  end.

(** [s.split(sep)] for a one-character separator. *)
Fixpoint split (sep : ascii) (s : string) : list string :=
  match s with
  | EmptyString => [EmptyString]
  | String c s' =>
      if Ascii.eqb c sep then EmptyString :: split sep s'
      else match split sep s' with
           | [] => [String c EmptyString]
           | h :: t => String c h :: t
           end
  end.

(** [(s.match(/c/g) || []).length] *)
Fixpoint countChar (c : ascii) (s : string) : nat :=
  match s with
  | EmptyString => 0
  | String c' s' => (if Ascii.eqb c c' then 1 else 0) + countChar c s'
  end.

(** [s.replace(/c/g, '')] *)
Fixpoint removeChar (c : ascii) (s : string) : string :=
  match s with
  | EmptyString => EmptyString
  | String c' s' => if Ascii.eqb c c' then removeChar c s' else String c' (removeChar c s')
  end.

Definition newline : ascii := ascii_of_nat 10.
Definition dquote : ascii := ascii_of_nat 34.
Definition tab : ascii := ascii_of_nat 9.

(** Decimal rendering of a count inside a template literal. *)
Definition ofNat (n : nat) : string :=
  let fix go (fuel n : nat) (acc : string) : string :=
    match fuel with
    | O => acc
    | S fuel' =>
        let acc' := String (ascii_of_nat (48 + n mod 10)) acc in
        if Nat.ltb n 10 then acc' else go fuel' (n / 10)%nat acc'
    end in
  go (S n) n EmptyString.

Definition join (sep : string) (l : list string) : string := String.concat sep l.

End JsString.

(** ** The record store ([db/database.ts]) and the import orchestrator
       ([importers/pipeline.ts]) *)

Module Orchestrator.

Import JsString Pipeline.
Local Open Scope string_scope.

Inductive VendorType :=
| eight_sleep | oura | orangetheory | whoop | apple_health | garmin | fitbit
| generic_csv | generic_json | unknown_vendor.

Definition vendorName (v : VendorType) : string :=
  match v with
  | eight_sleep => "eight_sleep" | oura => "oura"
  | orangetheory => "orangetheory" | whoop => "whoop"
  | apple_health => "apple_health" | garmin => "garmin"
  | fitbit => "fitbit" | generic_csv => "generic_csv"
  | generic_json => "generic_json" | unknown_vendor => "unknown"
  end.

Definition vendor_eqb (a b : VendorType) : bool :=
  String.eqb (vendorName a) (vendorName b).

Inductive FileType := ft_json | ft_csv | ft_zip | ft_xml | ft_unknown.

Definition fileTypeName (t : FileType) : string :=
  match t with
  | ft_json => "json" | ft_csv => "csv" | ft_zip => "zip"
  | ft_xml => "xml" | ft_unknown => "unknown"
  end.

Inductive Confidence := high | medium | low_confidence.

(** Thrown values: an [Error] with its message, or anything else. *)
Inductive exn := JsError (message : string) | JsThrown (v : jsval).

Inductive FileContent := Text (s : string) | Binary (bytes : list Byte.byte).

Record ImportFile := {
  f_name : string;
  f_size : Q;
  f_type : string;
  f_content : FileContent
}.

Inductive WarningType := w_missing_field | w_outlier | w_parse_error | w_duplicate.

Record ImportWarning := {
  w_type : WarningType;
  w_message : string;
  w_recordIndex : option nat;
  w_field : option string
}.

Inductive ErrorType :=
| invalid_format | unsupported_vendor | parse_error | storage_error.

Record ImportError := {
  e_type : ErrorType;
  e_message : string;
  e_details : option exn
}.

Record RecordCounts := {
  n_sleepSessions : nat;
  n_workoutSessions : nat;
  n_dailyMetrics : nat;
  n_timeSeries : nat
}.

Record QualitySummary := { q_good : nat; q_warning : nat; q_bad : nat }.

Record ImportResult := {
  success : bool;
  r_sourceId : string;
  r_vendor : VendorType;
  recordCounts : RecordCounts;
  warnings : list ImportWarning;
  errors : list ImportError;
  qualitySummary : QualitySummary
}.

Inductive Stage :=
| detecting | parsing | transforming | validating | storing | complete.

Record ImportProgress := {
  p_stage : Stage;
  p_percent : Q;
  p_message : string
}.

(** A progress callback either returns or throws. *)
Definition ProgressCallback := ImportProgress -> option exn.

Record FileManifest := {
  entryCount : option nat;
  sampleFields : option (list string);
  rowCount : option Z
}.

Record FileDetectionResult := {
  fileType : FileType;
  suggestedVendor : VendorType;
  confidence : Confidence;
  fileManifest : option FileManifest
}.

(** The orchestrator reads [id] and [vendor] of a profile; patterns and
    mappings are data for the generic transformer. *)
Record ImporterProfile := {
  pr_id : string;
  pr_vendor : VendorType;
  pr_name : string;
  pr_filePatterns : jsval;
  pr_mappings : jsval
}.

Record Source := {
  s_id : string;
  s_userId : string;
  s_vendor : VendorType;
  s_fileName : string;
  s_fileHash : string;
  s_fileSizeBytes : Q;
  s_importedAt : string;
  s_importerProfileId : string;
  s_recordCounts : RecordCounts
}.

(** Workout sessions, daily metrics and time series pass through the
    orchestrator as plain objects; only their [id] (the key path of every
    object store) is read. *)
Definition keyOf (o : obj) : option string :=
  match obj_get "id" o with VStr k => Some k | _ => None end.

Record TransformResult := {
  t_sleepSessions : list SleepSession;
  t_workoutSessions : list obj;
  t_timeSeries : list obj;
  t_warnings : list ImportWarning
}.

Record AppleHealthImportResult := {
  a_sleepSessions : list SleepSession;
  a_workoutSessions : list obj;
  a_dailyMetrics : list obj;
  a_sources : list string
}.

(** *** Object stores, keyed by [id] and kept in key order *)

Record DB := {
  sources : list Source;
  sleepSessions : list SleepSession;
  workoutSessions : list obj;
  dailyMetrics : list obj;
  timeSeries : list obj
}.

Inductive Table :=
| T_sources | T_sleepSessions | T_workoutSessions | T_dailyMetrics | T_timeSeries.

Inductive StoreOp :=
| OpPut (t : Table) | OpPutMany (t : Table) | OpGetAll (t : Table)
| OpGetByIndex (t : Table).

Section Upsert.
Context {R : Type} (key : R -> string).

(** [store.put(record)] *)
Fixpoint table_put (r : R) (t : list R) : list R :=
  match t with
  | [] => [r]
  | x :: t' =>
      match String.compare (key r) (key x) with
      | Eq => r :: t'
      | Lt => r :: t
      | Gt => x :: table_put r t'
      end
  end.

Definition table_putMany (rs : list R) (t : list R) : list R :=
  fold_left (fun t r => table_put r t) rs t.

End Upsert.

Definition objKey (o : obj) : string :=
  match keyOf o with Some k => k | None => EmptyString end.

(** A record without a valid key makes [store.put] throw; the puts
    already issued in the transaction stay. *)
Fixpoint obj_putMany (rs : list obj) (t : list obj) : option exn * list obj :=
  match rs with
  | [] => (None, t)
  | r :: rs' =>
      match keyOf r with
      | None => (Some (JsError "DataError"), t)
      | Some _ => obj_putMany rs' (table_put objKey r t)
      end
  end.

(** *** The host *)

Record Host := {
  (** [JSON.parse]; [None] when it throws a [SyntaxError] *)
  JSON_parse : string -> option jsval;
  (** [sha256] and [generateId] of [utils/crypto] *)
  sha256 : string -> string;
  genId : nat -> string;
  (** [new Date().toISOString()] *)
  now : string;
  (** when the store rejects an operation *)
  storageFault : StoreOp -> DB -> option exn;
  (** the vendor parsers, each given the progress callback and the
      position of the id generator; they return or throw, and say how far
      the id generator has advanced *)
  parseAppleHealthXML :
    string -> string -> string -> (Q -> string -> option exn) -> nat ->
    (exn + AppleHealthImportResult) * nat;
  transformEightSleep :
    jsval -> string -> string -> (nat -> nat -> option exn) -> nat ->
    (exn + TransformResult) * nat;
  transformOrangetheory :
    jsval -> string -> string -> (nat -> nat -> option exn) -> nat ->
    (exn + TransformResult) * nat;
  transformGeneric :
    jsval -> ImporterProfile -> string -> string ->
    (nat -> nat -> option exn) -> nat ->
    (exn + TransformResult) * nat
}.

Record World := { db : DB; nextId : nat }.

(** *** Computations that read and write the world and may throw *)

Definition M (A : Type) := World -> (exn + A) * World.

Definition ret {A} (a : A) : M A := fun w => (inr a, w).
Definition throw {A} (e : exn) : M A := fun w => (inl e, w).
Definition bind {A B} (c : M A) (k : A -> M B) : M B :=
  fun w => match c w with
           | (inl e, w') => (inl e, w')
           | (inr a, w') => k a w'
           end.
Definition tryCatch {A} (c : M A) (handler : exn -> M A) : M A :=
  fun w => match c w with
           | (inl e, w') => handler e w'
           | (inr a, w') => (inr a, w')
           end.

Notation "x <- c ;; k" := (bind c (fun x => k))
  (at level 61, c at next level, right associativity).
Notation "c ;;; k" := (bind c (fun _ => k))
  (at level 61, right associativity).

Definition ofOption (o : option exn) : M unit :=
  match o with Some e => throw e | None => ret tt end.

Section WithHost.

Variable host : Host.

Definition generateId : M string :=
  fun w => (inr (genId host (nextId w)),
            {| db := db w; nextId := S (nextId w) |}).

Definition guard (op : StoreOp) : M unit :=
  fun w => match storageFault host op (db w) with
           | Some e => (inl e, w)
           | None => (inr tt, w)
           end.

Definition updateDb (f : DB -> DB) : M unit :=
  fun w => (inr tt, {| db := f (db w); nextId := nextId w |}).

Definition getAllSleepSessions : M (list SleepSession) :=
  guard (OpGetAll T_sleepSessions) ;;;
  fun w => (inr (sleepSessions (db w)), w).

Definition getSourcesByFileHash (hash : string) : M (list Source) :=
  guard (OpGetByIndex T_sources) ;;;
  fun w => (inr (filter (fun s => String.eqb (s_fileHash s) hash)
                        (sources (db w))), w).

Definition putSource (s : Source) : M unit :=
  guard (OpPut T_sources) ;;;
  updateDb (fun d =>
    {| sources := table_put s_id s (sources d);
       sleepSessions := sleepSessions d;
       workoutSessions := workoutSessions d;
       dailyMetrics := dailyMetrics d;
       timeSeries := timeSeries d |}).

Definition putManySleepSessions (rs : list SleepSession) : M unit :=
  guard (OpPutMany T_sleepSessions) ;;;
  updateDb (fun d =>
    {| sources := sources d;
       sleepSessions := table_putMany id rs (sleepSessions d);
       workoutSessions := workoutSessions d;
       dailyMetrics := dailyMetrics d;
       timeSeries := timeSeries d |}).

Definition putManyWorkoutSessions (rs : list obj) : M unit :=
  guard (OpPutMany T_workoutSessions) ;;;
  fun w =>
    let '(err, t) := obj_putMany rs (workoutSessions (db w)) in
    let w' := {| db := {| sources := sources (db w);
                          sleepSessions := sleepSessions (db w);
                          workoutSessions := t;
                          dailyMetrics := dailyMetrics (db w);
                          timeSeries := timeSeries (db w) |};
                 nextId := nextId w |} in
    match err with Some e => (inl e, w') | None => (inr tt, w') end.

Definition putManyDailyMetrics (rs : list obj) : M unit :=
  guard (OpPutMany T_dailyMetrics) ;;;
  fun w =>
    let '(err, t) := obj_putMany rs (dailyMetrics (db w)) in
    let w' := {| db := {| sources := sources (db w);
                          sleepSessions := sleepSessions (db w);
                          workoutSessions := workoutSessions (db w);
                          dailyMetrics := t;
                          timeSeries := timeSeries (db w) |};
                 nextId := nextId w |} in
    match err with Some e => (inl e, w') | None => (inr tt, w') end.

Definition putManyTimeSeries (rs : list obj) : M unit :=
  guard (OpPutMany T_timeSeries) ;;;
  fun w =>
    let '(err, t) := obj_putMany rs (timeSeries (db w)) in
    let w' := {| db := {| sources := sources (db w);
                          sleepSessions := sleepSessions (db w);
                          workoutSessions := workoutSessions (db w);
                          dailyMetrics := dailyMetrics (db w);
                          timeSeries := t |};
                 nextId := nextId w |} in
    match err with Some e => (inl e, w') | None => (inr tt, w') end.

(** [if (records.length > 0) await putMany(...)] *)
Definition whenNonEmpty {A} (l : list A) (c : M unit) : M unit :=
  match l with [] => ret tt | _ => c end.

(** *** File detection *)

Definition isObjectLike (data : jsval) : bool :=
  match data with VObj _ | VArr _ => true | _ => false end.

(** [key in data] for the own keys the detector asks about. *)
Definition hasKey (key : string) (data : jsval) : bool :=
  match data with VObj o => obj_has key o | _ => false end.

Definition getKey (key : string) (data : jsval) : jsval :=
  match data with VObj o => obj_get key o | _ => VUndefined end.

Definition isArray (data : jsval) : bool :=
  match data with VArr _ => true | _ => false end.

Definition arrayItems (data : jsval) : list jsval :=
  match data with VArr l => l | _ => [] end.

Definition getEightSleepSessions (data : jsval) : list jsval :=
  match data with
  | VArr l => l
  | VObj o =>
      if obj_has "sessions" o then
        match obj_get "sessions" o with VArr l => l | _ => [] end
      else []
  | _ => []
  end.

Definition isEightSleepExport (data : jsval) : bool :=
  if negb (isObjectLike data) then false
  else
    match getEightSleepSessions data with
    | [] => false
    | first :: _ =>
        match first with
        | VObj o =>
            obj_has "ts" o && obj_has "stages" o && isArray (obj_get "stages" o)
        | _ => false
        end
    end.

Definition isOuraExport (data : jsval) : bool :=
  if negb (isObjectLike data) then false
  else (hasKey "sleep" data && isArray (getKey "sleep" data))
       || hasKey "daily_readiness" data.

Definition isDashboardDataExport (data : jsval) : bool :=
  if negb (isObjectLike data) then false
  else hasKey "sessions" data && hasKey "baselines" data
       && hasKey "debtStats" data && isArray (getKey "sessions" data).

Definition isAppleHealthPreParsed (data : jsval) : bool :=
  if negb (isObjectLike data) then false
  else hasKey "sleepSessions" data && hasKey "workoutSessions" data
       && hasKey "sources" data
       && isArray (getKey "sleepSessions" data)
       && isArray (getKey "workoutSessions" data).

(** [Object.keys(v)] *)
Definition objectKeys (v : jsval) : list string :=
  match v with
  | VObj o => map fst o
  | VArr l => map ofNat (seq 0 (length l))
  | VStr s => map ofNat (seq 0 (String.length s))
  | _ => []
  end.

Definition detectJsonVendor (data : jsval) (_fileName : string)
  : FileDetectionResult :=
  let emptyManifest :=
    {| entryCount := None; sampleFields := None; rowCount := None |} in
  if isEightSleepExport data then
    let sessions := getEightSleepSessions data in
    {| fileType := ft_json; suggestedVendor := eight_sleep; confidence := high;
       fileManifest :=
         Some {| entryCount := Some (length sessions);
                 sampleFields :=
                   Some (match sessions with
                         | first :: _ =>
                             if js_truthy first then objectKeys first else []
                         | [] => []
                         end);
                 rowCount := None |} |}
  else if isOuraExport data then
    {| fileType := ft_json; suggestedVendor := oura; confidence := high;
       fileManifest := Some emptyManifest |}
  else if isDashboardDataExport data then
    {| fileType := ft_json; suggestedVendor := eight_sleep; confidence := high;
       fileManifest :=
         Some {| entryCount := Some (length (arrayItems (getKey "sessions" data)));
                 sampleFields := None; rowCount := None |} |}
  else if isAppleHealthPreParsed data then
    {| fileType := ft_json; suggestedVendor := apple_health; confidence := high;
       fileManifest :=
         Some {| entryCount :=
                   Some (length (arrayItems (getKey "sleepSessions" data))
                         + length (arrayItems (getKey "workoutSessions" data)))%nat;
                 sampleFields :=
                   Some ["sleepSessions"; "workoutSessions"; "dailyMetrics"];
                 rowCount := None |} |}
  else
    match data with
    | VArr l =>
        {| fileType := ft_json; suggestedVendor := generic_json;
           confidence := low_confidence;
           fileManifest :=
             Some {| entryCount := Some (length l);
                     sampleFields :=
                       Some (match l with
                             | (VObj _ | VArr _) as first :: _ => objectKeys first
                             | _ => []
                             end);
                     rowCount := None |} |}
    | _ =>
        {| fileType := ft_json; suggestedVendor := unknown_vendor;
           confidence := low_confidence;
           fileManifest := Some emptyManifest |}
    end.

Definition detectCsvVendor (content fileName : string) : FileDetectionResult :=
  let lines := split newline content in
  let line0 := hd EmptyString lines in
  let headers := toLowerCase line0 in
  let otf :=
    includes headers "splat" || includes headers "orangetheory"
    || includes headers "class type"
    || includes (toLowerCase fileName) "orangetheory"
    || includes (toLowerCase fileName) "otf" in
  let ouraCsv := includes headers "readiness" && includes headers "hrv" in
  {| fileType := ft_csv;
     suggestedVendor :=
       if ouraCsv then oura else if otf then orangetheory else generic_csv;
     confidence :=
       if ouraCsv || otf then medium else low_confidence;
     fileManifest :=
       Some {| entryCount := None;
               sampleFields :=
                 Some (map (fun h => removeChar dquote (trim h))
                           (split ","%char line0));
               rowCount := Some (Z.of_nat (length lines) - 1)%Z |} |}.

Definition looksLikeCsv (content : string) : bool :=
  let lines := firstn 5 (split newline content) in
  if Nat.ltb (length lines) 2 then false
  else
    let firstLine := hd EmptyString lines in
    Nat.leb 2 (countChar ","%char firstLine) || Nat.leb 2 (countChar tab firstLine).

(** [new TextDecoder().decode(buffer)], on the bytes as they are. *)
Definition decode (bytes : list Byte.byte) : string := string_of_list_byte bytes.

Definition contentText (file : ImportFile) : string :=
  match f_content file with Text s => s | Binary b => decode b end.

Definition detectFileType (file : ImportFile) : FileDetectionResult :=
  let content := contentText file in
  let trimmed := trim content in
  let notJson :=
    if looksLikeCsv trimmed then detectCsvVendor trimmed (f_name file)
    else if startsWith trimmed "<?xml" || startsWith trimmed "<" then
      if includes trimmed "<!DOCTYPE HealthData"
         || includes trimmed "<HealthData"
         || includes trimmed "HKQuantityTypeIdentifier"
      then
        {| fileType := ft_xml; suggestedVendor := apple_health; confidence := high;
           fileManifest :=
             Some {| entryCount := None;
                     sampleFields := Some ["HealthData"; "Record"; "Workout"];
                     rowCount := None |} |}
      else
        {| fileType := ft_xml;
           suggestedVendor :=
             if includes (toLowerCase (f_name file)) "apple"
             then apple_health else unknown_vendor;
           confidence := low_confidence;
           fileManifest := None |}
    else
      match f_content file with
      | Binary (b0 :: b1 :: _) =>
          if Byte.eqb b0 Byte.x50 && Byte.eqb b1 Byte.x4b then
            {| fileType := ft_zip; suggestedVendor := unknown_vendor;
               confidence := low_confidence; fileManifest := None |}
          else
            {| fileType := ft_unknown; suggestedVendor := unknown_vendor;
               confidence := low_confidence; fileManifest := None |}
      | _ =>
          {| fileType := ft_unknown; suggestedVendor := unknown_vendor;
             confidence := low_confidence; fileManifest := None |}
      end in
  if startsWith trimmed "{" || startsWith trimmed "[" then
    match JSON_parse host content with
    | Some parsed => detectJsonVendor parsed (f_name file)
    | None => notJson
    end
  else notJson.

(** *** CSV *)

Fixpoint parseCsvLineFrom (line : string) (current : string) (inQuotes : bool)
  : list string :=
  match line with
  | EmptyString => [trim current]
  | String char rest =>
      if Ascii.eqb char dquote then parseCsvLineFrom rest current (negb inQuotes)
      else if Ascii.eqb char ","%char && negb inQuotes
      then trim current :: parseCsvLineFrom rest EmptyString inQuotes
      else parseCsvLineFrom rest (current ++ String char EmptyString) inQuotes
  end.

Definition parseCsvLine (line : string) : list string :=
  parseCsvLineFrom line EmptyString false.

(** [row[headers[j]] = values[j] || ''] for every header *)
Fixpoint csvRow (headers values : list string) (row : obj) : obj :=
  match headers with
  | [] => row
  | h :: hs =>
      csvRow hs (tl values) (obj_set h (VStr (hd EmptyString values)) row)
  end.

Definition parseCsv (content : string) : list obj :=
  let lines :=
    filter (fun line => negb (String.eqb (trim line) EmptyString))
           (split newline content) in
  match lines with
  | header :: (_ :: _) as rest =>
      let headers := parseCsvLine header in
      map (fun line => csvRow headers (parseCsvLine line) []) rest
  | _ => []
  end.

(** *** Records read back from parsed JSON

    [parsedData as {...}] is an unchecked cast; a field of another JSON
    type than the interface declares is read as [undefined]. *)

Definition jsNum (v : jsval) : num :=
  match v with VNum q => Some q | _ => None end.

Definition jsStr (v : jsval) : string :=
  match v with VStr s => s | _ => EmptyString end.

Definition jsBool (v : jsval) : bool :=
  match v with VBool b => b | _ => false end.

Definition flagsOfJson (v : jsval) : DataQualityFlags :=
  {| isComplete := jsBool (getKey "isComplete" v);
     hasOutliers := jsBool (getKey "hasOutliers" v);
     outlierFields := map jsStr (arrayItems (getKey "outlierFields" v));
     sensorGaps := match getKey "sensorGaps" v with VNum q => q | _ => 0 end;
     manuallyExcluded := jsBool (getKey "manuallyExcluded" v);
     exclusionReason :=
       match getKey "exclusionReason" v with VStr r => Some r | _ => None end |}.

(** [{ ...s, sourceId, userId }] on a parsed session *)
Definition stampSession (sourceId userId : string) (s : jsval) : SleepSession :=
  {| id := jsStr (getKey "id" s);
     userId := userId;
     sourceId := sourceId;
     date := jsStr (getKey "date" s);
     startedAt := jsStr (getKey "startedAt" s);
     endedAt := jsStr (getKey "endedAt" s);
     durationSeconds := jsNum (getKey "durationSeconds" s);
     timeInBedSeconds := jsNum (getKey "timeInBedSeconds" s);
     deepSeconds := jsNum (getKey "deepSeconds" s);
     remSeconds := jsNum (getKey "remSeconds" s);
     lightSeconds := jsNum (getKey "lightSeconds" s);
     awakeSeconds := jsNum (getKey "awakeSeconds" s);
     sleepOnsetLatency := jsNum (getKey "sleepOnsetLatency" s);
     wakeAfterSleepOnset := jsNum (getKey "wakeAfterSleepOnset" s);
     efficiency := jsNum (getKey "efficiency" s);
     avgHeartRate := jsNum (getKey "avgHeartRate" s);
     minHeartRate := jsNum (getKey "minHeartRate" s);
     maxHeartRate := jsNum (getKey "maxHeartRate" s);
     avgHrv := jsNum (getKey "avgHrv" s);
     avgRespiratoryRate := jsNum (getKey "avgRespiratoryRate" s);
     avgBedTempC := jsNum (getKey "avgBedTempC" s);
     avgRoomTempC := jsNum (getKey "avgRoomTempC" s);
     dataQuality := flagsOfJson (getKey "dataQuality" s);
     vendorData :=
       match getKey "vendorData" s with VObj o => Some o | _ => None end |}.

(** [{ ...w, sourceId, userId }] on a parsed workout or daily metric *)
Definition stampObject (sourceId userId : string) (w : jsval) : obj :=
  let fields := match w with VObj o => o | _ => [] end in
  obj_set "userId" (VStr userId) (obj_set "sourceId" (VStr sourceId) fields).

(** *** The orchestrator *)

Definition createErrorResult (errors : list ImportError) : ImportResult :=
  {| success := false;
     r_sourceId := EmptyString;
     r_vendor := unknown_vendor;
     recordCounts :=
       {| n_sleepSessions := 0; n_workoutSessions := 0;
          n_dailyMetrics := 0; n_timeSeries := 0 |};
     warnings := [];
     errors := errors;
     qualitySummary := {| q_good := 0; q_warning := 0; q_bad := 0 |} |}.

Definition APPLE_HEALTH_PROFILE : ImporterProfile :=
  {| pr_id := "apple_health_builtin"; pr_vendor := apple_health;
     pr_name := "Apple Health Export";
     pr_filePatterns :=
       VArr [VObj [("fileType", VStr "xml");
                   ("fileNamePattern", VStr "export\.xml$")]];
     pr_mappings := VArr [] |}.

(** The built-in profiles of [eightSleep.ts] and [orangetheory.ts]. *)
Definition EIGHT_SLEEP_PROFILE : ImporterProfile :=
  {| pr_id := "eight_sleep_v1"; pr_vendor := eight_sleep;
     pr_name := "Eight Sleep Export";
     pr_filePatterns :=
       VArr [VObj [("fileType", VStr "json");
                   ("jsonSignature", VStr "$.sessions[*].stages[*].stage")];
             VObj [("fileType", VStr "json");
                   ("jsonSignature", VStr "$[*].stages[*].stage")]];
     pr_mappings :=
       VArr [VObj [("targetTable", VStr "sleep_sessions");
                   ("sourceType", VStr "json");
                   ("sourcePath", VStr "$.sessions[*]");
                   ("fieldMappings",
                    VArr [VObj [("target", VStr "startedAt");
                                ("source", VStr "ts");
                                ("transform",
                                 VObj [("type", VStr "timestamp");
                                       ("format", VStr "unix_seconds")])];
                          VObj [("target", VStr "durationSeconds");
                                ("source", VStr "stages");
                                ("transform",
                                 VObj [("type", VStr "compute");
                                       ("formula",
                                        VStr "sum(stages[*].duration)")])]])]] |}.

Definition directMapping (target source : string) : jsval :=
  VObj [("target", VStr target); ("source", VStr source);
        ("transform", VObj [("type", VStr "direct")])].

Definition ORANGETHEORY_PROFILE : ImporterProfile :=
  {| pr_id := "orangetheory_v1"; pr_vendor := orangetheory;
     pr_name := "Orangetheory Fitness Export";
     pr_filePatterns :=
       VArr [VObj [("fileType", VStr "csv");
                   ("csvRequiredHeaders", VArr [VStr "splat"])];
             VObj [("fileType", VStr "csv");
                   ("fileNamePattern", VStr "(?i)orangetheory|otf")]];
     pr_mappings :=
       VArr [VObj [("targetTable", VStr "workout_sessions");
                   ("sourceType", VStr "csv");
                   ("fieldMappings",
                    VArr [directMapping "date" "date";
                          directMapping "workoutSubtype" "class_type";
                          directMapping "calories" "calories";
                          directMapping "splatPoints" "splat_points";
                          directMapping "avgHeartRate" "avg_hr";
                          directMapping "maxHeartRate" "max_hr"])]] |}.

Definition getBuiltInProfile (vendor : VendorType) : option ImporterProfile :=
  match vendor with
  | eight_sleep => Some EIGHT_SLEEP_PROFILE
  | orangetheory => Some ORANGETHEORY_PROFILE
  | apple_health => Some APPLE_HEALTH_PROFILE
  | _ => None
  end.

Definition transformData (data : jsval) (profile : ImporterProfile)
  (sourceId userId : string) (onProgress : nat -> nat -> option exn)
  : M TransformResult :=
  fun w =>
    let '(r, n) :=
      match pr_vendor profile with
      | eight_sleep =>
          transformEightSleep host data sourceId userId onProgress (nextId w)
      | orangetheory =>
          transformOrangetheory host data sourceId userId onProgress (nextId w)
      | _ =>
          transformGeneric host data profile sourceId userId onProgress (nextId w)
      end in
    (r, {| db := db w; nextId := n |}).

Definition runAppleParser (content sourceId userId : string)
  (onProgress : Q -> string -> option exn) : M AppleHealthImportResult :=
  fun w =>
    let '(r, n) :=
      parseAppleHealthXML host content sourceId userId onProgress (nextId w) in
    (r, {| db := db w; nextId := n |}).

Definition duplicateWarning (message : string) : ImportWarning :=
  {| w_type := w_duplicate; w_message := message;
     w_recordIndex := None; w_field := None |}.

(** The warnings both Apple Health paths append after the first one. *)
Definition dedupWarnings (first : ImportWarning) (skippedSuffix : string)
  (dedupResult : DedupResult) : list ImportWarning :=
  first
  :: app (if Nat.ltb 0 (mergedCount dedupResult)
          then [duplicateWarning ("Merged " ++ ofNat (mergedCount dedupResult)
                                    ++ " sessions with existing data")]
          else [])
         (if Nat.ltb 0 (skippedCount dedupResult)
          then [duplicateWarning ("Skipped " ++ ofNat (skippedCount dedupResult)
                                    ++ " duplicate sessions" ++ skippedSuffix)]
          else []).

Definition report (onProgress : option ProgressCallback) (stage : Stage)
  (percent : Q) (message : string) : M unit :=
  match onProgress with
  | None => ret tt
  | Some callback =>
      ofOption (callback {| p_stage := stage; p_percent := percent;
                            p_message := message |})
  end.

(** What the [report] closure does when the parser calls it: the thrown
    value, if any. *)
Definition reportPure (onProgress : option ProgressCallback) (stage : Stage)
  (percent : Q) (message : string) : option exn :=
  match onProgress with
  | None => None
  | Some callback =>
      callback {| p_stage := stage; p_percent := percent; p_message := message |}
  end.

Definition appleXmlPath (file : ImportFile) (userId : string)
  (onProgress : option ProgressCallback) (content : string) : M ImportResult :=
  report onProgress parsing 20
    "Parsing Apple Health export (this may take a while)..." ;;;
  let fileHash := sha256 host content in
  sourceId <- generateId ;;
  appleResult <-
    runAppleParser content sourceId userId
      (fun percent message => reportPure onProgress transforming percent message) ;;
  report onProgress validating 85 "Validating and deduplicating data..." ;;;
  let validatedSessions := map validateSession (a_sleepSessions appleResult) in
  existingSessions <- getAllSleepSessions ;;
  let dedupResult := deduplicateSessions existingSessions validatedSessions userId in
  let counts :=
    {| n_sleepSessions := length (sessions dedupResult);
       n_workoutSessions := length (a_workoutSessions appleResult);
       n_dailyMetrics := length (a_dailyMetrics appleResult);
       n_timeSeries := 0 |} in
  let source :=
    {| s_id := sourceId; s_userId := userId; s_vendor := apple_health;
       s_fileName := f_name file; s_fileHash := fileHash;
       s_fileSizeBytes := f_size file; s_importedAt := now host;
       s_importerProfileId := pr_id APPLE_HEALTH_PROFILE;
       s_recordCounts := counts |} in
  report onProgress storing 90 "Saving to database..." ;;;
  putSource source ;;;
  whenNonEmpty (sessions dedupResult)
    (putManySleepSessions (sessions dedupResult)) ;;;
  whenNonEmpty (a_workoutSessions appleResult)
    (putManyWorkoutSessions (a_workoutSessions appleResult)) ;;;
  whenNonEmpty (a_dailyMetrics appleResult)
    (putManyDailyMetrics (a_dailyMetrics appleResult)) ;;;
  report onProgress complete 100 "Apple Health import complete!" ;;;
  ret {| success := true;
         r_sourceId := sourceId;
         r_vendor := apple_health;
         recordCounts := counts;
         warnings :=
           dedupWarnings
             (duplicateWarning
                ("Found data from " ++ ofNat (length (a_sources appleResult))
                   ++ " sources: " ++ join ", " (a_sources appleResult)))
             " (existing data was more complete)" dedupResult;
         errors := [];
         qualitySummary :=
           {| q_good := length (sessions dedupResult);
              q_warning := mergedCount dedupResult;
              q_bad := skippedCount dedupResult |} |}.

Definition preParsedPath (file : ImportFile) (userId : string)
  (onProgress : option ProgressCallback) (content : string) (data : jsval)
  : M ImportResult :=
  report onProgress transforming 50 "Importing pre-parsed Apple Health data..." ;;;
  let fileHash := sha256 host content in
  sourceId <-
    (match getKey "sourceId" data with
     | VStr s => if String.eqb s EmptyString then generateId else ret s
     | _ => generateId
     end) ;;
  let sleepSessions :=
    map (stampSession sourceId userId) (arrayItems (getKey "sleepSessions" data)) in
  let workoutSessions :=
    map (stampObject sourceId userId) (arrayItems (getKey "workoutSessions" data)) in
  let dailyMetrics :=
    map (stampObject sourceId userId)
        (if js_truthy (getKey "dailyMetrics" data)
         then arrayItems (getKey "dailyMetrics" data) else []) in
  report onProgress validating 70 "Validating and deduplicating data..." ;;;
  let validatedSessions := map validateSession sleepSessions in
  existingSessions <- getAllSleepSessions ;;
  let dedupResult := deduplicateSessions existingSessions validatedSessions userId in
  let counts :=
    {| n_sleepSessions := length (sessions dedupResult);
       n_workoutSessions := length workoutSessions;
       n_dailyMetrics := length dailyMetrics;
       n_timeSeries := 0 |} in
  let source :=
    {| s_id := sourceId; s_userId := userId; s_vendor := apple_health;
       s_fileName := f_name file; s_fileHash := fileHash;
       s_fileSizeBytes := f_size file; s_importedAt := now host;
       s_importerProfileId := pr_id APPLE_HEALTH_PROFILE;
       s_recordCounts := counts |} in
  report onProgress storing 80 "Saving to database..." ;;;
  putSource source ;;;
  whenNonEmpty (sessions dedupResult)
    (putManySleepSessions (sessions dedupResult)) ;;;
  whenNonEmpty workoutSessions (putManyWorkoutSessions workoutSessions) ;;;
  whenNonEmpty dailyMetrics (putManyDailyMetrics dailyMetrics) ;;;
  report onProgress complete 100 "Apple Health import complete!" ;;;
  (** [data.sources.length] and [.slice(0, 5).join(', ')] *)
  match getKey "sources" data with
  | VArr sourceNames =>
      let names := map jsStr sourceNames in
      ret {| success := true;
             r_sourceId := sourceId;
             r_vendor := apple_health;
             recordCounts := counts;
             warnings :=
               dedupWarnings
                 (duplicateWarning
                    ("Imported data from " ++ ofNat (length names)
                       ++ " sources: " ++ join ", " (firstn 5 names)
                       ++ (if Nat.ltb 5 (length names) then "..." else EmptyString)))
                 EmptyString dedupResult;
             errors := [];
             qualitySummary :=
               {| q_good := length (sessions dedupResult);
                  q_warning := mergedCount dedupResult;
                  q_bad := skippedCount dedupResult |} |}
  | _ => throw (JsError "TypeError")
  end.

(** Step 6: quality flags and tallies for each validated session. *)
Definition generateDataQualityFlags (r : DataQuality.SleepQualityReport)
  : DataQualityFlags :=
  {| isComplete := DataQuality.r_isComplete r;
     hasOutliers :=
       Nat.ltb 0 (length (DataQuality.r_outlierFields r))
       || Nat.ltb 0 (length (DataQuality.hardLimitViolations r));
     outlierFields :=
       DataQuality.r_outlierFields r
       ++ map DataQuality.v_field (DataQuality.hardLimitViolations r);
     sensorGaps := 0;
     manuallyExcluded := false;
     exclusionReason := None |}.

Definition set_dataQuality (s : SleepSession) (f : DataQualityFlags)
  : SleepSession :=
  {| id := id s;
     userId := userId s;
     sourceId := sourceId s; date := date s;
     startedAt := startedAt s; endedAt := endedAt s;
     durationSeconds := durationSeconds s;
     timeInBedSeconds := timeInBedSeconds s;
     deepSeconds := deepSeconds s; remSeconds := remSeconds s;
     lightSeconds := lightSeconds s; awakeSeconds := awakeSeconds s;
     sleepOnsetLatency := sleepOnsetLatency s;
     wakeAfterSleepOnset := wakeAfterSleepOnset s;
     efficiency := efficiency s;
     avgHeartRate := avgHeartRate s; minHeartRate := minHeartRate s;
     maxHeartRate := maxHeartRate s; avgHrv := avgHrv s;
     avgRespiratoryRate := avgRespiratoryRate s;
     avgBedTempC := avgBedTempC s; avgRoomTempC := avgRoomTempC s;
     dataQuality := f; vendorData := vendorData s |}.

Record Tally := {
  checked : list SleepSession;
  goodCount : nat;
  warningCount : nat;
  badCount : nat;
  outlierWarnings : list ImportWarning
}.

Definition qualityStep (acc : Tally) (s : SleepSession) : Tally :=
  let qualityReport :=
    DataQuality.checkSleepSessionQuality s None DataQuality.DEFAULT_MAD_THRESHOLD in
  let s' := set_dataQuality s (generateDataQualityFlags qualityReport) in
  {| checked := checked acc ++ [s'];
     goodCount :=
       match DataQuality.overallQuality qualityReport with
       | DataQuality.good => S (goodCount acc) | _ => goodCount acc end;
     warningCount :=
       match DataQuality.overallQuality qualityReport with
       | DataQuality.warning => S (warningCount acc) | _ => warningCount acc end;
     badCount :=
       match DataQuality.overallQuality qualityReport with
       | DataQuality.bad => S (badCount acc) | _ => badCount acc end;
     outlierWarnings :=
       match DataQuality.hardLimitViolations qualityReport with
       | v :: _ =>
           outlierWarnings acc
           ++ [{| w_type := w_outlier;
                  w_message :=
                    "Session " ++ date s' ++ " has values outside expected ranges";
                  w_recordIndex := None;
                  w_field := Some (DataQuality.v_field v) |}]
       | [] => outlierWarnings acc
       end |}.

(** Steps 4 to 7, shared by the JSON and CSV branches. *)
Definition genericPath (file : ImportFile) (userId : string)
  (importerProfile : ImporterProfile) (onProgress : option ProgressCallback)
  (detection : FileDetectionResult) (content : string) (parsedData : jsval)
  : M ImportResult :=
  let fileHash := sha256 host content in
  existingSources <- getSourcesByFileHash fileHash ;;
  let warnings0 :=
    if Nat.ltb 0 (length existingSources)
    then [duplicateWarning "This file has already been imported"] else [] in
  sourceId <- generateId ;;
  report onProgress transforming 40 "Transforming data..." ;;;
  transformResult <-
    transformData parsedData importerProfile sourceId userId
      (fun processed total =>
         reportPure onProgress transforming
           (40 + (inject_Z (Z.of_nat processed) / inject_Z (Z.of_nat total)) * 30)
           ("Processing record " ++ ofNat processed ++ " of " ++ ofNat total ++ "...")) ;;
  let warnings1 := (warnings0 ++ t_warnings transformResult)%list in
  report onProgress validating 75 "Validating data quality..." ;;;
  let validatedSessions := map validateSession (t_sleepSessions transformResult) in
  let tally :=
    fold_left qualityStep validatedSessions
      {| checked := []; goodCount := 0; warningCount := 0; badCount := 0;
         outlierWarnings := [] |} in
  let warnings2 := (warnings1 ++ outlierWarnings tally)%list in
  report onProgress validating 85 "Deduplicating data..." ;;;
  existingSessions <- getAllSleepSessions ;;
  let dedupResult := deduplicateSessions existingSessions (checked tally) userId in
  let warnings3 : list ImportWarning :=
    app warnings2
      (app (if Nat.ltb 0 (mergedCount dedupResult)
            then [duplicateWarning ("Merged " ++ ofNat (mergedCount dedupResult)
                                      ++ " sessions with existing data")]
            else [])
           (if Nat.ltb 0 (skippedCount dedupResult)
            then [duplicateWarning ("Skipped " ++ ofNat (skippedCount dedupResult)
                                      ++ " duplicate sessions")]
            else [])) in
  report onProgress storing 90 "Saving to database..." ;;;
  let counts :=
    {| n_sleepSessions := length (sessions dedupResult);
       n_workoutSessions := length (t_workoutSessions transformResult);
       n_dailyMetrics := 0;
       n_timeSeries := length (t_timeSeries transformResult) |} in
  let source :=
    {| s_id := sourceId; s_userId := userId;
       s_vendor := suggestedVendor detection;
       s_fileName := f_name file; s_fileHash := fileHash;
       s_fileSizeBytes := f_size file; s_importedAt := now host;
       s_importerProfileId := pr_id importerProfile;
       s_recordCounts := counts |} in
  putSource source ;;;
  whenNonEmpty (sessions dedupResult)
    (putManySleepSessions (sessions dedupResult)) ;;;
  whenNonEmpty (t_workoutSessions transformResult)
    (putManyWorkoutSessions (t_workoutSessions transformResult)) ;;;
  whenNonEmpty (t_timeSeries transformResult)
    (putManyTimeSeries (t_timeSeries transformResult)) ;;;
  report onProgress complete 100 "Import complete!" ;;;
  ret {| success := true;
         r_sourceId := sourceId;
         r_vendor := suggestedVendor detection;
         recordCounts := counts;
         warnings := warnings3;
         errors := [];
         qualitySummary :=
           {| q_good := goodCount tally;
              q_warning := (warningCount tally + mergedCount dedupResult)%nat;
              q_bad := (badCount tally + skippedCount dedupResult)%nat |} |}.

Definition errorOf (type : ErrorType) (message : string) (details : option exn)
  : ImportError :=
  {| e_type := type; e_message := message; e_details := details |}.

(** The body of the [try] block of [importFile]. *)
Definition importSteps (file : ImportFile) (userId : string)
  (profile : option ImporterProfile) (onProgress : option ProgressCallback)
  : M ImportResult :=
  report onProgress detecting 5 "Analyzing file..." ;;;
  let detection := detectFileType file in
  match fileType detection with
  | ft_unknown =>
      ret (createErrorResult
             [errorOf invalid_format "Could not determine file format" None])
  | _ =>
      match (match profile with
             | Some p => Some p
             | None => getBuiltInProfile (suggestedVendor detection)
             end) with
      | None =>
          ret (createErrorResult
                 [errorOf unsupported_vendor
                    ("No importer profile found for "
                       ++ vendorName (suggestedVendor detection)) None])
      | Some importerProfile =>
          report onProgress parsing 20 "Parsing file content..." ;;;
          let content := contentText file in
          match fileType detection, suggestedVendor detection with
          | ft_xml, apple_health => appleXmlPath file userId onProgress content
          | ft_json, vendor =>
              match JSON_parse host content with
              | None =>
                  ret (createErrorResult
                         [errorOf parse_error "Invalid JSON format"
                            (Some (JsError "SyntaxError"))])
              | Some parsedData =>
                  if vendor_eqb vendor apple_health
                     && isAppleHealthPreParsed parsedData
                  then preParsedPath file userId onProgress content parsedData
                  else genericPath file userId importerProfile onProgress
                         detection content parsedData
              end
          | ft_csv, _ =>
              genericPath file userId importerProfile onProgress detection
                content (VArr (map VObj (parseCsv content)))
          | other, _ =>
              ret (createErrorResult
                     [errorOf unsupported_vendor
                        ("File type " ++ fileTypeName other
                           ++ " not yet supported") None])
          end
      end
  end.

(** The [catch] block: whatever was thrown becomes a [storage_error]. *)
Definition caughtError (e : exn) : ImportError :=
  errorOf storage_error
    (match e with
     | JsError message => message
     | JsThrown _ => "Unknown error during import"
     end)
    (Some e).

Definition importFile (file : ImportFile) (userId : string)
  (profile : option ImporterProfile) (onProgress : option ProgressCallback)
  : M ImportResult :=
  tryCatch (importSteps file userId profile onProgress)
           (fun e => ret (createErrorResult [caughtError e])).

End WithHost.

(** *** What an import leaves in the store *)

(** What a successful import has written: the deduplicated sleep
    sessions, and the workouts, daily metrics and time series exactly as
    the parser returned them. *)
Definition Wrote (user : string) (w w' : World) (r : ImportResult)
  (parsedSessions : list SleepSession) (workouts metrics series : list obj)
  : Prop :=
  let dedupResult :=
    deduplicateSessions (sleepSessions (db w)) parsedSessions user in
  success r = true
  /\ errors r = []
  /\ sleepSessions (db w')
     = table_putMany id (sessions dedupResult) (sleepSessions (db w))
  /\ obj_putMany workouts (workoutSessions (db w))
     = (None, workoutSessions (db w'))
  /\ obj_putMany metrics (dailyMetrics (db w)) = (None, dailyMetrics (db w'))
  /\ obj_putMany series (timeSeries (db w)) = (None, timeSeries (db w'))
  /\ recordCounts r
     = {| n_sleepSessions := length (sessions dedupResult);
          n_workoutSessions := length workouts;
          n_dailyMetrics := length metrics;
          n_timeSeries := length series |}.

(** A source with the hash of this file is already stored. *)
Definition alreadyImported (host : Host) (file : ImportFile) (w : World) : bool :=
  existsb (fun s => String.eqb (s_fileHash s) (sha256 host (contentText file)))
          (sources (db w)).

Definition hasDuplicateWarning (r : ImportResult) : Prop :=
  exists wa, In wa (warnings r) /\ w_type wa = w_duplicate.

(** The file goes down the pre-parsed Apple Health JSON path. *)
Definition isPreParsedImport (host : Host) (file : ImportFile) (data : jsval)
  : Prop :=
  fileType (detectFileType host file) = ft_json
  /\ suggestedVendor (detectFileType host file) = apple_health
  /\ JSON_parse host (contentText file) = Some data
  /\ isAppleHealthPreParsed data = true.

(** *** Tables in key order *)

Section KeyOrder.
Context {R : Type} (key : R -> string).

Definition keyLt (a b : R) : Prop := String.compare (key a) (key b) = Lt.

Definition InKeyOrder (t : list R) : Prop := StronglySorted keyLt t.

End KeyOrder.

(** *** A host, a store and two files to run the import on *)

Module Demo.
Local Open Scope string_scope.


Definition quoted (s : string) : string :=
  String dquote s ++ String dquote EmptyString.

(** The text of a pre-parsed Apple Health export with one workout, and
    the value [JSON.parse] gives for it. *)
Definition preParsedText : string :=
  "{" ++ quoted "sleepSessions" ++ ":[],"
      ++ quoted "workoutSessions" ++ ":[{" ++ quoted "id" ++ ":" ++ quoted "w1"
      ++ "," ++ quoted "date" ++ ":" ++ quoted "2024-03-01" ++ "}],"
      ++ quoted "sources" ++ ":[" ++ quoted "Watch" ++ "]}".

Definition preParsedJson : jsval :=
  VObj [("sleepSessions", VArr []);
        ("workoutSessions",
         VArr [VObj [("id", VStr "w1"); ("date", VStr "2024-03-01")]]);
        ("sources", VArr [VStr "Watch"])].

Definition emptyTransform : TransformResult :=
  {| t_sleepSessions := []; t_workoutSessions := []; t_timeSeries := [];
     t_warnings := [] |}.

(** A host whose [JSON.parse] knows the one document above and rejects
    everything else, whose store never fails and whose parsers find
    nothing. *)
Definition demoHost : Host :=
  {| JSON_parse := fun s => if String.eqb s preParsedText
                            then Some preParsedJson else None;
     sha256 := fun s => s;
     genId := fun n => "id-" ++ ofNat n;
     now := "2024-03-02T08:00:00.000Z";
     storageFault := fun _ _ => None;
     parseAppleHealthXML := fun _ _ _ _ n =>
       (inr {| a_sleepSessions := []; a_workoutSessions := [];
               a_dailyMetrics := []; a_sources := [] |}, n);
     transformEightSleep := fun _ _ _ _ n => (inr emptyTransform, n);
     transformOrangetheory := fun _ _ _ _ n => (inr emptyTransform, n);
     transformGeneric := fun _ _ _ _ _ n => (inr emptyTransform, n) |}.

Definition emptyWorld : World :=
  {| db := {| sources := []; sleepSessions := []; workoutSessions := [];
              dailyMetrics := []; timeSeries := [] |};
     nextId := 0 |}.

Definition textFile (name content : string) : ImportFile :=
  {| f_name := name; f_size := 0; f_type := "application/json";
     f_content := Text content |}.

Definition brokenJsonFile : ImportFile := textFile "sleep.json" "{".
Definition preParsedFile : ImportFile := textFile "apple.json" preParsedText.

End Demo.

End Orchestrator.

(** ** The chunked Apple Health scanner ([scripts/importAppleHealthStream.ts]) *)

Module Stream.

Import JsString.
Local Open Scope nat_scope.

(** The buffer is a sequence of code units; documents are taken to be
    ASCII, so that a character is a code unit and [\s] is the white space
    of [JsString.isSpace]. *)
Definition text := list ascii.

Definition lit (s : string) : text := list_ascii_of_string s.

(** *** String primitives *)

(** [s.startsWith(p)], returning what follows [p]. *)
Fixpoint stripPrefix (p s : text) : option text :=
  match p, s with
  | [], _ => Some s
  | c :: p', d :: s' => if Ascii.eqb c d then stripPrefix p' s' else None
  | _ :: _, [] => None
  end.

(** [s.indexOf(c)] for one character. *)
Fixpoint indexOfChar (c : ascii) (s : text) : option nat :=
  match s with
  | [] => None
  | d :: s' => if Ascii.eqb c d then Some 0 else option_map S (indexOfChar c s')
  end.

(** [s.indexOf(p)]. *)
Fixpoint indexOf (p s : text) : option nat :=
  match stripPrefix p s with
  | Some _ => Some 0
  | None =>
      match s with
      | [] => None
      | _ :: s' => option_map S (indexOf p s')
      end
  end.

(** Length of the longest run of [\s] at the head of [s]. *)
Fixpoint spaces (s : text) : nat :=
  match s with
  | c :: s' => if isSpace c then S (spaces s') else 0
  | [] => 0
  end.

(** [\w] is [[A-Za-z0-9_]]. *)
Definition isWord (c : ascii) : bool :=
  let n := nat_of_ascii c in
  (Nat.leb 48 n && Nat.leb n 57) || (Nat.leb 65 n && Nat.leb n 90)
  || (Nat.leb 97 n && Nat.leb n 122) || Nat.eqb n 95.

Fixpoint wordRun (s : text) : nat :=
  match s with
  | c :: s' => if isWord c then S (wordRun s') else 0
  | [] => 0
  end.

(** *** The element patterns

    [/<Record\s+([^>]+?)(?:\/>|>[\s\S]*?<\/Record>)/g] and
    [/<Workout\s+([^>]+?)(?:>[\s\S]*?<\/Workout>|\/>)/g], matched at the
    head of [s] in the order in which a backtracking matcher explores
    them.  [\s+] is greedy: the longest run of white space is tried first,
    then shorter ones.  [[^>]+?] is lazy and cannot cross a [>], so with
    [p] the offset of the first [>] after the white space the group can
    end only at [p - 1] (when the character there is [/], the empty
    element [/>]) or at [p] (then [[\s\S]*?] runs to the first closing
    tag), and the shorter group is tried first.  At either end only one of
    the two alternatives applies, so their order in the pattern makes no
    difference and both patterns are instances of [matchElement]. *)

Definition opening (tag : string) : text := lit ("<" ++ tag).
Definition closing (tag : string) : text := lit ("</" ++ tag ++ ">").

Definition charAt (s : text) (i : nat) (c : ascii) : bool :=
  match nth_error s i with Some d => Ascii.eqb c d | None => false end.

(** One attempt, [\s+] holding [w] characters of [r], the text after
    [<Tag].  The result is the group and the length matched in [r]. *)
Definition matchWith (tag : string) (w : nat) (r : text) : option (text * nat) :=
  let rest := skipn w r in
  match indexOfChar ">" rest with
  | None => None
  | Some p =>
      if (2 <=? p) && charAt rest (p - 1) "/" then
        Some (firstn (p - 1) rest, w + p + 1)
      else if 1 <=? p then
        match indexOf (closing tag) (skipn (p + 1) rest) with
        | Some q =>
            Some (firstn p rest, w + p + 1 + q + length (closing tag))
        | None => None
        end
      else None
  end.

Fixpoint backtrack (tag : string) (w : nat) (r : text) : option (text * nat) :=
  match w with
  | O => None
  | S w' =>
      match matchWith tag w r with
      | Some m => Some m
      | None => backtrack tag w' r
      end
  end.

(** The group [match[1]] and the length of [match[0]]. *)
Definition matchElement (tag : string) (s : text) : option (text * nat) :=
  match stripPrefix (opening tag) s with
  | None => None
  | Some r =>
      match backtrack tag (spaces r) r with
      | Some (group, n) => Some (group, length (opening tag) + n)
      | None => None
      end
  end.

(** The attribute pattern of [parseAttributes] at the head of [s]: a run
    of [\w], an equals sign, and a value between double quotes that holds
    none.  Both quantifiers are greedy and what must follow each cannot
    be matched by a character of the run, so giving characters back never
    helps. *)
Definition matchAttribute (s : text) : option ((string * string) * nat) :=
  let k := wordRun s in
  if k =? 0 then None
  else
    match stripPrefix ["="%char; dquote] (skipn k s) with
    | None => None
    | Some r =>
        match indexOfChar dquote r with
        | None => None
        | Some v =>
            Some ((string_of_list_ascii (firstn k s),
                   string_of_list_ascii (firstn v r)),
                  k + 2 + v + 1)
        end
    end.

(** *** [while ((match = regex.exec(s)) !== null)] *)

Record Match (G : Type) := {
  index : nat;
  whole : text;          (* match[0] *)
  group : G              (* match[1], match[2] *)
}.
Arguments index {G}.
Arguments whole {G}.
Arguments group {G}.

Definition matchEnd {G} (m : Match G) : nat := index m + length (whole m).

Section Exec.
Context {G : Type}.
Variable matchAt : text -> option (G * nat).

(** The matches of a global pattern in order: the search resumes where
    the last match ended.  [skip] counts the characters of [s] that the
    last match still covers, [pos] is the index of the head of [s]. *)
Fixpoint execFrom (skip pos : nat) (s : text) : list (Match G) :=
  match s with
  | [] => []
  | _ :: s' =>
      match skip with
      | S k => execFrom k (S pos) s'
      | O =>
          match matchAt s with
          | Some (g, len) =>
              {| index := pos; whole := firstn len s; group := g |}
                :: execFrom (len - 1) (S pos) s'
          | None => execFrom 0 (S pos) s'
          end
      end
  end.

Definition execAll (s : text) : list (Match G) := execFrom 0 0 s.

(** Every match in [s], whether or not an earlier one covers it. *)
Fixpoint allFrom (pos : nat) (s : text) : list (Match G) :=
  match s with
  | [] => []
  | _ :: s' =>
      match matchAt s with
      | Some (g, len) =>
          {| index := pos; whole := firstn len s; group := g |}
            :: allFrom (S pos) s'
      | None => allFrom (S pos) s'
      end
  end.

(** No match of [s] starts inside another. *)
Definition Unnested (s : text) : Prop :=
  forall i j g len,
    matchAt (skipn i s) = Some (g, len) -> i < j -> j < i + len ->
    matchAt (skipn j s) = None.

(** What a handler is given of a match. *)
Definition payload (m : Match G) : G * text := (group m, whole m).

(** The match that starts at offset [i] of [s], if there is one, and
    the matches that start at the offsets from [a] up to [b]. *)
Definition foundAt (s : text) (i : nat) : list (G * text) :=
  match matchAt (skipn i s) with
  | Some (g, len) => [(g, firstn len (skipn i s))]
  | None => []
  end.

Definition foundBetween (s : text) (a b : nat) : list (G * text) :=
  flat_map (foundAt s) (seq a (b - a)).

End Exec.

(** *** [parseAttributes] *)

Definition parseAttributes (attrString : text) : Map string :=
  fold_left (fun attrs m => Map_set (fst (group m)) (snd (group m)) attrs)
            (execAll matchAttribute attrString) [].

(** *** The accumulators *)

Record RecordCounts := {
  sleep : nat; heartRate : nat; hrv : nat; workouts : nat;
  weight : nat; steps : nat; other : nat
}.

Record SleepSegment := {
  seg_startDate : option string;
  seg_endDate : option string;
  seg_value : option string;
  seg_sourceName : string
}.

(** The [id] of a stored record is drawn from [Math.random]; it says
    nothing about the document and is left out of the records.  The
    fields that are the same in every record ([userId], [sourceId],
    [metricType], [dataQuality]) are left out too. *)
Record DailyMetric := {
  dm_date : option string;
  dm_value : num;
  dm_unit : string
}.

Record WorkoutSession := {
  w_date : string;
  w_startedAt : string;
  w_endedAt : option string;
  w_durationSeconds : Q;
  w_workoutType : string;
  w_workoutSubtype : string;
  w_calories : num;
  w_avgHeartRate : num;
  w_maxHeartRate : num;
  w_distance : num;
  w_distanceUnit : option string;
  w_source : option string
}.

Record Acc := {
  recordCounts : RecordCounts;
  sources : list string;                              (* Set<string> *)
  sleepSegmentsByDate : Map (list SleepSegment);
  heartRateByDate : Map (list num);
  hrvByDate : Map (list num);
  workoutSessions : list WorkoutSession;
  dailyMetrics : list DailyMetric
}.

Definition noCounts : RecordCounts :=
  {| sleep := 0; heartRate := 0; hrv := 0; workouts := 0;
     weight := 0; steps := 0; other := 0 |}.

Definition emptyAcc : Acc :=
  {| recordCounts := noCounts; sources := [];
     sleepSegmentsByDate := []; heartRateByDate := []; hrvByDate := [];
     workoutSessions := []; dailyMetrics := [] |}.

Local Open Scope string_scope.

(** [set.add(x)] *)
Definition Set_add (x : string) (s : list string) : list string :=
  if existsb (String.eqb x) s then s else (s ++ [x])%list.

(** [a || d] on an attribute. *)
Definition strOr (a : option string) (d : string) : string :=
  match a with
  | Some s => if String.eqb s EmptyString then d else s
  | None => d
  end.

Definition strTruthy (a : option string) : bool :=
  match a with
  | Some s => negb (String.eqb s EmptyString)
  | None => false
  end.

(** [a?.split(' ')[0]] *)
Definition dayOf (a : option string) : option string :=
  option_map (fun s => hd EmptyString (split " " s)) a.

(** [if (!m.has(k)) m.set(k, []); m.get(k).push(x)] *)
Definition pushAt {V} (k : string) (x : V) (m : Map (list V)) : Map (list V) :=
  Map_set k (match Map_get k m with Some l => l ++ [x] | None => [x] end)%list m.

Definition withCounts (f : RecordCounts -> RecordCounts) (a : Acc) : Acc :=
  {| recordCounts := f (recordCounts a); sources := sources a;
     sleepSegmentsByDate := sleepSegmentsByDate a;
     heartRateByDate := heartRateByDate a; hrvByDate := hrvByDate a;
     workoutSessions := workoutSessions a; dailyMetrics := dailyMetrics a |}.

Definition addSource (x : string) (a : Acc) : Acc :=
  {| recordCounts := recordCounts a; sources := Set_add x (sources a);
     sleepSegmentsByDate := sleepSegmentsByDate a;
     heartRateByDate := heartRateByDate a; hrvByDate := hrvByDate a;
     workoutSessions := workoutSessions a; dailyMetrics := dailyMetrics a |}.

Definition countSleep (c : RecordCounts) : RecordCounts :=
  {| sleep := S (sleep c); heartRate := heartRate c; hrv := hrv c;
     workouts := workouts c; weight := weight c; steps := steps c;
     other := other c |}.
Definition countHeartRate (c : RecordCounts) : RecordCounts :=
  {| sleep := sleep c; heartRate := S (heartRate c); hrv := hrv c;
     workouts := workouts c; weight := weight c; steps := steps c;
     other := other c |}.
Definition countHrv (c : RecordCounts) : RecordCounts :=
  {| sleep := sleep c; heartRate := heartRate c; hrv := S (hrv c);
     workouts := workouts c; weight := weight c; steps := steps c;
     other := other c |}.
Definition countWorkout (c : RecordCounts) : RecordCounts :=
  {| sleep := sleep c; heartRate := heartRate c; hrv := hrv c;
     workouts := S (workouts c); weight := weight c; steps := steps c;
     other := other c |}.
Definition countWeight (c : RecordCounts) : RecordCounts :=
  {| sleep := sleep c; heartRate := heartRate c; hrv := hrv c;
     workouts := workouts c; weight := S (weight c); steps := steps c;
     other := other c |}.
Definition countSteps (c : RecordCounts) : RecordCounts :=
  {| sleep := sleep c; heartRate := heartRate c; hrv := hrv c;
     workouts := workouts c; weight := weight c; steps := S (steps c);
     other := other c |}.
Definition countOther (c : RecordCounts) : RecordCounts :=
  {| sleep := sleep c; heartRate := heartRate c; hrv := hrv c;
     workouts := workouts c; weight := weight c; steps := steps c;
     other := S (other c) |}.

Definition mapWorkoutType (appleType : option string) : string :=
  match appleType with
  | None => "other"
  | Some t =>
      if t =? "HKWorkoutActivityTypeCycling" then "cycling"
      else if t =? "HKWorkoutActivityTypeRunning" then "running"
      else if t =? "HKWorkoutActivityTypeWalking" then "walking"
      else if t =? "HKWorkoutActivityTypeSwimming" then "swimming"
      else if t =? "HKWorkoutActivityTypeYoga" then "yoga"
      else if t =? "HKWorkoutActivityTypeHighIntensityIntervalTraining" then "hiit"
      else if t =? "HKWorkoutActivityTypeFunctionalStrengthTraining" then "strength"
      else if t =? "HKWorkoutActivityTypeTraditionalStrengthTraining" then "strength"
      else if t =? "HKWorkoutActivityTypeCrossTraining" then "hiit"
      else if t =? "HKWorkoutActivityTypeMixedCardio" then "cardio"
      else if t =? "HKWorkoutActivityTypeHiking" then "walking"
      else if t =? "HKWorkoutActivityTypeElliptical" then "cardio"
      else "other"
  end.

Definition mapDistanceUnit (unit : option string) : option string :=
  if strTruthy unit then
    let u := toLowerCase (strOr unit EmptyString) in
    if includes u "mi" then Some "miles"
    else if includes u "km" then Some "kilometers"
    else Some "meters"
  else None.

Section Handlers.

(** What the scanner takes from the host: [parseFloat] ([None] is [NaN]),
    [parseAppleDate(s).toISOString()] ([None] when the date is invalid and
    [toISOString] throws a [RangeError]), the scan of a workout for its
    heart-rate [WorkoutStatistics], [cleanWorkoutType], and
    [buildSleepSessions], which reads the three per-date maps ([None] when
    it throws). *)
Variable parseFloat : string -> num.
Variable toISOString : string -> option string.
Variable heartRateStatistics : text -> num * num.
Variable cleanWorkoutType : option string -> string.
Variable buildSleepSessions :
  Map (list SleepSegment) -> Map (list num) -> Map (list num)
  -> option (list SleepSession).

Definition floatOf (a : option string) : num :=
  match a with Some s => parseFloat s | None => None end.

Definition processRecord (attrs : Map string) (a : Acc) : Acc :=
  let type := Map_get "type" attrs in
  let sourceName := strOr (Map_get "sourceName" attrs) "Unknown" in
  let a := addSource sourceName a in
  let is_ t := match type with Some s => s =? t | None => false end in
  if is_ "HKCategoryTypeIdentifierSleepAnalysis" then
    let a := withCounts countSleep a in
    let date := dayOf (Map_get "startDate" attrs) in
    match date with
    | Some d =>
        if strTruthy date then
          {| recordCounts := recordCounts a; sources := sources a;
             sleepSegmentsByDate :=
               pushAt d {| seg_startDate := Map_get "startDate" attrs;
                           seg_endDate := Map_get "endDate" attrs;
                           seg_value := Map_get "value" attrs;
                           seg_sourceName := sourceName |}
                      (sleepSegmentsByDate a);
             heartRateByDate := heartRateByDate a; hrvByDate := hrvByDate a;
             workoutSessions := workoutSessions a;
             dailyMetrics := dailyMetrics a |}
        else a
    | None => a
    end
  else if is_ "HKQuantityTypeIdentifierHeartRate" then
    let a := withCounts countHeartRate a in
    if strTruthy (Map_get "value" attrs) then
      let hrDate := dayOf (Map_get "startDate" attrs) in
      match hrDate with
      | Some d =>
          if strTruthy hrDate then
            {| recordCounts := recordCounts a; sources := sources a;
               sleepSegmentsByDate := sleepSegmentsByDate a;
               heartRateByDate :=
                 pushAt d (floatOf (Map_get "value" attrs)) (heartRateByDate a);
               hrvByDate := hrvByDate a;
               workoutSessions := workoutSessions a;
               dailyMetrics := dailyMetrics a |}
          else a
      | None => a
      end
    else a
  else if is_ "HKQuantityTypeIdentifierHeartRateVariabilitySDNN" then
    let a := withCounts countHrv a in
    if strTruthy (Map_get "value" attrs) then
      let hrvDate := dayOf (Map_get "startDate" attrs) in
      match hrvDate with
      | Some d =>
          if strTruthy hrvDate then
            {| recordCounts := recordCounts a; sources := sources a;
               sleepSegmentsByDate := sleepSegmentsByDate a;
               heartRateByDate := heartRateByDate a;
               hrvByDate :=
                 pushAt d (floatOf (Map_get "value" attrs)) (hrvByDate a);
               workoutSessions := workoutSessions a;
               dailyMetrics := dailyMetrics a |}
          else a
      | None => a
      end
    else a
  else if is_ "HKQuantityTypeIdentifierBodyMass" then
    let a := withCounts countWeight a in
    if strTruthy (Map_get "value" attrs) then
      {| recordCounts := recordCounts a; sources := sources a;
         sleepSegmentsByDate := sleepSegmentsByDate a;
         heartRateByDate := heartRateByDate a; hrvByDate := hrvByDate a;
         workoutSessions := workoutSessions a;
         dailyMetrics :=
           (dailyMetrics a
            ++ [{| dm_date := dayOf (Map_get "startDate" attrs);
                   dm_value := floatOf (Map_get "value" attrs);
                   dm_unit := strOr (Map_get "unit" attrs) "lb" |}])%list |}
    else a
  else if is_ "HKQuantityTypeIdentifierStepCount" then
    withCounts countSteps a
  else
    withCounts countOther a.

(** [processWorkout]; [None] when [toISOString] throws. *)
Definition processWorkout (attrString workoutXml : text) (a : Acc) : option Acc :=
  let attrs := parseAttributes attrString in
  let a := withCounts countWorkout a in
  let a := addSource (strOr (Map_get "sourceName" attrs) "Unknown") a in
  if negb (strTruthy (Map_get "startDate" attrs)) then Some a
  else
    let startDate := strOr (Map_get "startDate" attrs) EmptyString in
    let durationUnit := strOr (Map_get "durationUnit" attrs) "min" in
    let duration :=
      match floatOf (Map_get "duration" attrs) with
      | Some q => q
      | None => 0%Q
      end in
    let durationSeconds :=
      if durationUnit =? "min" then (duration * 60)%Q else duration in
    if Qltb durationSeconds 300 then Some a
    else
      let '(avgHR, maxHR) := heartRateStatistics workoutXml in
      match toISOString startDate with
      | None => None
      | Some startedAt =>
          match (if strTruthy (Map_get "endDate" attrs)
                 then option_map Some
                        (toISOString (strOr (Map_get "endDate" attrs) EmptyString))
                 else Some None) with
          | None => None
          | Some endedAt =>
              Some
                {| recordCounts := recordCounts a; sources := sources a;
                   sleepSegmentsByDate := sleepSegmentsByDate a;
                   heartRateByDate := heartRateByDate a;
                   hrvByDate := hrvByDate a;
                   workoutSessions :=
                     (workoutSessions a
                      ++ [{| w_date := hd EmptyString (split "T" startedAt);
                             w_startedAt := startedAt;
                             w_endedAt := endedAt;
                             w_durationSeconds := durationSeconds;
                             w_workoutType :=
                               mapWorkoutType (Map_get "workoutActivityType" attrs);
                             w_workoutSubtype :=
                               cleanWorkoutType (Map_get "workoutActivityType" attrs);
                             w_calories :=
                               if strTruthy (Map_get "totalEnergyBurned" attrs)
                               then floatOf (Map_get "totalEnergyBurned" attrs)
                               else None;
                             w_avgHeartRate := avgHR;
                             w_maxHeartRate := maxHR;
                             w_distance :=
                               if strTruthy (Map_get "totalDistance" attrs)
                               then floatOf (Map_get "totalDistance" attrs)
                               else None;
                             w_distanceUnit :=
                               mapDistanceUnit (Map_get "totalDistanceUnit" attrs);
                             w_source := Map_get "sourceName" attrs |}])%list;
                   dailyMetrics := dailyMetrics a |}
          end
      end.

(** *** [main] *)

Local Open Scope nat_scope.

Definition recordRegex : text -> option (text * nat) := matchElement "Record".
Definition workoutRegex : text -> option (text * nat) := matchElement "Workout".

(** The state of the run: the accumulators, or [None] once an exception
    has been thrown. *)
Definition handleRecords (ms : list (Match text)) (st : option Acc) : option Acc :=
  fold_left (fun st m => option_map (processRecord (parseAttributes (group m))) st)
            ms st.

Definition handleWorkouts (ms : list (Match text)) (st : option Acc) : option Acc :=
  fold_left (fun st m =>
               match st with
               | Some a => processWorkout (group m) (whole m) a
               | None => None
               end)
            ms st.

(** The 50000 of [buffer.length - 50000]. *)
Definition SAFETY_MARGIN : nat := 50 * 1000.

(** [lastMatchEnd] after the two loops over one buffer. *)
Definition lastMatchEnd (buffer : text) : nat :=
  let afterRecords :=
    fold_left (fun _ m => matchEnd m) (execAll recordRegex buffer) 0 in
  fold_left (fun last m => if last <? matchEnd m then matchEnd m else last)
            (execAll workoutRegex buffer) afterRecords.

Definition safePoint (buffer : text) : nat :=
  Nat.max (lastMatchEnd buffer) (length buffer - SAFETY_MARGIN).

(** One turn of [for await (const chunk of fileStream)]. *)
Definition processChunk (st : option Acc * text) (chunk : text)
  : option Acc * text :=
  let '(acc, buffer) := st in
  let buffer := (buffer ++ chunk)%list in
  let acc := handleRecords (execAll recordRegex buffer) acc in
  let acc := handleWorkouts (execAll workoutRegex buffer) acc in
  (acc, skipn (safePoint buffer) buffer).

Record Output := {
  out_sources : list string;
  out_recordCounts : RecordCounts;
  out_sleepSessions : list SleepSession;
  out_workoutSessions : list WorkoutSession;
  out_dailyMetrics : list DailyMetric
}.

(** What [main] writes once the stream has ended; [buildSleepSessions]
    reads the three per-date maps. *)
Definition finish (st : option Acc) : option Output :=
  match st with
  | None => None
  | Some a =>
      match buildSleepSessions (sleepSegmentsByDate a) (heartRateByDate a)
                               (hrvByDate a) with
      | None => None
      | Some sleepSessions =>
          Some {| out_sources := sources a;
                  out_recordCounts := recordCounts a;
                  out_sleepSessions := sleepSessions;
                  out_workoutSessions := workoutSessions a;
                  out_dailyMetrics := dailyMetrics a |}
      end
  end.

(** The run over the chunks of the stream; [None] when the promise of
    [main] is rejected and nothing is written. *)
Definition main (chunks : list text) : option Output :=
  let '(acc, buffer) := fold_left processChunk chunks (Some emptyAcc, []) in
  let acc := handleRecords (execAll recordRegex buffer) acc in
  let acc := handleWorkouts (execAll workoutRegex buffer) acc in
  finish acc.

(** The handlers applied to a list of elements, records alone and
    workouts alone. *)
Definition runRecords (ps : list (text * text)) (a : Acc) : Acc :=
  fold_left (fun a p => processRecord (parseAttributes (fst p)) a) ps a.

Definition runWorkouts (ps : list (text * text)) (st : option Acc) : option Acc :=
  fold_left (fun st p =>
               match st with
               | Some a => processWorkout (fst p) (snd p) a
               | None => None
               end)
            ps st.

(** What the claim compares: everything in the output but the order in
    which the source names were first seen. *)
Definition results (o : Output)
  : RecordCounts * list SleepSession * list WorkoutSession * list DailyMetric :=
  (out_recordCounts o, out_sleepSessions o, out_workoutSessions o,
   out_dailyMetrics o).

End Handlers.

(** The accumulators that [processRecord] writes, and those that
    [processWorkout] writes. *)
Definition recordsView (a : Acc) :=
  (sleep (recordCounts a), heartRate (recordCounts a), hrv (recordCounts a),
   weight (recordCounts a), steps (recordCounts a), other (recordCounts a),
   sleepSegmentsByDate a, heartRateByDate a, hrvByDate a, dailyMetrics a).

Definition workoutsView (a : Acc) :=
  (workouts (recordCounts a), workoutSessions a).

(** The state of a run agrees with a run over the records alone on what
    the records write, and with a run over the workouts alone on what the
    workouts write. *)
Definition Agrees (st : option Acc) (byRecords : Acc) (byWorkouts : option Acc)
  : Prop :=
  match st with
  | Some a =>
      recordsView a = recordsView byRecords
      /\ exists b, byWorkouts = Some b /\ workoutsView a = workoutsView b
  | None => byWorkouts = None
  end.

(** *** Documents that can be streamed *)

Local Open Scope nat_scope.

(** Start and end of the element that the pattern of [tag] matches at
    offset [i] of [s]. *)
Definition elementAt (tag : string) (s : text) (i : nat) : list (nat * nat) :=
  match matchElement tag (skipn i s) with
  | Some (_, len) => [(i, i + len)]
  | None => []
  end.

Definition elementsIn (s : text) : list (nat * nat) :=
  flat_map (fun i => (elementAt "Record" s i ++ elementAt "Workout" s i)%list)
           (seq 0 (length s)).

(** Every element that one of the two patterns matches somewhere in a
    prefix of the document. *)
Definition elementsOfPrefixes (doc : text) : list (nat * nat) :=
  flat_map (fun n => elementsIn (firstn n doc)) (seq 0 (S (length doc))).

Definition apart (x y : nat * nat) : bool :=
  (snd x <=? fst y) || (snd y <=? fst x)
  || ((fst x =? fst y) && (snd x =? snd y)).

(** No two of those elements overlap, and none is longer than the
    margin. *)
Definition streamable (doc : text) : bool :=
  let es := elementsOfPrefixes doc in
  forallb (fun x => (snd x - fst x <=? SAFETY_MARGIN) && forallb (apart x) es) es.

(** What a streamable document gives the scanner: an element matched
    in a prefix of the document is matched in the same way in the whole of
    it, two elements that overlap are one, and an element fits in the
    margin. *)
Definition Tag (tag : string) : Prop := tag = "Record" \/ tag = "Workout".

Definition Stable (doc : text) : Prop :=
  forall tag n i m,
    Tag tag ->
    matchElement tag (skipn i (firstn n doc)) = Some m ->
    matchElement tag (skipn i doc) = Some m.

Definition Disjoint (doc : text) : Prop :=
  forall t1 t2 i j g1 l1 g2 l2,
    Tag t1 -> Tag t2 ->
    matchElement t1 (skipn i doc) = Some (g1, l1) ->
    matchElement t2 (skipn j doc) = Some (g2, l2) ->
    i <= j -> j < i + l1 -> i = j /\ l1 = l2.

Definition Bounded (doc : text) : Prop :=
  forall tag i g len,
    Tag tag ->
    matchElement tag (skipn i doc) = Some (g, len) -> len <= SAFETY_MARGIN.

(** The cut at offset [c] of the document splits no element, and lies
    past every element that ends within the first [n] characters. *)
Definition Cut (doc : text) (c n : nat) : Prop :=
  forall tag i g len,
    Tag tag ->
    matchElement tag (skipn i doc) = Some (g, len) ->
    (i < c -> i + len <= c) /\ (i + len <= n -> i + len <= c).

Section Invariant.
Variable parseFloat : string -> num.
Variable toISOString : string -> option string.
Variable heartRateStatistics : text -> num * num.
Variable cleanWorkoutType : option string -> string.

(** The state of the loop once the prefix [seen] of the document has
    been read: the buffer is what follows a cut of [seen], and the
    handlers have been given the elements that start before the cut. *)
Definition Scanned (doc seen : text) (st : option Acc * text) : Prop :=
  exists c,
    c <= length seen
    /\ snd st = skipn c seen
    /\ Cut doc c (length seen)
    /\ Agrees (fst st)
         (runRecords parseFloat (foundBetween recordRegex doc 0 c) emptyAcc)
         (runWorkouts parseFloat toISOString heartRateStatistics
            cleanWorkoutType (foundBetween workoutRegex doc 0 c) (Some emptyAcc)).

End Invariant.

(** *** A host and two documents to run the scanner on *)

Module Demo.

Local Open Scope string_scope.

Definition parseFloat (s : string) : num :=
  if s =? "30" then Some 30%Q
  else if s =? "72" then Some 72%Q
  else None.

Definition toISOString (s : string) : option string :=
  if s =? "2024-03-01 08:30:00 -0800" then Some "2024-03-01T16:30:00.000Z"
  else None.

Definition heartRateStatistics (_ : text) : num * num := (None, None).

Definition cleanWorkoutType (_ : option string) : string := "Running".

Definition buildSleepSessions
  (_ : Map (list SleepSegment)) (_ _ : Map (list num))
  : option (list SleepSession) := Some [].

Definition run : list text -> option Output :=
  main parseFloat toISOString heartRateStatistics cleanWorkoutType
       buildSleepSessions.

Definition quoted (s : string) : string :=
  String dquote s ++ String dquote EmptyString.

Definition workoutTag : text :=
  lit ("<Workout workoutActivityType="
         ++ quoted "HKWorkoutActivityTypeRunning"
         ++ " duration=" ++ quoted "30"
         ++ " startDate=" ++ quoted "2024-03-01 08:30:00 -0800" ++ ">").

(** A workout whose content is longer than the margin, and the same
    document cut before its last character. *)
Definition longWorkout : text :=
  (workoutTag ++ repeat " "%char SAFETY_MARGIN ++ lit "</Workout>")%list.

Definition longWorkoutChunks : list text :=
  [firstn (length longWorkout - 1) longWorkout;
   skipn (length longWorkout - 1) longWorkout].

(** A heart-rate record and a short workout, cut inside each. *)
Definition shortChunks : list text :=
  [lit ("<Record type=" ++ quoted "HKQuantityTypeIdentifierHeartRate"
          ++ " startDate=" ++ quoted "2024-03-01 08:30:00 -0800");
   (lit (" value=" ++ quoted "72" ++ "/>") ++ firstn 40 workoutTag)%list;
   (skipn 40 workoutTag ++ lit "<WorkoutStatistics/></Work")%list;
   lit "out>"].

End Demo.

End Stream.

(** ** Time series of a night ([importers/eightSleep.ts])

    The start of a series is dated like the start of the night in
    [transformRawSession], from a time value [Date] can hold. *)

Module EightSleepSeries.
Import EightSleep.

Record TimeSeries := {
  series_id : string;
  series_userId : string;
  series_sourceId : string;
  series_sessionId : string;
  metricType : string;
  series_startedAt : string;
  intervalSeconds : Q;
  values : list (option Q);
  gapCount : nat;
  interpolatedCount : nat
}.

(** [intervals[Math.floor(intervals.length / 2)] || 300] over the
    differences of the first ten time stamps. *)
Definition estimateInterval (data : list (Q * option Q)) : Q :=
  if Nat.ltb (length data) 2 then 300
  else
    let intervals :=
      map (fun i => fst (nth i data (0, None)) - fst (nth (i - 1) data (0, None)))
          (seq 1 (Nat.min 10 (length data) - 1)) in
    let sorted := DataQuality.sort intervals in
    let picked := nth (length sorted / 2) sorted 0 in
    if Qeq_bool picked 0 then 300 else picked.

Definition isNull (v : option Q) : bool :=
  match v with None => true | Some _ => false end.

Section Series.

(** The ids [generateId()] returns, in the order of the calls. *)
Variable genId : nat -> string.

(** One [result.push({...})]; [acc] is the series pushed so far with
    the number of ids drawn. *)
Definition pushSeries (metric : string) (data : option (list (Q * option Q)))
  (sessionId sourceId userId startedAt : string)
  (acc : list TimeSeries * nat) : list TimeSeries * nat :=
  match data with
  | Some ((_ :: _) as points) =>
      let values := map snd points in
      ((fst acc
        ++ [{| series_id := genId (snd acc);
               series_userId := userId;
               series_sourceId := sourceId;
               series_sessionId := sessionId;
               metricType := metric;
               series_startedAt := startedAt;
               intervalSeconds := estimateInterval points;
               values := values;
               gapCount := length (filter isNull values);
               interpolatedCount := 0 |}])%list,
       S (snd acc))
  | _ => acc
  end.

Definition extractTimeSeries (raw : EightSleepSession)
  (sessionId sourceId userId : string) (nextId : nat)
  : list TimeSeries * nat :=
  match timeseries raw with
  | None => ([], nextId)
  | Some t =>
      let startedAt := JsDate.toISOString (JsDate.timeClip (ts raw * 1000)) in
      let acc := ([], nextId) in
      let acc := pushSeries "heart_rate" (ts_heartRate t)
                   sessionId sourceId userId startedAt acc in
      let acc := pushSeries "hrv" (ts_hrv t)
                   sessionId sourceId userId startedAt acc in
      let acc := pushSeries "respiratory_rate" (ts_respiratoryRate t)
                   sessionId sourceId userId startedAt acc in
      pushSeries "bed_temperature" (ts_tempBedC t)
        sessionId sourceId userId startedAt acc
  end.

End Series.

(** The raw series a stored metric is taken from. *)
Definition seriesData (t : Timeseries) (metric : string)
  : option (list (Q * option Q)) :=
  if String.eqb metric "heart_rate" then ts_heartRate t
  else if String.eqb metric "hrv" then ts_hrv t
  else if String.eqb metric "respiratory_rate" then ts_respiratoryRate t
  else if String.eqb metric "bed_temperature" then ts_tempBedC t
  else None.

(** Time stamps every [step] seconds from [start], with the values of
    [vs]. *)
Definition sampled (start step : Q) (vs : list (option Q)) : list (Q * option Q) :=
  map (fun iv => (start + inject_Z (Z.of_nat (fst iv)) * step, snd iv))
      (combine (seq 0 (length vs)) vs).

(** A night with a heart-rate series that has one gap. *)
Definition nightWithGap : EightSleepSession :=
  {| ts := 1709334000;
     stages := stages scenarioB;
     timeseries :=
       Some {| ts_heartRate :=
                 Some [(1709334000, Some 52); (1709334300, None);
                       (1709334600, Some 54)];
               ts_hrv := None; ts_respiratoryRate := None;
               ts_tempBedC := None;
               ts_tempRoomC := Some [(1709334000, Some 19)] |} |}.

End EightSleepSeries.

(** ** Columns of an Orangetheory export ([importers/pipeline.ts]) *)

Module Orangetheory.
Import JsString.
Local Open Scope string_scope.

Definition COLUMN_ALIASES : list (string * list string) :=
  [ ("date", ["date"; "workout_date"; "class_date"; "workout date";
              "class date"; "session_date"]);
    ("class_type", ["class_type"; "class type"; "workout_type"; "workout type";
                    "type"; "class"]);
    ("duration", ["duration"; "class_duration"; "class duration";
                  "workout_duration"; "workout duration"; "time"; "total_time"]);
    ("calories", ["calories"; "calories_burned"; "calories burned";
                  "total_calories"; "total calories"; "cal"]);
    ("splat_points", ["splat_points"; "splat points"; "splats"; "splat";
                      "splatpoints"]);
    ("avg_hr", ["avg_hr"; "avg hr"; "average_heart_rate"; "average heart rate";
                "avg_heart_rate"; "avg heart rate"; "avghr"]);
    ("max_hr", ["max_hr"; "max hr"; "maximum_heart_rate"; "maximum heart rate";
                "max_heart_rate"; "max heart rate"; "maxhr"]);
    ("zone_1", ["zone_1"; "zone 1"; "gray_zone"; "gray zone"; "grey_zone";
                "grey zone"; "zone1"; "gray"]);
    ("zone_2", ["zone_2"; "zone 2"; "blue_zone"; "blue zone"; "zone2"; "blue"]);
    ("zone_3", ["zone_3"; "zone 3"; "green_zone"; "green zone"; "zone3"; "green"]);
    ("zone_4", ["zone_4"; "zone 4"; "orange_zone"; "orange zone"; "zone4";
                "orange"]);
    ("zone_5", ["zone_5"; "zone 5"; "red_zone"; "red zone"; "zone5"; "red"]);
    ("tread_distance", ["tread_distance"; "tread distance"; "treadmill_distance";
                        "treadmill distance"; "distance"; "miles"]);
    ("row_distance", ["row_distance"; "row distance"; "rower_distance";
                      "rower distance"; "row_meters"; "row meters"]) ].

(** [h.toLowerCase().trim()] *)
Definition normalise (h : string) : string := trim (toLowerCase h).

Definition nonEmpty (s : string) : bool := negb (String.eqb s EmptyString).

(** [headers.find(h => h === alias.toLowerCase()
                       || h.includes(alias.toLowerCase()))] *)
Definition matchingHeader (headers : list string) (alias : string)
  : option string :=
  find (fun h => String.eqb h (toLowerCase alias)
                 || includes h (toLowerCase alias)) headers.

(** [Object.keys(sampleRow).find(h => h.toLowerCase().trim()
                                       === matchingHeader)] *)
Definition originalHeader (keys : list string) (matching : string)
  : option string :=
  find (fun h => String.eqb (normalise h) matching) keys.

(** The loop over the aliases of one canonical field, up to its
    [break]: the column assigned to the field, if any. *)
Fixpoint columnFor (keys headers aliases : list string) : option string :=
  match aliases with
  | [] => None
  | alias :: rest =>
      match matchingHeader headers alias with
      | Some matching =>
          if nonEmpty matching then
            match originalHeader keys matching with
            | Some original =>
                if nonEmpty original then Some original
                else columnFor keys headers rest
            | None => columnFor keys headers rest
            end
          else columnFor keys headers rest
      | None => columnFor keys headers rest
      end
  end.

(** [buildColumnMap(sampleRow)]; [keys] is [Object.keys(sampleRow)]. *)
Definition buildColumnMap (keys : list string) : Map string :=
  let headers := map normalise keys in
  fold_left
    (fun m entry =>
       match columnFor keys headers (snd entry) with
       | Some original => Map_set (fst entry) original m
       | None => m
       end)
    COLUMN_ALIASES [].

(** *** [parseDate] *)

Definition isDigit (c : ascii) : bool :=
  let n := nat_of_ascii c in Nat.leb 48 n && Nat.leb n 57.

(** [s] holds digits only. *)
Definition allDigits (s : string) : bool :=
  forallb isDigit (list_ascii_of_string s).

(** [(\d{n})] at the head of [s]: the digits and the rest. *)
Fixpoint digits (n : nat) (s : string) : option (string * string) :=
  match n with
  | O => Some (EmptyString, s)
  | S n' =>
      match s with
      | String c s' =>
          if isDigit c then
            match digits n' s' with
            | Some (d, rest) => Some (String c d, rest)
            | None => None
            end
          else None
      | EmptyString => None
      end
  end.

(** [c] at the head of [s]. *)
Definition after (c : ascii) (s : string) : option string :=
  match s with
  | String d s' => if Ascii.eqb c d then Some s' else None
  | EmptyString => None
  end.

(** [(\d{1,2})] followed by the separator [sep]: the quantifier is
    greedy, and when two digits are there the separator cannot be the
    second character, so giving one digit back never helps. *)
Definition digits12 (sep : ascii) (s : string) : option (string * string) :=
  match digits 2 s with
  | Some (d, rest) =>
      match after sep rest with Some rest' => Some (d, rest') | None => None end
  | None =>
      match digits 1 s with
      | Some (d, rest) =>
          match after sep rest with Some rest' => Some (d, rest') | None => None end
      | None => None
      end
  end.

(** [/^(\d{4})-(\d{2})-(\d{2})/] *)
Definition isoFormat (s : string) : option (string * string * string) :=
  match digits 4 s with
  | Some (y, r1) =>
      match after "-" r1 with
      | Some r2 =>
          match digits 2 r2 with
          | Some (m, r3) =>
              match after "-" r3 with
              | Some r4 =>
                  match digits 2 r4 with
                  | Some (d, _) => Some (y, m, d)
                  | None => None
                  end
              | None => None
              end
          | None => None
          end
      | None => None
      end
  | None => None
  end.

(** [/^(\d{1,2})SEP(\d{1,2})SEP(\d{n})/] for the separators [/] and [.] *)
Definition separated (sep : ascii) (n : nat) (s : string)
  : option (string * string * string) :=
  match digits12 sep s with
  | Some (a, r1) =>
      match digits12 sep r1 with
      | Some (b, r2) =>
          match digits n r2 with
          | Some (c, _) => Some (a, b, c)
          | None => None
          end
      | None => None
      end
  | None => None
  end.

(** [s.padStart(2, '0')] on one or two characters. *)
Definition padStart2 (s : string) : string :=
  match s with
  | EmptyString => "00"
  | String c EmptyString => String "0" (String c EmptyString)
  | _ => s
  end.

(** [parseInt(year)] on two digits. *)
Definition twoDigits (s : string) : nat :=
  match s with
  | String a (String b _) =>
      (nat_of_ascii a - 48) * 10 + (nat_of_ascii b - 48)
  | _ => 0
  end.

Section ParseDate.

(** The last resort, [new Date(value)]: the date part of its
    [toISOString()], or [None] when the time value is [NaN]. *)
Variable nativeDate : string -> option string.

Definition parseDate (value : option string) : option string :=
  match value with
  | None => None
  | Some v =>
      if String.eqb v EmptyString then None
      else
        match isoFormat v with
        | Some (y, m, d) => Some (y ++ "-" ++ padStart2 m ++ "-" ++ padStart2 d)
        | None =>
            match (match separated "/" 4 v with
                   | Some g => Some g
                   | None => separated "/" 2 v
                   end) with
            | Some (month, day, year) =>
                let year :=
                  if Nat.eqb (String.length year) 2 then
                    if Nat.ltb 50 (twoDigits year) then "19" ++ year
                    else "20" ++ year
                  else year in
                Some (year ++ "-" ++ padStart2 month ++ "-" ++ padStart2 day)
            | None =>
                match separated "." 4 v with
                | Some (day, month, year) =>
                    Some (year ++ "-" ++ padStart2 month ++ "-" ++ padStart2 day)
                | None => nativeDate v
                end
            end
        end
  end.

End ParseDate.

(** The shape [YYYY-MM-DD]: four digits, two digits and two digits
    between hyphens, and nothing after. *)
Definition dateShaped (s : string) : bool :=
  match digits 4 s with
  | Some (_, r1) =>
      match after "-" r1 with
      | Some r2 =>
          match digits 2 r2 with
          | Some (_, r3) =>
              match after "-" r3 with
              | Some r4 =>
                  match digits 2 r4 with
                  | Some (_, EmptyString) => true
                  | _ => false
                  end
              | None => false
              end
          | None => false
          end
      | None => false
      end
  | None => false
  end.

End Orangetheory.

(** ** Rows of a user-defined mapping ([importers/generic.ts]) *)

Module Generic.
Local Open Scope string_scope.

Section TransformRow.

(** A [FieldTransform] is passed on to [applyTransform] as it is. *)
Variable FieldTransform : Type.

Record FieldMapping := {
  source : string;
  target : string;
  transform : option FieldTransform;
  required : bool;
  defaultValue : option jsval
}.

(** [extractValue] and [applyTransform], the two functions of the file
    that [transformRow] calls; [None] when the call throws. *)
Variable extractValue : jsval -> string -> option jsval.
Variable applyTransform : jsval -> FieldTransform -> jsval -> option jsval.

Definition isMissing (v : jsval) : bool :=
  match v with VUndefined | VNull => true | _ => false end.

(** The body of the [try] block for one mapping: the result after the
    body, or what it throws.  [continue] leaves the body with the result
    as it is. *)
Definition mapFieldBody (row : jsval) (result : obj) (mapping : FieldMapping)
  : Orchestrator.exn + obj :=
  match extractValue row (source mapping) with
  | None => inl (Orchestrator.JsError "TypeError")
  | Some value =>
      if isMissing value then
        if required mapping then
          inl (Orchestrator.JsError ("Required field missing: " ++ source mapping))
        else
          let value :=
            match defaultValue mapping with
            | Some d => d
            | None => value
            end in
          inr result
      else
        match transform mapping with
        | Some t =>
            match applyTransform value t row with
            | Some value' => inr (obj_set (target mapping) value' result)
            | None => inl (Orchestrator.JsError "Error")
            end
        | None => inr (obj_set (target mapping) value result)
        end
  end.

(** One turn of the loop: the [catch] block logs and goes on. *)
Definition mapField (row : jsval) (result : obj) (mapping : FieldMapping) : obj :=
  match mapFieldBody row result mapping with
  | inr result' => result'
  | inl _ => result
  end.

Definition transformRow (row : jsval) (mappings : list FieldMapping)
  (_sourceId _userId : string) : obj :=
  fold_left (mapField row) mappings [].

(** A mapping with its [required] flag and its default value set as
    given. *)
Definition withFlags (req : bool) (dflt : option jsval) (m : FieldMapping)
  : FieldMapping :=
  {| source := source m; target := target m; transform := transform m;
     required := req; defaultValue := dflt |}.

End TransformRow.

End Generic.

(** ** Hard violations and statistical outliers of a session, in the
       words of the specification

    The report of [checkSleepSessionQuality] is compared with these: they
    are written from the description of the check (a fixed table of
    ranges per value, any out-of-range value being a hard violation; a
    robust z-score beyond the threshold being a statistical outlier), not
    from the loops of the function. *)

Module QualityPolicy.
Import DataQuality.
Local Open Scope string_scope.

(** The share of a sleep stage in the summed deep, REM and light sleep,
    in percent; there is none when a stage is unknown or the sum is not
    positive. *)
Definition stageShare (part : num) (s : SleepSession) : num :=
  match deepSeconds s, remSeconds s, lightSeconds s, part with
  | Some d, Some r, Some l, Some p =>
      if Qltb 0 (d + r + l) then Some (p / (d + r + l) * 100) else None
  | _, _, _, _ => None
  end.

(** The values that have a biologically plausible range, under the name
    a violation reports, each with its range. *)
Definition limitedValues (s : SleepSession) : list (string * num * LimitKey) :=
  [ ("minHeartRate", minHeartRate s, minHeartRateL);
    ("avgHeartRate", avgHeartRate s, heartRate);
    ("maxHeartRate", maxHeartRate s, maxHeartRateL);
    ("avgHrv", avgHrv s, hrv);
    ("avgRespiratoryRate", avgRespiratoryRate s, respiratoryRate);
    ("durationSeconds", durationSeconds s, sleepDuration);
    ("avgBedTempC", avgBedTempC s, bodyTemp);
    ("avgRoomTempC", avgRoomTempC s, roomTemp);
    ("deepPercent", stageShare (deepSeconds s) s, deepPercent);
    ("remPercent", stageShare (remSeconds s) s, remPercent) ].

Definition outOfRange (key : LimitKey) (x : Q) : bool :=
  Qltb x (lmin (HARD_LIMITS key)) || Qltb (lmax (HARD_LIMITS key)) x.

(** The names of the known values that are out of range. *)
Definition hardViolations (s : SleepSession) : list string :=
  flat_map (fun entry : string * num * LimitKey =>
              let '(name, value, key) := entry in
              match value with
              | Some x => if outOfRange key x then [name] else []
              | None => []
              end)
           (limitedValues s).

(** The metrics compared with the personal baseline. *)
Definition baselineMetrics (s : SleepSession) : list (string * num) :=
  [ ("avgHrv", avgHrv s);
    ("minHeartRate", minHeartRate s);
    ("avgRespiratoryRate", avgRespiratoryRate s);
    ("durationSeconds", durationSeconds s) ].

(** The names of the known metrics whose robust z-score against their
    baseline entry exceeds the threshold in absolute value. *)
Definition statisticalOutliers (s : SleepSession) (baseline : option Baseline)
  (madThreshold : Q) : list string :=
  match baseline with
  | None => []
  | Some b =>
      flat_map (fun metric : string * num =>
                  match snd metric, baseline_get (fst metric) b with
                  | Some v, Some e =>
                      if Qltb madThreshold
                           (Qabs (robustZScore v (b_median e) (b_mad e)))
                      then [fst metric] else []
                  | _, _ => []
                  end)
               (baselineMetrics s)
  end.

(** The only required field is the total sleep duration. *)
Definition missingRequired (s : SleepSession) : bool :=
  match durationSeconds s with None => true | Some _ => false end.

(** A night of nine hours of which seven are deep sleep, every reading
    within its range, and a baseline against which the HRV and the
    respiratory rate of [hrv400] with a plausible HRV lie far out. *)
Definition deepHeavy : SleepSession :=
  {| id := "s2"; userId := "u"; sourceId := "src"; date := "2024-03-02";
     startedAt := "2024-03-02T22:00:00.000Z";
     endedAt := "2024-03-03T07:00:00.000Z";
     durationSeconds := Some 32400; timeInBedSeconds := Some 32400;
     deepSeconds := Some 25200; remSeconds := Some 3600;
     lightSeconds := Some 3600; awakeSeconds := Some 0;
     sleepOnsetLatency := None; wakeAfterSleepOnset := None;
     efficiency := Some 100; avgHeartRate := Some 55;
     minHeartRate := Some 48; maxHeartRate := Some 70;
     avgHrv := Some 60; avgRespiratoryRate := Some 14;
     avgBedTempC := None; avgRoomTempC := None;
     dataQuality := defaultQualityFlags; vendorData := None |}.

Definition twoOutliers : SleepSession :=
  {| id := "s3"; userId := "u"; sourceId := "src"; date := "2024-03-03";
     startedAt := "2024-03-03T23:00:00.000Z";
     endedAt := "2024-03-04T07:00:00.000Z";
     durationSeconds := Some 27000; timeInBedSeconds := Some 28800;
     deepSeconds := Some 5400; remSeconds := Some 5400;
     lightSeconds := Some 16200; awakeSeconds := Some 1800;
     sleepOnsetLatency := None; wakeAfterSleepOnset := None;
     efficiency := Some 94; avgHeartRate := Some 55;
     minHeartRate := Some 48; maxHeartRate := Some 70;
     avgHrv := Some 120; avgRespiratoryRate := Some 25;
     avgBedTempC := None; avgRoomTempC := None;
     dataQuality := defaultQualityFlags; vendorData := None |}.

Definition calmBaseline : Baseline :=
  [ ("avgHrv", {| b_median := 50; b_mad := 5 |});
    ("avgRespiratoryRate", {| b_median := 14; b_mad := 1 |}) ].

End QualityPolicy.

(** ** What the parser of a file returns to the orchestrator

    [importFile] hands the file to one of three parsers: the Apple Health
    XML parser, the reader of pre-parsed Apple Health JSON, or the
    transformer of the profile.  [parserOutput] follows the same choice
    and gives the records that come back, the sleep sessions as they are
    handed to [deduplicateSessions]; it reads the position of the id
    generator and nothing of the store. *)

Module Parsed.
Import JsString Pipeline Orchestrator.
Local Open Scope string_scope.

Record ParserOutput := {
  po_sleepSessions : list SleepSession;
  po_workoutSessions : list obj;
  po_dailyMetrics : list obj;
  po_timeSeries : list obj
}.

Section WithHost.

Variable host : Host.

(** The Apple Health XML path: [parseAppleHealthXML] is called after one
    id has been drawn for the source; its sleep sessions are validated. *)
Definition appleXmlRecords (userId : string)
  (onProgress : option ProgressCallback) (content : string) (w : World)
  : option ParserOutput :=
  match runAppleParser host content (genId host (nextId w)) userId
          (fun percent message => reportPure onProgress transforming percent message)
          {| db := db w; nextId := S (nextId w) |} with
  | (inr appleResult, _) =>
      Some {| po_sleepSessions :=
                map validateSession (a_sleepSessions appleResult);
              po_workoutSessions := a_workoutSessions appleResult;
              po_dailyMetrics := a_dailyMetrics appleResult;
              po_timeSeries := [] |}
  | (inl _, _) => None
  end.

(** The pre-parsed path: the records of the file, stamped with the source
    and the user; the source id is the one of the file or a fresh one. *)
Definition preParsedSourceId (data : jsval) (w : World) : string :=
  match getKey "sourceId" data with
  | VStr s => if String.eqb s EmptyString then genId host (nextId w) else s
  | _ => genId host (nextId w)
  end.

Definition preParsedRecords (userId : string) (data : jsval) (w : World)
  : ParserOutput :=
  let sourceId := preParsedSourceId data w in
  {| po_sleepSessions :=
       map validateSession
           (map (stampSession sourceId userId)
                (arrayItems (getKey "sleepSessions" data)));
     po_workoutSessions :=
       map (stampObject sourceId userId)
           (arrayItems (getKey "workoutSessions" data));
     po_dailyMetrics :=
       map (stampObject sourceId userId)
           (if js_truthy (getKey "dailyMetrics" data)
            then arrayItems (getKey "dailyMetrics" data) else []);
     po_timeSeries := [] |}.

Definition emptyTally : Tally :=
  {| checked := []; goodCount := 0; warningCount := 0; badCount := 0;
     outlierWarnings := [] |}.

(** Steps 5 and 6 of the JSON and CSV branches: [transformData] is called
    after one id has been drawn for the source; its sleep sessions are
    validated and given their quality flags. *)
Definition genericRecords (userId : string) (importerProfile : ImporterProfile)
  (onProgress : option ProgressCallback) (parsedData : jsval) (w : World)
  : option ParserOutput :=
  match transformData host parsedData importerProfile
          (genId host (nextId w)) userId
          (fun processed total =>
             reportPure onProgress transforming
               (40 + (inject_Z (Z.of_nat processed) / inject_Z (Z.of_nat total)) * 30)
               ("Processing record " ++ ofNat processed ++ " of "
                  ++ ofNat total ++ "..."))
          {| db := db w; nextId := S (nextId w) |} with
  | (inr transformResult, _) =>
      Some {| po_sleepSessions :=
                checked (fold_left qualityStep
                           (map validateSession (t_sleepSessions transformResult))
                           emptyTally);
              po_workoutSessions := t_workoutSessions transformResult;
              po_dailyMetrics := [];
              po_timeSeries := t_timeSeries transformResult |}
  | (inl _, _) => None
  end.

Definition parserOutput (file : ImportFile) (userId : string)
  (profile : option ImporterProfile) (onProgress : option ProgressCallback)
  (w : World) : option ParserOutput :=
  let detection := detectFileType host file in
  match (match profile with
         | Some p => Some p
         | None => getBuiltInProfile (suggestedVendor detection)
         end) with
  | None => None
  | Some importerProfile =>
      let content := contentText file in
      match fileType detection, suggestedVendor detection with
      | ft_xml, apple_health => appleXmlRecords userId onProgress content w
      | ft_json, vendor =>
          match JSON_parse host content with
          | None => None
          | Some parsedData =>
              if vendor_eqb vendor apple_health
                 && isAppleHealthPreParsed parsedData
              then Some (preParsedRecords userId parsedData w)
              else genericRecords userId importerProfile onProgress parsedData w
          end
      | ft_csv, _ =>
          genericRecords userId importerProfile onProgress
            (VArr (map VObj (parseCsv content))) w
      | _, _ => None
      end
  end.

End WithHost.

(** *** Three exports of nights to run the import on

    Pre-parsed Apple Health exports with two nights each.  In the first
    the two sessions have ids of their own; in the second both carry the
    id [s1]; in the third the second night carries the id [a], which the
    store [oneNightWorld] already holds for an earlier, poorer record of
    the first night. *)

Definition nightText (id date duration : string) : string :=
  "{" ++ Demo.quoted "id" ++ ":" ++ Demo.quoted id ++ ","
      ++ Demo.quoted "date" ++ ":" ++ Demo.quoted date ++ ","
      ++ Demo.quoted "durationSeconds" ++ ":" ++ duration ++ "}".

Definition nightJson (id date : string) (duration : Q) : jsval :=
  VObj [("id", VStr id); ("date", VStr date);
        ("durationSeconds", VNum duration)].

Definition exportText (nights : string) : string :=
  "{" ++ Demo.quoted "sleepSessions" ++ ":[" ++ nights ++ "],"
      ++ Demo.quoted "workoutSessions" ++ ":[],"
      ++ Demo.quoted "sources" ++ ":[" ++ Demo.quoted "Watch" ++ "]}".

Definition exportJson (nights : list jsval) : jsval :=
  VObj [("sleepSessions", VArr nights); ("workoutSessions", VArr []);
        ("sources", VArr [VStr "Watch"])].

Definition twoNightsText : string :=
  exportText (nightText "s1" "2024-03-01" "27000" ++ ","
                ++ nightText "s2" "2024-03-02" "28800").
Definition twoNightsJson : jsval :=
  exportJson [nightJson "s1" "2024-03-01" 27000;
              nightJson "s2" "2024-03-02" 28800].

Definition repeatedIdText : string :=
  exportText (nightText "s1" "2024-03-01" "27000" ++ ","
                ++ nightText "s1" "2024-03-02" "28800").
Definition repeatedIdJson : jsval :=
  exportJson [nightJson "s1" "2024-03-01" 27000;
              nightJson "s1" "2024-03-02" 28800].

Definition storedIdText : string :=
  exportText (nightText "b" "2024-03-01" "27000" ++ ","
                ++ nightText "a" "2024-03-02" "28800").
Definition storedIdJson : jsval :=
  exportJson [nightJson "b" "2024-03-01" 27000;
              nightJson "a" "2024-03-02" 28800].

(** [Demo.demoHost] with a [JSON.parse] that knows the three exports. *)
Definition nightsHost : Host :=
  {| JSON_parse := fun s =>
       if String.eqb s twoNightsText then Some twoNightsJson
       else if String.eqb s repeatedIdText then Some repeatedIdJson
       else if String.eqb s storedIdText then Some storedIdJson
       else None;
     sha256 := sha256 Demo.demoHost;
     genId := genId Demo.demoHost;
     now := now Demo.demoHost;
     storageFault := storageFault Demo.demoHost;
     parseAppleHealthXML := parseAppleHealthXML Demo.demoHost;
     transformEightSleep := transformEightSleep Demo.demoHost;
     transformOrangetheory := transformOrangetheory Demo.demoHost;
     transformGeneric := transformGeneric Demo.demoHost |}.

Definition twoNightsFile : ImportFile :=
  Demo.textFile "nights.json" twoNightsText.
Definition repeatedIdFile : ImportFile :=
  Demo.textFile "repeated.json" repeatedIdText.
Definition storedIdFile : ImportFile :=
  Demo.textFile "stored.json" storedIdText.

(** A class export of Orangetheory in CSV; the parsers of [Demo.demoHost]
    find no record in it. *)
Definition classesText : string :=
  "date,calories,splat points" ++ String newline "2024-03-01,512,14".

Definition classesFile : ImportFile := Demo.textFile "classes.csv" classesText.

(** A store that holds one record of the user for the first night, under
    the id [a] and without a duration. *)
Definition oneNightWorld : World :=
  {| db := {| sources := [];
              sleepSessions :=
                [stampSession "src0" "u"
                   (VObj [("id", VStr "a"); ("date", VStr "2024-03-01")])];
              workoutSessions := []; dailyMetrics := []; timeSeries := [] |};
     nextId := 0 |}.

End Parsed.

(** * Properties *)

(** ** Robust statistics ([insights/dataQuality.ts]) *)

Lemma Qltb_lt a b : Qltb a b = true <-> a < b.
Proof.
  unfold Qltb. rewrite negb_true_iff.
  split; intro H.
  - apply Qnot_le_lt. intro Hle. apply Qle_bool_iff in Hle. congruence.
  - destruct (Qle_bool b a) eqn:E; [|reflexivity].
    apply Qle_bool_iff in E. exfalso. eapply Qlt_not_le; eauto.
Qed.

Lemma Qltb_ge a b : Qltb a b = false <-> b <= a.
Proof.
  unfold Qltb. rewrite negb_false_iff. apply Qle_bool_iff.
Qed.

Module StatisticsFacts.
Import DataQuality.

(** *** Sorting *)

Lemma insert_length x l : length (insert x l) = S (length l).
Proof.
  induction l as [|y l IH]; simpl; [reflexivity|].
  destruct (Qle_bool x y); simpl; congruence.
Qed.

Lemma sort_length l : length (sort l) = length l.
Proof.
  induction l as [|x l IH]; simpl; [reflexivity|].
  rewrite insert_length. congruence.
Qed.

Lemma insert_Forall (P : Q -> Prop) x l :
  P x -> Forall P l -> Forall P (insert x l).
Proof.
  intros Hx Hl. induction Hl as [|y l Hy Hl IH]; simpl.
  - constructor; auto.
  - destruct (Qle_bool x y); repeat constructor; auto.
Qed.

Lemma sort_Forall (P : Q -> Prop) l : Forall P l -> Forall P (sort l).
Proof.
  induction 1; simpl; [constructor|]. apply insert_Forall; auto.
Qed.

(** An element above everything already sorted goes last. *)
Lemma insert_last x l :
  Forall (fun y => y < x) l -> insert x l = l ++ [x].
Proof.
  induction 1 as [|y l Hy Hl IH]; simpl; [reflexivity|].
  destruct (Qle_bool x y) eqn:E.
  - apply Qle_bool_iff in E. exfalso. eapply Qlt_not_le; eauto.
  - now rewrite IH.
Qed.

Lemma insert_app_last x o l :
  x < o -> insert x (l ++ [o]) = insert x l ++ [o].
Proof.
  intros Hxo. induction l as [|y l IH]; simpl.
  - assert (E : Qle_bool x o = true) by (apply Qle_bool_iff; now apply Qlt_le_weak).
    now rewrite E.
  - destruct (Qle_bool x y); simpl; [reflexivity|]. now rewrite IH.
Qed.

Lemma sort_top_outlier pre post o :
  Forall (fun y => y < o) (pre ++ post) ->
  sort (pre ++ o :: post) = sort (pre ++ post) ++ [o].
Proof.
  induction pre as [|x pre IH]; simpl; intros H.
  - apply insert_last. now apply sort_Forall.
  - inversion H as [|? ? Hx Hrest]; subst.
    rewrite IH by assumption. now apply insert_app_last.
Qed.

(** An element below everything already sorted goes first. *)
Lemma insert_first x l :
  Forall (fun y => x < y) l -> insert x l = x :: l.
Proof.
  destruct 1 as [|y l Hy Hl]; simpl; [reflexivity|].
  assert (E : Qle_bool x y = true) by (apply Qle_bool_iff; now apply Qlt_le_weak).
  now rewrite E.
Qed.

Lemma insert_after_first x o l :
  o < x -> insert x (o :: l) = o :: insert x l.
Proof.
  intros H. simpl. destruct (Qle_bool x o) eqn:E; [|reflexivity].
  apply Qle_bool_iff in E. exfalso. eapply Qlt_not_le; eauto.
Qed.

Lemma sort_bottom_outlier pre post o :
  Forall (fun y => o < y) (pre ++ post) ->
  sort (pre ++ o :: post) = o :: sort (pre ++ post).
Proof.
  induction pre as [|x pre IH]; simpl; intros H.
  - apply insert_first. now apply sort_Forall.
  - inversion H as [|? ? Hx Hrest]; subst.
    rewrite IH by assumption. now apply insert_after_first.
Qed.

(** *** The median *)

Lemma median_cons x l :
  median (x :: l) =
    let sorted := sort (x :: l) in
    let mid := (length sorted / 2)%nat in
    if Nat.eqb (length sorted mod 2) 0
    then (nth (mid - 1) sorted 0 + nth mid sorted 0) / 2
    else nth mid sorted 0.
Proof. reflexivity. Qed.

Lemma middle_inhabited {A} (pre post : list A) (o : A) :
  exists x l, pre ++ o :: post = x :: l.
Proof. destruct pre; simpl; eauto. Qed.

Lemma half_bounds n :
  (2 <= n)%nat ->
  ((S n / 2 < n)%nat /\ (1 <= S n / 2)%nat
   /\ (S n mod 2 = 0 -> (2 <= S n / 2)%nat))%nat.
Proof.
  intros Hn.
  pose proof (Nat.div_mod_eq (S n) 2) as E.
  pose proof (Nat.mod_upper_bound (S n) 2 ltac:(lia)) as B.
  repeat split; try lia.
Qed.

Lemma median_top_outlier pre post o1 o2 :
  (2 <= length (pre ++ post))%nat ->
  Forall (fun y => y < o1) (pre ++ post) ->
  Forall (fun y => y < o2) (pre ++ post) ->
  median (pre ++ o1 :: post) = median (pre ++ o2 :: post).
Proof.
  intros Hlen H1 H2.
  destruct (middle_inhabited pre post o1) as (x1 & l1 & E1).
  destruct (middle_inhabited pre post o2) as (x2 & l2 & E2).
  rewrite E1, E2, !median_cons, <- E1, <- E2. cbv zeta.
  rewrite !sort_top_outlier by assumption.
  rewrite !length_app, !sort_length. simpl length.
  replace (length (pre ++ post) + 1)%nat with (S (length (pre ++ post))) by lia.
  destruct (half_bounds _ Hlen) as (Hlt & _ & _).
  rewrite !app_nth1 by (rewrite sort_length; lia).
  reflexivity.
Qed.

Lemma median_bottom_outlier pre post o1 o2 :
  (2 <= length (pre ++ post))%nat ->
  Forall (fun y => o1 < y) (pre ++ post) ->
  Forall (fun y => o2 < y) (pre ++ post) ->
  median (pre ++ o1 :: post) = median (pre ++ o2 :: post).
Proof.
  intros Hlen H1 H2.
  destruct (middle_inhabited pre post o1) as (x1 & l1 & E1).
  destruct (middle_inhabited pre post o2) as (x2 & l2 & E2).
  rewrite E1, E2, !median_cons, <- E1, <- E2. cbv zeta.
  rewrite !sort_bottom_outlier by assumption.
  simpl length. rewrite !sort_length.
  destruct (half_bounds _ Hlen) as (_ & Hge & Heven).
  destruct (Nat.eqb (S (length (pre ++ post)) mod 2) 0) eqn:Ev.
  - apply Nat.eqb_eq in Ev. specialize (Heven Ev).
    destruct (S (length (pre ++ post)) / 2)%nat as [|[|m]]; try lia.
    reflexivity.
  - destruct (S (length (pre ++ post)) / 2)%nat as [|m]; try lia.
    reflexivity.
Qed.

(** Sorting two permutations of a sample gives the same order statistics. *)
Lemma insert_Qeq x s1 s2 :
  Forall2 Qeq s1 s2 -> Forall2 Qeq (insert x s1) (insert x s2).
Proof.
  induction 1 as [|y1 y2 s1 s2 Hy Hs IH]; simpl.
  - constructor; [reflexivity | constructor].
  - assert (E : Qle_bool x y1 = Qle_bool x y2).
    { apply eq_true_iff_eq. rewrite !Qle_bool_iff. now rewrite Hy. }
    rewrite E. destruct (Qle_bool x y2).
    + constructor; [reflexivity|]. now constructor.
    + now constructor.
Qed.

Lemma Forall2_Qeq_refl l : Forall2 Qeq l l.
Proof. induction l; constructor; auto. reflexivity. Qed.

Lemma Forall2_Qeq_trans l1 l2 l3 :
  Forall2 Qeq l1 l2 -> Forall2 Qeq l2 l3 -> Forall2 Qeq l1 l3.
Proof.
  intros H; revert l3.
  induction H as [|a b l1 l2 Hab H IH]; intros l3 H3; inversion H3; subst.
  - constructor.
  - constructor; [etransitivity; eauto | auto].
Qed.

Lemma Qle_bool_false x y : Qle_bool x y = false -> Qle_bool y x = true.
Proof.
  intros H. apply Qle_bool_iff.
  destruct (Qlt_le_dec y x) as [L|L]; [now apply Qlt_le_weak|].
  apply Qle_bool_iff in L. congruence.
Qed.

Lemma Qle_bool_trans_false x y z :
  Qle_bool y z = true -> Qle_bool x z = false -> Qle_bool x y = false.
Proof.
  intros Hyz Hxz. destruct (Qle_bool x y) eqn:E; [|reflexivity].
  apply Qle_bool_iff in E, Hyz.
  assert (H : x <= z) by (eapply Qle_trans; eauto).
  apply Qle_bool_iff in H. congruence.
Qed.

Lemma insert_swap x y s :
  Forall2 Qeq (insert x (insert y s)) (insert y (insert x s)).
Proof.
  induction s as [|z s IH]; simpl.
  - destruct (Qle_bool x y) eqn:Exy, (Qle_bool y x) eqn:Eyx;
      simpl; rewrite ?Exy, ?Eyx; try apply Forall2_Qeq_refl.
    + apply Qle_bool_iff in Exy, Eyx.
      assert (x == y) by now apply Qle_antisym.
      repeat constructor; [assumption | now symmetry].
    + apply Qle_bool_false in Exy. congruence.
  - destruct (Qle_bool y z) eqn:Eyz, (Qle_bool x z) eqn:Exz; simpl.
    + destruct (Qle_bool x y) eqn:Exy, (Qle_bool y x) eqn:Eyx;
        simpl; rewrite ?Exz, ?Eyz; try apply Forall2_Qeq_refl.
      * apply Qle_bool_iff in Exy, Eyx.
        assert (x == y) by now apply Qle_antisym.
        constructor; [assumption|]. constructor; [now symmetry|].
        apply Forall2_Qeq_refl.
      * apply Qle_bool_false in Exy. congruence.
    + rewrite (Qle_bool_trans_false _ _ _ Eyz Exz), Exz, Eyz.
      apply Forall2_Qeq_refl.
    + rewrite (Qle_bool_trans_false _ _ _ Exz Eyz), Exz, Eyz.
      apply Forall2_Qeq_refl.
    + rewrite Exz, Eyz. constructor; [reflexivity | apply IH].
Qed.

Lemma sort_Permutation l1 l2 :
  Permutation l1 l2 -> Forall2 Qeq (sort l1) (sort l2).
Proof.
  induction 1; simpl.
  - constructor.
  - now apply insert_Qeq.
  - apply insert_swap.
  - eapply Forall2_Qeq_trans; eauto.
Qed.

Lemma Forall2_Qeq_nth l1 l2 k :
  Forall2 Qeq l1 l2 -> nth k l1 0 == nth k l2 0.
Proof.
  intros H; revert k.
  induction H; intros [|k]; simpl; auto; reflexivity.
Qed.

Lemma median_Permutation l1 l2 :
  Permutation l1 l2 -> median l1 == median l2.
Proof.
  intros HP.
  pose proof (sort_Permutation _ _ HP) as HS.
  pose proof (Permutation_length HP) as HL.
  destruct l1 as [|x1 l1], l2 as [|x2 l2]; try discriminate; [reflexivity|].
  rewrite !median_cons. cbv zeta.
  rewrite !sort_length, HL.
  destruct (Nat.eqb (length (x2 :: l2) mod 2) 0).
  - rewrite (Forall2_Qeq_nth _ _ (length (x2 :: l2) / 2 - 1) HS).
    rewrite (Forall2_Qeq_nth _ _ (length (x2 :: l2) / 2) HS). reflexivity.
  - apply Forall2_Qeq_nth, HS.
Qed.

(** *** Constant samples *)

Lemma median_const c l :
  l <> [] -> Forall (fun x => x == c) l -> median l == c.
Proof.
  intros Hne Hall. destruct l as [|x l]; [congruence|].
  rewrite median_cons. cbv zeta.
  pose proof (sort_Forall _ _ Hall) as HS.
  rewrite Forall_nth in HS.
  assert (Hlen : (0 < length (sort (x :: l)))%nat)
    by (rewrite sort_length; simpl; lia).
  assert (Hmid : (length (sort (x :: l)) / 2 < length (sort (x :: l)))%nat)
    by (apply Nat.div_lt; lia).
  destruct (Nat.eqb (length (sort (x :: l)) mod 2) 0).
  - rewrite (HS (length (sort (x :: l)) / 2 - 1)%nat 0) by lia.
    rewrite (HS (length (sort (x :: l)) / 2)%nat 0) by lia.
    field.
  - apply HS. lia.
Qed.

Lemma mad_const c l :
  l <> [] -> Forall (fun x => x == c) l -> medianAbsoluteDeviation l == 0.
Proof.
  intros Hne Hall.
  pose proof (median_const c l Hne Hall) as Hmed.
  destruct l as [|x l]; [congruence|].
  unfold medianAbsoluteDeviation.
  apply median_const; [discriminate|].
  apply Forall_map. eapply Forall_impl; [|exact Hall].
  intros v Hv. cbv beta. rewrite Hv, Hmed.
  setoid_replace (c - c) with 0 by ring. reflexivity.
Qed.

Lemma robustZScore_zero_mad v m mad : mad == 0 -> robustZScore v m mad = 0.
Proof.
  intros H. unfold robustZScore.
  apply Qeq_bool_iff in H. now rewrite H.
Qed.

Lemma robustZScore_nonzero_mad v m mad :
  ~ mad == 0 ->
  robustZScore v m mad = (v - m) / (mad / (6745 # 10000))
  /\ ~ mad / (6745 # 10000) == 0.
Proof.
  intros H. unfold robustZScore. split.
  - destruct (Qeq_bool mad 0) eqn:E; [|reflexivity].
    apply Qeq_bool_iff in E. contradiction.
  - intros E. apply H.
    setoid_replace mad with (mad / (6745 # 10000) * (6745 # 10000)) by field.
    rewrite E. ring.
Qed.

(** *** The mean reported by [calculateBaseline] *)

Lemma fold_Qplus_acc l a : fold_left Qplus l a == a + fold_left Qplus l 0.
Proof.
  revert a. induction l as [|x l IH]; intros a; simpl.
  - ring.
  - rewrite IH, (IH (0 + x)). ring.
Qed.

Lemma sum_middle pre post o : sum (pre ++ o :: post) == sum (pre ++ post) + o.
Proof.
  unfold sum. rewrite !fold_left_app. simpl.
  rewrite fold_Qplus_acc, (fold_Qplus_acc post (fold_left Qplus pre 0)). ring.
Qed.

Lemma baseline_mean sqrt x l metric thr :
  mb_mean (calculateBaseline sqrt (x :: l) metric false thr)
  = sum (x :: l) / inject_Z (Z.of_nat (length (x :: l))).
Proof. reflexivity. Qed.

Lemma mean_shift sqrt pre post o1 o2 metric thr :
  mb_mean (calculateBaseline sqrt (pre ++ o2 :: post) metric false thr)
  - mb_mean (calculateBaseline sqrt (pre ++ o1 :: post) metric false thr)
  == (o2 - o1) / inject_Z (Z.of_nat (S (length (pre ++ post)))).
Proof.
  destruct (middle_inhabited pre post o1) as (x1 & l1 & E1).
  destruct (middle_inhabited pre post o2) as (x2 & l2 & E2).
  rewrite E1, E2, !baseline_mean, <- E1, <- E2.
  rewrite !sum_middle.
  assert (L : forall o, length (pre ++ o :: post) = S (length (pre ++ post))).
  { intros o. rewrite !length_app. simpl. lia. }
  rewrite !L.
  assert (N : ~ inject_Z (Z.of_nat (S (length (pre ++ post)))) == 0).
  { intros E. unfold Qeq in E. simpl in E. lia. }
  field. exact N.
Qed.

End StatisticsFacts.

Module QualityCheckFacts.
Import DataQuality StatisticsFacts.

(** *** The per-session check *)

Lemma runChecks_spec cs viol missing :
  runChecks cs viol missing
  = (viol ++ flat_map violationsOf cs, missing ++ flat_map missingOf cs).
Proof.
  revert viol missing.
  induction cs as [|c cs IH]; intros viol missing; simpl.
  - now rewrite !app_nil_r.
  - unfold violationsOf, missingOf.
    destruct (c_value c) as [v|] eqn:Ev.
    + destruct (checkHardLimits (Some v) (c_field c) (c_limitKey c));
        rewrite IH; simpl; now rewrite <- ?app_assoc.
    + simpl. rewrite IH.
      destruct (c_required c); simpl; now rewrite <- ?app_assoc.
Qed.

Lemma stageChecks_extends s viol :
  exists extra, stageChecks s viol = viol ++ extra.
Proof.
  unfold stageChecks.
  destruct (num_add _ _) as [t|]; [|exists []; now rewrite app_nil_r].
  destruct (deepSeconds s) as [d|]; [|exists []; now rewrite app_nil_r].
  destruct (remSeconds s) as [r|]; [|exists []; now rewrite app_nil_r].
  destruct (Qltb 0 t); [|exists []; now rewrite app_nil_r].
  unfold opt_push.
  destruct (checkHardLimits _ "deepPercent" _), (checkHardLimits _ "remPercent" _);
    eexists; rewrite <- ?app_assoc; try reflexivity.
  now rewrite app_nil_r.
Qed.

Lemma report_fields s b thr :
  let r := checkSleepSessionQuality s b thr in
  hardLimitViolations r
    = stageChecks s (flat_map violationsOf (checks s))
  /\ missingFields r = flat_map missingOf (checks s)
  /\ r_isComplete r = Nat.eqb (length (missingFields r)) 0
  /\ (overallQuality r, suggestedAction r)
     = policy_from_spec (length (hardLimitViolations r))
         (length (r_outlierFields r)) (negb (r_isComplete r)).
Proof.
  unfold checkSleepSessionQuality.
  rewrite runChecks_spec. cbv beta iota zeta delta [app].
  set (viol := stageChecks s _).
  set (outl := match b with Some _ => _ | None => _ end).
  set (miss := flat_map missingOf (checks s)).
  unfold policy_from_spec.
  destruct viol as [|v viol]; destruct outl as [|o1 [|o2 outl]];
    destruct (length miss =? 0)%nat eqn:Em; simpl; rewrite ?Em;
    repeat split; reflexivity.
Qed.

Lemma missing_iff_duration s :
  flat_map missingOf (checks s) = [] <-> durationSeconds s <> None.
Proof.
  unfold checks, missingOf; simpl.
  destruct (minHeartRate s), (avgHeartRate s), (maxHeartRate s), (avgHrv s),
    (avgRespiratoryRate s), (avgBedTempC s), (avgRoomTempC s);
    destruct (durationSeconds s); simpl; split; congruence.
Qed.

Lemma hrv_violation s q :
  avgHrv s = Some q -> 300 < q ->
  exists v, In v (flat_map violationsOf (checks s)) /\ v_field v = "avgHrv"%string
            /\ v_violation v = above_max.
Proof.
  intros E Hq.
  eexists. split.
  - apply in_flat_map. eexists. split.
    + unfold checks. do 3 right. left. reflexivity.
    + unfold violationsOf. cbn [c_value c_field c_limitKey]. rewrite E.
      unfold checkHardLimits. cbn [HARD_LIMITS lmin lmax].
      assert (A : Qltb q 5 = false) by (apply Qltb_ge; lra).
      assert (B : Qltb 300 q = true) by (apply Qltb_lt; lra).
      rewrite A, B. left. reflexivity.
  - split; reflexivity.
Qed.

End QualityCheckFacts.

Module DataQualityTheorems.
Import DataQuality StatisticsFacts QualityCheckFacts.

(** C10. The statistics primitives are total on the empty sample:
    [median], [medianAbsoluteDeviation] and [percentile] return 0, and
    [calculateBaseline] returns the all-zero baseline with sample size 0
    and no exclusions, whatever the other arguments are. *)
Theorem C10_statistics_on_empty_input
  (Math_sqrt : Q -> Q) (metric : string) (excludeOutliers : bool) (p thr : Q) :
  median [] = 0
  /\ medianAbsoluteDeviation [] = 0
  /\ percentile [] p = 0
  /\ calculateBaseline Math_sqrt [] metric excludeOutliers thr
     = {| DataQuality.metric := metric; mb_median := 0; mb_mad := 0;
          mb_mean := 0; stdDev := 0; low := 0; high := 0; p25 := 0; p75 := 0;
          sampleSize := 0; excludedCount := 0 |}.
Proof. repeat split; reflexivity. Qed.

(** C5 as stated fails on a sample with a single other value: the two
    samples below have their outlier at the same (top) rank and different
    medians. *)
Lemma C5_counterexample :
  ~ (forall (xs : list Q) (o1 o2 : Q),
       Forall (fun y => y < o1) xs -> Forall (fun y => y < o2) xs ->
       median (xs ++ [o1]) == median (xs ++ [o2])).
Proof.
  intros H.
  specialize (H [1] 100 1000).
  assert (A : Forall (fun y => y < 100) [1]) by (repeat constructor).
  assert (B : Forall (fun y => y < 1000) [1]) by (repeat constructor).
  specialize (H A B). vm_compute in H. discriminate.
Qed.

(** C5 (amended). [robustZScore] is [(value - median) / (mad / 0.6745)]
    when [mad] is not zero (and then the divisor is not zero), and 0 when
    [mad] is zero; on a constant non-empty sample the MAD is 0 and every
    robust z-score is 0; the median is the same for every reordering of the
    sample; when one value above (or below) all others is injected into a
    sample of at least two other values, the median does not depend on that
    value's magnitude; and the mean reported by [calculateBaseline]
    (outlier exclusion off) moves by the change of that value divided by
    the sample size. *)
Theorem C5_robust_statistics :
  (forall v m mad, ~ mad == 0 ->
     robustZScore v m mad = (v - m) / (mad / (6745 # 10000))
     /\ ~ mad / (6745 # 10000) == 0)
  /\ (forall v m mad, mad == 0 -> robustZScore v m mad = 0)
  /\ (forall c l, l <> [] -> Forall (fun x => x == c) l ->
        medianAbsoluteDeviation l == 0
        /\ forall v, robustZScore v (median l) (medianAbsoluteDeviation l) = 0)
  /\ (forall l1 l2, Permutation l1 l2 -> median l1 == median l2)
  /\ (forall pre post o1 o2, (2 <= length (pre ++ post))%nat ->
        Forall (fun y => y < o1) (pre ++ post) ->
        Forall (fun y => y < o2) (pre ++ post) ->
        median (pre ++ o1 :: post) = median (pre ++ o2 :: post))
  /\ (forall pre post o1 o2, (2 <= length (pre ++ post))%nat ->
        Forall (fun y => o1 < y) (pre ++ post) ->
        Forall (fun y => o2 < y) (pre ++ post) ->
        median (pre ++ o1 :: post) = median (pre ++ o2 :: post))
  /\ (forall Math_sqrt pre post o1 o2 metric thr,
        mb_mean (calculateBaseline Math_sqrt (pre ++ o2 :: post) metric false thr)
        - mb_mean (calculateBaseline Math_sqrt (pre ++ o1 :: post) metric false thr)
        == (o2 - o1) / inject_Z (Z.of_nat (S (length (pre ++ post))))).
Proof.
  split; [exact robustZScore_nonzero_mad|].
  split; [exact robustZScore_zero_mad|].
  split.
  { intros c l Hne Hall. pose proof (mad_const c l Hne Hall) as Hm.
    split; [exact Hm|]. intros v. now apply robustZScore_zero_mad. }
  split; [exact median_Permutation|].
  split; [exact median_top_outlier|].
  split; [exact median_bottom_outlier|].
  exact mean_shift.
Qed.

Lemma C5_witness :
  median ([1; 2] ++ 100 :: [3]) = median ([1; 2] ++ 1000 :: [3])
  /\ medianAbsoluteDeviation [7; 7; 7] == 0.
Proof.
  split.
  - apply (proj1 (proj2 (proj2 (proj2 (proj2 C5_robust_statistics))))
             [1; 2] [3] 100 1000).
    + simpl; lia.
    + repeat constructor.
    + repeat constructor.
  - apply (proj1 (proj2 (proj2 C5_robust_statistics)) 7 [7; 7; 7]).
    + discriminate.
    + repeat constructor; reflexivity.
Defined.

End DataQualityTheorems.

(** ** The wearable session parser ([importers/eightSleep.ts]) *)

Module EightSleepFacts.
Import EightSleep.

Ltac stage_case n name :=
  let E := fresh "E" in
  destruct (String.eqb n name) eqn:E;
  [apply String.eqb_eq in E; subst n; simpl; repeat split; reflexivity|].

(** Each bucket is the running sum of the durations carrying its name. *)
Lemma stage_buckets l t :
  let r := fold_left addStage l t in
  awake r = fold_left Qplus (named "awake" l) (awake t)
  /\ light r = fold_left Qplus (named "light" l) (light t)
  /\ deep r = fold_left Qplus (named "deep" l) (deep t)
  /\ rem r = fold_left Qplus (named "rem" l) (rem t)
  /\ out r = fold_left Qplus (named "out" l) (out t).
Proof.
  revert t. induction l as [|s l IH]; intros t; simpl.
  - repeat split; reflexivity.
  - specialize (IH (addStage t s)). cbv zeta in IH.
    destruct IH as (Ha & Hl & Hd & Hr & Ho).
    rewrite Ha, Hl, Hd, Hr, Ho. clear Ha Hl Hd Hr Ho.
    unfold named, addStage. simpl filter.
    set (n := stage s). clearbody n.
    stage_case n "awake"%string. stage_case n "light"%string.
    stage_case n "deep"%string. stage_case n "rem"%string.
    stage_case n "out"%string.
    repeat split; reflexivity.
Qed.

Lemma transformRawSession_fields tz raw src usr i fid s :
  transformRawSession tz raw src usr i fid = Some s ->
  exists rawStages,
    stages raw = Some rawStages /\ rawStages <> [] /\
    let t := fold_left addStage rawStages
               {| awake := 0; light := 0; deep := 0; rem := 0; out := 0 |} in
    let sleep := light t + deep t + rem t in
    let start := JsDate.timeClip (ts raw * 1000) in
    3 * 60 * 60 <= sleep
    /\ durationSeconds s = Some sleep
    /\ timeInBedSeconds s = Some (sleep + awake t)
    /\ deepSeconds s = Some (deep t) /\ remSeconds s = Some (rem t)
    /\ lightSeconds s = Some (light t) /\ awakeSeconds s = Some (awake t)
    /\ efficiency s
       = (if Qltb 0 (sleep + awake t)
          then Some (sleep / (sleep + awake t) * 100) else None)
    /\ date s
       = JsDate.isoDate
           (if (JsDate.getHours tz start <? 6)%Z
            then JsDate.previousLocalDay start else start).
Proof.
  unfold transformRawSession.
  destruct (stages raw) as [[|st rest]|] eqn:Es; try discriminate.
  set (t := fold_left addStage (st :: rest) _).
  destruct (Qltb (light t + deep t + rem t) (3 * 60 * 60)) eqn:Eshort;
    [discriminate|].
  intros H. inversion H; subst s; clear H.
  exists (st :: rest). split; [reflexivity|]. split; [discriminate|].
  cbv zeta. fold t. apply Qltb_ge in Eshort.
  repeat split; try reflexivity. exact Eshort.
Qed.

Lemma transformRawSession_short tz raw src usr i fid rawStages :
  stages raw = Some rawStages ->
  (let t := fold_left addStage rawStages
              {| awake := 0; light := 0; deep := 0; rem := 0; out := 0 |} in
   light t + deep t + rem t < 3 * 60 * 60) ->
  transformRawSession tz raw src usr i fid = None.
Proof.
  intros Es Hshort. unfold transformRawSession. rewrite Es.
  destruct rawStages; [reflexivity|].
  cbv zeta in Hshort. apply Qltb_lt in Hshort. now rewrite Hshort.
Qed.

(** C6, evaluated.  On a host whose local time is UTC the session of
    scenario B gets the stated durations, efficiency and date.  On a host
    at UTC-5 the same night, started at 23:00 local time on 2024-03-01
    (local hour 23, local calendar date 2024-03-01), is dated 2024-03-02:
    the date is cut from the UTC rendering of the start. *)
Theorem C6_night_of_date_follows_utc :
  (exists s,
     transformRawSession 0 scenarioB "src" "user" 0 "id-1" = Some s
     /\ durationSeconds s = Some 13500
     /\ timeInBedSeconds s = Some 13800
     /\ (exists e, efficiency s = Some e /\ (978 # 10) <= e /\ e < (979 # 10))
     /\ date s = "2024-03-01"%string)
  /\ JsDate.getHours utcMinus5 (JsDate.timeClip (ts scenarioB_west * 1000)) = 23%Z
  /\ JsDate.isoDate (JsDate.timeClip (ts scenarioB_west * 1000) + utcMinus5)
     = "2024-03-01"%string
  /\ (exists s,
        transformRawSession utcMinus5 scenarioB_west "src" "user" 0 "id-1" = Some s
        /\ durationSeconds s = Some 13500
        /\ date s = "2024-03-02"%string).
Proof.
  split.
  { eexists. split; [vm_compute; reflexivity|].
    cbn [durationSeconds timeInBedSeconds efficiency date].
    repeat split; try reflexivity.
    eexists. split; [reflexivity|]. split; vm_compute; congruence. }
  split; [vm_compute; reflexivity|].
  split; [vm_compute; reflexivity|].
  eexists. split; [vm_compute; reflexivity|].
  split; reflexivity.
Qed.

End EightSleepFacts.

(** *** Facts about [Map] *)

Section MapFacts.
Context {V : Type}.
Implicit Types (m : Map V) (k : string) (v : V).

Lemma Map_get_set_same k v m : Map_get k (Map_set k v m) = Some v.
Proof.
  induction m as [|[k' v'] m IH]; simpl.
  - now rewrite String.eqb_refl.
  - destruct (String.eqb k k') eqn:E; simpl; rewrite ?String.eqb_refl, ?E; auto.
Qed.

Lemma Map_get_set_other k k' v m :
  k <> k' -> Map_get k (Map_set k' v m) = Map_get k m.
Proof.
  intros Hne. apply String.eqb_neq in Hne.
  induction m as [|[k0 v0] m IH]; simpl.
  - now rewrite Hne.
  - destruct (String.eqb k' k0) eqn:E; simpl.
    + apply String.eqb_eq in E; subst k0. now rewrite Hne.
    + destruct (String.eqb k k0); auto.
Qed.

Lemma Map_set_keys_present k v m w :
  Map_get k m = Some w -> map fst (Map_set k v m) = map fst m.
Proof.
  induction m as [|[k0 v0] m IH]; simpl; [discriminate|].
  destruct (String.eqb k k0) eqn:E; simpl.
  - apply String.eqb_eq in E; subst. reflexivity.
  - intros H. now rewrite IH.
Qed.

Lemma Map_set_keys_absent k v m :
  Map_get k m = None -> map fst (Map_set k v m) = map fst m ++ [k].
Proof.
  induction m as [|[k0 v0] m IH]; simpl; [reflexivity|].
  destruct (String.eqb k k0) eqn:E; [discriminate|].
  intros H. simpl. now rewrite IH.
Qed.

Lemma Map_get_None_keys k m : Map_get k m = None <-> ~ In k (map fst m).
Proof.
  induction m as [|[k0 v0] m IH]; simpl.
  - tauto.
  - destruct (String.eqb k k0) eqn:E.
    + apply String.eqb_eq in E. subst. split; [discriminate | tauto].
    + apply String.eqb_neq in E. rewrite IH. split; [|tauto].
      intros H [H'|H']; [congruence | tauto].
Qed.

Lemma Map_get_In k v m : Map_get k m = Some v -> In (k, v) m.
Proof.
  induction m as [|[k0 v0] m IH]; simpl; [discriminate|].
  destruct (String.eqb k k0) eqn:E.
  - apply String.eqb_eq in E. intros H; inversion H; subst. now left.
  - auto.
Qed.

Lemma Map_In_get k v m : NoDup (map fst m) -> In (k, v) m -> Map_get k m = Some v.
Proof.
  induction m as [|[k0 v0] m IH]; simpl; [tauto|].
  intros Hnd [H|H].
  - inversion H; subst. now rewrite String.eqb_refl.
  - inversion Hnd as [|? ? Hnot Hnd']; subst.
    destruct (String.eqb k k0) eqn:E.
    + apply String.eqb_eq in E. subst. exfalso. apply Hnot.
      change k0 with (fst (k0, v)). now apply in_map.
    + auto.
Qed.

End MapFacts.

Module MergeFacts.
Import Pipeline.

(** *** Completeness and merge *)

Lemma num_gt_truthy x : num_gt x 0 = true -> truthy x = true.
Proof.
  destruct x as [v|]; simpl; [|discriminate].
  intros H. apply Qltb_lt in H. apply negb_true_iff.
  destruct (Qeq_bool v 0) eqn:E; [|reflexivity].
  apply Qeq_bool_iff in E. rewrite E in H. exfalso. now apply (Qlt_irrefl 0).
Qed.

Lemma num_or_score a b :
  truthy a && num_gt a 0 = true ->
  truthy (num_or a b) && num_gt (num_or a b) 0 = true.
Proof.
  intros H. apply andb_true_iff in H as [Ht Hg].
  unfold num_or. now rewrite Ht, Ht, Hg.
Qed.

Lemma num_or_gt_true a b :
  num_gt a 0 = true -> num_gt (num_or a b) 0 = true.
Proof.
  intros H. unfold num_or. now rewrite (num_gt_truthy _ H).
Qed.

(** Merging never lowers the completeness of the base. *)
Lemma merge_score_base existing incoming :
  (getSessionCompleteness (baseOf existing incoming)
   <= getSessionCompleteness (mergeSessions existing incoming))%nat.
Proof.
  unfold baseOf, mergeSessions.
  set (base := if (_ <=? _)%nat then existing else incoming).
  set (supp := if (_ <=? _)%nat then incoming else existing).
  unfold getSessionCompleteness.
  cbn [durationSeconds deepSeconds remSeconds lightSeconds awakeSeconds
       minHeartRate avgHrv efficiency avgRespiratoryRate avgBedTempC].
  assert (G : forall a b n m k,
             (n <= m)%nat ->
             ((if num_gt a 0 then n + k else n)
              <= (if num_gt (num_or a b) 0 then m + k else m))%nat).
  { intros a b n m k Hnm. destruct (num_gt a 0) eqn:E.
    - rewrite (num_or_gt_true _ b E). lia.
    - destruct (num_gt (num_or a b) 0); lia. }
  assert (T : forall a b n m k,
             (n <= m)%nat ->
             ((if truthy a && num_gt a 0 then n + k else n)
              <= (if truthy (num_or a b) && num_gt (num_or a b) 0
                  then m + k else m))%nat).
  { intros a b n m k Hnm. destruct (truthy a && num_gt a 0) eqn:E.
    - rewrite (num_or_score _ b E). lia.
    - destruct (truthy (num_or a b) && num_gt (num_or a b) 0); lia. }
  assert (E : forall n m k,
             (n <= m)%nat ->
             ((if truthy (efficiency base) && num_gt (efficiency base) 0
                  && num_le (efficiency base) 100 then n + k else n)
              <= (let e := if truthy (efficiency base) && num_le (efficiency base) 100
                           then efficiency base
                           else if truthy (efficiency supp)
                                   && num_le (efficiency supp) 100
                                then efficiency supp else efficiency base in
                  if truthy e && num_gt e 0 && num_le e 100 then m + k else m))%nat).
  { intros n m k Hnm. cbv zeta.
    destruct (truthy (efficiency base)) eqn:Et,
             (num_le (efficiency base) 100) eqn:El; simpl;
      rewrite ?Et, ?El; simpl;
      repeat match goal with |- context [if ?c then _ else _] =>
               destruct c eqn:? end; simpl; lia. }
  assert (N : forall n m k,
             (n <= m)%nat ->
             (match avgBedTempC base with Some _ => n + k | None => n end
              <= match num_nullish (avgBedTempC base) (avgBedTempC supp) with
                 | Some _ => m + k | None => m end)%nat).
  { intros n m k Hnm. destruct (avgBedTempC base); simpl; [lia|].
    destruct (avgBedTempC supp); lia. }
  apply N. apply T. apply (E _ _ 3%nat). apply T. apply T.
  repeat apply G.
  destruct (num_gt (durationSeconds base) 0); lia.
Qed.

End MergeFacts.

(** ** Merge ([importers/pipeline.ts]) *)

Lemma obj_get_set_same k v o : obj_get k (obj_set k v o) = v.
Proof.
  induction o as [|[k' v'] o IH]; simpl.
  - now rewrite String.eqb_refl.
  - destruct (String.eqb k k') eqn:E; simpl; rewrite ?String.eqb_refl, ?E; auto.
Qed.

Module MergeTheorems.
Import Pipeline MergeFacts.




End MergeTheorems.

(** ** Deduplication ([importers/pipeline.ts]) *)

Module DedupFacts.
Import Pipeline MergeFacts.

Lemma existingStep_get user d m e :
  Map_get d (existingStep user m e)
  = if String.eqb (userId e) user && String.eqb (date e) d
    then pickMoreComplete (Map_get d m) e
    else Map_get d m.
Proof.
  unfold existingStep.
  destruct (String.eqb (userId e) user); simpl; [|reflexivity].
  destruct (String.eqb (date e) d) eqn:Ed.
  - apply String.eqb_eq in Ed. subst d.
    destruct (Map_get (date e) m) as [b|] eqn:Eg; simpl.
    + destruct (_ <? _)%nat; [apply Map_get_set_same | exact Eg].
    + apply Map_get_set_same.
  - apply String.eqb_neq in Ed.
    assert (Hne : d <> date e) by congruence.
    destruct (Map_get (date e) m) as [b|]; simpl.
    + destruct (_ <? _)%nat; [now apply Map_get_set_other | reflexivity].
    + now apply Map_get_set_other.
Qed.

Lemma existingByDate_get user d existing m :
  Map_get d (fold_left (existingStep user) existing m)
  = fold_left pickMoreComplete (storedFor existing user d) (Map_get d m).
Proof.
  revert m. induction existing as [|e existing IH]; intros m; simpl.
  - reflexivity.
  - rewrite IH, existingStep_get. unfold storedFor. simpl.
    destruct (_ && _); reflexivity.
Qed.

Lemma pick_fold_Some l a :
  exists b, fold_left pickMoreComplete l (Some a) = Some b
            /\ (b = a \/ In b l)
            /\ (getSessionCompleteness a <= getSessionCompleteness b)%nat
            /\ (forall e, In e l ->
                  (getSessionCompleteness e <= getSessionCompleteness b)%nat).
Proof.
  revert a. induction l as [|x l IH]; intros a; simpl.
  - exists a. repeat split; auto. tauto.
  - destruct (getSessionCompleteness a <? getSessionCompleteness x)%nat eqn:E.
    + apply Nat.ltb_lt in E.
      destruct (IH x) as (b & Hb & Hin & Hge & Hmax).
      exists b. repeat split; auto.
      * destruct Hin; subst; auto.
      * lia.
      * intros e [->|He]; auto.
    + apply Nat.ltb_ge in E.
      destruct (IH a) as (b & Hb & Hin & Hge & Hmax).
      exists b. repeat split; auto.
      * destruct Hin; auto.
      * intros e [<-|He]; [lia | auto].
Qed.

Lemma mostComplete_nil l : mostComplete l = None <-> l = [].
Proof.
  unfold mostComplete. destruct l as [|x l]; simpl; [tauto|].
  destruct (pick_fold_Some l x) as (b & Hb & _). rewrite Hb.
  split; discriminate.
Qed.

Lemma mostComplete_max l b :
  mostComplete l = Some b ->
  In b l /\ forall e, In e l ->
              (getSessionCompleteness e <= getSessionCompleteness b)%nat.
Proof.
  unfold mostComplete. destruct l as [|x l]; simpl; [discriminate|].
  destruct (pick_fold_Some l x) as (b' & Hb & Hin & Hge & Hmax).
  rewrite Hb. intros H; inversion H; subst b'. split.
  - destruct Hin; auto.
  - intros e [<-|He]; auto.
Qed.

Lemma storedFor_In existing user d e :
  In e (storedFor existing user d)
  <-> In e existing /\ userId e = user /\ date e = d.
Proof.
  unfold storedFor. rewrite filter_In, andb_true_iff, !String.eqb_eq. tauto.
Qed.

Lemma dedupStep_outcome E acc en :
  dedupStep E acc en
  = {| sessions := sessions acc ++ emitted en (stepOutcome E en);
       mergedCount :=
         mergedCount acc + (if isMerged (stepOutcome E en) then 1 else 0);
       skippedCount :=
         skippedCount acc + (if isSkipped (stepOutcome E en) then 1 else 0) |}.
Proof.
  destruct en as [d s]. unfold dedupStep, stepOutcome. simpl fst. simpl snd.
  destruct (Map_get d E) as [e|]; simpl.
  - destruct (_ <? _)%nat; simpl; f_equal; rewrite ?app_nil_r;
      try reflexivity; lia.
  - f_equal; try reflexivity; lia.
Qed.

Lemma dedup_fold E I acc :
  fold_left (dedupStep E) I acc
  = {| sessions := sessions acc ++ flat_map (fun en => emitted en (stepOutcome E en)) I;
       mergedCount :=
         mergedCount acc + length (filter (fun en => isMerged (stepOutcome E en)) I);
       skippedCount :=
         skippedCount acc + length (filter (fun en => isSkipped (stepOutcome E en)) I) |}.
Proof.
  revert acc. induction I as [|en I IH]; intros acc; simpl.
  - destruct acc. simpl. now rewrite app_nil_r, !Nat.add_0_r.
  - rewrite IH, dedupStep_outcome. simpl.
    f_equal.
    + now rewrite <- app_assoc.
    + destruct (isMerged _); simpl; lia.
    + destruct (isSkipped _); simpl; lia.
Qed.

Lemma stepOutcome_outcomeFor existing user en :
  stepOutcome (fold_left (existingStep user) existing []) en
  = outcomeFor existing user en.
Proof.
  unfold stepOutcome, outcomeFor.
  now rewrite existingByDate_get.
Qed.

Lemma dedup_spec existing ss user :
  let byDate := fold_left incomingStep ss [] in
  deduplicateSessions existing ss user
  = {| sessions :=
         flat_map (fun en => emitted en (outcomeFor existing user en)) byDate;
       mergedCount :=
         length (filter (fun en => isMerged (outcomeFor existing user en)) byDate);
       skippedCount :=
         length (filter (fun en => isSkipped (outcomeFor existing user en)) byDate) |}.
Proof.
  cbv zeta. unfold deduplicateSessions. rewrite dedup_fold. simpl.
  f_equal.
  - apply flat_map_ext. intros en. now rewrite stepOutcome_outcomeFor.
  - f_equal. apply filter_ext. intros en. now rewrite stepOutcome_outcomeFor.
  - f_equal. apply filter_ext. intros en. now rewrite stepOutcome_outcomeFor.
Qed.

(** *** The incoming map *)

Lemma incomingStep_get d m s :
  Map_get d (incomingStep m s)
  = if String.eqb (date s) d then mergeInto (Map_get d m) s else Map_get d m.
Proof.
  unfold incomingStep.
  destruct (String.eqb (date s) d) eqn:Ed.
  - apply String.eqb_eq in Ed. subst d.
    destruct (Map_get (date s) m); simpl; apply Map_get_set_same.
  - apply String.eqb_neq in Ed.
    assert (Hne : d <> date s) by congruence.
    destruct (Map_get (date s) m); now apply Map_get_set_other.
Qed.

Lemma incomingByDate_get d ss m :
  Map_get d (fold_left incomingStep ss m)
  = fold_left mergeInto (filter (fun s => String.eqb (date s) d) ss) (Map_get d m).
Proof.
  revert m. induction ss as [|s ss IH]; intros m; simpl; [reflexivity|].
  rewrite IH, incomingStep_get.
  destruct (String.eqb (date s) d); reflexivity.
Qed.

Lemma incomingStep_keys m s :
  map fst (incomingStep m s)
  = if in_dec string_dec (date s) (map fst m) then map fst m
    else map fst m ++ [date s].
Proof.
  unfold incomingStep.
  destruct (Map_get (date s) m) as [e|] eqn:Eg.
  - rewrite (Map_set_keys_present _ _ _ _ Eg).
    destruct (in_dec _ _ _) as [_|Hn]; [reflexivity|].
    exfalso. apply Hn. apply Map_get_In in Eg.
    change (date s) with (fst (date s, e)). now apply in_map.
  - rewrite (Map_set_keys_absent _ _ _ Eg).
    destruct (in_dec _ _ _) as [Hi|_]; [|reflexivity].
    apply Map_get_None_keys in Eg. contradiction.
Qed.

Lemma incomingByDate_keys ss m :
  NoDup (map fst m) ->
  NoDup (map fst (fold_left incomingStep ss m))
  /\ (forall d, In d (map fst (fold_left incomingStep ss m))
                <-> In d (map fst m) \/ In d (map date ss)).
Proof.
  revert m. induction ss as [|s ss IH]; intros m Hnd; simpl.
  - split; [assumption | tauto].
  - assert (Hnd' : NoDup (map fst (incomingStep m s))).
    { rewrite incomingStep_keys. destruct (in_dec _ _ _) as [|Hn]; [assumption|].
      apply NoDup_app; auto.
      - repeat constructor. simpl. tauto.
      - intros x Hx [<-|[]]. contradiction. }
    destruct (IH _ Hnd') as (H1 & H2). split; [assumption|].
    intros d. rewrite H2, incomingStep_keys.
    destruct (in_dec _ _ _) as [Hi|Hn].
    + split; [tauto|]. intros [H|[<-|H]]; tauto.
    + rewrite in_app_iff. simpl. tauto.
Qed.

Lemma incoming_entry ss d s :
  In (d, s) (fold_left incomingStep ss []) <-> collapsed ss d = Some s.
Proof.
  unfold collapsed.
  destruct (incomingByDate_keys ss [] (NoDup_nil _)) as (Hnd & _).
  pose proof (incomingByDate_get d ss []) as Hg. simpl Map_get in Hg at 2.
  rewrite <- Hg.
  split.
  - now apply Map_In_get.
  - apply Map_get_In.
Qed.

End DedupFacts.

Module DedupTheorems.
Import Pipeline MergeFacts DedupFacts.

Lemma outcome_cases existing user en :
  let stored := storedFor existing user (fst en) in
  (stored = [] -> outcomeFor existing user en = AddedAsNew)
  /\ ((exists e, In e stored
                 /\ (getSessionCompleteness (snd en) <= getSessionCompleteness e)%nat) ->
      exists e, In e stored /\ outcomeFor existing user en = Skipped e
                /\ (getSessionCompleteness (snd en) <= getSessionCompleteness e)%nat)
  /\ (stored <> [] ->
      (forall e, In e stored ->
         (getSessionCompleteness e < getSessionCompleteness (snd en))%nat) ->
      exists e, In e stored /\ outcomeFor existing user en = Merged e).
Proof.
  cbv zeta. unfold outcomeFor.
  destruct (mostComplete (storedFor existing user (fst en))) as [b|] eqn:Eb.
  - destruct (mostComplete_max _ _ Eb) as (Hin & Hmax).
    split; [intros He; rewrite He in Hin; contradiction|].
    split.
    + intros (e & He & Hle). specialize (Hmax e He).
      assert (E : (getSessionCompleteness b <? getSessionCompleteness (snd en))%nat = false)
        by (apply Nat.ltb_ge; lia).
      rewrite E. exists b. repeat split; auto. lia.
    + intros _ Hall. specialize (Hall b Hin).
      apply Nat.ltb_lt in Hall. rewrite Hall. eauto.
  - apply mostComplete_nil in Eb. rewrite Eb.
    split; [reflexivity|]. split.
    + intros (e & [] & _).
    + congruence.
Qed.

(** C1. [deduplicateSessions] treats each incoming date once, with the
    same-date incoming sessions collapsed by pairwise merging.  With no
    stored session of the user for the date the collapsed session is
    returned as it is; when some stored session of that date is at least
    as complete the incoming one is dropped and counted as skipped; when
    every stored session of that date is strictly less complete the
    result carries the merge of the most complete stored session with the
    incoming one, under the stored session's id, and the date is counted
    as merged. *)
Theorem C1_deduplicate_per_date
  (existing incoming : list SleepSession) (user : string) :
  let byDate := fold_left incomingStep incoming [] in
  let r := deduplicateSessions existing incoming user in
  NoDup (map fst byDate)
  /\ (forall d s, In (d, s) byDate <-> collapsed incoming d = Some s)
  /\ sessions r
     = flat_map (fun en => emitted en (outcomeFor existing user en)) byDate
  /\ mergedCount r
     = length (filter (fun en => isMerged (outcomeFor existing user en)) byDate)
  /\ skippedCount r
     = length (filter (fun en => isSkipped (outcomeFor existing user en)) byDate)
  /\ (forall en,
        let stored := storedFor existing user (fst en) in
        (stored = [] ->
           outcomeFor existing user en = AddedAsNew
           /\ emitted en AddedAsNew = [snd en])
        /\ ((exists e, In e stored
               /\ (getSessionCompleteness (snd en) <= getSessionCompleteness e)%nat) ->
            exists e, In e stored /\ outcomeFor existing user en = Skipped e
                      /\ emitted en (Skipped e) = [])
        /\ (stored <> [] ->
            (forall e, In e stored ->
               (getSessionCompleteness e < getSessionCompleteness (snd en))%nat) ->
            exists e merged,
              In e stored /\ outcomeFor existing user en = Merged e
              /\ emitted en (Merged e) = [merged]
              /\ merged = set_id (mergeSessions e (snd en)) (id e)
              /\ id merged = id e)).
Proof.
  cbv zeta.
  destruct (incomingByDate_keys incoming [] (NoDup_nil _)) as (Hnd & _).
  split; [exact Hnd|].
  split; [intros d s; apply incoming_entry|].
  pose proof (dedup_spec existing incoming user) as Hs. cbv zeta in Hs.
  rewrite Hs. cbn [sessions mergedCount skippedCount].
  split; [reflexivity|]. split; [reflexivity|]. split; [reflexivity|].
  intros en. destruct (outcome_cases existing user en) as (Hn & Hsk & Hm).
  split; [intros H; split; [now apply Hn | reflexivity]|].
  split.
  - intros H. destruct (Hsk H) as (e & He & Ho & _). exists e. auto.
  - intros Hne Hall. destruct (Hm Hne Hall) as (e & He & Ho).
    exists e, (set_id (mergeSessions e (snd en)) (id e)). auto.
Qed.

End DedupTheorems.

(** ** A second import of the same file *)

Module ReimportFacts.
Import Pipeline MergeFacts DedupFacts DedupTheorems Orchestrator.

Section PutFacts.
Context {R : Type} (key : R -> string).

Lemma table_put_In_new r t : In r (table_put key r t).
Proof.
  induction t as [|x t IH]; simpl; [now left|].
  destruct (String.compare (key r) (key x)); simpl; auto.
Qed.

Lemma table_put_In_old r x t :
  In x t -> key x <> key r -> In x (table_put key r t).
Proof.
  intros Hin Hne. induction t as [|y t IH]; simpl; [contradiction|].
  destruct (String.compare (key r) (key y)) eqn:E; simpl.
  - apply String.compare_eq_iff in E.
    destruct Hin as [->|Hin]; [congruence | now right].
  - now right.
  - destruct Hin as [->|Hin]; [now left | right; auto].
Qed.

Lemma table_putMany_In_old rs x t :
  In x t -> ~ In (key x) (map key rs) -> In x (table_putMany key rs t).
Proof.
  revert t. induction rs as [|r rs IH]; intros t Hin Hnot; simpl; [assumption|].
  apply IH.
  - apply table_put_In_old; [assumption|]. simpl in Hnot. intuition congruence.
  - simpl in Hnot. tauto.
Qed.

Lemma table_putMany_In_new rs x t :
  NoDup (map key rs) -> In x rs -> In x (table_putMany key rs t).
Proof.
  revert t. induction rs as [|r rs IH]; intros t Hnd Hin; simpl; [contradiction|].
  inversion Hnd as [|? ? Hnot Hnd']; subst.
  destruct Hin as [->|Hin].
  - apply table_putMany_In_old; [apply table_put_In_new | assumption].
  - now apply IH.
Qed.

End PutFacts.

Lemma score_forgetIds s :
  getSessionCompleteness (forgetIds s) = getSessionCompleteness s.
Proof. reflexivity. Qed.

Lemma sameData_score a b :
  sameData a b -> getSessionCompleteness a = getSessionCompleteness b.
Proof.
  intros H. rewrite <- (score_forgetIds a), <- (score_forgetIds b). now f_equal.
Qed.

Lemma sameData_date a b : sameData a b -> date a = date b.
Proof. intros H. exact (f_equal date H). Qed.

Lemma sameData_merge a a' b b' :
  sameData a a' -> sameData b b' ->
  sameData (mergeSessions a b) (mergeSessions a' b').
Proof.
  intros Ha Hb.
  pose proof (sameData_score _ _ Ha) as Sa.
  pose proof (sameData_score _ _ Hb) as Sb.
  unfold sameData, mergeSessions in *. rewrite <- Sa, <- Sb.
  destruct (getSessionCompleteness b <=? getSessionCompleteness a)%nat;
    unfold forgetIds in *; cbn -[getSessionCompleteness obj_set obj_spread filter];
    unfold vendorSource, vendorBag;
    inversion Ha; inversion Hb;
    repeat match goal with H : _ = _ |- _ => rewrite H; clear H end;
    reflexivity.
Qed.

Lemma score_set_id s i :
  getSessionCompleteness (set_id s i) = getSessionCompleteness s.
Proof. reflexivity. Qed.

(** *** Two parses of one file collapse alike *)

Lemma alike_get d (m1 m2 : Map SleepSession) :
  Forall2 entriesAlike m1 m2 ->
  match Map_get d m1, Map_get d m2 with
  | Some a, Some b => sameData a b
  | None, None => True
  | _, _ => False
  end.
Proof.
  induction 1 as [|[k1 v1] [k2 v2] m1 m2 [Hk Hv] H IH]; simpl; [exact I|].
  simpl in Hk, Hv. subst k2. destruct (String.eqb d k1); auto.
Qed.

Lemma alike_set d a b (m1 m2 : Map SleepSession) :
  Forall2 entriesAlike m1 m2 -> sameData a b ->
  Forall2 entriesAlike (Map_set d a m1) (Map_set d b m2).
Proof.
  intros H Hab.
  induction H as [|[k1 v1] [k2 v2] m1 m2 [Hk Hv] H IH]; simpl.
  - repeat constructor; assumption.
  - simpl in Hk, Hv. subst k2. destruct (String.eqb d k1).
    + constructor; [split; auto|assumption].
    + constructor; [split; auto|assumption].
Qed.

Lemma alike_incoming ss1 ss2 :
  Forall2 sameData ss1 ss2 ->
  forall m1 m2, Forall2 entriesAlike m1 m2 ->
  Forall2 entriesAlike (fold_left incomingStep ss1 m1)
                       (fold_left incomingStep ss2 m2).
Proof.
  induction 1 as [|s1 s2 ss1 ss2 Hs H IH]; intros m1 m2 Hm; simpl; [assumption|].
  apply IH. unfold incomingStep.
  rewrite <- (sameData_date _ _ Hs).
  pose proof (alike_get (date s1) _ _ Hm) as Hg.
  destruct (Map_get (date s1) m1), (Map_get (date s1) m2); try contradiction.
  - apply alike_set; [assumption|]. now apply sameData_merge.
  - now apply alike_set.
Qed.

(** *** What a collapsed incoming session inherits *)

Lemma merge_inherits (P : SleepSession -> Prop) a b :
  (forall x y, id x = id y -> userId x = userId y -> date x = date y ->
               P x -> P y) ->
  P a -> P b -> P (mergeSessions a b).
Proof.
  intros Hext Ha Hb. unfold mergeSessions.
  destruct (_ <=? _)%nat.
  - eapply (Hext a); [reflexivity..|assumption].
  - eapply (Hext b); [reflexivity..|assumption].
Qed.

Lemma collapsed_inherits (P : SleepSession -> Prop) l acc s :
  (forall x y, id x = id y -> userId x = userId y -> date x = date y ->
               P x -> P y) ->
  Forall P l ->
  match acc with Some a => P a | None => True end ->
  fold_left mergeInto l acc = Some s -> P s.
Proof.
  intros Hext. revert acc. induction l as [|x l IH]; intros acc Hl Hacc; simpl.
  - intros ->. exact Hacc.
  - inversion Hl; subst. apply IH; [assumption|].
    destruct acc as [a|]; simpl; [|assumption].
    now apply merge_inherits.
Qed.

Lemma entry_inherits user ss d s :
  Forall (fun x => userId x = user) ss ->
  In (d, s) (fold_left incomingStep ss []) ->
  date s = d /\ userId s = user
  /\ exists x, In x ss /\ date x = d /\ id x = id s.
Proof.
  intros Hu Hin. apply incoming_entry in Hin. unfold collapsed in Hin.
  apply (collapsed_inherits
           (fun y => date y = d /\ userId y = user
                     /\ exists x, In x ss /\ date x = d /\ id x = id y)
           (filter (fun s => String.eqb (date s) d) ss) None s);
    [| |exact I|exact Hin].
  - intros x y Hi Hus Hd (H1 & H2 & (z & Hz & Hzd & Hzi)).
    repeat split; try congruence. exists z. repeat split; congruence.
  - apply Forall_forall. intros x Hx. apply filter_In in Hx as [Hx Hd].
    apply String.eqb_eq in Hd. rewrite Forall_forall in Hu.
    repeat split; auto. exists x. auto.
Qed.

End ReimportFacts.

Module TwoImportsFacts.
Import Pipeline MergeFacts DedupFacts DedupTheorems Orchestrator ReimportFacts.

Lemma map_flat_map {A B C} (f : B -> C) (g : A -> list B) l :
  map f (flat_map g l) = flat_map (fun a => map f (g a)) l.
Proof.
  induction l as [|a l IH]; simpl; [reflexivity|].
  now rewrite map_app, IH.
Qed.

Lemma NoDup_flat_map {A B} (f : A -> list B) (l : list A) :
  NoDup l ->
  (forall a, In a l -> NoDup (f a)) ->
  (forall a a' b, In a l -> In a' l -> In b (f a) -> In b (f a') -> a = a') ->
  NoDup (flat_map f l).
Proof.
  induction 1 as [|a l Hnot Hnd IH]; intros Hf Hinj; simpl; [constructor|].
  apply NoDup_app.
  - apply Hf. now left.
  - apply IH.
    + intros a' Ha'. apply Hf. now right.
    + intros x y b Hx Hy. apply Hinj; now right.
  - intros b Hb Hb'. apply in_flat_map in Hb' as (a' & Ha' & Hba').
    assert (a = a') by (apply (Hinj a a' b); simpl; auto).
    subst a'. contradiction.
Qed.

Lemma NoDup_map_eq {A B} (f : A -> B) l x y :
  NoDup (map f l) -> In x l -> In y l -> f x = f y -> x = y.
Proof.
  induction l as [|a l IH]; simpl; [tauto|].
  intros Hnd Hx Hy E. inversion Hnd as [|? ? Hnot Hnd']; subst.
  destruct Hx as [->|Hx], Hy as [->|Hy]; auto.
  - exfalso. apply Hnot. rewrite E. now apply in_map.
  - exfalso. apply Hnot. rewrite <- E. now apply in_map.
Qed.

Lemma Forall2_In_right {A B} (R : A -> B -> Prop) l1 l2 y :
  Forall2 R l1 l2 -> In y l2 -> exists x, In x l1 /\ R x y.
Proof.
  induction 1 as [|a b l1 l2 Hab H IH]; simpl; [tauto|].
  intros [<-|Hy].
  - exists a. auto.
  - destruct (IH Hy) as (x & Hx & Hr). exists x. auto.
Qed.

Lemma outcome_stored existing user en e :
  outcomeFor existing user en = Merged e \/ outcomeFor existing user en = Skipped e ->
  In e existing /\ userId e = user /\ date e = fst en
  /\ (outcomeFor existing user en = Merged e ->
      (getSessionCompleteness e < getSessionCompleteness (snd en))%nat)
  /\ (outcomeFor existing user en = Skipped e ->
      (getSessionCompleteness (snd en) <= getSessionCompleteness e)%nat).
Proof.
  unfold outcomeFor.
  destruct (mostComplete _) as [b|] eqn:Eb; [|intros [H|H]; discriminate].
  destruct (mostComplete_max _ _ Eb) as (Hin & _).
  apply storedFor_In in Hin as (H1 & H2 & H3).
  destruct (_ <? _)%nat eqn:El; intros [H|H]; inversion H; subst b;
    repeat split; auto; try discriminate.
  - intros _. now apply Nat.ltb_lt.
  - intros _. now apply Nat.ltb_ge.
Qed.

Section TwoImports.

Variables (stored first second : list SleepSession) (user : string).

Hypothesis stored_keys : NoDup (map id stored).
Hypothesis first_owned : Forall (fun s => userId s = user) first.
Hypothesis first_fresh : Forall (fun s => ~ In (id s) (map id stored)) first.
Hypothesis first_keys : NoDup (map id first).
Hypothesis same_file : Forall2 sameData first second.

Let byDate1 := fold_left incomingStep first [].
Let r1 := deduplicateSessions stored first user.
Let stored1 := table_putMany id (sessions r1) stored.

Lemma r1_sessions :
  sessions r1
  = flat_map (fun en => emitted en (outcomeFor stored user en)) byDate1.
Proof.
  unfold r1. pose proof (dedup_spec stored first user) as H. cbv zeta in H.
  now rewrite H.
Qed.

Lemma byDate1_NoDup : NoDup byDate1.
Proof.
  destruct (incomingByDate_keys first [] (NoDup_nil _)) as (H & _).
  now apply NoDup_map_inv in H.
Qed.

Lemma byDate1_key_inj en en' :
  In en byDate1 -> In en' byDate1 -> fst en = fst en' -> en = en'.
Proof.
  destruct (incomingByDate_keys first [] (NoDup_nil _)) as (H & _).
  intros Hen Hen' E. exact (NoDup_map_eq fst _ en en' H Hen Hen' E).
Qed.

(** The id of what an incoming date emits tells the date. *)
Lemma emitted_id en x :
  In en byDate1 -> In x (emitted en (outcomeFor stored user en)) ->
  (exists y, In y first /\ date y = fst en /\ id y = id x)
  \/ (exists e, In e stored /\ date e = fst en /\ id e = id x).
Proof.
  intros Hen Hx. destruct en as [d s].
  destruct (outcomeFor stored user (d, s)) as [|e|e] eqn:Eo; simpl in Hx.
  - destruct Hx as [<-|[]]. left.
    destruct (entry_inherits user first d s first_owned Hen) as (_ & _ & Hy).
    exact Hy.
  - contradiction.
  - destruct Hx as [<-|[]]. right.
    destruct (outcome_stored stored user (d, s) e (or_introl Eo)) as (H1 & _ & H3 & _).
    exists e. auto.
Qed.

Lemma r1_keys : NoDup (map id (sessions r1)).
Proof.
  rewrite r1_sessions, map_flat_map.
  apply NoDup_flat_map.
  - exact byDate1_NoDup.
  - intros en _. destruct (outcomeFor stored user en); simpl;
      repeat constructor; simpl; tauto.
  - intros en en' b Hen Hen' Hb Hb'.
    apply in_map_iff in Hb as (x & <- & Hx).
    apply in_map_iff in Hb' as (x' & Exx & Hx').
    apply byDate1_key_inj; auto.
    destruct (emitted_id en x Hen Hx) as [(y & Hy & Hd & Hi)|(e & He & Hd & Hi)];
    destruct (emitted_id en' x' Hen' Hx') as [(y' & Hy' & Hd' & Hi')|(e' & He' & Hd' & Hi')].
    + assert (y = y')
        by (apply (NoDup_map_eq id first y y' first_keys Hy Hy'); congruence).
      congruence.
    + exfalso. rewrite Forall_forall in first_fresh.
      apply (first_fresh y Hy). rewrite Hi, <- Exx, <- Hi'. now apply in_map.
    + exfalso. rewrite Forall_forall in first_fresh.
      apply (first_fresh y' Hy'). rewrite Hi', Exx, <- Hi. now apply in_map.
    + assert (e = e')
        by (apply (NoDup_map_eq id stored e e' stored_keys He He'); congruence).
      congruence.
Qed.

(** After the first import every incoming date has a stored session of
    the user that is at least as complete as the collapsed incoming one. *)
Lemma first_import_covers en :
  In en byDate1 ->
  exists e, In e stored1 /\ userId e = user /\ date e = fst en
            /\ (getSessionCompleteness (snd en) <= getSessionCompleteness e)%nat.
Proof.
  intros Hen. destruct en as [d s].
  destruct (entry_inherits user first d s first_owned Hen) as (Hd & Hu & _).
  destruct (outcomeFor stored user (d, s)) as [|e|e] eqn:Eo.
  - exists s. repeat split; auto.
    apply table_putMany_In_new; [exact r1_keys|].
    rewrite r1_sessions. apply in_flat_map. exists (d, s).
    split; [assumption|]. rewrite Eo. now left.
  - destruct (outcome_stored stored user (d, s) e (or_intror Eo))
      as (H1 & H2 & H3 & _ & H5).
    specialize (H5 Eo).
    exists e. repeat split; auto.
    apply table_putMany_In_old; [assumption|].
    intros Hin. apply in_map_iff in Hin as (x & Ex & Hx).
    rewrite r1_sessions in Hx. apply in_flat_map in Hx as (en' & Hen' & Hx).
    destruct (emitted_id en' x Hen' Hx) as [(y & Hy & Hdy & Hi)|(e' & He' & Hd' & Hi)].
    + rewrite Forall_forall in first_fresh. apply (first_fresh y Hy).
      rewrite Hi, Ex. now apply in_map.
    + assert (e' = e)
        by (apply (NoDup_map_eq id stored e' e stored_keys He' H1); congruence).
      subst e'.
      simpl in H3.
      assert (en' = (d, s)) by (apply byDate1_key_inj; auto; simpl; congruence).
      subst en'. rewrite Eo in Hx. contradiction.
  - destruct (outcome_stored stored user (d, s) e (or_introl Eo))
      as (H1 & H2 & H3 & H4 & _).
    specialize (H4 Eo). simpl in H4.
    exists (set_id (mergeSessions e s) (id e)).
    split; [|split; [|split]].
    + apply table_putMany_In_new; [exact r1_keys|].
      rewrite r1_sessions. apply in_flat_map. exists (d, s).
      split; [assumption|]. rewrite Eo. now left.
    + simpl. unfold mergeSessions.
      assert (E : (getSessionCompleteness s <=? getSessionCompleteness e)%nat = false)
        by (apply Nat.leb_gt; lia).
      rewrite E. exact Hu.
    + simpl. unfold mergeSessions.
      assert (E : (getSessionCompleteness s <=? getSessionCompleteness e)%nat = false)
        by (apply Nat.leb_gt; lia).
      rewrite E. exact Hd.
    + rewrite score_set_id. simpl.
      pose proof (merge_score_base e s) as Hm. unfold baseOf in Hm.
      assert (E : (getSessionCompleteness s <=? getSessionCompleteness e)%nat = false)
        by (apply Nat.leb_gt; lia).
      now rewrite E in Hm.
Qed.

Let byDate2 := fold_left incomingStep second [].

Lemma byDate_alike : Forall2 entriesAlike byDate1 byDate2.
Proof. apply alike_incoming; [exact same_file | constructor]. Qed.

Lemma second_import_skips en2 :
  In en2 byDate2 ->
  exists e, outcomeFor stored1 user en2 = Skipped e.
Proof.
  intros Hen2.
  destruct (Forall2_In_right _ _ _ _ byDate_alike Hen2) as (en1 & Hen1 & Hk & Hs).
  destruct (first_import_covers en1 Hen1) as (e & He & Hu & Hd & Hle).
  destruct (outcome_cases stored1 user en2) as (_ & Hsk & _).
  destruct Hsk as (e' & _ & Ho & _).
  - exists e. split.
    + apply storedFor_In. repeat split; auto. congruence.
    + rewrite <- (sameData_score _ _ Hs). exact Hle.
  - eauto.
Qed.

End TwoImports.

End TwoImportsFacts.

Module ReimportTheorems.
Import Pipeline MergeFacts MergeTheorems DedupFacts DedupTheorems Orchestrator ReimportFacts TwoImportsFacts.

Lemma flat_map_nil {A B} (f : A -> list B) l :
  (forall a, In a l -> f a = []) -> flat_map f l = [].
Proof.
  induction l as [|a l IH]; intros H; simpl; [reflexivity|].
  rewrite (H a) by now left. apply IH. intros; apply H; now right.
Qed.

Lemma filter_all {A} (f : A -> bool) l :
  (forall a, In a l -> f a = true) -> filter f l = l.
Proof.
  induction l as [|a l IH]; intros H; simpl; [reflexivity|].
  rewrite (H a) by now left. f_equal. apply IH. intros; apply H; now right.
Qed.

Lemma filter_none {A} (f : A -> bool) l :
  (forall a, In a l -> f a = false) -> filter f l = [].
Proof.
  induction l as [|a l IH]; intros H; simpl; [reflexivity|].
  rewrite (H a) by now left. apply IH. intros; apply H; now right.
Qed.

Lemma incoming_dates_count ss :
  length (fold_left incomingStep ss [])
  = length (nodup string_dec (map date ss)).
Proof.
  destruct (incomingByDate_keys ss [] (NoDup_nil _)) as (Hnd & Hin).
  rewrite <- (length_map fst).
  apply Permutation_length, NoDup_Permutation.
  - exact Hnd.
  - apply NoDup_nodup.
  - intros d. rewrite Hin, nodup_In. simpl. tauto.
Qed.

(** Two deduplications in a row, the second on the store the first one
    left.  The two parses agree on every session up to the generated
    identifiers; the ids of the store are distinct, and the first parse
    carries the user's id and fresh, distinct ids.  Then the second
    deduplication returns no session and merges nothing, and its
    [mergedCount + skippedCount] is the number of distinct dates of the
    parse. *)
Lemma second_dedup_skips_every_date
  (stored first second : list SleepSession) (user : string) :
  NoDup (map id stored) ->
  Forall (fun s => userId s = user) first ->
  Forall (fun s => ~ In (id s) (map id stored)) first ->
  NoDup (map id first) ->
  Forall2 sameData first second ->
  let r1 := deduplicateSessions stored first user in
  let stored1 := table_putMany id (sessions r1) stored in
  let r2 := deduplicateSessions stored1 second user in
  let stored2 := table_putMany id (sessions r2) stored1 in
  length stored2 = length stored1
  /\ stored2 = stored1
  /\ sessions r2 = []
  /\ mergedCount r2 = 0%nat
  /\ (mergedCount r2 + skippedCount r2)%nat
     = length (nodup string_dec (map date first)).
Proof.
  intros Hst Hown Hfresh Hkeys Hsame. cbv zeta.
  set (stored1 := table_putMany id _ stored).
  pose proof (dedup_spec stored1 second user) as Hs. cbv zeta in Hs.
  set (byDate2 := fold_left incomingStep second []) in *.
  assert (Hskip : forall en, In en byDate2 ->
            exists e, outcomeFor stored1 user en = Skipped e).
  { intros en Hen.
    exact (second_import_skips stored first second user
             Hst Hown Hfresh Hkeys Hsame en Hen). }
  assert (E1 : flat_map (fun en => emitted en (outcomeFor stored1 user en)) byDate2
               = []).
  { apply flat_map_nil. intros en Hen. destruct (Hskip en Hen) as (e & ->).
    reflexivity. }
  assert (E2 : filter (fun en => isMerged (outcomeFor stored1 user en)) byDate2 = []).
  { apply filter_none. intros en Hen. destruct (Hskip en Hen) as (e & ->).
    reflexivity. }
  assert (E3 : filter (fun en => isSkipped (outcomeFor stored1 user en)) byDate2
               = byDate2).
  { apply filter_all. intros en Hen. destruct (Hskip en Hen) as (e & ->).
    reflexivity. }
  rewrite Hs, E1, E2, E3. cbn [sessions mergedCount skippedCount].
  repeat split; try reflexivity.
  simpl. rewrite <- incoming_dates_count.
  symmetry. eapply Forall2_length.
  apply (byDate_alike first second Hsame).
Qed.

End ReimportTheorems.

(** ** The import orchestrator ([importers/pipeline.ts]) *)

Module PrimitiveFacts.
Import Pipeline Orchestrator ReimportFacts.

(** *** Effects of the primitives *)

Section Prim.
Variable host : Host.

Lemma report_inv cb st p m w a w' :
  report cb st p m w = (inr a, w') -> w' = w.
Proof.
  unfold report, ofOption, ret, throw. destruct cb as [f|].
  - destruct (f _); intros H; inversion H; reflexivity.
  - intros H; inversion H; reflexivity.
Qed.

Lemma guard_inv op w a w' :
  guard host op w = (inr a, w') -> w' = w.
Proof.
  unfold guard. destruct (storageFault host op (db w)); intros H; inversion H.
  reflexivity.
Qed.

Lemma generateId_inv w i w' :
  generateId host w = (inr i, w') ->
  db w' = db w /\ i = genId host (nextId w).
Proof. unfold generateId. intros H; inversion H. auto. Qed.

Lemma getAll_inv w l w' :
  getAllSleepSessions host w = (inr l, w') ->
  w' = w /\ l = sleepSessions (db w).
Proof.
  unfold getAllSleepSessions, bind.
  destruct (guard host _ w) as [[e|a] w1] eqn:E; [discriminate|].
  apply guard_inv in E. subst w1. intros H; inversion H. auto.
Qed.

Lemma getByHash_inv h w l w' :
  getSourcesByFileHash host h w = (inr l, w') ->
  w' = w /\ l = filter (fun s => String.eqb (s_fileHash s) h) (sources (db w)).
Proof.
  unfold getSourcesByFileHash, bind.
  destruct (guard host _ w) as [[e|a] w1] eqn:E; [discriminate|].
  apply guard_inv in E. subst w1. intros H; inversion H. auto.
Qed.

Lemma putSource_inv s w a w' :
  putSource host s w = (inr a, w') ->
  nextId w' = nextId w
  /\ sources (db w') = table_put s_id s (sources (db w))
  /\ sleepSessions (db w') = sleepSessions (db w)
  /\ workoutSessions (db w') = workoutSessions (db w)
  /\ dailyMetrics (db w') = dailyMetrics (db w)
  /\ timeSeries (db w') = timeSeries (db w).
Proof.
  unfold putSource, bind, updateDb.
  destruct (guard host _ w) as [[e|x] w1] eqn:E; [discriminate|].
  apply guard_inv in E. subst w1. intros H; inversion H. simpl. auto 10.
Qed.

Lemma putSleep_inv rs w a w' :
  whenNonEmpty rs (putManySleepSessions host rs) w = (inr a, w') ->
  nextId w' = nextId w
  /\ sources (db w') = sources (db w)
  /\ sleepSessions (db w') = table_putMany id rs (sleepSessions (db w))
  /\ workoutSessions (db w') = workoutSessions (db w)
  /\ dailyMetrics (db w') = dailyMetrics (db w)
  /\ timeSeries (db w') = timeSeries (db w).
Proof.
  unfold whenNonEmpty. destruct rs as [|r rs].
  - unfold ret. intros H; inversion H. simpl. auto 10.
  - unfold putManySleepSessions, bind, updateDb.
    destruct (guard host _ w) as [[e|x] w1] eqn:E; [discriminate|].
    apply guard_inv in E. subst w1. intros H; inversion H. simpl. auto 10.
Qed.

Lemma putWorkouts_inv rs w a w' :
  whenNonEmpty rs (putManyWorkoutSessions host rs) w = (inr a, w') ->
  nextId w' = nextId w
  /\ sources (db w') = sources (db w)
  /\ sleepSessions (db w') = sleepSessions (db w)
  /\ obj_putMany rs (workoutSessions (db w)) = (None, workoutSessions (db w'))
  /\ dailyMetrics (db w') = dailyMetrics (db w)
  /\ timeSeries (db w') = timeSeries (db w).
Proof.
  unfold whenNonEmpty. destruct rs as [|r rs].
  - unfold ret. intros H; inversion H. simpl. auto 10.
  - unfold putManyWorkoutSessions, bind.
    destruct (guard host _ w) as [[e|x] w1] eqn:E; [discriminate|].
    apply guard_inv in E. subst w1.
    destruct (obj_putMany (r :: rs) (workoutSessions (db w))) as [[e|] t] eqn:Ep;
      intros H; inversion H. simpl. auto 10.
Qed.

Lemma putMetrics_inv rs w a w' :
  whenNonEmpty rs (putManyDailyMetrics host rs) w = (inr a, w') ->
  nextId w' = nextId w
  /\ sources (db w') = sources (db w)
  /\ sleepSessions (db w') = sleepSessions (db w)
  /\ workoutSessions (db w') = workoutSessions (db w)
  /\ obj_putMany rs (dailyMetrics (db w)) = (None, dailyMetrics (db w'))
  /\ timeSeries (db w') = timeSeries (db w).
Proof.
  unfold whenNonEmpty. destruct rs as [|r rs].
  - unfold ret. intros H; inversion H. simpl. auto 10.
  - unfold putManyDailyMetrics, bind.
    destruct (guard host _ w) as [[e|x] w1] eqn:E; [discriminate|].
    apply guard_inv in E. subst w1.
    destruct (obj_putMany (r :: rs) (dailyMetrics (db w))) as [[e|] t] eqn:Ep;
      intros H; inversion H. simpl. auto 10.
Qed.

Lemma putSeries_inv rs w a w' :
  whenNonEmpty rs (putManyTimeSeries host rs) w = (inr a, w') ->
  nextId w' = nextId w
  /\ sources (db w') = sources (db w)
  /\ sleepSessions (db w') = sleepSessions (db w)
  /\ workoutSessions (db w') = workoutSessions (db w)
  /\ dailyMetrics (db w') = dailyMetrics (db w)
  /\ obj_putMany rs (timeSeries (db w)) = (None, timeSeries (db w')).
Proof.
  unfold whenNonEmpty. destruct rs as [|r rs].
  - unfold ret. intros H; inversion H. simpl. auto 10.
  - unfold putManyTimeSeries, bind.
    destruct (guard host _ w) as [[e|x] w1] eqn:E; [discriminate|].
    apply guard_inv in E. subst w1.
    destruct (obj_putMany (r :: rs) (timeSeries (db w))) as [[e|] t] eqn:Ep;
      intros H; inversion H. simpl. auto 10.
Qed.

Lemma transformData_inv data p sid u cb w t w' :
  transformData host data p sid u cb w = (inr t, w') -> db w' = db w.
Proof.
  unfold transformData.
  destruct (match pr_vendor p with eight_sleep => _ | _ => _ end) as [r n].
  intros H; inversion H. reflexivity.
Qed.

Lemma runAppleParser_inv c sid u cb w t w' :
  runAppleParser host c sid u cb w = (inr t, w') -> db w' = db w.
Proof.
  unfold runAppleParser.
  destruct (parseAppleHealthXML host c sid u cb (nextId w)) as [r n].
  intros H; inversion H. reflexivity.
Qed.

End Prim.

(** One step of a monadic sequence that is known to return. *)
Tactic Notation "mstep" hyp(H) "as" ident(a) ident(w1) ident(E) :=
  match type of H with
  | bind ?c ?k ?w = (inr _, _) =>
      let e := fresh "e" in
      unfold bind at 1 in H;
      destruct (c w) as [[e|a] w1] eqn:E; [discriminate H|];
      cbv beta zeta in H
  end.

End PrimitiveFacts.

Module PathFacts.
Import Pipeline Orchestrator ReimportFacts PrimitiveFacts.

Section Paths.
Variable host : Host.

Lemma existsb_filter {A} (f : A -> bool) l :
  existsb f l = true -> (0 <? length (filter f l))%nat = true.
Proof.
  induction l as [|a l IH]; simpl; [discriminate|].
  destruct (f a); simpl; auto.
Qed.

Lemma genericPath_inv file user prof cb det parsed w r w' :
  genericPath host file user prof cb det (contentText file) parsed w = (inr r, w') ->
  (exists ss ws ts, Wrote user w w' r ss ws [] ts)
  /\ (alreadyImported host file w = true -> hasDuplicateWarning r).
Proof.
  unfold genericPath. intros H. cbv beta zeta in H.
  mstep H as srcs w1 E1. apply getByHash_inv in E1 as [-> Ea].
  mstep H as sid w2 E2. apply generateId_inv in E2 as [Ed Ei].
  mstep H as u3 w3 E3. apply report_inv in E3; subst w3.
  mstep H as tr w4 E4. apply transformData_inv in E4.
  mstep H as u5 w5 E5. apply report_inv in E5; subst w5.
  mstep H as u6 w6 E6. apply report_inv in E6; subst w6.
  mstep H as ex w7 E7. apply getAll_inv in E7 as [-> Eg].
  mstep H as u8 w8 E8. apply report_inv in E8; subst w8.
  mstep H as u9 w9 E9. apply putSource_inv in E9 as (N1 & S1 & S2 & S3 & S4 & S5).
  mstep H as u10 w10 E10. apply putSleep_inv in E10 as (N2 & T1 & T2 & T3 & T4 & T5).
  mstep H as u11 w11 E11. apply putWorkouts_inv in E11 as (N3 & U1 & U2 & U3 & U4 & U5).
  mstep H as u12 w12 E12. apply putSeries_inv in E12 as (N4 & V1 & V2 & V3 & V4 & V5).
  mstep H as u13 w13 E13. apply report_inv in E13; subst w13.
  unfold ret in H. inversion H; subst r w'; clear H.
  split.
  - eexists _, (t_workoutSessions tr), (t_timeSeries tr).
    unfold Wrote. cbn [success errors recordCounts].
    split; [reflexivity|]. split; [reflexivity|].
    split.
    { rewrite V2, U2, T2, S2, Eg, E4, Ed. reflexivity. }
    split.
    { rewrite V3, <- U3. f_equal. now rewrite T3, S3, E4, Ed. }
    split.
    { simpl. f_equal. now rewrite V4, U4, T4, S4, E4, Ed. }
    split.
    { rewrite <- V5. f_equal. now rewrite U5, T5, S5, E4, Ed. }
    rewrite Eg, E4, Ed. reflexivity.
  - intros Hdup. unfold alreadyImported in Hdup.
    apply existsb_filter in Hdup. subst srcs. rewrite Hdup.
    exists (duplicateWarning "This file has already been imported").
    split; [|reflexivity].
    cbn [warnings]. apply in_or_app. left. apply in_or_app. left.
    apply in_or_app. left. now left.
Qed.

Lemma appleXmlPath_inv file user cb content w r w' :
  appleXmlPath host file user cb content w = (inr r, w') ->
  (exists ss ws ms, Wrote user w w' r ss ws ms [])
  /\ hasDuplicateWarning r.
Proof.
  unfold appleXmlPath. intros H. cbv beta zeta in H.
  mstep H as u1 w1 E1. apply report_inv in E1; subst w1.
  mstep H as sid w2 E2. apply generateId_inv in E2 as [Ed Ei].
  mstep H as ar w3 E3. apply runAppleParser_inv in E3.
  mstep H as u4 w4 E4. apply report_inv in E4; subst w4.
  mstep H as ex w5 E5. apply getAll_inv in E5 as [-> Eg].
  mstep H as u6 w6 E6. apply report_inv in E6; subst w6.
  mstep H as u7 w7 E7. apply putSource_inv in E7 as (N1 & S1 & S2 & S3 & S4 & S5).
  mstep H as u8 w8 E8. apply putSleep_inv in E8 as (N2 & T1 & T2 & T3 & T4 & T5).
  mstep H as u9 w9 E9. apply putWorkouts_inv in E9 as (N3 & U1 & U2 & U3 & U4 & U5).
  mstep H as u10 w10 E10. apply putMetrics_inv in E10 as (N4 & V1 & V2 & V3 & V4 & V5).
  mstep H as u11 w11 E11. apply report_inv in E11; subst w11.
  unfold ret in H. inversion H; subst r w'; clear H.
  split.
  - eexists _, (a_workoutSessions ar), (a_dailyMetrics ar).
    unfold Wrote. cbn [success errors recordCounts].
    split; [reflexivity|]. split; [reflexivity|].
    split.
    { rewrite V2, U2, T2, S2, Eg, E3, Ed. reflexivity. }
    split.
    { rewrite V3, <- U3. f_equal. now rewrite T3, S3, E3, Ed. }
    split.
    { rewrite <- V4. f_equal. now rewrite U4, T4, S4, E3, Ed. }
    split.
    { simpl. f_equal. now rewrite V5, U5, T5, S5, E3, Ed. }
    rewrite Eg, E3, Ed. reflexivity.
  - eexists. split; [left; reflexivity | reflexivity].
Qed.

Lemma preParsedPath_inv file user cb content data w r w' :
  preParsedPath host file user cb content data w = (inr r, w') ->
  Wrote user w w' r
    (map validateSession
       (map (stampSession (r_sourceId r) user)
            (arrayItems (getKey "sleepSessions" data))))
    (map (stampObject (r_sourceId r) user)
         (arrayItems (getKey "workoutSessions" data)))
    (map (stampObject (r_sourceId r) user)
         (if js_truthy (getKey "dailyMetrics" data)
          then arrayItems (getKey "dailyMetrics" data) else []))
    []
  /\ hasDuplicateWarning r.
Proof.
  unfold preParsedPath. intros H. cbv beta zeta in H.
  mstep H as u1 w1 E1. apply report_inv in E1; subst w1.
  mstep H as sid w2 E2.
  assert (Ed : db w2 = db w).
  { destruct (getKey "sourceId" data) as [| | | |s| |];
      try (apply generateId_inv in E2 as [Ed _]; exact Ed).
    destruct (String.eqb s EmptyString).
    - apply generateId_inv in E2 as [Ed _]; exact Ed.
    - unfold ret in E2. inversion E2. reflexivity. }
  clear E2.
  mstep H as u4 w4 E4. apply report_inv in E4; subst w4.
  mstep H as ex w5 E5. apply getAll_inv in E5 as [-> Eg].
  mstep H as u6 w6 E6. apply report_inv in E6; subst w6.
  mstep H as u7 w7 E7. apply putSource_inv in E7 as (N1 & S1 & S2 & S3 & S4 & S5).
  mstep H as u8 w8 E8. apply putSleep_inv in E8 as (N2 & T1 & T2 & T3 & T4 & T5).
  mstep H as u9 w9 E9. apply putWorkouts_inv in E9 as (N3 & U1 & U2 & U3 & U4 & U5).
  mstep H as u10 w10 E10. apply putMetrics_inv in E10 as (N4 & V1 & V2 & V3 & V4 & V5).
  mstep H as u11 w11 E11. apply report_inv in E11; subst w11.
  destruct (getKey "sources" data) as [| | | | |names|]; try discriminate H.
  unfold ret in H. inversion H; subst r w'; clear H.
  split.
  - unfold Wrote. cbn [success errors recordCounts r_sourceId].
    split; [reflexivity|]. split; [reflexivity|].
    split.
    { rewrite V2, U2, T2, S2, Eg, Ed. reflexivity. }
    split.
    { rewrite V3, <- U3. f_equal. now rewrite T3, S3, Ed. }
    split.
    { rewrite <- V4. f_equal. now rewrite U4, T4, S4, Ed. }
    split.
    { simpl. f_equal. now rewrite V5, U5, T5, S5, Ed. }
    rewrite Eg, Ed. reflexivity.
  - eexists. split; [left; reflexivity | reflexivity].
Qed.

End Paths.

End PathFacts.

Module ImportFileFacts.
Import Pipeline Orchestrator ReimportFacts PrimitiveFacts PathFacts.

Section ImportFile.
Variable host : Host.

Lemma detectCsvVendor_type c n : fileType (detectCsvVendor c n) = ft_csv.
Proof. reflexivity. Qed.

(** A file is classified as JSON only when [JSON.parse] accepts it. *)
Lemma detect_json_parses file :
  fileType (detectFileType host file) = ft_json ->
  exists v, JSON_parse host (contentText file) = Some v.
Proof.
  unfold detectFileType. cbv zeta.
  set (notJson := if looksLikeCsv _ then _ else _).
  assert (N : fileType notJson <> ft_json).
  { unfold notJson.
    destruct (looksLikeCsv _); [rewrite detectCsvVendor_type; discriminate|].
    destruct (_ || _).
    - destruct (_ || _); simpl; discriminate.
    - destruct (f_content file) as [t|[|b0 [|b1 bs]]]; simpl; try discriminate.
      destruct (_ && _); simpl; discriminate. }
  clearbody notJson.
  destruct (_ || _); cbv iota; [|intros H; contradiction].
  destruct (JSON_parse host (contentText file)) as [v|]; [eauto|].
  intros H; contradiction.
Qed.

Lemma report_quiet cb st p m w :
  reportPure cb st p m = None -> report cb st p m w = (inr tt, w).
Proof.
  unfold reportPure, report, ofOption. destruct cb as [f|]; [|reflexivity].
  intros ->. reflexivity.
Qed.

Lemma importSteps_inv file user profile cb w r w' :
  importSteps host file user profile cb w = (inr r, w') ->
  (exists e, r = createErrorResult [e]
             /\ (e_type e = invalid_format \/ e_type e = unsupported_vendor))
  \/ ((exists ss ws ms ts, Wrote user w w' r ss ws ms ts)
      /\ (alreadyImported host file w = true -> hasDuplicateWarning r)).
Proof.
  unfold importSteps. intros H. cbv beta zeta in H.
  mstep H as u1 w1 E1. apply report_inv in E1; subst w1.
  destruct (fileType (detectFileType host file)) eqn:Eft.
  - (* json *)
    destruct (detect_json_parses file Eft) as (v & Ev).
    destruct (match profile with Some p => Some p | None => _ end) as [prof|].
    + mstep H as u2 w2 E2. apply report_inv in E2; subst w2.
      rewrite Ev in H.
      destruct (vendor_eqb _ _ && _).
      * right. apply preParsedPath_inv in H as [Hw Hd].
        split; [eauto 10 | auto].
      * right. apply genericPath_inv in H as [(ss & ws & ts & Hw) Hd].
        split; [eauto 10 | auto].
    + left. unfold ret in H. inversion H. eexists. split; [reflexivity|].
      right. reflexivity.
  - (* csv *)
    destruct (match profile with Some p => Some p | None => _ end) as [prof|].
    + mstep H as u2 w2 E2. apply report_inv in E2; subst w2.
      right.
      assert (G : genericPath host file user prof cb (detectFileType host file)
                    (contentText file) (VArr (map VObj (parseCsv (contentText file)))) w
                  = (inr r, w')).
      { destruct (suggestedVendor (detectFileType host file)); exact H. }
      apply genericPath_inv in G as [(ss & ws & ts & Hw) Hd].
      split; [eauto 10 | auto].
    + left. unfold ret in H. inversion H. eexists. split; [reflexivity|].
      right. reflexivity.
  - (* zip *)
    left.
    destruct (match profile with Some p => Some p | None => _ end) as [prof|].
    + mstep H as u2 w2 E2.
      destruct (suggestedVendor (detectFileType host file));
        unfold ret in H; inversion H; eexists; (split; [reflexivity|]);
        right; reflexivity.
    + unfold ret in H. inversion H. eexists. split; [reflexivity|].
      right. reflexivity.
  - (* xml *)
    destruct (match profile with Some p => Some p | None => _ end) as [prof|].
    + mstep H as u2 w2 E2. apply report_inv in E2; subst w2.
      destruct (suggestedVendor (detectFileType host file)) eqn:Ev;
        try (left; unfold ret in H; inversion H; eexists;
             (split; [reflexivity|]); right; reflexivity).
      right. apply appleXmlPath_inv in H as [(ss & ws & ms & Hw) Hd].
      split; [eauto 10 | auto].
    + left. unfold ret in H. inversion H. eexists. split; [reflexivity|].
      right. reflexivity.
  - (* unknown *)
    left. unfold ret in H. inversion H. eexists. split; [reflexivity|].
    left. reflexivity.
Qed.

Lemma importFile_returns file user profile cb w :
  exists r w', importFile host file user profile cb w = (inr r, w').
Proof.
  unfold importFile, tryCatch.
  destruct (importSteps host file user profile cb w) as [[e|r] w'];
    unfold ret; eauto.
Qed.

Lemma importFile_inv file user profile cb w r w' :
  importFile host file user profile cb w = (inr r, w') ->
  (importSteps host file user profile cb w = (inr r, w'))
  \/ (exists e, importSteps host file user profile cb w = (inl e, w')
                /\ r = createErrorResult [caughtError e]).
Proof.
  unfold importFile, tryCatch.
  destruct (importSteps host file user profile cb w) as [[e|r0] w0].
  - unfold ret. intros H; inversion H; subst. right. eauto.
  - intros H; inversion H; subst. now left.
Qed.

Lemma importFile_unknown file user profile cb w :
  reportPure cb detecting 5 "Analyzing file..." = None ->
  fileType (detectFileType host file) = ft_unknown ->
  importFile host file user profile cb w
  = (inr (createErrorResult
            [errorOf invalid_format "Could not determine file format" None]), w).
Proof.
  intros Hq Hu. unfold importFile, tryCatch, importSteps, bind.
  rewrite (report_quiet _ _ _ _ w Hq). cbv zeta. now rewrite Hu.
Qed.

Lemma importFile_unsupported file user cb w :
  reportPure cb detecting 5 "Analyzing file..." = None ->
  fileType (detectFileType host file) <> ft_unknown ->
  getBuiltInProfile (suggestedVendor (detectFileType host file)) = None ->
  importFile host file user None cb w
  = (inr (createErrorResult
            [errorOf unsupported_vendor
               ("No importer profile found for "
                  ++ vendorName (suggestedVendor (detectFileType host file)))
               None]), w).
Proof.
  intros Hq Hu Hp. unfold importFile, tryCatch, importSteps, bind.
  rewrite (report_quiet _ _ _ _ w Hq). cbv zeta. rewrite Hp.
  destruct (fileType (detectFileType host file)); try reflexivity.
  congruence.
Qed.

End ImportFile.

End ImportFileFacts.

(** *** Key order of the object stores *)

Lemma ascii_compare_refl c : Ascii.compare c c = Eq.
Proof. unfold Ascii.compare. apply N.compare_refl. Qed.

Lemma ascii_compare_lt_trans a b c :
  Ascii.compare a b = Lt -> Ascii.compare b c = Lt -> Ascii.compare a c = Lt.
Proof.
  unfold Ascii.compare. rewrite !N.compare_lt_iff. apply N.lt_trans.
Qed.

Lemma string_compare_refl s : String.compare s s = Eq.
Proof.
  induction s as [|c s IH]; simpl; [reflexivity|].
  now rewrite ascii_compare_refl.
Qed.

Lemma string_compare_lt_trans a b c :
  String.compare a b = Lt -> String.compare b c = Lt -> String.compare a c = Lt.
Proof.
  revert b c. induction a as [|x a IH]; intros [|y b] [|z c]; simpl;
    try discriminate; auto.
  destruct (Ascii.compare x y) eqn:Exy; try discriminate;
    destruct (Ascii.compare y z) eqn:Eyz; try discriminate; intros H1 H2.
  - apply Ascii.compare_eq_iff in Exy, Eyz. subst.
    rewrite ascii_compare_refl. eauto.
  - apply Ascii.compare_eq_iff in Exy. subst. now rewrite Eyz.
  - apply Ascii.compare_eq_iff in Eyz. subst. now rewrite Exy.
  - now rewrite (ascii_compare_lt_trans _ _ _ Exy Eyz).
Qed.

Lemma string_compare_gt_lt a b :
  String.compare a b = Gt -> String.compare b a = Lt.
Proof.
  intros H. rewrite String.compare_antisym, H. reflexivity.
Qed.

Section SortedTables.
Context {R : Type} (key : R -> string).
Import Orchestrator.

Lemma table_put_keys r t k :
  In k (map key (table_put key r t)) <-> k = key r \/ In k (map key t).
Proof.
  induction t as [|x t IH]; simpl; [intuition|].
  destruct (String.compare (key r) (key x)) eqn:E; simpl.
  - apply String.compare_eq_iff in E. rewrite E. intuition.
  - intuition.
  - rewrite IH. intuition.
Qed.

Lemma table_put_sorted r t : InKeyOrder key t -> InKeyOrder key (table_put key r t).
Proof.
  unfold InKeyOrder. induction 1 as [|x t Hs IH Hall]; simpl.
  - repeat constructor.
  - destruct (String.compare (key r) (key x)) eqn:E.
    + apply String.compare_eq_iff in E. constructor; [assumption|].
      eapply Forall_impl; [|exact Hall]. unfold keyLt. intros a. now rewrite E.
    + constructor; [constructor; assumption|].
      constructor; [exact E|].
      eapply Forall_impl; [|exact Hall]. unfold keyLt. intros a Ha.
      eapply string_compare_lt_trans; eauto.
    + constructor; [assumption|].
      apply Forall_forall. intros a Ha.
      assert (Hk : In (key a) (map key (table_put key r t))) by now apply in_map.
      apply table_put_keys in Hk as [Hk|Hk].
      * unfold keyLt. rewrite Hk. now apply string_compare_gt_lt.
      * apply in_map_iff in Hk as (b & Eb & Hb).
        rewrite Forall_forall in Hall. unfold keyLt. rewrite <- Eb.
        now apply Hall.
Qed.

Lemma table_put_length_new r t :
  ~ In (key r) (map key t) -> length (table_put key r t) = S (length t).
Proof.
  induction t as [|x t IH]; simpl; [reflexivity|]. intros Hn.
  destruct (String.compare (key r) (key x)) eqn:E; simpl.
  - apply String.compare_eq_iff in E. exfalso. apply Hn. now left.
  - reflexivity.
  - rewrite IH; [reflexivity | tauto].
Qed.

Lemma table_put_length_old r t :
  InKeyOrder key t -> In (key r) (map key t) ->
  length (table_put key r t) = length t.
Proof.
  unfold InKeyOrder. induction 1 as [|x t Hs IH Hall]; simpl; [tauto|].
  intros Hin.
  destruct (String.compare (key r) (key x)) eqn:E; simpl.
  - reflexivity.
  - exfalso. destruct Hin as [Hin|Hin].
    + rewrite Hin, string_compare_refl in E. discriminate.
    + apply in_map_iff in Hin as (b & Eb & Hb).
      rewrite Forall_forall in Hall. specialize (Hall b Hb). unfold keyLt in Hall.
      rewrite Eb in Hall.
      pose proof (string_compare_lt_trans _ _ _ E Hall) as C.
      rewrite string_compare_refl in C. discriminate.
  - f_equal. apply IH. destruct Hin as [Hin|Hin]; [|assumption].
    rewrite Hin, string_compare_refl in E. discriminate.
Qed.

End SortedTables.

Module StoreFacts.
Import Orchestrator.

Lemma objKey_of o k : keyOf o = Some k -> objKey o = k.
Proof. unfold objKey. now intros ->. Qed.

(** Records under fresh, distinct keys make the store grow by their
    number. *)
Lemma obj_putMany_fresh rs t t' :
  obj_putMany rs t = (None, t') ->
  NoDup (map objKey rs) ->
  (forall r, In r rs -> ~ In (objKey r) (map objKey t)) ->
  length t' = (length t + length rs)%nat.
Proof.
  revert t. induction rs as [|r rs IH]; intros t H Hnd Hfresh; simpl in *.
  - inversion H. lia.
  - destruct (keyOf r) as [k|]; [|discriminate].
    inversion Hnd as [|? ? Hnot Hnd']; subst.
    rewrite (IH _ H Hnd').
    + rewrite table_put_length_new; [lia|]. apply Hfresh. now left.
    + intros x Hx Hin. apply table_put_keys in Hin as [Hin|Hin].
      * apply Hnot. rewrite <- Hin. now apply in_map.
      * apply (Hfresh x); auto.
Qed.

(** Records whose keys are all stored already replace records: the store
    keeps its size, its keys and its order. *)
Lemma obj_putMany_present rs t t' :
  InKeyOrder objKey t ->
  obj_putMany rs t = (None, t') ->
  (forall r, In r rs -> In (objKey r) (map objKey t)) ->
  length t' = length t
  /\ InKeyOrder objKey t'
  /\ (forall k, In k (map objKey t') <-> In k (map objKey t)).
Proof.
  revert t. induction rs as [|r rs IH]; intros t Hs H Hin; simpl in *.
  - inversion H. subst. tauto.
  - destruct (keyOf r) as [k|]; [|discriminate].
    assert (Hr : In (objKey r) (map objKey t)) by (apply Hin; now left).
    destruct (IH (table_put objKey r t)) as (L & S & K).
    + now apply table_put_sorted.
    + exact H.
    + intros x Hx. apply table_put_keys. right. apply Hin. now right.
    + rewrite L, table_put_length_old by assumption.
      split; [reflexivity|]. split; [assumption|].
      intros k'. rewrite K, table_put_keys. split; [|tauto].
      intros [->|Hk]; assumption.
Qed.

(** Whatever is written is stored afterwards, in key order. *)
Lemma obj_putMany_stores rs t t' :
  InKeyOrder objKey t ->
  obj_putMany rs t = (None, t') ->
  InKeyOrder objKey t'
  /\ (forall r, In r rs -> In (objKey r) (map objKey t'))
  /\ (forall k, In k (map objKey t) -> In k (map objKey t')).
Proof.
  revert t. induction rs as [|r rs IH]; intros t Hs H; simpl in *.
  - inversion H. subst. tauto.
  - destruct (keyOf r) as [k|]; [|discriminate].
    destruct (IH (table_put objKey r t)) as (S & I & K).
    + now apply table_put_sorted.
    + exact H.
    + split; [assumption|]. split.
      * intros x [<-|Hx]; [|now apply I].
        apply K, table_put_keys. now left.
      * intros k' Hk. apply K, table_put_keys. now right.
Qed.

Lemma stampObject_key sid user w :
  keyOf (stampObject sid user w) = keyOf (match w with VObj o => o | _ => [] end).
Proof.
  unfold stampObject, keyOf.
  set (o := match w with VObj o => o | _ => [] end).
  assert (G : forall k v (o : obj), k <> "id"%string ->
              obj_get "id" (obj_set k v o) = obj_get "id" o).
  { intros k v o0 Hk.
    assert (Hn : String.eqb "id" k = false) by (apply String.eqb_neq; congruence).
    induction o0 as [|[k0 v0] o0 IH]; cbn [obj_set obj_get].
    - now rewrite Hn.
    - destruct (String.eqb k k0) eqn:E; cbn [obj_get].
      + apply String.eqb_eq in E. subst k0. now rewrite Hn.
      + destruct (String.eqb "id" k0); auto. }
  rewrite !G by discriminate. reflexivity.
Qed.

End StoreFacts.

Module ImportFileTheorems.
Import Pipeline Orchestrator ReimportFacts PrimitiveFacts PathFacts ImportFileFacts StoreFacts Demo.
Local Open Scope string_scope.

(** [importFile] always returns a result.  A failure result carries
    exactly one typed error, no warning and zero counts; a success carries
    no error.  When the first progress report returns and the file type
    is unknown the error is [invalid_format]; when the type is known, no
    profile is given and none is built in for the detected vendor, it is
    [unsupported_vendor].  Whatever the pipeline throws is returned as a
    [storage_error] failure.  A file whose text [JSON.parse] rejects is
    never classified as JSON, and no result carries a [parse_error].  A
    successful import of a file whose hash is stored carries a
    [duplicate] warning. *)
Lemma importFile_result_shapes
  (host : Host) (file : ImportFile) (user : string)
  (profile : option ImporterProfile) (onProgress : option ProgressCallback)
  (w : World) :
  exists r w',
    importFile host file user profile onProgress w = (inr r, w')
    /\ (success r = false -> exists e, r = createErrorResult [e])
    /\ (success r = true -> errors r = [])
    /\ (reportPure onProgress detecting 5 "Analyzing file..." = None ->
        fileType (detectFileType host file) = ft_unknown ->
        r = createErrorResult
              [errorOf invalid_format "Could not determine file format" None]
        /\ w' = w)
    /\ (reportPure onProgress detecting 5 "Analyzing file..." = None ->
        fileType (detectFileType host file) <> ft_unknown ->
        profile = None ->
        getBuiltInProfile (suggestedVendor (detectFileType host file)) = None ->
        r = createErrorResult
              [errorOf unsupported_vendor
                 ("No importer profile found for "
                    ++ vendorName (suggestedVendor (detectFileType host file)))
                 None]
        /\ w' = w)
    /\ (forall e w0,
          importSteps host file user profile onProgress w = (inl e, w0) ->
          r = createErrorResult [caughtError e]
          /\ e_type (caughtError e) = storage_error /\ w' = w0)
    /\ (JSON_parse host (contentText file) = None ->
        fileType (detectFileType host file) <> ft_json)
    /\ (forall e, In e (errors r) -> e_type e <> parse_error)
    /\ (success r = true -> alreadyImported host file w = true ->
        hasDuplicateWarning r).
Proof.
  destruct (importFile_returns host file user profile onProgress w) as (r & w' & E).
  exists r, w'. split; [exact E|].
  pose proof (importFile_inv host _ _ _ _ _ _ _ E) as Hinv.
  assert (Hshape :
    (exists e, r = createErrorResult [e] /\ e_type e <> parse_error)
    \/ ((exists ss ws ms ts, Wrote user w w' r ss ws ms ts)
        /\ (alreadyImported host file w = true -> hasDuplicateWarning r))).
  { destruct Hinv as [Hs|(e & Hs & ->)].
    - apply importSteps_inv in Hs as [(e & -> & [He|He])|Hs].
      + left. exists e. split; [reflexivity | congruence].
      + left. exists e. split; [reflexivity | congruence].
      + right. exact Hs.
    - left. exists (caughtError e). split; [reflexivity | discriminate]. }
  split.
  { intros Hf. destruct Hshape as [(e & -> & _)|[(ss & ws & ms & ts & Hw) _]].
    - eauto.
    - destruct Hw as (Hs & _). congruence. }
  split.
  { intros Hs. destruct Hshape as [(e & -> & _)|[(ss & ws & ms & ts & Hw) _]].
    - discriminate.
    - destruct Hw as (_ & He & _). exact He. }
  split.
  { intros Hq Hu. rewrite (importFile_unknown host _ _ _ _ w Hq Hu) in E.
    inversion E. auto. }
  split.
  { intros Hq Hu -> Hp. rewrite (importFile_unsupported host _ _ _ w Hq Hu Hp) in E.
    inversion E. auto. }
  split.
  { intros e w0 He. destruct Hinv as [Hs|(e' & Hs & Hr)].
    - rewrite He in Hs. discriminate.
    - rewrite He in Hs. inversion Hs; subst. auto. }
  split.
  { intros Hn Hj. destruct (detect_json_parses host file Hj) as (v & Hv).
    congruence. }
  split.
  { intros e He. destruct Hshape as [(e0 & -> & Hne)|[(ss & ws & ms & ts & Hw) _]].
    - destruct He as [<-|[]]. exact Hne.
    - destruct Hw as (_ & Hnil & _). rewrite Hnil in He. contradiction. }
  intros Hs Hd. destruct Hshape as [(e & -> & _)|[_ Hdup]].
  - discriminate.
  - now apply Hdup.
Qed.

End ImportFileTheorems.

Module WorkoutStoreTheorems.
Import Pipeline Orchestrator ReimportFacts PrimitiveFacts PathFacts ImportFileFacts StoreFacts Demo.
Local Open Scope string_scope.

Lemma importFile_preParsed host file user profile cb w r w' data :
  isPreParsedImport host file data ->
  importFile host file user profile cb w = (inr r, w') ->
  success r = true ->
  Wrote user w w' r
    (map validateSession
       (map (stampSession (r_sourceId r) user)
            (arrayItems (getKey "sleepSessions" data))))
    (map (stampObject (r_sourceId r) user)
         (arrayItems (getKey "workoutSessions" data)))
    (map (stampObject (r_sourceId r) user)
         (if js_truthy (getKey "dailyMetrics" data)
          then arrayItems (getKey "dailyMetrics" data) else []))
    [].
Proof.
  intros (Hft & Hv & Hp & Hpre) E Hs.
  apply importFile_inv in E as [E|(e & _ & ->)]; [|discriminate].
  unfold importSteps in E. cbv beta zeta in E.
  mstep E as u1 w1 E1. apply report_inv in E1; subst w1.
  rewrite Hft, Hv in E. cbn [getBuiltInProfile] in E.
  assert (P : exists prof, match profile with
                           | Some p => Some p
                           | None => Some APPLE_HEALTH_PROFILE
                           end = Some prof)
    by (destruct profile; eauto).
  destruct P as (prof & P). rewrite P in E.
  mstep E as u2 w2 E2. apply report_inv in E2; subst w2.
  rewrite Hp, Hpre in E.
  change (vendor_eqb apple_health apple_health && true) with true in E.
  cbv iota in E.
  now apply preParsedPath_inv in E as [Hw _].
Qed.

Lemma stamped_keys sid1 sid2 user items x2 :
  In x2 (map (stampObject sid2 user) items) ->
  exists x1, In x1 (map (stampObject sid1 user) items) /\ keyOf x1 = keyOf x2.
Proof.
  intros H. apply in_map_iff in H as (it & <- & Hit).
  exists (stampObject sid1 user it). split; [now apply in_map|].
  now rewrite !stampObject_key.
Qed.

(** C9 as stated fails on the pre-parsed Apple Health path.  The file
    holds one workout, with id [w1]; both imports succeed; the workout is
    stored under the id of the file, not under a generated one, and the
    second import leaves one workout in the store, not two. *)
Lemma C9_counterexample :
  exists r1 w1 r2 w2,
    importFile demoHost preParsedFile "u" None None emptyWorld = (inr r1, w1)
    /\ importFile demoHost preParsedFile "u" None None w1 = (inr r2, w2)
    /\ success r1 = true /\ success r2 = true
    /\ n_workoutSessions (recordCounts r1) = 1%nat
    /\ n_workoutSessions (recordCounts r2) = 1%nat
    /\ map keyOf (workoutSessions (db w1)) = [Some "w1"]
    /\ map keyOf (workoutSessions (db w2)) = [Some "w1"]
    /\ length (workoutSessions (db w2)) <> 2%nat.
Proof.
  do 4 eexists.
  split; [vm_compute; reflexivity|].
  split; [vm_compute; reflexivity|].
  repeat split; try reflexivity. discriminate.
Qed.

(** On the pre-parsed path a second import of the same file leaves the
    number of stored workouts as the first import left it. *)
Lemma preParsed_reimport_keeps_workouts
  host file user profile cb1 cb2 data w0 r1 w1 r2 w2 :
  isPreParsedImport host file data ->
  InKeyOrder objKey (workoutSessions (db w0)) ->
  importFile host file user profile cb1 w0 = (inr r1, w1) -> success r1 = true ->
  importFile host file user profile cb2 w1 = (inr r2, w2) -> success r2 = true ->
  length (workoutSessions (db w2)) = length (workoutSessions (db w1)).
Proof.
  intros Hd Hord E1 S1 E2 S2.
  pose proof (importFile_preParsed _ _ _ _ _ _ _ _ _ Hd E1 S1) as (_ & _ & _ & P1 & _).
  pose proof (importFile_preParsed _ _ _ _ _ _ _ _ _ Hd E2 S2) as (_ & _ & _ & P2 & _).
  destruct (obj_putMany_stores _ _ _ Hord P1) as (Hord1 & Hin1 & _).
  refine (proj1 (obj_putMany_present _ _ _ Hord1 P2 _)).
  intros x2 Hx2.
  destruct (stamped_keys (r_sourceId r1) _ _ _ _ Hx2) as (x1 & Hx1 & Hk).
  unfold objKey. rewrite <- Hk. exact (Hin1 x1 Hx1).
Qed.

End WorkoutStoreTheorems.

(** ** The chunked scanner ([scripts/importAppleHealthStream.ts]) *)

Module PatternFacts.
Import JsString Stream.
Local Open Scope nat_scope.

(** *** String primitives under extension and truncation of the text *)

Lemma stripPrefix_app p s r t :
  stripPrefix p s = Some r -> stripPrefix p (s ++ t) = Some (r ++ t).
Proof.
  revert s. induction p as [|c p IH]; intros s H; simpl in *.
  - now inversion H.
  - destruct s as [|d s]; [discriminate|]. simpl.
    destruct (Ascii.eqb c d); [now apply IH | discriminate].
Qed.

Lemma stripPrefix_length p s r :
  stripPrefix p s = Some r -> length s = length p + length r.
Proof.
  revert s. induction p as [|c p IH]; intros s H; simpl in *.
  - now inversion H.
  - destruct s as [|d s]; [discriminate|]. simpl.
    destruct (Ascii.eqb c d); [|discriminate]. now rewrite (IH _ H).
Qed.

Lemma stripPrefix_skipn p s r :
  stripPrefix p s = Some r -> r = skipn (length p) s.
Proof.
  revert s. induction p as [|c p IH]; intros s H; simpl in *.
  - now inversion H.
  - destruct s as [|d s]; [discriminate|].
    destruct (Ascii.eqb c d); [now apply IH | discriminate].
Qed.

Lemma stripPrefix_firstn p s r k :
  stripPrefix p s = Some r -> length p <= k ->
  stripPrefix p (firstn k s) = Some (firstn (k - length p) r).
Proof.
  revert s k. induction p as [|c p IH]; intros s k H Hk; simpl in *.
  - inversion H. now rewrite Nat.sub_0_r.
  - destruct s as [|d s]; [discriminate|].
    destruct k as [|k]; [lia|]. simpl.
    destruct (Ascii.eqb c d); [|discriminate]. apply IH; [assumption|lia].
Qed.

Lemma indexOfChar_lt c s i : indexOfChar c s = Some i -> i < length s.
Proof.
  revert i. induction s as [|d s IH]; intros i H; simpl in *; [discriminate|].
  destruct (Ascii.eqb c d).
  - inversion H. lia.
  - destruct (indexOfChar c s) as [j|]; [|discriminate].
    inversion H. specialize (IH j eq_refl). lia.
Qed.

Lemma indexOfChar_app c s t i :
  indexOfChar c s = Some i -> indexOfChar c (s ++ t) = Some i.
Proof.
  revert i. induction s as [|d s IH]; intros i H; simpl in *; [discriminate|].
  destruct (Ascii.eqb c d); [assumption|].
  destruct (indexOfChar c s) as [j|]; [|discriminate].
  now rewrite (IH j eq_refl).
Qed.

Lemma indexOfChar_firstn c s i k :
  indexOfChar c s = Some i -> i < k -> indexOfChar c (firstn k s) = Some i.
Proof.
  revert i k. induction s as [|d s IH]; intros i k H Hk; simpl in *;
    [discriminate|].
  destruct k as [|k]; [lia|]. simpl.
  destruct (Ascii.eqb c d); [assumption|].
  destruct (indexOfChar c s) as [j|]; [|discriminate].
  inversion H; subst. rewrite (IH j k eq_refl); [reflexivity|lia].
Qed.

Lemma indexOfChar_nth c s i :
  indexOfChar c s = Some i -> nth_error s i = Some c.
Proof.
  revert i. induction s as [|d s IH]; intros i H; simpl in *; [discriminate|].
  destruct (Ascii.eqb c d) eqn:E.
  - inversion H. apply Ascii.eqb_eq in E. now subst.
  - destruct (indexOfChar c s) as [j|]; [|discriminate].
    inversion H. simpl. now apply IH.
Qed.

Lemma indexOf_bound p s i :
  indexOf p s = Some i -> i + length p <= length s.
Proof.
  revert i. induction s as [|d s IH]; intros i H; simpl in H.
  - destruct (stripPrefix p []) eqn:E; [|discriminate].
    inversion H. apply stripPrefix_length in E. simpl in *. lia.
  - destruct (stripPrefix p (d :: s)) eqn:E.
    + inversion H. apply stripPrefix_length in E. simpl in *. lia.
    + destruct (indexOf p s) as [j|]; [|discriminate].
      inversion H. specialize (IH j eq_refl). simpl. lia.
Qed.

Lemma indexOf_app p s t i :
  indexOf p s = Some i -> indexOf p (s ++ t) = Some i.
Proof.
  revert i. induction s as [|d s IH]; intros i H.
  - simpl in H. destruct (stripPrefix p []) eqn:E; [|discriminate].
    inversion H. destruct p; [|discriminate].
    destruct t; reflexivity.
  - simpl in H. destruct (stripPrefix p (d :: s)) eqn:E.
    + inversion H. change ((d :: s) ++ t) with (d :: (s ++ t)) at 1.
      pose proof (stripPrefix_app _ _ _ t E) as E'.
      simpl app in E'. simpl. now rewrite E'.
    + destruct (indexOf p s) as [j|] eqn:Ej; [|discriminate].
      inversion H; subst.
      destruct (stripPrefix p ((d :: s) ++ t)) eqn:E'.
      * (* the pattern lies within [d :: s] *)
        pose proof (IH j eq_refl) as IH'.
        apply indexOf_bound in Ej.
        exfalso.
        assert (Hp : length p <= length (d :: s)) by (simpl; lia).
        pose proof (stripPrefix_firstn _ _ _ (length (d :: s)) E' Hp) as F.
        rewrite firstn_app, Nat.sub_diag, firstn_all in F. simpl firstn in F.
        rewrite app_nil_r in F. congruence.
      * simpl. simpl in E'. rewrite E'. now rewrite (IH j eq_refl).
Qed.

Lemma indexOf_firstn p s i k :
  indexOf p s = Some i -> i + length p <= k ->
  indexOf p (firstn k s) = Some i.
Proof.
  revert i k. induction s as [|d s IH]; intros i k H Hk.
  - now rewrite firstn_nil.
  - simpl in H. destruct (stripPrefix p (d :: s)) eqn:E.
    + inversion H; subst. simpl in Hk.
      pose proof (stripPrefix_firstn _ _ _ k E Hk) as F.
      destruct k as [|k]; simpl in *.
      * destruct p; [reflexivity | simpl in Hk; lia].
      * now rewrite F.
    + destruct (indexOf p s) as [j|] eqn:Ej; [|discriminate].
      inversion H; subst.
      destruct k as [|k]; [lia|].
      change (firstn (S k) (d :: s)) with (d :: firstn k s).
      simpl.
      destruct (stripPrefix p (d :: firstn k s)) eqn:E'.
      * exfalso.
        pose proof (stripPrefix_app _ _ _ (skipn k s) E') as F.
        simpl app in F. rewrite firstn_skipn in F. congruence.
      * rewrite (IH j k eq_refl); [reflexivity|lia].
Qed.

Lemma spaces_le s j c :
  nth_error s j = Some c -> isSpace c = false -> spaces s <= j.
Proof.
  revert j. induction s as [|d s IH]; intros j H Hc; simpl in *.
  - lia.
  - destruct j as [|j]; simpl in H.
    + inversion H; subst. rewrite Hc. lia.
    + destruct (isSpace d); [|lia]. specialize (IH j H Hc). lia.
Qed.

Lemma spaces_app s t : spaces s < length s -> spaces (s ++ t) = spaces s.
Proof.
  induction s as [|d s IH]; simpl; intros H; [lia|].
  destruct (isSpace d); [|reflexivity]. rewrite IH; [reflexivity|lia].
Qed.

Lemma spaces_firstn s k : spaces s < k -> spaces (firstn k s) = spaces s.
Proof.
  revert k. induction s as [|d s IH]; intros k H; simpl in *.
  - now rewrite firstn_nil.
  - destruct k as [|k]; [lia|]. simpl.
    destruct (isSpace d); [|reflexivity]. rewrite IH; [reflexivity|lia].
Qed.

Lemma gt_not_space : isSpace ">" = false.
Proof. reflexivity. Qed.

(** *** The element pattern *)

Lemma charAt_app s t i c : i < length s -> charAt (s ++ t) i c = charAt s i c.
Proof. intros H. unfold charAt. now rewrite nth_error_app1. Qed.

Lemma charAt_firstn s k i c : i < k -> charAt (firstn k s) i c = charAt s i c.
Proof. intros H. unfold charAt. now rewrite nth_error_firstn, (proj2 (Nat.ltb_lt _ _) H). Qed.

(** Where an attempt succeeds: the first [>] lies at offset [w + p] of
    [r] and the match is longer than that. *)
Lemma matchWith_inv tag w r g n :
  matchWith tag w r = Some (g, n) ->
  exists p, indexOfChar ">" (skipn w r) = Some p /\ w + p < n /\ n <= length r.
Proof.
  unfold matchWith. generalize (closing tag). intros cl H.
  destruct (indexOfChar ">" (skipn w r)) as [p|] eqn:Ep; [|discriminate].
  exists p. split; [reflexivity|].
  pose proof (indexOfChar_lt _ _ _ Ep) as Hp. rewrite length_skipn in Hp.
  destruct ((2 <=? p) && charAt (skipn w r) (p - 1) "/").
  - inversion H; subst. clear - Hp. lia.
  - destruct (1 <=? p); [|discriminate].
    destruct (indexOf cl (skipn (p + 1) (skipn w r))) as [q|] eqn:Eq;
      [|discriminate].
    injection H as _ <-.
    apply indexOf_bound in Eq. rewrite !length_skipn in Eq. lia.
Qed.

Lemma skipn_app_le {A} (l t : list A) k :
  k <= length l -> skipn k (l ++ t) = skipn k l ++ t.
Proof.
  intros H. rewrite skipn_app.
  replace (k - length l) with 0 by lia. reflexivity.
Qed.

Lemma firstn_app_le {A} (l t : list A) k :
  k <= length l -> firstn k (l ++ t) = firstn k l.
Proof.
  intros H. rewrite firstn_app.
  replace (k - length l) with 0 by lia. simpl. now rewrite app_nil_r.
Qed.

Lemma matchWith_app tag w r t m :
  matchWith tag w r = Some m -> matchWith tag w (r ++ t) = Some m.
Proof.
  destruct m as [g n]. intros H.
  destruct (matchWith_inv _ _ _ _ _ H) as (p & Ep & Hp & Hn).
  unfold matchWith in *. rewrite Ep in H.
  pose proof (indexOfChar_lt _ _ _ Ep) as Hl. rewrite length_skipn in Hl.
  rewrite skipn_app_le by lia.
  rewrite (indexOfChar_app _ _ t _ Ep).
  rewrite charAt_app by (rewrite length_skipn; lia).
  destruct ((2 <=? p) && charAt (skipn w r) (p - 1) "/").
  - rewrite firstn_app_le by (rewrite length_skipn; lia). exact H.
  - destruct (1 <=? p); [|discriminate].
    rewrite skipn_app_le by (rewrite length_skipn; lia).
    destruct (indexOf (closing tag) (skipn (p + 1) (skipn w r))) as [q|] eqn:Eq;
      [|discriminate].
    rewrite (indexOf_app _ _ t _ Eq).
    rewrite firstn_app_le by (rewrite length_skipn; lia). exact H.
Qed.

Lemma skipn_firstn_le {A} (l : list A) a k :
  skipn a (firstn k l) = firstn (k - a) (skipn a l).
Proof. now rewrite skipn_firstn_comm. Qed.

Lemma matchWith_firstn tag w r g n k :
  matchWith tag w r = Some (g, n) -> n <= k ->
  matchWith tag w (firstn k r) = Some (g, n).
Proof.
  intros H Hk.
  destruct (matchWith_inv _ _ _ _ _ H) as (p & Ep & Hp & Hn).
  unfold matchWith in *. rewrite Ep in H.
  revert H. generalize (closing tag). intros cl H.
  rewrite skipn_firstn_le.
  rewrite (indexOfChar_firstn _ _ _ (k - w) Ep) by lia.
  rewrite charAt_firstn by lia.
  destruct ((2 <=? p) && charAt (skipn w r) (p - 1) "/").
  - rewrite firstn_firstn. replace (Nat.min (p - 1) (k - w)) with (p - 1) by lia.
    exact H.
  - destruct (1 <=? p); [|discriminate].
    rewrite skipn_firstn_le.
    destruct (indexOf cl (skipn (p + 1) (skipn w r))) as [q|] eqn:Eq;
      [|discriminate].
    injection H as <- <-.
    rewrite (indexOf_firstn _ _ _ (k - w - (p + 1)) Eq) by lia.
    rewrite firstn_firstn. replace (Nat.min p (k - w)) with p by lia.
    reflexivity.
Qed.

Lemma backtrack_inv tag W r m :
  backtrack tag W r = Some m ->
  exists w, 1 <= w <= W /\ matchWith tag w r = Some m.
Proof.
  induction W as [|W IH]; simpl; [discriminate|].
  destruct (matchWith tag (S W) r) as [m'|] eqn:E.
  - intros H. inversion H; subst. exists (S W). split; [lia|assumption].
  - intros H. destruct (IH H) as (w & Hw & Ew). exists w. split; [lia|assumption].
Qed.

Lemma backtrack_app tag W r t m :
  backtrack tag W r = Some m -> exists m', backtrack tag W (r ++ t) = Some m'.
Proof.
  induction W as [|W IH]; simpl; [discriminate|].
  destruct (matchWith tag (S W) r) as [m0|] eqn:E.
  - intros _. rewrite (matchWith_app _ _ _ t _ E). eauto.
  - intros H. destruct (matchWith tag (S W) (r ++ t)); eauto.
Qed.

Lemma backtrack_firstn tag W r g n k :
  backtrack tag W r = Some (g, n) -> n <= k ->
  backtrack tag W (firstn k r) = Some (g, n).
Proof.
  induction W as [|W IH]; simpl; [discriminate|].
  destruct (matchWith tag (S W) r) as [m0|] eqn:E.
  - intros H Hk. inversion H; subst.
    now rewrite (matchWith_firstn _ _ _ _ _ k E Hk).
  - intros H Hk.
    destruct (matchWith tag (S W) (firstn k r)) as [m1|] eqn:E1.
    + apply (matchWith_app _ _ _ (skipn k r)) in E1.
      rewrite firstn_skipn in E1. congruence.
    + now apply IH.
Qed.

(** A match leaves the run of white space behind. *)
Lemma backtrack_spaces tag r g n :
  backtrack tag (spaces r) r = Some (g, n) -> spaces r < n /\ n <= length r.
Proof.
  intros H. destruct (backtrack_inv _ _ _ _ H) as (w & Hw & Ew).
  destruct (matchWith_inv _ _ _ _ _ Ew) as (p & Ep & Hp & Hn).
  split; [|assumption].
  apply indexOfChar_nth in Ep. rewrite nth_error_skipn in Ep.
  pose proof (spaces_le _ _ _ Ep gt_not_space). lia.
Qed.

Lemma matchElement_bounds tag s g len :
  matchElement tag s = Some (g, len) -> 0 < len <= length s.
Proof.
  unfold matchElement. generalize (opening tag). intros op.
  destruct (stripPrefix op s) as [r|] eqn:E; [|discriminate].
  destruct (backtrack tag (spaces r) r) as [[g' n]|] eqn:B; [|discriminate].
  intros H. injection H as <- <-.
  apply backtrack_spaces in B. apply stripPrefix_length in E. lia.
Qed.

Lemma matchElement_app tag s t m :
  matchElement tag s = Some m -> exists m', matchElement tag (s ++ t) = Some m'.
Proof.
  unfold matchElement. generalize (opening tag). intros op.
  destruct (stripPrefix op s) as [r|] eqn:E; [|discriminate].
  rewrite (stripPrefix_app _ _ _ t E).
  destruct (backtrack tag (spaces r) r) as [[g n]|] eqn:B; [|discriminate].
  intros _.
  pose proof (backtrack_spaces _ _ _ _ B) as [Hs Hn].
  rewrite spaces_app by lia.
  destruct (backtrack_app _ _ _ t _ B) as ([g' n'] & ->). eauto.
Qed.

Lemma matchElement_firstn tag s g len k :
  matchElement tag s = Some (g, len) -> len <= k ->
  matchElement tag (firstn k s) = Some (g, len).
Proof.
  unfold matchElement. generalize (opening tag). intros op.
  destruct (stripPrefix op s) as [r|] eqn:E; [|discriminate].
  destruct (backtrack tag (spaces r) r) as [[g' n]|] eqn:B; [|discriminate].
  intros H Hk. injection H as <- <-.
  rewrite (stripPrefix_firstn _ _ _ k E) by lia.
  pose proof (backtrack_spaces _ _ _ _ B) as [Hs Hn].
  rewrite spaces_firstn by lia.
  rewrite (backtrack_firstn _ _ _ _ _ (k - length op) B) by lia.
  reflexivity.
Qed.

End PatternFacts.

Module ExecFacts.
Import JsString Stream PatternFacts.
Local Open Scope nat_scope.

Lemma flat_map_seq_shift {A} (f : nat -> list A) a n :
  flat_map f (seq (S a) n) = flat_map (fun i => f (S i)) (seq a n).
Proof.
  revert a. induction n as [|n IH]; intros a; simpl; [reflexivity|].
  now rewrite IH.
Qed.

Lemma flat_map_seq_add {A} (f : nat -> list A) c a n :
  flat_map f (seq (c + a) n) = flat_map (fun i => f (c + i)) (seq a n).
Proof.
  revert a. induction n as [|n IH]; intros a; simpl; [reflexivity|].
  f_equal. rewrite <- IH. f_equal. f_equal. lia.
Qed.

Lemma flat_map_ext_in {A B} (f g : A -> list B) l :
  (forall x, In x l -> f x = g x) -> flat_map f l = flat_map g l.
Proof.
  induction l as [|x l IH]; intros H; simpl; [reflexivity|].
  rewrite (H x (or_introl eq_refl)), IH; [reflexivity|].
  intros y Hy. apply H. now right.
Qed.

Lemma flat_map_nil_in {A B} (f : A -> list B) l :
  (forall x, In x l -> f x = []) -> flat_map f l = [].
Proof.
  induction l as [|x l IH]; intros H; simpl; [reflexivity|].
  rewrite (H x (or_introl eq_refl)), IH; [reflexivity|].
  intros y Hy. apply H. now right.
Qed.

Section Exec.
Context {G : Type}.
Variable matchAt : text -> option (G * nat).
Hypothesis matchAt_bounds :
  forall s g len, matchAt s = Some (g, len) -> 0 < len <= length s.

Lemma Unnested_tail d s : Unnested matchAt (d :: s) -> Unnested matchAt s.
Proof.
  intros H i j g len Hi Hij Hj.
  exact (H (S i) (S j) g len Hi ltac:(lia) ltac:(lia)).
Qed.

Lemma execFrom_all s : forall skip pos,
  Unnested matchAt s ->
  (forall j, j < skip -> matchAt (skipn j s) = None) ->
  execFrom matchAt skip pos s = allFrom matchAt pos s.
Proof.
  induction s as [|d s IH]; intros skip pos Hu Hs; [reflexivity|].
  pose proof (Unnested_tail _ _ Hu) as Hu'.
  simpl. destruct skip as [|k].
  - destruct (matchAt (d :: s)) as [[g len]|] eqn:E.
    + f_equal. apply IH; [assumption|].
      intros j Hj. apply (Hu 0 (S j) g len E); lia.
    + apply IH; [assumption|]. intros j Hj. lia.
  - pose proof (Hs 0 ltac:(lia)) as H0. simpl in H0. rewrite H0.
    apply IH; [assumption|]. intros j Hj. apply (Hs (S j)). lia.
Qed.

Lemma allFrom_In s : forall pos m,
  In m (allFrom matchAt pos s) <->
  exists i g len,
    matchAt (skipn i s) = Some (g, len)
    /\ m = {| index := pos + i; whole := firstn len (skipn i s); group := g |}.
Proof.
  induction s as [|d s IH]; intros pos m.
  - simpl. split; [tauto|]. intros (i & g & len & E & _).
    rewrite skipn_nil in E. apply matchAt_bounds in E. simpl in E. lia.
  - simpl. split.
    + intros H.
      assert (H' : (exists g len, matchAt (d :: s) = Some (g, len)
                      /\ m = {| index := pos; whole := firstn len (d :: s);
                                group := g |})
                   \/ In m (allFrom matchAt (S pos) s)).
      { destruct (matchAt (d :: s)) as [[g len]|]; [|now right].
        destruct H as [<-|H]; [left; eauto | now right]. }
      destruct H' as [(g & len & E & ->)|H'].
      * exists 0, g, len. rewrite Nat.add_0_r. split; [exact E|reflexivity].
      * apply IH in H' as (i & g & len & E & ->).
        exists (S i), g, len. split; [exact E|]. simpl. f_equal. lia.
    + intros (i & g & len & E & ->). destruct i as [|i].
      * simpl in E. rewrite E. left. rewrite Nat.add_0_r. reflexivity.
      * assert (In {| index := S pos + i; whole := firstn len (skipn i s);
                      group := g |} (allFrom matchAt (S pos) s))
          by (apply IH; eauto).
        replace (pos + S i) with (S pos + i) by lia. simpl skipn.
        destruct (matchAt (d :: s)) as [[g' len']|]; [now right|assumption].
Qed.

Lemma allFrom_found s : forall pos,
  map payload (allFrom matchAt pos s)
  = flat_map (foundAt matchAt s) (seq 0 (length s)).
Proof.
  induction s as [|d s IH]; intros pos; [reflexivity|].
  cbn [length seq flat_map]. rewrite flat_map_seq_shift.
  change (fun i => foundAt matchAt (d :: s) (S i)) with (foundAt matchAt s).
  rewrite <- (IH (S pos)). unfold foundAt at 1. simpl.
  destruct (matchAt (d :: s)) as [[g len]|]; reflexivity.
Qed.

(** The matches are found from left to right, each past the end of the
    one before. *)
Lemma execFrom_sorted s : forall skip pos,
  Forall (fun m => pos + skip <= index m) (execFrom matchAt skip pos s)
  /\ StronglySorted (fun a b => matchEnd a <= index b)
                    (execFrom matchAt skip pos s).
Proof.
  induction s as [|d s IH]; intros skip pos.
  - simpl. split; constructor.
  - simpl. destruct skip as [|k].
    + destruct (matchAt (d :: s)) as [[g len]|] eqn:E.
      * destruct (IH (len - 1) (S pos)) as [Hf Hs].
        pose proof (matchAt_bounds _ _ _ E) as Hb.
        split.
        -- constructor; [simpl; lia|].
           eapply Forall_impl; [|exact Hf]. simpl. intros; lia.
        -- constructor; [exact Hs|].
           eapply Forall_impl; [|exact Hf]. intros m Hm. cbv beta in Hm.
           unfold matchEnd. cbn [index whole].
           rewrite length_firstn. lia.
      * destruct (IH 0 (S pos)) as [Hf Hs]. split; [|exact Hs].
        eapply Forall_impl; [|exact Hf]. simpl. intros; lia.
    + destruct (IH k (S pos)) as [Hf Hs]. split; [|exact Hs].
      eapply Forall_impl; [|exact Hf]. simpl. intros; lia.
Qed.

Lemma lastEnd_ge (ms : list (Match G)) : forall d,
  Forall (fun m => d <= matchEnd m) ms ->
  StronglySorted (fun a b => matchEnd a <= index b) ms ->
  d <= fold_left (fun _ m => matchEnd m) ms d
  /\ forall m, In m ms -> matchEnd m <= fold_left (fun _ m => matchEnd m) ms d.
Proof.
  induction ms as [|a ms IH]; intros d Hd Hs; simpl.
  - split; [lia|tauto].
  - inversion Hd as [|? ? Ha Hd']; subst.
    inversion Hs as [|? ? Hs' Hall]; subst.
    destruct (IH (matchEnd a)) as [H1 H2]; [|assumption|].
    { eapply Forall_impl; [|exact Hall]. intros m Hm. unfold matchEnd in *. lia. }
    split; [lia|]. intros m [<-|Hm]; auto.
Qed.

Lemma lastEnd_cases (ms : list (Match G)) : forall d,
  fold_left (fun _ m => matchEnd m) ms d = d
  \/ exists m, In m ms /\ fold_left (fun _ m => matchEnd m) ms d = matchEnd m.
Proof.
  induction ms as [|a ms IH]; intros d; simpl; [now left|].
  right. destruct (IH (matchEnd a)) as [E|(m & Hm & E)].
  - exists a. split; [now left|assumption].
  - exists m. split; [now right|assumption].
Qed.

Lemma maxEnd_ge (ms : list (Match G)) : forall d,
  d <= fold_left (fun l m => if l <? matchEnd m then matchEnd m else l) ms d
  /\ forall m, In m ms ->
       matchEnd m
       <= fold_left (fun l m => if l <? matchEnd m then matchEnd m else l) ms d.
Proof.
  induction ms as [|a ms IH]; intros d; simpl.
  - split; [lia|tauto].
  - destruct (IH (if d <? matchEnd a then matchEnd a else d)) as [H1 H2].
    destruct (Nat.ltb_spec d (matchEnd a)).
    + split; [lia|]. intros m [<-|Hm]; auto.
    + split; [lia|]. intros m [<-|Hm]; [lia|auto].
Qed.

Lemma maxEnd_cases (ms : list (Match G)) : forall d,
  fold_left (fun l m => if l <? matchEnd m then matchEnd m else l) ms d = d
  \/ exists m, In m ms
       /\ fold_left (fun l m => if l <? matchEnd m then matchEnd m else l) ms d
          = matchEnd m.
Proof.
  induction ms as [|a ms IH]; intros d; simpl; [now left|].
  destruct (IH (if d <? matchEnd a then matchEnd a else d)) as [E|(m & Hm & E)].
  - destruct (d <? matchEnd a).
    + right. exists a. split; [now left|assumption].
    + now left.
  - right. exists m. split; [now right|assumption].
Qed.

End Exec.

End ExecFacts.

Module StreamableFacts.
Import JsString Stream PatternFacts ExecFacts.
Local Open Scope nat_scope.

Lemma elementAt_In tag s i g len :
  matchElement tag (skipn i s) = Some (g, len) ->
  In (i, i + len) (elementAt tag s i).
Proof. unfold elementAt. intros ->. now left. Qed.

Lemma elementsIn_In tag s i g len :
  Tag tag ->
  matchElement tag (skipn i s) = Some (g, len) ->
  In (i, i + len) (elementsIn s).
Proof.
  intros Ht E. unfold elementsIn. apply in_flat_map. exists i. split.
  - apply in_seq. pose proof (matchElement_bounds _ _ _ _ E) as Hb.
    rewrite length_skipn in Hb. lia.
  - apply in_or_app. destruct Ht as [-> | ->];
      [left | right]; eapply elementAt_In; eassumption.
Qed.

Lemma elementsOfPrefixes_In tag doc n i g len :
  Tag tag -> n <= length doc ->
  matchElement tag (skipn i (firstn n doc)) = Some (g, len) ->
  In (i, i + len) (elementsOfPrefixes doc).
Proof.
  intros Ht Hn E. unfold elementsOfPrefixes. apply in_flat_map.
  exists n. split; [apply in_seq; lia|].
  eapply elementsIn_In; eassumption.
Qed.

Lemma elementsOfPrefixes_whole tag doc i g len :
  Tag tag ->
  matchElement tag (skipn i doc) = Some (g, len) ->
  In (i, i + len) (elementsOfPrefixes doc).
Proof.
  intros Ht E. apply (elementsOfPrefixes_In tag doc (length doc) i g len Ht);
    [lia|]. now rewrite firstn_all.
Qed.

Lemma streamable_inv doc x y :
  streamable doc = true ->
  In x (elementsOfPrefixes doc) -> In y (elementsOfPrefixes doc) ->
  snd x - fst x <= SAFETY_MARGIN
  /\ (snd x <= fst y \/ snd y <= fst x \/ x = y).
Proof.
  unfold streamable. intros H Hx Hy.
  rewrite forallb_forall in H. specialize (H x Hx).
  apply andb_true_iff in H as [Hb Ha]. split.
  - now apply Nat.leb_le.
  - rewrite forallb_forall in Ha. specialize (Ha y Hy). unfold apart in Ha.
    apply orb_true_iff in Ha as [Ha|Ha].
    + apply orb_true_iff in Ha as [Ha|Ha]; apply Nat.leb_le in Ha; auto.
    + apply andb_true_iff in Ha as [H1 H2].
      apply Nat.eqb_eq in H1, H2. right; right.
      destruct x, y; simpl in *; congruence.
Qed.

Lemma streamable_Bounded doc : streamable doc = true -> Bounded doc.
Proof.
  intros H tag i g len Ht E.
  pose proof (elementsOfPrefixes_whole _ _ _ _ _ Ht E) as Hx.
  destruct (streamable_inv _ _ _ H Hx Hx) as [Hb _]. simpl in Hb. lia.
Qed.

Lemma streamable_Disjoint doc : streamable doc = true -> Disjoint doc.
Proof.
  intros H t1 t2 i j g1 l1 g2 l2 H1 H2 E1 E2 Hij Hj.
  pose proof (elementsOfPrefixes_whole _ _ _ _ _ H1 E1) as Hx.
  pose proof (elementsOfPrefixes_whole _ _ _ _ _ H2 E2) as Hy.
  pose proof (matchElement_bounds _ _ _ _ E2) as Hb.
  destruct (streamable_inv _ _ _ H Hx Hy) as [_ [Hd|[Hd|Hd]]]; simpl in Hd.
  - lia.
  - lia.
  - inversion Hd. split; lia.
Qed.

Lemma streamable_Stable doc : streamable doc = true -> Stable doc.
Proof.
  intros H tag n i [g len] Ht E.
  destruct (Nat.le_gt_cases (length doc) n) as [Hn|Hn].
  { now rewrite firstn_all2 in E. }
  pose proof (matchElement_bounds _ _ _ _ E) as Hb.
  rewrite length_skipn, length_firstn in Hb.
  assert (Hs : skipn i doc = skipn i (firstn n doc) ++ skipn n doc).
  { rewrite <- (firstn_skipn n doc) at 1.
    apply skipn_app_le. rewrite length_firstn. lia. }
  destruct (matchElement_app _ _ (skipn n doc) _ E) as ([g' len'] & E').
  rewrite <- Hs in E'.
  pose proof (elementsOfPrefixes_In tag doc n i g len Ht ltac:(lia) E) as Hx.
  pose proof (elementsOfPrefixes_whole _ _ _ _ _ Ht E') as Hy.
  pose proof (matchElement_bounds _ _ _ _ E') as Hb'.
  assert (len' = len).
  { destruct (streamable_inv _ _ _ H Hx Hy) as [_ [Hd|[Hd|Hd]]]; simpl in Hd.
    - lia.
    - lia.
    - inversion Hd. lia. }
  subst len'.
  assert (Hfit : len <= n - i) by lia.
  pose proof (matchElement_firstn _ _ _ _ (n - i) E' Hfit) as F.
  rewrite <- skipn_firstn_le in F. rewrite F in E. now rewrite E'.
Qed.

End StreamableFacts.

Module HandlerFacts.
Import JsString Stream.
Local Open Scope nat_scope.

Section Handlers.
Variable parseFloat : string -> num.
Variable toISOString : string -> option string.
Variable heartRateStatistics : text -> num * num.
Variable cleanWorkoutType : option string -> string.
Variable buildSleepSessions :
  Map (list SleepSegment) -> Map (list num) -> Map (list num)
  -> option (list SleepSession).

#[local] Abbreviation processRecord := (processRecord parseFloat).
#[local] Abbreviation processWorkout :=
  (processWorkout parseFloat toISOString heartRateStatistics cleanWorkoutType).
#[local] Abbreviation handleRecords := (handleRecords parseFloat).
#[local] Abbreviation handleWorkouts :=
  (handleWorkouts parseFloat toISOString heartRateStatistics cleanWorkoutType).
#[local] Abbreviation runRecords := (runRecords parseFloat).
#[local] Abbreviation runWorkouts :=
  (runWorkouts parseFloat toISOString heartRateStatistics cleanWorkoutType).
#[local] Abbreviation finish := (finish buildSleepSessions).

Ltac plain c :=
  lazymatch c with
  | context [if _ then _ else _] => fail
  | context [match _ with Some _ => _ | None => _ end] => fail
  | _ => idtac
  end.

Ltac split_ifs :=
  repeat match goal with
         | |- context [if ?c then _ else _] => plain c; destruct c
         | |- context [match ?c with Some _ => _ | None => _ end] =>
             plain c; destruct c
         end.

(** [processRecord] reads and writes the accumulators of the records
    only (and the set of sources). *)
Lemma processRecord_records attrs a b :
  recordsView a = recordsView b ->
  recordsView (processRecord attrs a) = recordsView (processRecord attrs b).
Proof.
  destruct a as [[] ? ? ? ? ? ?], b as [[] ? ? ? ? ? ?].
  unfold recordsView. cbn. intros H. injection H as -> -> -> -> -> -> -> -> -> ->.
  unfold Stream.processRecord.
  split_ifs; reflexivity.
Qed.

Lemma processRecord_workouts attrs a :
  workoutsView (processRecord attrs a) = workoutsView a.
Proof.
  destruct a as [[] ? ? ? ? ? ?]. unfold Stream.processRecord.
  split_ifs; reflexivity.
Qed.

(** [processWorkout] writes the accumulators of the workouts only. *)
Lemma processWorkout_records g w a a' :
  processWorkout g w a = Some a' -> recordsView a' = recordsView a.
Proof.
  destruct a as [[] ? ? ? ? ? ?]. unfold Stream.processWorkout.
  destruct (heartRateStatistics w) as [avgHR maxHR].
  split_ifs; intros H; inversion H; reflexivity.
Qed.

Lemma processWorkout_workouts g w a b :
  workoutsView a = workoutsView b ->
  match processWorkout g w a, processWorkout g w b with
  | Some a', Some b' => workoutsView a' = workoutsView b'
  | None, None => True
  | _, _ => False
  end.
Proof.
  destruct a as [[] ? ? ? ? ? ?], b as [[] ? ? ? ? ? ?].
  unfold workoutsView. cbn. intros H. injection H as -> ->.
  unfold Stream.processWorkout.
  destruct (heartRateStatistics w) as [avgHR maxHR].
  split_ifs; cbn; try reflexivity; exact I.
Qed.

Lemma Agrees_records ms : forall st ra wa,
  Agrees st ra wa ->
  Agrees (handleRecords ms st) (runRecords (map payload ms) ra) wa.
Proof.
  induction ms as [|m ms IH]; intros st ra wa H; [exact H|].
  unfold Stream.handleRecords, Stream.runRecords. cbn [fold_left map].
  apply IH. destruct st as [a|]; [|exact H].
  destruct H as (Hr & b & Hb & Hw). cbn [option_map Agrees]. split.
  - now apply processRecord_records.
  - exists b. split; [assumption|]. now rewrite processRecord_workouts.
Qed.

Lemma Agrees_workouts ms : forall st ra wa,
  Agrees st ra wa ->
  Agrees (handleWorkouts ms st) ra (runWorkouts (map payload ms) wa).
Proof.
  induction ms as [|m ms IH]; intros st ra wa H; [exact H|].
  unfold Stream.handleWorkouts, Stream.runWorkouts. cbn [fold_left map].
  apply IH. destruct st as [a|].
  - destruct H as (Hr & b & -> & Hw). cbn [payload fst snd].
    pose proof (processWorkout_workouts (group m) (whole m) a b Hw) as F.
    pose proof (processWorkout_records (group m) (whole m) a) as Fr.
    destruct (processWorkout (group m) (whole m) a) as [a'|],
             (processWorkout (group m) (whole m) b) as [b'|];
      try contradiction.
    + split; [rewrite (Fr a' eq_refl); exact Hr|]. eauto.
    + reflexivity.
  - cbn in H. subst wa. reflexivity.
Qed.

Lemma runRecords_app ps qs a :
  runRecords (ps ++ qs) a = runRecords qs (runRecords ps a).
Proof. apply fold_left_app. Qed.

Lemma runWorkouts_app ps qs st :
  runWorkouts (ps ++ qs) st = runWorkouts qs (runWorkouts ps st).
Proof. apply fold_left_app. Qed.

Lemma Agrees_results st1 st2 ra wa :
  Agrees st1 ra wa -> Agrees st2 ra wa ->
  option_map results (finish st1) = option_map results (finish st2).
Proof.
  destruct st1 as [a1|], st2 as [a2|]; cbn [Agrees].
  - intros (Hr1 & b1 & -> & Hw1) (Hr2 & b2 & Eb & Hw2).
    injection Eb as <-.
    rewrite <- Hr2 in Hr1. rewrite <- Hw2 in Hw1. clear Hr2 Hw2.
    destruct a1 as [[] ? ? ? ? ? ?], a2 as [[] ? ? ? ? ? ?].
    unfold recordsView in Hr1. unfold workoutsView in Hw1. cbn in Hr1, Hw1.
    injection Hr1 as -> -> -> -> -> -> -> -> -> ->.
    injection Hw1 as -> ->.
    unfold Stream.finish. cbn.
    destruct (buildSleepSessions _ _ _); reflexivity.
  - intros (_ & b & -> & _) E. discriminate.
  - intros E (_ & b & -> & _). discriminate.
  - reflexivity.
Qed.

End Handlers.

End HandlerFacts.

Module ChunkFacts.
Import JsString Stream PatternFacts ExecFacts StreamableFacts HandlerFacts.
Local Open Scope nat_scope.

Lemma Tag_Record : Tag "Record".
Proof. now left. Qed.

Lemma Tag_Workout : Tag "Workout".
Proof. now right. Qed.

Lemma matchEnd_found tag s i g len :
  matchElement tag (skipn i s) = Some (g, len) ->
  matchEnd {| index := 0 + i; whole := firstn len (skipn i s); group := g |}
  = i + len.
Proof.
  intros E. apply matchElement_bounds in E.
  unfold matchEnd. cbn [index whole]. rewrite length_firstn. lia.
Qed.

(** [lastMatchEnd] is the end of the last element in the buffer. *)
Lemma lastMatchEnd_spec b :
  Unnested (matchElement "Record") b ->
  Unnested (matchElement "Workout") b ->
  (forall tag i g len,
      Tag tag -> matchElement tag (skipn i b) = Some (g, len) ->
      i + len <= lastMatchEnd b)
  /\ (lastMatchEnd b = 0
      \/ exists tag i g len,
           Tag tag /\ matchElement tag (skipn i b) = Some (g, len)
           /\ lastMatchEnd b = i + len).
Proof.
  intros Ur Uw. unfold lastMatchEnd, execAll, recordRegex, workoutRegex.
  pose proof (execFrom_sorted _ (matchElement_bounds "Record") b 0 0)
    as [_ Hsorted].
  rewrite (execFrom_all _ b 0 0 Ur) in * by (intros; lia).
  rewrite (execFrom_all _ b 0 0 Uw) by (intros; lia).
  set (Rs := allFrom (matchElement "Record") 0 b) in *.
  set (Ws := allFrom (matchElement "Workout") 0 b).
  destruct (lastEnd_ge Rs 0) as [_ HR]; [|exact Hsorted|].
  { apply Forall_forall. intros; lia. }
  set (A := fold_left (fun _ m => matchEnd m) Rs 0) in *.
  destruct (maxEnd_ge Ws A) as [HA HW].
  split.
  - intros tag i g len [-> | ->] E.
    + etransitivity; [|exact HA]. rewrite <- (matchEnd_found _ _ _ _ _ E).
      apply HR. apply (allFrom_In _ (matchElement_bounds "Record")). eauto.
    + rewrite <- (matchEnd_found _ _ _ _ _ E).
      apply HW. apply (allFrom_In _ (matchElement_bounds "Workout")). eauto.
  - destruct (maxEnd_cases Ws A) as [E|(m & Hm & E)].
    + rewrite E. destruct (lastEnd_cases Rs 0) as [E0|(m & Hm & E0)];
        [now left|right].
      apply (allFrom_In _ (matchElement_bounds "Record")) in Hm
        as (i & g & len & Em & ->).
      exists "Record"%string, i, g, len. split; [apply Tag_Record|].
      split; [exact Em|]. fold A in E0. rewrite E0.
      exact (matchEnd_found _ _ _ _ _ Em).
    + right.
      apply (allFrom_In _ (matchElement_bounds "Workout")) in Hm
        as (i & g & len & Em & ->).
      exists "Workout"%string, i, g, len. split; [apply Tag_Workout|].
      split; [exact Em|]. rewrite E. exact (matchEnd_found _ _ _ _ _ Em).
Qed.

Section Document.
Variable doc : text.
Hypothesis doc_Stable : Stable doc.
Hypothesis doc_Disjoint : Disjoint doc.
Hypothesis doc_Bounded : Bounded doc.

(** An element of the buffer is an element of the document, and an
    element of the document that has been read to its end is in the
    buffer, as long as it starts past the cut. *)
Lemma buffer_to_doc tag seen rest c i m :
  doc = seen ++ rest -> Tag tag ->
  matchElement tag (skipn i (skipn c seen)) = Some m ->
  matchElement tag (skipn (c + i) doc) = Some m.
Proof.
  intros Hd Ht E. rewrite skipn_skipn in E.
  apply (doc_Stable tag (length seen) (c + i) m Ht).
  rewrite Hd, firstn_app_le, firstn_all by lia.
  now rewrite Nat.add_comm.
Qed.

Lemma skipn_seen seen rest k :
  doc = seen ++ rest ->
  skipn k seen = firstn (length seen - k) (skipn k doc).
Proof.
  intros ->. rewrite <- skipn_firstn_le.
  now rewrite firstn_app_le, firstn_all by lia.
Qed.

Lemma doc_to_buffer tag seen rest c i g len :
  doc = seen ++ rest ->
  matchElement tag (skipn (c + i) doc) = Some (g, len) ->
  c + i + len <= length seen ->
  matchElement tag (skipn i (skipn c seen)) = Some (g, len).
Proof.
  intros Hd E Hl. rewrite skipn_skipn, (Nat.add_comm i c).
  rewrite (skipn_seen _ _ _ Hd).
  apply matchElement_firstn; [assumption|lia].
Qed.

Lemma buffer_Unnested tag seen rest c :
  doc = seen ++ rest -> Tag tag ->
  Unnested (matchElement tag) (skipn c seen).
Proof.
  intros Hd Ht i j g len E Hij Hj.
  destruct (matchElement tag (skipn j (skipn c seen))) as [[g' len']|] eqn:E';
    [|reflexivity].
  apply (buffer_to_doc _ _ _ _ _ _ Hd Ht) in E, E'.
  destruct (doc_Disjoint tag tag (c + i) (c + j) g len g' len' Ht Ht E E');
    lia.
Qed.

(** The elements found in the buffer are those of the document between
    the old cut and the new one. *)
Lemma found_in_buffer tag seen rest c c' :
  doc = seen ++ rest -> Tag tag ->
  c <= c' -> c' <= length seen ->
  Cut doc c' (length seen) ->
  flat_map (foundAt (matchElement tag) (skipn c seen))
           (seq 0 (length (skipn c seen)))
  = foundBetween (matchElement tag) doc c c'.
Proof.
  intros Hd Ht Hc Hc' Hcut. rewrite length_skipn.
  replace (length seen - c) with ((c' - c) + (length seen - c')) by lia.
  rewrite seq_app, flat_map_app.
  rewrite (flat_map_nil_in _ (seq (0 + (c' - c)) (length seen - c'))).
  - rewrite app_nil_r. unfold foundBetween.
    replace (seq c (c' - c)) with (seq (c + 0) (c' - c)) by (f_equal; lia).
    rewrite flat_map_seq_add. apply flat_map_ext_in.
    intros i Hi. apply in_seq in Hi. unfold foundAt.
    destruct (matchElement tag (skipn (c + i) doc)) as [[g len]|] eqn:E.
    + destruct (Hcut tag (c + i) g len Ht E) as [H1 _].
      rewrite (doc_to_buffer _ _ _ _ _ _ _ Hd E) by lia.
      rewrite skipn_skipn, (Nat.add_comm i c), (skipn_seen _ _ _ Hd).
      rewrite firstn_firstn. f_equal. f_equal. f_equal. lia.
    + destruct (matchElement tag (skipn i (skipn c seen))) as [m|] eqn:E';
        [|reflexivity].
      apply (buffer_to_doc _ _ _ _ _ _ Hd Ht) in E'. congruence.
  - intros i Hi. apply in_seq in Hi. unfold foundAt.
    destruct (matchElement tag (skipn i (skipn c seen))) as [[g len]|] eqn:E;
      [|reflexivity].
    pose proof (matchElement_bounds _ _ _ _ E) as Hb.
    rewrite !length_skipn in Hb.
    apply (buffer_to_doc _ _ _ _ _ _ Hd Ht) in E.
    destruct (Hcut tag (c + i) g len Ht E) as [_ H2]. lia.
Qed.

Lemma foundBetween_app {G} (matchAt : text -> option (G * nat)) s a b c :
  a <= b -> b <= c ->
  (foundBetween matchAt s a b ++ foundBetween matchAt s b c)%list
  = foundBetween matchAt s a c.
Proof.
  intros Hab Hbc. unfold foundBetween. rewrite <- flat_map_app.
  replace (c - a) with ((b - a) + (c - b)) by lia.
  rewrite seq_app. do 3 f_equal. lia.
Qed.

(** The new cut splits no element either. *)
Lemma Cut_next seen rest c :
  doc = seen ++ rest -> c <= length seen ->
  (forall tag i g len,
      Tag tag -> matchElement tag (skipn i doc) = Some (g, len) ->
      i < c -> i + len <= c) ->
  c + safePoint (skipn c seen) <= length seen
  /\ Cut doc (c + safePoint (skipn c seen)) (length seen).
Proof.
  intros Hd Hc Hold.
  destruct (lastMatchEnd_spec (skipn c seen)) as [Hge Hcases];
    try (eapply buffer_Unnested; [exact Hd|]; (apply Tag_Record || apply Tag_Workout)).
  assert (HL : lastMatchEnd (skipn c seen) <= length seen - c).
  { destruct Hcases as [->|(tag & i & g & len & Ht & E & ->)]; [lia|].
    apply matchElement_bounds in E. rewrite !length_skipn in E. lia. }
  unfold safePoint. rewrite length_skipn.
  set (L := lastMatchEnd (skipn c seen)) in *.
  split; [lia|].
  assert (Hends : forall tag i g len,
             Tag tag -> matchElement tag (skipn i doc) = Some (g, len) ->
             i + len <= length seen ->
             i + len <= c + Nat.max L (length seen - c - SAFETY_MARGIN)).
  { intros tag i g len Ht E Hl.
    destruct (Nat.lt_ge_cases i c) as [Hi|Hi].
    - pose proof (Hold tag i g len Ht E Hi). lia.
    - replace i with (c + (i - c)) in E by lia.
      pose proof (doc_to_buffer _ _ _ _ _ _ _ Hd E ltac:(lia)) as E'.
      pose proof (Hge tag (i - c) g len Ht E'). lia. }
  intros tag i g len Ht E. split; [|now apply (Hends tag i g len)].
  intros Hi.
  destruct (Nat.le_gt_cases (i + len) (length seen)) as [Hl|Hl];
    [now apply (Hends tag i g len)|].
  exfalso.
  pose proof (doc_Bounded tag i g len Ht E) as Hb.
  destruct (Nat.lt_ge_cases i c) as [Hic|Hic].
  { pose proof (Hold tag i g len Ht E Hic). lia. }
  destruct Hcases as [E0|(tag' & j & g' & len' & Ht' & E' & EL)].
  - lia.
  - pose proof (matchElement_bounds _ _ _ _ E') as Hb'.
    rewrite !length_skipn in Hb'.
    apply (buffer_to_doc _ _ _ _ _ _ Hd Ht') in E'.
    destruct (Nat.le_gt_cases i (c + j)) as [Hij|Hij].
    + destruct (doc_Disjoint tag tag' i (c + j) g len g' len' Ht Ht' E E');
        lia.
    + destruct (Nat.lt_ge_cases i (c + j + len')) as [Hin|Hin]; [|lia].
      destruct (doc_Disjoint tag' tag (c + j) i g' len' g len Ht' Ht E' E);
        lia.
Qed.

Section Handlers.
Variable parseFloat : string -> num.
Variable toISOString : string -> option string.
Variable heartRateStatistics : text -> num * num.
Variable cleanWorkoutType : option string -> string.
Variable buildSleepSessions :
  Map (list SleepSegment) -> Map (list num) -> Map (list num)
  -> option (list SleepSession).

#[local] Abbreviation processChunk :=
  (processChunk parseFloat toISOString heartRateStatistics cleanWorkoutType).
#[local] Abbreviation Scanned :=
  (Scanned parseFloat toISOString heartRateStatistics cleanWorkoutType).
#[local] Abbreviation main :=
  (main parseFloat toISOString heartRateStatistics cleanWorkoutType
        buildSleepSessions).
#[local] Abbreviation handleRecords := (handleRecords parseFloat).
#[local] Abbreviation handleWorkouts :=
  (handleWorkouts parseFloat toISOString heartRateStatistics cleanWorkoutType).
#[local] Abbreviation runRecords := (runRecords parseFloat).
#[local] Abbreviation runWorkouts :=
  (runWorkouts parseFloat toISOString heartRateStatistics cleanWorkoutType).

(** The handlers applied to the elements of the buffer bring the state
    from the old cut to the new one. *)
Lemma handle_buffer seen rest c c' acc :
  doc = seen ++ rest -> c <= c' -> c' <= length seen ->
  Cut doc c' (length seen) ->
  Agrees acc
    (runRecords (foundBetween recordRegex doc 0 c) emptyAcc)
    (runWorkouts (foundBetween workoutRegex doc 0 c) (Some emptyAcc)) ->
  Agrees
    (handleWorkouts (execAll workoutRegex (skipn c seen))
       (handleRecords (execAll recordRegex (skipn c seen)) acc))
    (runRecords (foundBetween recordRegex doc 0 c') emptyAcc)
    (runWorkouts (foundBetween workoutRegex doc 0 c') (Some emptyAcc)).
Proof.
  intros Hd Hc Hc' Hcut H.
  apply (Agrees_records parseFloat (execAll recordRegex (skipn c seen))) in H.
  apply (Agrees_workouts parseFloat toISOString heartRateStatistics
           cleanWorkoutType (execAll workoutRegex (skipn c seen))) in H.
  unfold execAll, recordRegex, workoutRegex in *.
  rewrite (execFrom_all _ _ 0 0 (buffer_Unnested _ _ _ c Hd Tag_Record))
    in H |- * by (intros; lia).
  rewrite (execFrom_all _ _ 0 0 (buffer_Unnested _ _ _ c Hd Tag_Workout))
    in H |- * by (intros; lia).
  rewrite !allFrom_found in H.
  rewrite (found_in_buffer _ _ _ c c' Hd Tag_Record Hc Hc' Hcut) in H.
  rewrite (found_in_buffer _ _ _ c c' Hd Tag_Workout Hc Hc' Hcut) in H.
  rewrite <- runRecords_app, <- runWorkouts_app in H.
  rewrite !foundBetween_app in H by lia.
  exact H.
Qed.

Lemma Scanned_start : Scanned doc [] (Some emptyAcc, []).
Proof.
  exists 0. split; [simpl; lia|]. split; [reflexivity|]. split.
  - intros tag i g len Ht E. split; [lia|]. intros Hl.
    apply matchElement_bounds in E. simpl in Hl. lia.
  - cbn. split; [reflexivity|]. eauto.
Qed.

Lemma Scanned_chunk seen chunk rest st :
  doc = seen ++ chunk ++ rest ->
  Scanned doc seen st -> Scanned doc (seen ++ chunk) (processChunk st chunk).
Proof.
  intros Hd (c & Hc & Hb & Hcut & Ha). destruct st as [acc buffer].
  cbn [fst snd] in *. subst buffer.
  rewrite app_assoc in Hd.
  unfold Stream.processChunk.
  rewrite <- (skipn_app_le seen chunk c Hc).
  assert (Hc2 : c <= length (seen ++ chunk)) by (rewrite length_app; lia).
  destruct (Cut_next (seen ++ chunk) rest c Hd Hc2) as [Hle Hcut'].
  { intros tag i g len Ht E Hi. exact (proj1 (Hcut tag i g len Ht E) Hi). }
  exists (c + safePoint (skipn c (seen ++ chunk))).
  split; [exact Hle|]. cbn [fst snd]. split.
  - rewrite skipn_skipn. f_equal. lia.
  - split; [exact Hcut'|].
    apply (handle_buffer _ _ _ _ _ Hd); [lia|exact Hle|exact Hcut'|exact Ha].
Qed.

Lemma Scanned_stream chunks : forall seen st,
  doc = seen ++ concat chunks ->
  Scanned doc seen st -> Scanned doc doc (fold_left processChunk chunks st).
Proof.
  induction chunks as [|k ks IH]; intros seen st Hd H.
  - simpl in *. rewrite app_nil_r in Hd. now subst seen.
  - simpl in *. apply (IH (seen ++ k)).
    + now rewrite <- app_assoc.
    + now apply (Scanned_chunk seen k (concat ks)).
Qed.

(** Whatever the chunks, the run ends in the state of one pass over the
    records of the document and one over its workouts. *)
Lemma main_Agrees chunks :
  concat chunks = doc ->
  exists st,
    main chunks = finish buildSleepSessions st
    /\ Agrees st
         (runRecords (foundBetween recordRegex doc 0 (length doc)) emptyAcc)
         (runWorkouts (foundBetween workoutRegex doc 0 (length doc))
            (Some emptyAcc)).
Proof.
  intros Hd.
  pose proof (Scanned_stream chunks [] (Some emptyAcc, [])
                (eq_sym Hd) Scanned_start) as (c & Hc & Hb & Hcut & Ha).
  unfold Stream.main.
  destruct (fold_left processChunk chunks (Some emptyAcc, [])) as [acc buffer].
  cbn [fst snd] in *. subst buffer.
  eexists. split; [reflexivity|].
  apply (handle_buffer doc [] c (length doc) acc);
    [now rewrite app_nil_r|lia|lia| |exact Ha].
  intros tag i g len Ht E.
  pose proof (matchElement_bounds _ _ _ _ E) as Hb. rewrite length_skipn in Hb.
  split; lia.
Qed.

End Handlers.
End Document.

End ChunkFacts.

Module StreamTheorems.
Import JsString Stream PatternFacts ExecFacts StreamableFacts HandlerFacts ChunkFacts.
Local Open Scope nat_scope.

(** C7 as stated fails: the cut at 50000 characters before the end of
    the buffer is made whether or not an element is still open there.
    The document is one workout of more than 50000 characters.  Read in
    one chunk it is counted and stored; read in two chunks, the second
    holding its last character, it is lost, because the first turn of
    the loop drops the start of the element from the buffer. *)
Lemma C7_counterexample :
  concat Demo.longWorkoutChunks = Demo.longWorkout
  /\ option_map (fun o => (workouts (out_recordCounts o),
                           length (out_workoutSessions o)))
                (Demo.run [Demo.longWorkout]) = Some (1, 1)
  /\ option_map (fun o => (workouts (out_recordCounts o),
                           length (out_workoutSessions o)))
                (Demo.run Demo.longWorkoutChunks) = Some (0, 0)
  /\ option_map results (Demo.run Demo.longWorkoutChunks)
     <> option_map results (Demo.run [Demo.longWorkout]).
Proof.
  split; [|split; [|split]].
  - unfold Demo.longWorkoutChunks. cbn [concat].
    now rewrite app_nil_r, firstn_skipn.
  - vm_compute. reflexivity.
  - vm_compute. reflexivity.
  - intros H.
    apply (f_equal (option_map (fun r => workouts (fst (fst (fst r)))))) in H.
    vm_compute in H. discriminate.
Qed.

(** C7 (amended).  When no two elements that the Record and Workout
    patterns match in the document, or in a prefix of it, overlap, and
    none of them is longer than 50000 characters, the scanner produces
    the same record counts, sleep sessions, workout sessions and daily
    metrics however the document is cut into chunks: every run ends in
    the state of one pass over all the records of the document and one
    pass over all its workouts. *)
Theorem C7_chunked_scan_agrees
  (parseFloat : string -> num) (toISOString : string -> option string)
  (heartRateStatistics : text -> num * num)
  (cleanWorkoutType : option string -> string)
  (buildSleepSessions :
     Map (list SleepSegment) -> Map (list num) -> Map (list num)
     -> option (list SleepSession))
  (chunks : list text) :
  streamable (concat chunks) = true ->
  option_map results
    (main parseFloat toISOString heartRateStatistics cleanWorkoutType
          buildSleepSessions chunks)
  = option_map results
      (main parseFloat toISOString heartRateStatistics cleanWorkoutType
            buildSleepSessions [concat chunks])
  /\ exists st,
       main parseFloat toISOString heartRateStatistics cleanWorkoutType
            buildSleepSessions chunks
       = finish buildSleepSessions st
       /\ Agrees st
            (runRecords parseFloat
               (foundBetween recordRegex (concat chunks) 0
                  (length (concat chunks)))
               emptyAcc)
            (runWorkouts parseFloat toISOString heartRateStatistics
               cleanWorkoutType
               (foundBetween workoutRegex (concat chunks) 0
                  (length (concat chunks)))
               (Some emptyAcc)).
Proof.
  intros H.
  pose proof (streamable_Stable _ H) as Hs.
  pose proof (streamable_Disjoint _ H) as Hd.
  pose proof (streamable_Bounded _ H) as Hb.
  destruct (main_Agrees (concat chunks) Hs Hd Hb parseFloat toISOString
              heartRateStatistics cleanWorkoutType buildSleepSessions
              chunks eq_refl) as (st1 & E1 & A1).
  destruct (main_Agrees (concat chunks) Hs Hd Hb parseFloat toISOString
              heartRateStatistics cleanWorkoutType buildSleepSessions
              [concat chunks]) as (st2 & E2 & A2).
  { cbn [concat]. apply app_nil_r. }
  split; [|eauto].
  rewrite E1, E2.
  exact (Agrees_results buildSleepSessions st1 st2 _ _ A1 A2).
Qed.

Lemma C7_witness :
  option_map results (Demo.run Demo.shortChunks)
  = option_map results (Demo.run [concat Demo.shortChunks])
  /\ option_map (fun o => (heartRate (out_recordCounts o),
                           workouts (out_recordCounts o),
                           length (out_workoutSessions o)))
                (Demo.run Demo.shortChunks) = Some (1, 1, 1).
Proof.
  split.
  - apply (C7_chunked_scan_agrees Demo.parseFloat Demo.toISOString
             Demo.heartRateStatistics Demo.cleanWorkoutType
             Demo.buildSleepSessions Demo.shortChunks).
    vm_compute. reflexivity.
  - vm_compute. reflexivity.
Defined.

End StreamTheorems.

(** ** Order statistics of a sample ([insights/dataQuality.ts]) *)

Module SampleFacts.
Import DataQuality StatisticsFacts.

(** *** The sort is a sorted rearrangement *)

Lemma insert_perm x l : Permutation (x :: l) (insert x l).
Proof.
  induction l as [|y l IH]; simpl; [reflexivity|].
  destruct (Qle_bool x y); [reflexivity|].
  rewrite perm_swap. now constructor.
Qed.

Lemma sort_perm l : Permutation l (sort l).
Proof.
  induction l as [|x l IH]; simpl; [constructor|].
  rewrite <- insert_perm. now constructor.
Qed.

Lemma insert_sorted x l :
  StronglySorted Qle l -> StronglySorted Qle (insert x l).
Proof.
  induction 1 as [|y l Hs IH Hy]; simpl.
  - repeat constructor.
  - destruct (Qle_bool x y) eqn:E.
    + apply Qle_bool_iff in E. constructor; [now constructor|].
      constructor; [exact E|]. eapply Forall_impl; [|exact Hy].
      intros z Hz. cbv beta in Hz. eapply Qle_trans; eauto.
    + constructor; [exact IH|]. apply insert_Forall; [|exact Hy].
      apply Qle_bool_iff. now apply Qle_bool_false.
Qed.

Lemma sort_sorted l : StronglySorted Qle (sort l).
Proof.
  induction l as [|x l IH]; simpl; [constructor|]. now apply insert_sorted.
Qed.

Lemma sorted_firstn_le s k :
  StronglySorted Qle s -> (k < length s)%nat ->
  Forall (fun x => x <= nth k s 0) (firstn (S k) s).
Proof.
  intros Hs; revert k.
  induction Hs as [|y s Hs IH Hy]; intros k Hk; simpl in Hk; [lia|].
  destruct k as [|k].
  - simpl. repeat constructor. apply Qle_refl.
  - change (firstn (S (S k)) (y :: s)) with (y :: firstn (S k) s).
    change (nth (S k) (y :: s) 0) with (nth k s 0).
    constructor; [|apply IH; lia].
    rewrite Forall_forall in Hy. apply Hy, nth_In. lia.
Qed.

Lemma sorted_skipn_ge s k :
  StronglySorted Qle s -> (k < length s)%nat ->
  Forall (fun x => nth k s 0 <= x) (skipn k s).
Proof.
  intros Hs; revert k.
  induction Hs as [|y s Hs IH Hy]; intros k Hk; simpl in Hk; [lia|].
  destruct k as [|k].
  - simpl. constructor; [apply Qle_refl | exact Hy].
  - simpl. apply IH. lia.
Qed.

Lemma sorted_nth_le s i j :
  StronglySorted Qle s -> (i <= j)%nat -> (j < length s)%nat ->
  nth i s 0 <= nth j s 0.
Proof.
  intros Hs Hij Hj.
  pose proof (sorted_firstn_le s j Hs Hj) as H.
  rewrite Forall_forall in H. apply H.
  rewrite <- (firstn_skipn (S j) s) at 1.
  rewrite app_nth1 by (rewrite length_firstn; lia).
  apply nth_In. rewrite length_firstn. lia.
Qed.

(** *** Counting the values a test keeps *)

Lemma filter_length_perm (f : Q -> bool) l1 l2 :
  Permutation l1 l2 -> length (filter f l1) = length (filter f l2).
Proof.
  induction 1 as [|x l1 l2 H IH|x y l|l1 l2 l3 H1 IH1 H2 IH2]; simpl.
  - reflexivity.
  - destruct (f x); simpl; congruence.
  - destruct (f x), (f y); reflexivity.
  - congruence.
Qed.

Lemma filter_length_le {A} (f : A -> bool) l :
  (length (filter f l) <= length l)%nat.
Proof.
  induction l as [|x l IH]; simpl; [lia|]. destruct (f x); simpl; lia.
Qed.

Lemma filter_length_all {A} (f : A -> bool) l :
  Forall (fun x => f x = true) l -> length (filter f l) = length l.
Proof.
  induction 1 as [|x l Hx Hl IH]; simpl; [reflexivity|].
  rewrite Hx. simpl. congruence.
Qed.

Lemma filter_length_mono {A} (f g : A -> bool) l :
  (forall x, In x l -> f x = true -> g x = true) ->
  (length (filter f l) <= length (filter g l))%nat.
Proof.
  induction l as [|x l IH]; simpl; intros H; [lia|].
  assert (IH' : (length (filter f l) <= length (filter g l))%nat)
    by (apply IH; intros; apply H; auto).
  destruct (f x) eqn:Ef.
  - rewrite (H x (or_introl eq_refl) Ef). simpl. lia.
  - destruct (g x); simpl; lia.
Qed.

Lemma filter_length_map {A B} (f : B -> bool) (g : A -> B) l :
  length (filter f (map g l)) = length (filter (fun x => f (g x)) l).
Proof.
  induction l as [|x l IH]; simpl; [reflexivity|].
  destruct (f (g x)); simpl; congruence.
Qed.

Lemma filter_length_prefix (f : Q -> bool) s k :
  Forall (fun x => f x = true) (firstn k s) -> (k <= length s)%nat ->
  (k <= length (filter f s))%nat.
Proof.
  intros H Hk.
  rewrite <- (firstn_skipn k s), filter_app, length_app.
  rewrite (filter_length_all _ _ H), length_firstn. lia.
Qed.

Lemma filter_length_suffix (f : Q -> bool) s k :
  Forall (fun x => f x = true) (skipn k s) ->
  (length s - k <= length (filter f s))%nat.
Proof.
  intros H.
  rewrite <- (firstn_skipn k s) at 2. rewrite filter_app, length_app.
  rewrite (filter_length_all _ _ H), length_skipn. lia.
Qed.

(** *** The median is bounded by the sample and splits it *)

Lemma nth_sort_Forall (P : Q -> Prop) l k :
  Forall P l -> (k < length l)%nat -> P (nth k (sort l) 0).
Proof.
  intros H Hk. apply sort_Forall in H. rewrite Forall_forall in H.
  apply H, nth_In. now rewrite sort_length.
Qed.

Lemma half_lt n : (0 < n)%nat -> (n / 2 < n)%nat.
Proof. intros H. apply Nat.div_lt; lia. Qed.

Lemma median_lower lo l :
  l <> [] -> Forall (fun x => lo <= x) l -> lo <= median l.
Proof.
  intros Hne H. destruct l as [|x l]; [congruence|].
  rewrite median_cons. cbv zeta. rewrite sort_length.
  assert (Hn : (0 < length (x :: l))%nat) by (simpl; lia).
  pose proof (half_lt _ Hn) as Hmid.
  pose proof (nth_sort_Forall _ _ _ H Hmid) as H1.
  assert (H0 : lo <= nth (length (x :: l) / 2 - 1) (sort (x :: l)) 0)
    by (apply (nth_sort_Forall _ _ _ H); lia).
  cbv beta in H1.
  destruct (Nat.eqb _ 0); [|exact H1].
  apply Qle_shift_div_l; [reflexivity|]. lra.
Qed.

Lemma median_upper hi l :
  l <> [] -> Forall (fun x => x <= hi) l -> median l <= hi.
Proof.
  intros Hne H. destruct l as [|x l]; [congruence|].
  rewrite median_cons. cbv zeta. rewrite sort_length.
  assert (Hn : (0 < length (x :: l))%nat) by (simpl; lia).
  pose proof (half_lt _ Hn) as Hmid.
  pose proof (nth_sort_Forall _ _ _ H Hmid) as H1.
  assert (H0 : nth (length (x :: l) / 2 - 1) (sort (x :: l)) 0 <= hi)
    by (apply (nth_sort_Forall _ _ _ H); lia).
  cbv beta in H1.
  destruct (Nat.eqb _ 0); [|exact H1].
  apply Qle_shift_div_r; [reflexivity|]. lra.
Qed.

Lemma median_between lo hi l :
  l <> [] -> Forall (fun x => lo <= x /\ x <= hi) l ->
  lo <= median l /\ median l <= hi.
Proof.
  intros Hne H. split.
  - apply median_lower; [exact Hne|].
    eapply Forall_impl; [|exact H]. now intros x [H1 _].
  - apply median_upper; [exact Hne|].
    eapply Forall_impl; [|exact H]. now intros x [_ H2].
Qed.

Lemma Qle_bool_Forall (P : Q -> Prop) (f : Q -> bool) l :
  (forall x, P x -> f x = true) -> Forall P l -> Forall (fun x => f x = true) l.
Proof. intros H. apply Forall_impl. exact H. Qed.

Lemma median_halves l :
  (length l <= 2 * length (filter (fun x => Qle_bool x (median l)) l))%nat
  /\ (length l <= 2 * length (filter (fun x => Qle_bool (median l) x) l))%nat.
Proof.
  destruct l as [|x l]; [simpl; lia|].
  rewrite (filter_length_perm _ _ _ (sort_perm (x :: l))).
  rewrite (filter_length_perm (fun y => Qle_bool (median (x :: l)) y) _ _
             (sort_perm (x :: l))).
  rewrite (median_cons x l). cbv zeta.
  set (v := x :: l).
  pose proof (sort_sorted v) as Hs.
  pose proof (sort_length v) as Hl.
  set (s := sort v) in *.
  assert (Hn : (0 < length s)%nat) by (rewrite Hl; simpl; lia).
  pose proof (half_lt _ Hn) as Hmid.
  pose proof (Nat.div_mod_eq (length s) 2) as Ed.
  pose proof (Nat.mod_upper_bound (length s) 2 ltac:(lia)) as Hb.
  rewrite <- Hl.
  set (mid := (length s / 2)%nat) in *.
  destruct (Nat.eqb (length s mod 2) 0) eqn:Ev.
  - apply Nat.eqb_eq in Ev.
    assert (Hm1 : (1 <= mid)%nat) by lia.
    pose proof (sorted_nth_le s (mid - 1) mid Hs ltac:(lia) Hmid) as Hle.
    set (a := nth (mid - 1) s 0) in *. set (b := nth mid s 0) in *.
    assert (Ha : a <= (a + b) / 2)
      by (apply Qle_shift_div_l; [reflexivity | lra]).
    assert (Hb' : (a + b) / 2 <= b)
      by (apply Qle_shift_div_r; [reflexivity | lra]).
    split.
    + assert (H : (mid <= length (filter (fun y => Qle_bool y ((a + b) / 2)) s))%nat).
      { apply filter_length_prefix; [|lia].
        pose proof (sorted_firstn_le s (mid - 1) Hs ltac:(lia)) as F.
        replace (S (mid - 1)) with mid in F by lia.
        eapply Forall_impl; [|exact F]. intros y Hy. cbv beta in Hy.
        apply Qle_bool_iff. fold a in Hy. lra. }
      lia.
    + assert (H : (length s - mid
                   <= length (filter (fun y => Qle_bool ((a + b) / 2) y) s))%nat).
      { apply filter_length_suffix.
        pose proof (sorted_skipn_ge s mid Hs Hmid) as F.
        eapply Forall_impl; [|exact F]. intros y Hy. cbv beta in Hy.
        apply Qle_bool_iff. fold b in Hy. lra. }
      lia.
  - apply Nat.eqb_neq in Ev.
    set (b := nth mid s 0) in *.
    split.
    + assert (H : (S mid <= length (filter (fun y => Qle_bool y b) s))%nat).
      { apply filter_length_prefix; [|lia].
        pose proof (sorted_firstn_le s mid Hs Hmid) as F.
        eapply Forall_impl; [|exact F]. intros y Hy. cbv beta in Hy.
        now apply Qle_bool_iff. }
      lia.
    + assert (H : (length s - mid <= length (filter (fun y => Qle_bool b y) s))%nat).
      { apply filter_length_suffix.
        pose proof (sorted_skipn_ge s mid Hs Hmid) as F.
        eapply Forall_impl; [|exact F]. intros y Hy. cbv beta in Hy.
        now apply Qle_bool_iff. }
      lia.
Qed.

(** *** The median absolute deviation *)

Lemma mad_nonneg l : 0 <= medianAbsoluteDeviation l.
Proof.
  destruct l as [|x l]; [apply Qle_refl|].
  unfold medianAbsoluteDeviation.
  apply median_lower; [discriminate|].
  apply Forall_forall. intros d Hd. apply in_map_iff in Hd as (v & <- & _).
  apply Qabs_nonneg.
Qed.

(** At least half of the values deviate from the median by no more than
    the MAD. *)
Lemma mad_halves l :
  (length l
   <= 2 * length (filter (fun v => Qle_bool (Qabs (v - median l))
                                            (medianAbsoluteDeviation l)) l))%nat.
Proof.
  destruct l as [|x l]; [simpl; lia|].
  set (v := x :: l).
  pose proof (proj1 (median_halves (map (fun y => Qabs (y - median v)) v))) as H.
  rewrite length_map, filter_length_map in H.
  exact H.
Qed.

Lemma zscore_within v med mad thr :
  0 < mad -> 6745 # 10000 <= thr -> Qabs (v - med) <= mad ->
  Qabs (robustZScore v med mad) <= thr.
Proof.
  intros Hm Ht Hd.
  assert (Hn : ~ mad == 0) by lra.
  destruct (robustZScore_nonzero_mad v med mad Hn) as [-> Hdiv].
  assert (Hpos : 0 < mad / (6745 # 10000)).
  { apply Qlt_shift_div_l; [reflexivity | lra]. }
  unfold Qdiv at 1. rewrite Qabs_Qmult.
  rewrite (Qabs_pos (/ _)) by (apply Qlt_le_weak, Qinv_lt_0_compat, Hpos).
  apply Qle_shift_div_r; [exact Hpos|].
  assert (E : thr * (mad / (6745 # 10000)) == (thr / (6745 # 10000)) * mad)
    by (field).
  rewrite E.
  assert (H1 : 1 <= thr / (6745 # 10000))
    by (apply Qle_shift_div_l; [reflexivity | lra]).
  nra.
Qed.

End SampleFacts.

(** ** Linear interpolation between ranks ([percentile]) *)

Module PercentileFacts.
Import DataQuality StatisticsFacts SampleFacts.

Lemma percentile_cons x l p :
  percentile (x :: l) p =
    let sorted := sort (x :: l) in
    let index := (p / 100) * (inject_Z (Z.of_nat (length sorted)) - 1) in
    let lower := Qfloor index in
    let upper := Qceiling index in
    if Z.eqb lower upper then nth (Z.to_nat lower) sorted 0
    else nth (Z.to_nat lower) sorted 0 * (inject_Z upper - index)
         + nth (Z.to_nat upper) sorted 0 * (index - inject_Z lower).
Proof. reflexivity. Qed.

Lemma Qfloor_unique x z :
  inject_Z z <= x -> x < inject_Z (z + 1) -> Qfloor x = z.
Proof.
  intros Hl Hu.
  pose proof (Qfloor_le x) as F1. pose proof (Qlt_floor x) as F2.
  assert (A : (z < Qfloor x + 1)%Z).
  { rewrite Zlt_Qlt. eapply Qle_lt_trans; eauto. }
  assert (B : (Qfloor x < z + 1)%Z).
  { rewrite Zlt_Qlt. eapply Qle_lt_trans; eauto. }
  lia.
Qed.

Lemma Qceiling_unique x z :
  inject_Z (z - 1) < x -> x <= inject_Z z -> Qceiling x = z.
Proof.
  intros Hl Hu.
  pose proof (Qle_ceiling x) as F1. pose proof (Qceiling_lt x) as F2.
  assert (A : (z - 1 < Qceiling x)%Z).
  { rewrite Zlt_Qlt. eapply Qlt_le_trans; eauto. }
  assert (B : (Qceiling x - 1 < z)%Z).
  { rewrite Zlt_Qlt. eapply Qlt_le_trans; eauto. }
  lia.
Qed.

Lemma sort_nonempty x l : (0 < length (sort (x :: l)))%nat.
Proof. rewrite sort_length. simpl. lia. Qed.

(** At 0 and at 100 the rank is an integer: the first and the last
    element of the sorted sample are returned as they are. *)
Lemma percentile_zero_nth x l :
  percentile (x :: l) 0 = nth 0 (sort (x :: l)) 0.
Proof.
  rewrite percentile_cons. cbv zeta.
  set (s := sort (x :: l)).
  assert (E : 0 / 100 * (inject_Z (Z.of_nat (length s)) - 1) == 0) by field.
  rewrite (Qfloor_comp _ _ E), (Qceiling_comp _ _ E).
  reflexivity.
Qed.

Lemma percentile_hundred_nth x l :
  percentile (x :: l) 100
  = nth (length (sort (x :: l)) - 1) (sort (x :: l)) 0.
Proof.
  rewrite percentile_cons. cbv zeta.
  set (s := sort (x :: l)).
  assert (E : 100 / 100 * (inject_Z (Z.of_nat (length s)) - 1)
              == inject_Z (Z.of_nat (length s) - 1)).
  { unfold Zminus. rewrite inject_Z_plus, inject_Z_opp. field. }
  rewrite (Qfloor_comp _ _ E), (Qceiling_comp _ _ E).
  rewrite Qfloor_Z, Qceiling_Z, Z.eqb_refl.
  assert (Hn : (0 < length s)%nat) by apply sort_nonempty.
  now replace (Z.to_nat (Z.of_nat (length s) - 1)) with (length s - 1)%nat by lia.
Qed.

Lemma percentile_zero x l :
  In (percentile (x :: l) 0) (x :: l)
  /\ Forall (fun y => percentile (x :: l) 0 <= y) (x :: l).
Proof.
  rewrite percentile_zero_nth.
  set (s := sort (x :: l)).
  assert (Hn : (0 < length s)%nat) by apply sort_nonempty.
  split.
  - eapply Permutation_in; [symmetry; apply sort_perm|].
    apply nth_In. fold s. exact Hn.
  - pose proof (sorted_skipn_ge s 0 (sort_sorted (x :: l)) Hn) as H.
    simpl skipn in H.
    rewrite Forall_forall in H |- *. intros y Hy. apply H.
    eapply Permutation_in; [apply sort_perm | exact Hy].
Qed.

Lemma percentile_hundred x l :
  In (percentile (x :: l) 100) (x :: l)
  /\ Forall (fun y => y <= percentile (x :: l) 100) (x :: l).
Proof.
  rewrite percentile_hundred_nth.
  set (s := sort (x :: l)).
  assert (Hn : (0 < length s)%nat) by apply sort_nonempty.
  split.
  - eapply Permutation_in; [symmetry; apply sort_perm|].
    apply nth_In. fold s. lia.
  - pose proof (sorted_firstn_le s (length s - 1) (sort_sorted (x :: l))) as H.
    specialize (H ltac:(lia)).
    replace (S (length s - 1)) with (length s) in H by lia.
    rewrite firstn_all in H.
    rewrite Forall_forall in H |- *. intros y Hy. apply H.
    eapply Permutation_in; [apply sort_perm | exact Hy].
Qed.

Lemma percentile_fifty l : percentile l 50 == median l.
Proof.
  destruct l as [|x l]; [reflexivity|].
  rewrite percentile_cons, median_cons. cbv zeta.
  set (s := sort (x :: l)).
  assert (Hn : (0 < length s)%nat) by (unfold s; rewrite sort_length; simpl; lia).
  pose proof (Nat.div_mod_eq (length s) 2) as Ed.
  pose proof (Nat.mod_upper_bound (length s) 2 ltac:(lia)) as Hb.
  set (mid := (length s / 2)%nat) in *.
  set (index := 50 / 100 * (inject_Z (Z.of_nat (length s)) - 1)).
  destruct (Nat.eqb (length s mod 2) 0) eqn:Ev.
  - apply Nat.eqb_eq in Ev.
    assert (Hm : (1 <= mid)%nat) by lia.
    assert (En : inject_Z (Z.of_nat (length s)) == 2 * inject_Z (Z.of_nat mid)).
    { replace (Z.of_nat (length s)) with (2 * Z.of_nat mid)%Z by lia.
      rewrite inject_Z_mult. reflexivity. }
    assert (Ei : index == inject_Z (Z.of_nat mid - 1) + (1 # 2)).
    { unfold index. rewrite En. unfold Zminus.
      rewrite inject_Z_plus, inject_Z_opp. field. }
    assert (Ef : Qfloor index = (Z.of_nat mid - 1)%Z).
    { apply Qfloor_unique.
      - rewrite Ei. lra.
      - rewrite Ei, inject_Z_plus. change (inject_Z 1) with 1. lra. }
    assert (Ec : Qceiling index = Z.of_nat mid).
    { apply Qceiling_unique.
      - rewrite Ei. lra.
      - rewrite Ei. unfold Zminus. rewrite inject_Z_plus, inject_Z_opp.
        change (inject_Z 1) with 1. lra. }
    rewrite Ef, Ec.
    assert (Ne : (Z.of_nat mid - 1 =? Z.of_nat mid)%Z = false)
      by (apply Z.eqb_neq; lia).
    rewrite Ne.
    replace (Z.to_nat (Z.of_nat mid - 1)) with (mid - 1)%nat by lia.
    rewrite Nat2Z.id.
    rewrite Ei. unfold Zminus. rewrite inject_Z_plus, inject_Z_opp.
    change (inject_Z 1) with 1. field.
  - apply Nat.eqb_neq in Ev.
    assert (Ei : index == inject_Z (Z.of_nat mid)).
    { unfold index.
      replace (Z.of_nat (length s)) with (2 * Z.of_nat mid + 1)%Z by lia.
      rewrite inject_Z_plus, inject_Z_mult. change (inject_Z 1) with 1.
      change (inject_Z 2) with 2. field. }
    rewrite (Qfloor_comp _ _ Ei), (Qceiling_comp _ _ Ei).
    rewrite Qfloor_Z, Qceiling_Z, Z.eqb_refl, Nat2Z.id. reflexivity.
Qed.

End PercentileFacts.

(** ** The baseline of a metric ([calculateBaseline]) *)

Module BaselineFacts.
Import DataQuality StatisticsFacts SampleFacts PercentileFacts.

Section Baseline.
Variable Math_sqrt : Q -> Q.

(** The fields of the baseline in terms of the values it keeps. *)
Lemma baseline_fields x l metric ex thr :
  let values := x :: l in
  let tested := ex && Qltb 0 (medianAbsoluteDeviation values) in
  let kept :=
    if tested
    then filter (fun v => Qle_bool (Qabs (robustZScore v (median values)
                                            (medianAbsoluteDeviation values))) thr)
                values
    else values in
  let b := calculateBaseline Math_sqrt values metric ex thr in
  mb_median b = median kept
  /\ mb_mad b = medianAbsoluteDeviation kept
  /\ mb_mean b = sum kept / inject_Z (Z.of_nat (length kept))
  /\ low b = median kept - 2 * medianAbsoluteDeviation kept
  /\ high b = median kept + 2 * medianAbsoluteDeviation kept
  /\ p25 b = percentile kept 25
  /\ p75 b = percentile kept 75
  /\ sampleSize b = length kept
  /\ excludedCount b = (if tested then length values - length kept else 0)%nat.
Proof. cbv zeta. repeat split. Qed.

Lemma kept_of_values x l ex thr :
  let values := x :: l in
  let kept :=
    if ex && Qltb 0 (medianAbsoluteDeviation values)
    then filter (fun v => Qle_bool (Qabs (robustZScore v (median values)
                                            (medianAbsoluteDeviation values))) thr)
                values
    else values in
  (length kept <= length values)%nat
  /\ (forall v, In v kept -> In v values)
  /\ (6745 # 10000 <= thr -> (length values <= 2 * length kept)%nat).
Proof.
  cbv zeta. set (values := x :: l).
  destruct (ex && Qltb 0 (medianAbsoluteDeviation values)) eqn:E.
  - split; [apply filter_length_le|].
    split; [intros v Hv; now apply filter_In in Hv|].
    intros Ht. apply andb_true_iff in E as [_ Hm]. apply Qltb_lt in Hm.
    etransitivity; [apply mad_halves|].
    apply Nat.mul_le_mono_l, filter_length_mono.
    intros v _ Hv. apply Qle_bool_iff in Hv. apply Qle_bool_iff.
    now apply zscore_within.
  - split; [lia|]. split; [auto|]. intros _. lia.
Qed.

End Baseline.

End BaselineFacts.

Module StatisticsTheorems.
Import DataQuality StatisticsFacts SampleFacts PercentileFacts BaselineFacts.

(** X1. The median of a non-empty sample lies between any two bounds of
    the sample, so between its smallest and its largest value. *)
Theorem median_within_sample_range (l : list Q) (lo hi : Q) :
  l <> [] -> Forall (fun x => lo <= x /\ x <= hi) l ->
  lo <= median l /\ median l <= hi.
Proof. apply median_between. Qed.

Lemma median_within_sample_range_witness :
  3 <= median [7; 3; 12; 5] /\ median [7; 3; 12; 5] <= 12.
Proof.
  apply (median_within_sample_range [7; 3; 12; 5] 3 12).
  - discriminate.
  - repeat constructor; discriminate.
Defined.

(** X2. The median splits the sample: at least half of the values are
    less than or equal to it and at least half are greater than or equal
    to it, whatever the order the values come in. *)
Theorem median_splits_sample (l : list Q) :
  (length l <= 2 * length (filter (fun x => Qle_bool x (median l)) l))%nat
  /\ (length l <= 2 * length (filter (fun x => Qle_bool (median l) x) l))%nat.
Proof. apply median_halves. Qed.

(** X3. The median absolute deviation is never negative, and at least
    half of the values of a sample lie within one MAD of its median. *)
Theorem mad_covers_half_the_sample (l : list Q) :
  0 <= medianAbsoluteDeviation l
  /\ (length l
      <= 2 * length (filter (fun v => Qle_bool (Qabs (v - median l))
                                               (medianAbsoluteDeviation l)) l))%nat.
Proof. split; [apply mad_nonneg | apply mad_halves]. Qed.

(** X5. Of a non-empty sample the percentile at 0 is the minimum (a
    value of the sample that no value is below), the percentile at 100
    the maximum (a value of the sample that no value is above), and the
    percentile at 50 is the median. *)
Theorem percentile_min_median_max (l : list Q) :
  l <> [] ->
  (In (percentile l 0) l /\ Forall (fun x => percentile l 0 <= x) l)
  /\ (In (percentile l 100) l /\ Forall (fun x => x <= percentile l 100) l)
  /\ percentile l 50 == median l.
Proof.
  intros Hne. destruct l as [|x l]; [congruence|].
  split; [apply percentile_zero|].
  split; [apply percentile_hundred | apply percentile_fifty].
Qed.

Lemma percentile_min_median_max_witness :
  (In (percentile [7; 3; 12; 5] 0) [7; 3; 12; 5]
   /\ Forall (fun x => percentile [7; 3; 12; 5] 0 <= x) [7; 3; 12; 5])
  /\ (In (percentile [7; 3; 12; 5] 100) [7; 3; 12; 5]
      /\ Forall (fun x => x <= percentile [7; 3; 12; 5] 100) [7; 3; 12; 5])
  /\ percentile [7; 3; 12; 5] 50 == median [7; 3; 12; 5].
Proof.
  apply (percentile_min_median_max [7; 3; 12; 5]). discriminate.
Defined.

(** X6. [calculateBaseline] accounts for every value: the sample size and
    the excluded count add up to the number of values given, and nothing
    is excluded when the outlier filter is switched off.  The reported
    MAD is not negative, and the band is centred on the reported median
    with half-width twice the reported MAD: [low] is the median minus
    twice the MAD and [high] the median plus twice the MAD. *)
Theorem baseline_accounts_for_every_value
  (Math_sqrt : Q -> Q) (values : list Q) (metric : string)
  (excludeOutliers : bool) (madThreshold : Q) :
  let b := calculateBaseline Math_sqrt values metric excludeOutliers madThreshold in
  (sampleSize b + excludedCount b = length values)%nat
  /\ (excludeOutliers = false -> excludedCount b = 0%nat)
  /\ 0 <= mb_mad b
  /\ low b == mb_median b - 2 * mb_mad b
  /\ high b == mb_median b + 2 * mb_mad b
  /\ low b <= mb_median b /\ mb_median b <= high b.
Proof.
  destruct values as [|x l].
  - cbv zeta. simpl. repeat split; try discriminate; reflexivity.
  - pose proof (baseline_fields Math_sqrt x l metric excludeOutliers madThreshold)
      as F.
    pose proof (kept_of_values x l excludeOutliers madThreshold) as K.
    cbv zeta in F, K |- *.
    destruct F as (-> & -> & _ & -> & -> & _ & _ & -> & ->).
    destruct K as (Kle & _ & _).
    split; [destruct (excludeOutliers && _); simpl length in *; lia|].
    split; [intros ->; reflexivity|].
    match type of Kle with (length ?k <= _)%nat => set (kept := k) in * end.
    pose proof (mad_nonneg kept) as Hm.
    split; [exact Hm|].
    split; [reflexivity|]. split; [reflexivity|]. split; lra.
Qed.

(** X7. With a threshold of at least 1 (the default is 3.5) the outlier
    filter of [calculateBaseline] keeps every value within one MAD of the
    median, hence at least half of the values: no more than half are
    excluded, the statistics of a non-empty sample are never taken over
    an empty one, and the reported median lies between any two bounds of
    the values given. *)
Theorem baseline_keeps_half_the_sample
  (Math_sqrt : Q -> Q) (values : list Q) (metric : string)
  (excludeOutliers : bool) (madThreshold lo hi : Q) :
  1 <= madThreshold ->
  values <> [] ->
  Forall (fun x => lo <= x /\ x <= hi) values ->
  let b := calculateBaseline Math_sqrt values metric excludeOutliers madThreshold in
  (length values <= 2 * sampleSize b)%nat
  /\ (2 * excludedCount b <= length values)%nat
  /\ (0 < sampleSize b)%nat
  /\ (lo <= mb_median b /\ mb_median b <= hi).
Proof.
  intros Ht Hne Hr. destruct values as [|x l]; [congruence|].
  pose proof (baseline_fields Math_sqrt x l metric excludeOutliers madThreshold)
    as F.
  pose proof (kept_of_values x l excludeOutliers madThreshold) as K.
  cbv zeta in F, K |- *.
  destruct F as (-> & _ & _ & _ & _ & _ & _ & -> & ->).
  destruct K as (Kle & Kin & Khalf).
  assert (Ht' : 6745 # 10000 <= madThreshold) by lra.
  specialize (Khalf Ht').
  assert (Hex : (2 * (if excludeOutliers
                           && Qltb 0 (medianAbsoluteDeviation (x :: l))
                      then length (x :: l)
                           - length (if excludeOutliers
                                        && Qltb 0 (medianAbsoluteDeviation (x :: l))
                                     then filter
                                            (fun v =>
                                               Qle_bool
                                                 (Qabs (robustZScore v
                                                          (median (x :: l))
                                                          (medianAbsoluteDeviation
                                                             (x :: l))))
                                                 madThreshold) (x :: l)
                                     else x :: l)
                      else 0) <= length (x :: l))%nat).
  { destruct (excludeOutliers && _); simpl length in *; lia. }
  match type of Khalf with (_ <= 2 * length ?k)%nat => set (kept := k) in * end.
  assert (Hk : kept <> []).
  { intros E. rewrite E in Khalf. simpl in Khalf. lia. }
  assert (Hrk : Forall (fun x => lo <= x /\ x <= hi) kept).
  { rewrite Forall_forall in Hr |- *. intros v Hv. apply Hr, Kin, Hv. }
  split; [exact Khalf|].
  split; [exact Hex|].
  split; [destruct kept; [congruence | simpl; lia]|].
  now apply median_between.
Qed.

Lemma baseline_keeps_half_the_sample_witness :
  let b := calculateBaseline (fun x => x) [50; 52; 51; 49; 400] "avgHrv" true
             (35 # 10) in
  (5 <= 2 * sampleSize b)%nat
  /\ (2 * excludedCount b <= 5)%nat
  /\ (0 < sampleSize b)%nat
  /\ (49 <= mb_median b /\ mb_median b <= 400).
Proof.
  apply (baseline_keeps_half_the_sample (fun x => x) [50; 52; 51; 49; 400]
           "avgHrv" true (35 # 10) 49 400).
  - discriminate.
  - discriminate.
  - repeat constructor; discriminate.
Defined.

End StatisticsTheorems.

(** ** The per-session report ([checkSleepSessionQuality]) *)

Module ViolationFacts.
Import DataQuality StatisticsFacts QualityCheckFacts.

Lemma checkHardLimits_Some value field key v :
  checkHardLimits value field key = Some v ->
  value = Some (v_value v) /\ v_field v = field /\ v_limit v = HARD_LIMITS key
  /\ ((v_violation v = below_min /\ v_value v < lmin (HARD_LIMITS key))
      \/ (v_violation v = above_max /\ lmax (HARD_LIMITS key) < v_value v)).
Proof.
  unfold checkHardLimits. destruct value as [x|]; [|discriminate].
  destruct (Qltb x _) eqn:E1.
  - intros H; inversion H; subst; simpl. apply Qltb_lt in E1. auto 10.
  - destruct (Qltb _ x) eqn:E2; [|discriminate].
    intros H; inversion H; subst; simpl. apply Qltb_lt in E2. auto 10.
Qed.

Lemma checkHardLimits_outside x field key :
  x < lmin (HARD_LIMITS key) \/ lmax (HARD_LIMITS key) < x ->
  exists v, checkHardLimits (Some x) field key = Some v.
Proof.
  unfold checkHardLimits. intros [H|H].
  - apply Qltb_lt in H. rewrite H. eauto.
  - apply Qltb_lt in H. rewrite H. destruct (Qltb x _); eauto.
Qed.

Lemma violationsOf_In c v :
  In v (violationsOf c) <->
  checkHardLimits (c_value c) (c_field c) (c_limitKey c) = Some v.
Proof.
  unfold violationsOf.
  destruct (checkHardLimits _ _ _) as [v'|]; simpl; split.
  - intros [->|[]]. reflexivity.
  - intros H; inversion H; auto.
  - intros [].
  - discriminate.
Qed.

(** What the stage block appends. *)
Lemma stageChecks_In s viol v :
  In v (stageChecks s viol) <->
  In v viol
  \/ exists d r l,
       deepSeconds s = Some d /\ remSeconds s = Some r /\ lightSeconds s = Some l
       /\ 0 < d + r + l
       /\ (checkHardLimits (Some (d / (d + r + l) * 100)) "deepPercent" deepPercent
           = Some v
           \/ checkHardLimits (Some (r / (d + r + l) * 100)) "remPercent" remPercent
              = Some v).
Proof.
  unfold stageChecks.
  destruct (deepSeconds s) as [d|]; cbn [num_add];
    [|split; [auto | intros [H|(d & r & l & E & _)]; [auto | discriminate]]].
  destruct (remSeconds s) as [r|]; cbn [num_add];
    [|split; [auto | intros [H|(d' & r & l & _ & E & _)]; [auto | discriminate]]].
  destruct (lightSeconds s) as [l|]; cbn [num_add];
    [|split; [auto | intros [H|(d' & r' & l & _ & _ & E & _)]; [auto | discriminate]]].
  destruct (Qltb 0 (d + r + l)) eqn:Et.
  - apply Qltb_lt in Et. unfold opt_push.
    split.
    + intros H.
      destruct (checkHardLimits _ "deepPercent" _) as [v1|] eqn:E1;
        destruct (checkHardLimits _ "remPercent" _) as [v2|] eqn:E2;
        rewrite ?in_app_iff in H; simpl in H;
        intuition (subst; eauto 12).
    + intros [H|(d' & r' & l' & Ed & Er & El & _ & H)].
      * destruct (checkHardLimits _ "deepPercent" _),
          (checkHardLimits _ "remPercent" _);
          rewrite ?in_app_iff; auto.
      * inversion Ed; inversion Er; inversion El; subst d' r' l'.
        destruct H as [H|H]; rewrite H;
          [destruct (checkHardLimits _ "remPercent" _)|
           destruct (checkHardLimits _ "deepPercent" _)];
          rewrite ?in_app_iff; simpl; auto.
  - split; [auto|]. intros [H|(d' & r' & l' & Ed & Er & El & Hpos & _)]; [auto|].
    inversion Ed; inversion Er; inversion El; subst d' r' l'.
    apply Qltb_lt in Hpos. congruence.
Qed.

Lemma report_violations s b thr v :
  In v (hardLimitViolations (checkSleepSessionQuality s b thr)) <->
  (exists c, In c (checks s)
             /\ checkHardLimits (c_value c) (c_field c) (c_limitKey c) = Some v)
  \/ exists d r l,
       deepSeconds s = Some d /\ remSeconds s = Some r /\ lightSeconds s = Some l
       /\ 0 < d + r + l
       /\ (checkHardLimits (Some (d / (d + r + l) * 100)) "deepPercent" deepPercent
           = Some v
           \/ checkHardLimits (Some (r / (d + r + l) * 100)) "remPercent" remPercent
              = Some v).
Proof.
  destruct (report_fields s b thr) as (-> & _).
  rewrite stageChecks_In, in_flat_map.
  split; (intros [(c & Hc & H)|H]; [left; exists c; split; [exact Hc|] | now right]).
  - now apply violationsOf_In.
  - now apply violationsOf_In.
Qed.

Lemma checks_field_inj s c c' :
  In c (checks s) -> In c' (checks s) -> c_field c = c_field c' -> c = c'.
Proof.
  unfold checks. intros Hc Hc'.
  repeat (destruct Hc as [<-|Hc]; [|]); try contradiction;
    repeat (destruct Hc' as [<-|Hc']; [|]); try contradiction;
    cbn [c_field]; intros E; try discriminate E; reflexivity.
Qed.

Lemma checks_field_not_stage s c :
  In c (checks s) ->
  c_field c <> "deepPercent"%string /\ c_field c <> "remPercent"%string.
Proof.
  unfold checks. intros Hc.
  repeat (destruct Hc as [<-|Hc]; [split; discriminate|]). contradiction.
Qed.

(** *** Outliers against a baseline *)

Lemma outlierScan_In b thr ms out f :
  In f (outlierScan b thr ms out) <->
  In f out
  \/ exists v e, In (f, Some v) ms /\ baseline_get f b = Some e
                 /\ thr < Qabs (robustZScore v (b_median e) (b_mad e)).
Proof.
  revert out. induction ms as [|[g value] ms IH]; intros out.
  - simpl. split; [auto|]. intros [H|(v & e & [] & _)]. exact H.
  - assert (Skip : (forall v e, value = Some v -> baseline_get g b = Some e ->
                      Qabs (robustZScore v (b_median e) (b_mad e)) <= thr) ->
                   outlierScan b thr ((g, value) :: ms) out = outlierScan b thr ms out).
    { intros H. simpl. destruct value as [x|]; [|reflexivity].
      destruct (baseline_get g b) as [e|]; [|reflexivity].
      destruct (Qltb thr _) eqn:Et; [|reflexivity].
      apply Qltb_lt in Et. specialize (H x e eq_refl eq_refl).
      exfalso. eapply Qlt_not_le; eauto. }
    destruct value as [x|].
    + destruct (baseline_get g b) as [e|] eqn:Eg.
      * destruct (Qltb thr (Qabs (robustZScore x (b_median e) (b_mad e)))) eqn:Et.
        -- simpl. rewrite Eg, Et, IH, in_app_iff. apply Qltb_lt in Et.
           simpl. split.
           ++ intros [[H|[H|[]]]|(v & e' & Hin & He & Hz)].
              ** now left.
              ** subst g. right. exists x, e. auto.
              ** right. exists v, e'. auto.
           ++ intros [H|(v & e' & [Hin|Hin] & He & Hz)].
              ** auto.
              ** inversion Hin; subst. auto.
              ** right. exists v, e'. auto.
        -- apply Qltb_ge in Et. rewrite Skip, IH.
           ++ split.
              ** intros [H|(v & e' & Hin & He & Hz)]; [now left|].
                 right. exists v, e'. simpl. auto.
              ** intros [H|(v & e' & [Hin|Hin] & He & Hz)]; [now left| |].
                 --- inversion Hin; subst. rewrite Eg in He. inversion He; subst.
                     exfalso. eapply Qlt_not_le; eauto.
                 --- right. exists v, e'. auto.
           ++ intros v e' Ev Ee. inversion Ev; inversion Ee; subst. exact Et.
      * rewrite Skip, IH by (intros; discriminate).
        split.
        -- intros [H|(v & e' & Hin & He & Hz)]; [now left|].
           right. exists v, e'. simpl. auto.
        -- intros [H|(v & e' & [Hin|Hin] & He & Hz)]; [now left| |].
           ++ inversion Hin; subst. congruence.
           ++ right. exists v, e'. auto.
    + rewrite Skip, IH by (intros; discriminate).
      split.
      * intros [H|(v & e' & Hin & He & Hz)]; [now left|].
        right. exists v, e'. simpl. auto.
      * intros [H|(v & e' & [Hin|Hin] & He & Hz)]; [now left| |].
        -- inversion Hin.
        -- right. exists v, e'. auto.
Qed.

Lemma report_outliers s b thr :
  r_outlierFields (checkSleepSessionQuality s b thr)
  = match b with
    | Some bl => outlierScan bl thr (metricsToCheck s) []
    | None => []
    end.
Proof.
  unfold checkSleepSessionQuality.
  destruct (runChecks (checks s) [] []) as [viol0 missing].
  cbv zeta.
  destruct (Nat.ltb 0 _); [reflexivity|].
  destruct (Nat.leb 2 _); [reflexivity|].
  destruct (_ || _); reflexivity.
Qed.

End ViolationFacts.

Module QualityReportTheorems.
Import DataQuality StatisticsFacts QualityCheckFacts ViolationFacts.

(** X8. Every violation in the report records a value that lies outside
    the limits it records, below the minimum or above the maximum as it
    says; and one of the eight checked fields is named by a violation
    exactly when its value is defined and outside the hard limits of its
    key.  Values on a limit are inside. *)
Theorem violations_are_the_out_of_range_fields
  (s : SleepSession) (b : option Baseline) (thr : Q) :
  let r := checkSleepSessionQuality s b thr in
  (forall v, In v (hardLimitViolations r) ->
     (v_violation v = below_min /\ v_value v < lmin (v_limit v))
     \/ (v_violation v = above_max /\ lmax (v_limit v) < v_value v))
  /\ (forall c, In c (checks s) ->
      (exists v, In v (hardLimitViolations r) /\ v_field v = c_field c)
      <-> (exists x, c_value c = Some x
                     /\ (x < lmin (HARD_LIMITS (c_limitKey c))
                         \/ lmax (HARD_LIMITS (c_limitKey c)) < x))).
Proof.
  cbv zeta. split.
  - intros v Hv. apply report_violations in Hv.
    destruct Hv as [(c & _ & H)|(d & r & l & _ & _ & _ & _ & [H|H])];
      apply checkHardLimits_Some in H as (_ & _ & -> & H); exact H.
  - intros c Hc. split.
    + intros (v & Hv & Ef). apply report_violations in Hv.
      destruct Hv as [(c' & Hc' & H)|(d & r & l & _ & _ & _ & _ & [H|H])].
      * apply checkHardLimits_Some in H as (Ev & Ef' & _ & H).
        assert (c' = c) by (apply (checks_field_inj s); congruence).
        subst c'. exists (v_value v). split; [exact Ev|].
        destruct H as [[_ H]|[_ H]]; auto.
      * apply checkHardLimits_Some in H as (_ & Ef' & _).
        destruct (checks_field_not_stage s c Hc) as [N _]. congruence.
      * apply checkHardLimits_Some in H as (_ & Ef' & _).
        destruct (checks_field_not_stage s c Hc) as [_ N]. congruence.
    + intros (x & Ex & Hout).
      destruct (checkHardLimits_outside x (c_field c) (c_limitKey c) Hout)
        as (v & Hv).
      exists v. split.
      * apply report_violations. left. exists c. rewrite Ex. auto.
      * now apply checkHardLimits_Some in Hv as (_ & Ef & _).
Qed.



End QualityReportTheorems.

(** ** One session per night ([deduplicateSessions] and the store) *)

Module NightFacts.
Import Pipeline MergeFacts DedupFacts DedupTheorems Orchestrator ReimportFacts
       TwoImportsFacts.

Lemma entry_date ss d s :
  In (d, s) (fold_left incomingStep ss []) ->
  date s = d /\ In d (map date ss).
Proof.
  intros Hin. split.
  - apply incoming_entry in Hin. unfold collapsed in Hin.
    apply (collapsed_inherits (fun y => date y = d)
             (filter (fun s => String.eqb (date s) d) ss) None s);
      [| |exact I|exact Hin].
    + intros x y _ _ Hd Hx. congruence.
    + apply Forall_forall. intros x Hx. apply filter_In in Hx as [_ Hd].
      now apply String.eqb_eq in Hd.
  - destruct (incomingByDate_keys ss [] (NoDup_nil _)) as (_ & Hk).
    specialize (Hk d). simpl in Hk.
    assert (Hd : In d (map fst (fold_left incomingStep ss [])))
      by (change d with (fst (d, s)); now apply in_map).
    apply Hk in Hd. tauto.
Qed.

Lemma emitted_date existing user ss en x :
  In en (fold_left incomingStep ss []) ->
  In x (emitted en (outcomeFor existing user en)) ->
  date x = fst en.
Proof.
  intros Hen Hx. destruct en as [d s].
  destruct (entry_date ss d s Hen) as [Hd _].
  destruct (outcomeFor existing user (d, s)) as [|e|e] eqn:Eo; simpl in Hx.
  - destruct Hx as [<-|[]]. exact Hd.
  - contradiction.
  - destruct Hx as [<-|[]].
    destruct (outcome_stored existing user (d, s) e (or_introl Eo))
      as (_ & _ & He & _).
    simpl in He |- *. unfold mergeSessions.
    destruct (_ <=? _)%nat; simpl; assumption.
Qed.

Lemma emitted_counts {A} (o : A -> Outcome) (emit : A -> Outcome -> list SleepSession) l :
  (forall a, length (emit a (o a)) = if isSkipped (o a) then 0 else 1)%nat ->
  (length (flat_map (fun a => emit a (o a)) l)
   + length (filter (fun a => isSkipped (o a)) l) = length l)%nat
  /\ (length (filter (fun a => isMerged (o a)) l)
      <= length (flat_map (fun a => emit a (o a)) l))%nat.
Proof.
  intros He. induction l as [|a l [IH1 IH2]]; simpl; [lia|].
  rewrite length_app, He.
  destruct (o a); simpl; lia.
Qed.

Lemma byDate_NoDup ss : NoDup (fold_left incomingStep ss []).
Proof.
  destruct (incomingByDate_keys ss [] (NoDup_nil _)) as (H & _).
  now apply NoDup_map_inv in H.
Qed.

Lemma byDate_key_inj ss en en' :
  In en (fold_left incomingStep ss []) -> In en' (fold_left incomingStep ss []) ->
  fst en = fst en' -> en = en'.
Proof.
  destruct (incomingByDate_keys ss [] (NoDup_nil _)) as (H & _).
  intros Hen Hen' E. exact (NoDup_map_eq fst _ en en' H Hen Hen' E).
Qed.

Lemma sessions_dates_NoDup existing ss user :
  NoDup (map date (sessions (deduplicateSessions existing ss user))).
Proof.
  rewrite r1_sessions, map_flat_map.
  apply NoDup_flat_map.
  - apply byDate_NoDup.
  - intros en _. destruct (outcomeFor existing user en); simpl;
      repeat constructor; simpl; tauto.
  - intros en en' b Hen Hen' Hb Hb'.
    apply in_map_iff in Hb as (x & <- & Hx).
    apply in_map_iff in Hb' as (x' & Exx & Hx').
    apply (byDate_key_inj ss); auto.
    rewrite <- (emitted_date existing user ss en x Hen Hx).
    rewrite <- (emitted_date existing user ss en' x' Hen' Hx').
    now symmetry.
Qed.

(** *** Tables in key order *)

Section Tables.
Context {R : Type} (key : R -> string).

Lemma keyLt_neq (a b : R) : keyLt key a b -> key a <> key b.
Proof.
  unfold keyLt. intros H E. rewrite E, string_compare_refl in H. discriminate.
Qed.

Lemma InKeyOrder_NoDup t : InKeyOrder key t -> NoDup (map key t).
Proof.
  unfold InKeyOrder. induction 1 as [|x t Hs IH Hall]; simpl; constructor; auto.
  intros Hin. apply in_map_iff in Hin as (y & Ey & Hy).
  rewrite Forall_forall in Hall. apply (keyLt_neq x y (Hall y Hy)). congruence.
Qed.

Lemma table_put_In_inv r x t :
  InKeyOrder key t -> In x (table_put key r t) ->
  x = r \/ (In x t /\ key x <> key r).
Proof.
  unfold InKeyOrder. induction 1 as [|y t Hs IH Hall]; simpl.
  - intros [<-|[]]. now left.
  - rewrite Forall_forall in Hall.
    destruct (String.compare (key r) (key y)) eqn:E; simpl.
    + apply String.compare_eq_iff in E.
      intros [<-|Hx]; [now left|]. right. split; [now right|].
      rewrite E. intros Ek. apply (keyLt_neq y x (Hall x Hx)). congruence.
    + intros [<-|[<-|Hx]]; [now left| |].
      * right. split; [now left|]. intros Ek. rewrite Ek in E.
        rewrite string_compare_refl in E. discriminate.
      * right. split; [now right|]. intros Ek.
        pose proof (string_compare_lt_trans _ _ _ E (Hall x Hx)) as C.
        rewrite Ek, string_compare_refl in C. discriminate.
    + intros [<-|Hx].
      * right. split; [now left|]. intros Ek. rewrite Ek in E.
        rewrite string_compare_refl in E. discriminate.
      * destruct (IH Hx) as [->|[Hin Hne]]; [now left|].
        right. split; [now right | assumption].
Qed.

Lemma table_putMany_sorted rs t :
  InKeyOrder key t -> InKeyOrder key (table_putMany key rs t).
Proof.
  revert t. induction rs as [|r rs IH]; intros t Hs; simpl; [assumption|].
  apply IH. now apply table_put_sorted.
Qed.

Lemma table_putMany_In_inv rs x t :
  InKeyOrder key t -> In x (table_putMany key rs t) ->
  In x rs \/ (In x t /\ ~ In (key x) (map key rs)).
Proof.
  revert t. induction rs as [|r rs IH]; intros t Hs Hx; simpl in *.
  - right. tauto.
  - destruct (IH _ (table_put_sorted key r t Hs) Hx) as [Hin|[Hin Hnot]];
      [left; now right|].
    destruct (table_put_In_inv r x t Hs Hin) as [->|[Hin' Hne]];
      [left; now left|].
    right. split; [assumption|]. intros [E|Hk]; [congruence | contradiction].
Qed.

(** Writing records under distinct keys makes the table grow by the
    number of keys that were not stored. *)
Lemma table_putMany_length rs t :
  InKeyOrder key t -> NoDup (map key rs) ->
  length (table_putMany key rs t)
  = (length t
     + length (filter (fun r => negb (existsb (String.eqb (key r)) (map key t))) rs))%nat.
Proof.
  revert t. induction rs as [|r rs IH]; intros t Hs Hnd; simpl; [lia|].
  inversion Hnd as [|? ? Hnot Hnd']; subst.
  rewrite (IH _ (table_put_sorted key r t Hs) Hnd').
  assert (Same : filter (fun r0 => negb (existsb (String.eqb (key r0))
                                           (map key (table_put key r t)))) rs
                 = filter (fun r0 => negb (existsb (String.eqb (key r0)) (map key t))) rs).
  { apply filter_ext_in. intros a Ha. f_equal.
    apply eq_true_iff_eq. rewrite !existsb_exists. split.
    - intros (k & Hk & Ek). apply String.eqb_eq in Ek. subst k.
      apply table_put_keys in Hk as [Hk|Hk].
      + exfalso. apply Hnot. rewrite <- Hk. now apply in_map.
      + exists (key a). split; [assumption | apply String.eqb_refl].
    - intros (k & Hk & Ek). exists k. split; [|assumption].
      apply table_put_keys. now right. }
  rewrite Same.
  destruct (existsb (String.eqb (key r)) (map key t)) eqn:Ex; simpl.
  - apply existsb_exists in Ex as (k & Hk & Ek). apply String.eqb_eq in Ek.
    subst k. rewrite table_put_length_old by assumption. lia.
  - rewrite table_put_length_new; [lia|].
    intros Hk. apply Bool.not_true_iff_false in Ex. apply Ex.
    apply existsb_exists. exists (key r). split; [assumption | apply String.eqb_refl].
Qed.

End Tables.

(** *** What an import emits, by outcome *)

Section Written.
Variables (stored incoming : list SleepSession) (user : string).
Hypothesis stored_order : InKeyOrder id stored.
Hypothesis owned : Forall (fun s => userId s = user) incoming.
Hypothesis fresh : Forall (fun s => ~ In (id s) (map id stored)) incoming.
Hypothesis keys : NoDup (map id incoming).

Lemma emitted_owner en x :
  In en (fold_left incomingStep incoming []) ->
  In x (emitted en (outcomeFor stored user en)) ->
  userId x = user.
Proof.
  intros Hen Hx. destruct en as [d s].
  destruct (entry_inherits user incoming d s owned Hen) as (_ & Hu & _).
  destruct (outcomeFor stored user (d, s)) as [|e|e] eqn:Eo; simpl in Hx.
  - destruct Hx as [<-|[]]. exact Hu.
  - contradiction.
  - destruct Hx as [<-|[]].
    destruct (outcome_stored stored user (d, s) e (or_introl Eo))
      as (_ & He & _).
    simpl. unfold mergeSessions. destruct (_ <=? _)%nat; simpl; assumption.
Qed.

(** An emitted session is stored already exactly when it is a merge. *)
Lemma emitted_known en x :
  In en (fold_left incomingStep incoming []) ->
  In x (emitted en (outcomeFor stored user en)) ->
  existsb (String.eqb (id x)) (map id stored) = isMerged (outcomeFor stored user en).
Proof.
  intros Hen Hx. destruct en as [d s].
  destruct (entry_inherits user incoming d s owned Hen) as (_ & _ & (y & Hy & _ & Hi)).
  destruct (outcomeFor stored user (d, s)) as [|e|e] eqn:Eo; simpl in Hx.
  - destruct Hx as [<-|[]]. simpl.
    apply Bool.not_true_iff_false. intros Ex.
    apply existsb_exists in Ex as (k & Hk & Ek). apply String.eqb_eq in Ek.
    subst k. rewrite Forall_forall in fresh. apply (fresh y Hy). now rewrite Hi.
  - contradiction.
  - destruct Hx as [<-|[]]. simpl.
    destruct (outcome_stored stored user (d, s) e (or_introl Eo)) as (He & _).
    apply existsb_exists. exists (id e). split; [now apply in_map|].
    apply String.eqb_refl.
Qed.

Lemma fresh_count l :
  (forall en, In en l -> In en (fold_left incomingStep incoming [])) ->
  (length (filter (fun r => negb (existsb (String.eqb (id r)) (map id stored)))
             (flat_map (fun en => emitted en (outcomeFor stored user en)) l))
   + length (filter (fun en => isMerged (outcomeFor stored user en)) l)
   = length (flat_map (fun en => emitted en (outcomeFor stored user en)) l))%nat.
Proof.
  induction l as [|en l IH]; intros Hl; simpl; [reflexivity|].
  rewrite filter_app, !length_app.
  specialize (IH (fun en' H => Hl en' (or_intror H))).
  assert (Hen : In en (fold_left incomingStep incoming [])) by (apply Hl; now left).
  pose proof (emitted_known en) as Hk.
  destruct (outcomeFor stored user en) as [|e|e] eqn:Eo.
  - pose proof (Hk (snd en) Hen (or_introl eq_refl)) as Hx.
    simpl in Hx |- *. rewrite Hx. simpl. lia.
  - simpl. lia.
  - pose proof (Hk _ Hen (or_introl eq_refl)) as Hx.
    simpl in Hx |- *. rewrite Hx. simpl. lia.
Qed.

End Written.

End NightFacts.

Module NightTheorems.
Import Pipeline MergeFacts DedupFacts DedupTheorems Orchestrator ReimportFacts
       TwoImportsFacts NightFacts.

(** X11. [deduplicateSessions] returns at most one session per night: the
    dates of the returned sessions are pairwise distinct and each is the
    date of an incoming session.  Every distinct incoming date is either
    returned or counted as skipped, and the merged count never exceeds
    the number of returned sessions. *)
Theorem dedup_returns_one_session_per_night
  (existing incoming : list SleepSession) (user : string) :
  let r := deduplicateSessions existing incoming user in
  NoDup (map date (sessions r))
  /\ (forall s, In s (sessions r) -> In (date s) (map date incoming))
  /\ (length (sessions r) + skippedCount r
      = length (nodup string_dec (map date incoming)))%nat
  /\ (mergedCount r <= length (sessions r))%nat.
Proof.
  cbv zeta. split; [apply sessions_dates_NoDup|].
  pose proof (dedup_spec existing incoming user) as Hs. cbv zeta in Hs.
  rewrite Hs. cbn [sessions mergedCount skippedCount].
  split.
  - intros s Hin. apply in_flat_map in Hin as (en & Hen & Hx).
    rewrite (emitted_date existing user incoming en s Hen Hx).
    destruct en as [d s0]. exact (proj2 (entry_date incoming d s0 Hen)).
  - rewrite <- ReimportTheorems.incoming_dates_count.
    apply (emitted_counts (outcomeFor existing user) emitted).
    intros en. destruct (outcomeFor existing user en); reflexivity.
Qed.

(** X12. Importing keeps one session per night in the store.  Let the
    store be in key order with at most one session of the user per
    date, and let the incoming sessions be the user's, under distinct ids
    that are not stored.  After the deduplicated sessions are written the
    store is still in key order and still has at most one session of the
    user per date, and it has grown by the number of returned sessions
    that are not merges. *)
Theorem import_keeps_one_session_per_night
  (stored incoming : list SleepSession) (user : string) :
  InKeyOrder id stored ->
  NoDup (map date (filter (fun e => String.eqb (userId e) user) stored)) ->
  Forall (fun s => userId s = user) incoming ->
  Forall (fun s => ~ In (id s) (map id stored)) incoming ->
  NoDup (map id incoming) ->
  let r := deduplicateSessions stored incoming user in
  let stored' := table_putMany id (sessions r) stored in
  InKeyOrder id stored'
  /\ NoDup (map date (filter (fun e => String.eqb (userId e) user) stored'))
  /\ (length stored' + mergedCount r = length stored + length (sessions r))%nat.
Proof.
  intros Hord Hone Hown Hfresh Hkeys. cbv zeta.
  pose proof (InKeyOrder_NoDup id stored Hord) as Hids.
  pose proof (r1_keys stored incoming user Hids Hown Hfresh Hkeys) as Hnew.
  set (r := deduplicateSessions stored incoming user) in *.
  set (stored' := table_putMany id (sessions r) stored).
  assert (Hord' : InKeyOrder id stored') by now apply table_putMany_sorted.
  split; [exact Hord'|].
  split.
  - (* dates of the user's sessions stay distinct *)
    assert (Hnd : NoDup (filter (fun e => String.eqb (userId e) user) stored')).
    { apply NoDup_filter. eapply NoDup_map_inv.
      exact (InKeyOrder_NoDup id stored' Hord'). }
    assert (Storedinj : forall a b, In a stored -> In b stored ->
              userId a = user -> userId b = user -> date a = date b -> a = b).
    { intros a b Ha Hb Ua Ub E.
      apply (NoDup_map_eq date _ a b Hone); auto;
        apply filter_In; split; auto; now apply String.eqb_eq. }
    assert (Mixed : forall x y, In x (sessions r) ->
              In y stored -> ~ In (id y) (map id (sessions r)) ->
              userId y = user -> date x = date y -> False).
    { intros x y Hx Hy Hny Uy E.
      unfold r in Hx. rewrite r1_sessions in Hx.
      apply in_flat_map in Hx as (en & Hen & Hx).
      pose proof (emitted_date stored user incoming en x Hen Hx) as Dx.
      destruct (outcomeFor stored user en) as [|e|e] eqn:Eo.
      - unfold outcomeFor in Eo.
        destruct (mostComplete _) as [b|] eqn:Eb;
          [destruct (_ <? _)%nat; discriminate|].
        apply mostComplete_nil in Eb.
        assert (Hin : In y (storedFor stored user (fst en))).
        { apply storedFor_In. repeat split; auto. congruence. }
        rewrite Eb in Hin. contradiction.
      - simpl in Hx. contradiction.
      - destruct (outcome_stored stored user en e (or_introl Eo))
          as (He & Ue & De & _).
        assert (e = y) by (apply Storedinj; auto; congruence). subst e.
        simpl in Hx. destruct Hx as [<-|[]].
        apply Hny. apply in_map_iff.
        exists (set_id (mergeSessions y (snd en)) (id y)). split; [reflexivity|].
        unfold r. rewrite r1_sessions. apply in_flat_map. exists en.
        split; [assumption|]. rewrite Eo. now left. }
    apply (NoDup_map_NoDup_ForallPairs); [|exact Hnd].
    intros a b Ha Hb E.
    apply filter_In in Ha as [Ha Ua], Hb as [Hb Ub].
    apply String.eqb_eq in Ua, Ub.
    apply (table_putMany_In_inv id _ _ _ Hord) in Ha as [Ha|[Ha Hna]];
      apply (table_putMany_In_inv id _ _ _ Hord) in Hb as [Hb|[Hb Hnb]].
    + apply (NoDup_map_eq date (sessions r) a b); auto.
      apply sessions_dates_NoDup.
    + exfalso. exact (Mixed a b Ha Hb Hnb Ub E).
    + exfalso. exact (Mixed b a Hb Ha Hna Ua (eq_sym E)).
    + now apply Storedinj.
  - unfold stored'. rewrite (table_putMany_length id _ _ Hord Hnew).
    pose proof (dedup_spec stored incoming user) as Hs. cbv zeta in Hs.
    fold r in Hs. rewrite Hs. cbn [sessions mergedCount].
    pose proof (fresh_count stored incoming user Hown Hfresh
                  (fold_left incomingStep incoming []) (fun en H => H)) as Hc.
    lia.
Qed.

Lemma import_keeps_one_session_per_night_witness :
  let r := deduplicateSessions [storedB] [richA] "u" in
  let stored' := table_putMany id (sessions r) [storedB] in
  InKeyOrder id stored'
  /\ NoDup (map date (filter (fun e => String.eqb (userId e) "u") stored'))
  /\ (length stored' + mergedCount r = length [storedB] + length (sessions r))%nat.
Proof.
  apply (import_keeps_one_session_per_night [storedB] [richA] "u").
  - repeat constructor.
  - repeat constructor. simpl. tauto.
  - repeat constructor.
  - repeat constructor. simpl. intros [H|[]]. discriminate H.
  - repeat constructor. simpl. tauto.
Defined.

End NightTheorems.

(** ** Validation and the quality tally of an import ([importers/pipeline.ts]) *)

Module ValidationFacts.
Import Pipeline Orchestrator DataQuality QualityCheckFacts ViolationFacts.

Lemma validateEfficiency_range e x :
  validateEfficiency e = Some x -> 0 <= x /\ x <= 100.
Proof.
  unfold validateEfficiency. destruct e as [v|]; [|discriminate].
  destruct (Qltb v 0) eqn:E0.
  - intros H; inversion H. split; discriminate.
  - destruct (Qltb 100 v) eqn:E1; intros H; inversion H; subst.
    + split; discriminate.
    + apply Qltb_ge in E0, E1. auto.
Qed.

Lemma validateEfficiency_keeps v :
  0 <= v -> v <= 100 -> validateEfficiency (Some v) = Some v.
Proof.
  intros H0 H1. unfold validateEfficiency.
  assert (E0 : Qltb v 0 = false) by now apply Qltb_ge.
  assert (E1 : Qltb 100 v = false) by now apply Qltb_ge.
  now rewrite E0, E1.
Qed.

Lemma Math_round_near x :
  - (1 # 2) < Math_round x - x /\ Math_round x - x <= 1 # 2.
Proof.
  unfold Math_round.
  pose proof (Qfloor_le (x + (1 # 2))) as F1.
  pose proof (Qlt_floor (x + (1 # 2))) as F2.
  rewrite inject_Z_plus in F2. change (inject_Z 1) with 1 in F2.
  split; lra.
Qed.

Lemma roundIfTruthy_Some x r :
  roundIfTruthy x = Some r ->
  exists y, x = Some y /\ ~ y == 0 /\ r = Math_round y.
Proof.
  unfold roundIfTruthy. destruct x as [y|]; [|discriminate].
  unfold truthy. destruct (Qeq_bool y 0) eqn:E; simpl; [discriminate|].
  intros H; inversion H. exists y. repeat split.
  intros Hy. apply Qeq_bool_iff in Hy. congruence.
Qed.

Lemma roundIfTruthy_None x :
  roundIfTruthy x = None <-> x = None \/ exists y, x = Some y /\ y == 0.
Proof.
  unfold roundIfTruthy. destruct x as [y|]; [|tauto].
  unfold truthy. destruct (Qeq_bool y 0) eqn:E; simpl.
  - apply Qeq_bool_iff in E. split; eauto.
  - split; [discriminate|]. intros [H|(z & Hz & Hz0)]; [discriminate|].
    inversion Hz; subst z. apply Qeq_bool_iff in Hz0. congruence.
Qed.

(** *** The tally of step 6 *)

(** Without a baseline the quality of a session is decided by its hard
    violations and the presence of its duration. *)
Lemma import_quality s :
  let r := checkSleepSessionQuality s None DEFAULT_MAD_THRESHOLD in
  overallQuality r
  = if negb (Nat.eqb (length (hardLimitViolations r)) 0) then bad
    else match durationSeconds s with None => warning | Some _ => good end.
Proof.
  cbv zeta.
  destruct (report_fields s None DEFAULT_MAD_THRESHOLD) as (_ & Hm & Hc & Hp).
  rewrite report_outliers in Hp. simpl length in Hp at 2.
  unfold policy_from_spec in Hp.
  destruct (hardLimitViolations _) as [|v vs]; simpl in Hp |- *.
  - rewrite Hc, Hm in Hp.
    pose proof (missing_iff_duration s) as Hd.
    destruct (durationSeconds s) as [d|].
    + rewrite (proj2 Hd) in Hp by discriminate. simpl in Hp. now inversion Hp.
    + destruct (flat_map missingOf (checks s)) as [|m ms].
      * exfalso. now apply (proj1 Hd).
      * simpl in Hp. now inversion Hp.
  - now inversion Hp.
Qed.

Lemma tally_fold l acc :
  let report s := checkSleepSessionQuality s None DEFAULT_MAD_THRESHOLD in
  let flagged s := negb (Nat.eqb (length (hardLimitViolations (report s))) 0) in
  let t := fold_left qualityStep l acc in
  checked t
  = (checked acc
     ++ map (fun s => set_dataQuality s (generateDataQualityFlags (report s))) l)%list
  /\ (goodCount t + warningCount t + badCount t
      = goodCount acc + warningCount acc + badCount acc + length l)%nat
  /\ badCount t = (badCount acc + length (filter flagged l))%nat
  /\ length (outlierWarnings t)
     = (length (outlierWarnings acc) + length (filter flagged l))%nat
  /\ warningCount t
     = (warningCount acc
        + length (filter (fun s => negb (flagged s)
                                   && match durationSeconds s with
                                      | None => true
                                      | Some _ => false
                                      end) l))%nat.
Proof.
  cbv zeta. revert acc. induction l as [|s l IH]; intros acc.
  - simpl. rewrite app_nil_r. repeat split; lia.
  - cbn [fold_left]. destruct (IH (qualityStep acc s)) as (H1 & H2 & H3 & H4 & H5).
    rewrite H1, H2, H3, H4, H5. clear IH H1 H2 H3 H4 H5.
    unfold qualityStep.
    cbn [checked goodCount warningCount badCount outlierWarnings map filter length].
    rewrite (import_quality s).
    destruct (hardLimitViolations _) as [|v vs]; simpl negb; cbv iota.
    + destruct (durationSeconds s); simpl;
        rewrite <- ?app_assoc; repeat split; try reflexivity; lia.
    + simpl. rewrite <- ?app_assoc, ?length_app. simpl.
      repeat split; try reflexivity; lia.
Qed.

End ValidationFacts.

Module ValidationTheorems.
Import Pipeline Orchestrator DataQuality QualityCheckFacts ViolationFacts
       ValidationFacts.

(** X13. [validateSession] clamps the efficiency into [0, 100] (a value
    already there is kept, an undefined one stays undefined), replaces
    the minimum and average heart rate and the average HRV by the nearest
    integer, within one half of the reading, and drops a reading of zero.
    The twenty other fields are left as they are: the six strings (ids,
    date and time stamps), the eight durations, the maximum heart rate,
    the respiratory rate, the two temperatures, the quality flags and the
    vendor data. *)
Theorem validateSession_normalises (s : SleepSession) :
  let v := validateSession s in
  (forall e, efficiency v = Some e -> 0 <= e /\ e <= 100)
  /\ (forall e, efficiency s = Some e -> 0 <= e -> e <= 100 ->
        efficiency v = Some e)
  /\ (efficiency v = None <-> efficiency s = None)
  /\ Forall (fun f : SleepSession -> num =>
               (forall r, f v = Some r ->
                  exists y z, f s = Some y /\ ~ y == 0 /\ r = inject_Z z
                              /\ - (1 # 2) < r - y /\ r - y <= 1 # 2)
               /\ (f v = None <-> f s = None \/ exists y, f s = Some y /\ y == 0))
            [minHeartRate; avgHeartRate; avgHrv]
  /\ Forall (fun f : SleepSession -> num => f v = f s)
            [durationSeconds; timeInBedSeconds; deepSeconds; remSeconds;
             lightSeconds; awakeSeconds; sleepOnsetLatency;
             wakeAfterSleepOnset; maxHeartRate; avgRespiratoryRate;
             avgBedTempC; avgRoomTempC]
  /\ (id v, userId v, sourceId v, date v, startedAt v, endedAt v)
     = (id s, userId s, sourceId s, date s, startedAt s, endedAt s)
  /\ dataQuality v = dataQuality s
  /\ vendorData v = vendorData s.
Proof.
  cbv zeta. split; [intros e; apply validateEfficiency_range|].
  split; [intros e He H0 H1; simpl; rewrite He; now apply validateEfficiency_keeps|].
  split.
  { simpl. unfold validateEfficiency. destruct (efficiency s) as [e|]; [|tauto].
    destruct (Qltb e 0); [split; discriminate|].
    destruct (Qltb 100 e); split; discriminate. }
  split.
  { assert (G : forall x,
       (forall r, roundIfTruthy x = Some r ->
          exists y z, x = Some y /\ ~ y == 0 /\ r = inject_Z z
                      /\ - (1 # 2) < r - y /\ r - y <= 1 # 2)
       /\ (roundIfTruthy x = None <-> x = None \/ exists y, x = Some y /\ y == 0)).
    { intros x. split; [|apply roundIfTruthy_None].
      intros r Hr. apply roundIfTruthy_Some in Hr as (y & Hx & Hy & ->).
      exists y, (Qfloor (y + (1 # 2))). repeat split; auto;
        apply Math_round_near. }
    constructor; [apply G|]. constructor; [apply G|].
    constructor; [apply G|]. constructor. }
  split; [repeat constructor|]. repeat split.
Qed.

(** X14. Step 6 of an import checks every validated session without a
    baseline.  Each session is counted once as good, warning or bad; it
    is bad exactly when the report has a hard-limit violation, and then
    one outlier warning is issued; it is a warning exactly when it has no
    violation and no duration; statistical outliers are never reported.
    The checked sessions are the validated ones with their quality flags
    replaced. *)
Theorem import_quality_tally (validated : list SleepSession) :
  let report s := checkSleepSessionQuality s None DEFAULT_MAD_THRESHOLD in
  let flagged s := negb (Nat.eqb (length (hardLimitViolations (report s))) 0) in
  let t := fold_left qualityStep validated
             {| checked := []; goodCount := 0; warningCount := 0; badCount := 0;
                outlierWarnings := [] |} in
  checked t
  = map (fun s => set_dataQuality s (generateDataQualityFlags (report s))) validated
  /\ (goodCount t + warningCount t + badCount t = length validated)%nat
  /\ badCount t = length (filter flagged validated)
  /\ length (outlierWarnings t) = badCount t
  /\ warningCount t
     = length (filter (fun s => negb (flagged s)
                                && match durationSeconds s with
                                   | None => true
                                   | Some _ => false
                                   end) validated)
  /\ Forall (fun c => r_outlierFields (report c) = []) validated.
Proof.
  cbv zeta.
  destruct (tally_fold validated
              {| checked := []; goodCount := 0; warningCount := 0; badCount := 0;
                 outlierWarnings := [] |}) as (H1 & H2 & H3 & H4 & H5).
  cbv zeta in H1, H2, H3, H4, H5. cbn [checked goodCount warningCount badCount
                                        outlierWarnings app length] in *.
  rewrite H1, H2, H4, H3, H5. repeat split.
  apply Forall_forall. intros c _. apply report_outliers.
Qed.

End ValidationTheorems.

(** ** The CSV reader ([parseCsv], [parseCsvLine]) *)

Module CsvFacts.
Import JsString Orchestrator.
Local Open Scope string_scope.
Local Open Scope nat_scope.

Lemma append_nil_r s : s ++ "" = s.
Proof. induction s as [|c s IH]; simpl; congruence. Qed.

Lemma append_assoc a b c : (a ++ b) ++ c = a ++ (b ++ c).
Proof. induction a as [|x a IH]; simpl; congruence. Qed.

Lemma countChar_append c a b :
  countChar c (a ++ b) = countChar c a + countChar c b.
Proof. induction a as [|x a IH]; simpl; [reflexivity|]. rewrite IH. lia. Qed.

Lemma split_cons sep s : exists h t, split sep s = h :: t.
Proof.
  induction s as [|c s (h & t & E)]; simpl; [eauto|].
  destruct (Ascii.eqb c sep); [eauto|]. rewrite E. eauto.
Qed.

Lemma countChar_cons_0 c d s :
  countChar c (String d s) = 0 -> Ascii.eqb c d = false /\ countChar c s = 0.
Proof. cbn [countChar]. destruct (Ascii.eqb c d); [discriminate | auto]. Qed.

(** *** A line without quotes *)

Lemma unquoted_from line cur :
  countChar dquote line = 0 ->
  parseCsvLineFrom line cur false
  = match split "," line with
    | h :: t => trim (cur ++ h) :: map trim t
    | [] => []
    end.
Proof.
  revert cur. induction line as [|c line IH]; intros cur Hq.
  - simpl. now rewrite append_nil_r.
  - apply countChar_cons_0 in Hq as [Eq Hq].
    cbn [parseCsvLineFrom split]. rewrite (Ascii.eqb_sym c dquote), Eq.
    destruct (Ascii.eqb c ",") eqn:Ec; cbn [andb negb].
    + rewrite append_nil_r, (IH "" Hq).
      destruct (split_cons "," line) as (h & t & E). rewrite E. reflexivity.
    + rewrite (IH _ Hq).
      destruct (split_cons "," line) as (h & t & E). rewrite E.
      rewrite append_assoc. reflexivity.
Qed.

Lemma split_concat sep fields :
  fields <> [] ->
  Forall (fun f => countChar sep f = 0) fields ->
  split sep (String.concat (String sep "") fields) = fields.
Proof.
  intros Hne H. induction H as [|f fs Hf Hfs IH]; [congruence|].
  assert (One : forall f rest, countChar sep f = 0 ->
            split sep (f ++ String sep rest) = f :: split sep rest).
  { clear. induction f as [|c f IH]; intros rest Hc.
    - simpl. now rewrite Ascii.eqb_refl.
    - apply countChar_cons_0 in Hc as [Ec Hc].
      cbn [append split]. rewrite (Ascii.eqb_sym c sep), Ec.
      now rewrite (IH rest Hc). }
  assert (Last : forall f, countChar sep f = 0 -> split sep f = [f]).
  { clear. induction f as [|c f IH]; intros Hc; [reflexivity|].
    apply countChar_cons_0 in Hc as [Ec Hc].
    cbn [split]. rewrite (Ascii.eqb_sym c sep), Ec.
    now rewrite (IH Hc). }
  destruct fs as [|g fs].
  - simpl. now apply Last.
  - change (String.concat (String sep "") (f :: g :: fs))
      with (f ++ String sep (String.concat (String sep "") (g :: fs))).
    rewrite (One _ _ Hf), IH; [reflexivity | discriminate].
Qed.

(** *** Quoted fields *)

Lemma quoted_run f rest cur :
  countChar dquote f = 0 ->
  parseCsvLineFrom (f ++ rest) cur true = parseCsvLineFrom rest (cur ++ f) true.
Proof.
  revert cur. induction f as [|c f IH]; intros cur Hq.
  - simpl. now rewrite append_nil_r.
  - apply countChar_cons_0 in Hq as [Eq Hq].
    cbn [append parseCsvLineFrom]. rewrite (Ascii.eqb_sym c dquote), Eq.
    cbn [negb]. rewrite andb_false_r, (IH _ Hq), append_assoc. reflexivity.
Qed.

Lemma step_quote rest cur q :
  parseCsvLineFrom (String dquote rest) cur q = parseCsvLineFrom rest cur (negb q).
Proof. cbn [parseCsvLineFrom]. now rewrite Ascii.eqb_refl. Qed.

Lemma step_comma rest cur :
  parseCsvLineFrom (String "," rest) cur false
  = trim cur :: parseCsvLineFrom rest "" false.
Proof. reflexivity. Qed.

Lemma quoted_one f rest :
  countChar dquote f = 0 ->
  parseCsvLineFrom (String dquote (f ++ String dquote "") ++ rest) "" false
  = parseCsvLineFrom rest f false.
Proof.
  intros Hf. cbn [append]. rewrite append_assoc. cbn [append].
  rewrite step_quote. cbn [negb]. rewrite (quoted_run f _ "" Hf).
  rewrite step_quote. reflexivity.
Qed.

Lemma quoted_fields fields :
  fields <> [] ->
  Forall (fun f => countChar dquote f = 0) fields ->
  parseCsvLine
    (String.concat ","
       (map (fun f => String dquote (f ++ String dquote "")) fields))
  = map trim fields.
Proof.
  unfold parseCsvLine.
  intros Hne H. induction H as [|f fs Hf Hfs IH]; [congruence|].
  destruct fs as [|g fs].
  - cbn [map String.concat].
    rewrite <- (append_nil_r (String dquote (f ++ String dquote ""))).
    rewrite (quoted_one f "" Hf). reflexivity.
  - change (String.concat "," (map _ (f :: g :: fs)))
      with (String dquote (f ++ String dquote "")
            ++ String "," (String.concat ","
                 (map (fun f => String dquote (f ++ String dquote "")) (g :: fs)))).
    rewrite (quoted_one f _ Hf), step_comma, IH by discriminate. reflexivity.
Qed.

(** *** No quote survives *)

Lemma countChar_trimStart c s : countChar c (trimStart s) <= countChar c s.
Proof.
  induction s as [|d s IH]; simpl; [lia|].
  destruct (isSpace d); simpl; lia.
Qed.

Lemma countChar_trimEnd c s : countChar c (trimEnd s) <= countChar c s.
Proof.
  induction s as [|d s IH]; simpl; [lia|].
  destruct (trimEnd s) as [|e t] eqn:E.
  - destruct (isSpace d); simpl in *; lia.
  - simpl in *. lia.
Qed.

Lemma countChar_trim c s : countChar c s = 0 -> countChar c (trim s) = 0.
Proof.
  intros H. unfold trim.
  pose proof (countChar_trimEnd c (trimStart s)).
  pose proof (countChar_trimStart c s). lia.
Qed.

Lemma fields_unquoted line cur q :
  countChar dquote cur = 0 ->
  Forall (fun f => countChar dquote f = 0) (parseCsvLineFrom line cur q).
Proof.
  revert cur q. induction line as [|c line IH]; intros cur q Hc;
    cbn [parseCsvLineFrom].
  - constructor; [now apply countChar_trim | constructor].
  - destruct (Ascii.eqb c dquote) eqn:Eq; [now apply IH|].
    destruct (Ascii.eqb c "," && negb q).
    + constructor; [now apply countChar_trim | now apply IH].
    + apply IH. rewrite countChar_append. cbn [countChar].
      rewrite (Ascii.eqb_sym dquote c), Eq. lia.
Qed.

(** *** Rows *)

Lemma obj_get_set_other k k' v o :
  k <> k' -> obj_get k (obj_set k' v o) = obj_get k o.
Proof.
  intros Hne.
  assert (E : String.eqb k k' = false) by now apply String.eqb_neq.
  induction o as [|[k0 v0] o IH]; cbn [obj_set obj_get].
  - now rewrite E.
  - destruct (String.eqb k' k0) eqn:E0; cbn [obj_get].
    + apply String.eqb_eq in E0. subst k0. now rewrite E.
    + destruct (String.eqb k k0); auto.
Qed.

Lemma obj_has_set k k' v o :
  obj_has k (obj_set k' v o) = String.eqb k k' || obj_has k o.
Proof.
  induction o as [|[k0 v0] o IH]; simpl; [reflexivity|].
  destruct (String.eqb k' k0) eqn:E; simpl.
  - apply String.eqb_eq in E. subst k0.
    now destruct (String.eqb k k').
  - rewrite IH.
    destruct (String.eqb k k0), (String.eqb k k'); reflexivity.
Qed.

Lemma csvRow_other k hs vs row :
  ~ In k hs -> obj_get k (csvRow hs vs row) = obj_get k row.
Proof.
  revert vs row. induction hs as [|h hs IH]; intros vs row Hn; simpl; [reflexivity|].
  rewrite IH by (simpl in Hn; tauto).
  apply obj_get_set_other. simpl in Hn. intros E. apply Hn. now left.
Qed.

(** The cell under a header is the value of the last column that
    carries that header. *)
Lemma csvRow_get hs vs row j :
  j < length hs ->
  (forall k, j < k < length hs -> nth k hs "" <> nth j hs "") ->
  obj_get (nth j hs "") (csvRow hs vs row) = VStr (nth j vs "").
Proof.
  revert vs row j. induction hs as [|h hs IH]; intros vs row j Hj Hlast;
    simpl in Hj; [lia|].
  destruct j as [|j].
  - simpl. rewrite csvRow_other.
    + rewrite obj_get_set_same. now destruct vs.
    + intros Hin. apply (In_nth _ _ "") in Hin as (k & Hk & Ek).
      apply (Hlast (S k)); [simpl; lia|]. exact Ek.
  - cbn [nth csvRow]. rewrite IH.
    + destruct vs; [destruct j|]; reflexivity.
    + lia.
    + intros k Hk. apply (Hlast (S k)). simpl. lia.
Qed.

Lemma csvRow_has hs : forall vs row k,
  obj_has k (csvRow hs vs row) = true <-> obj_has k row = true \/ In k hs.
Proof.
  induction hs as [|h hs IH]; intros vs row k; simpl.
  - tauto.
  - rewrite IH, obj_has_set, orb_true_iff, String.eqb_eq.
    split; [intros [[->|H]|H] | intros [H|[->|H]]]; auto.
Qed.

End CsvFacts.

Module CsvTheorems.
Import JsString Orchestrator CsvFacts.
Local Open Scope string_scope.
Local Open Scope nat_scope.

(** X15. On a line without double quotes [parseCsvLine] is a split at
    the commas followed by a trim of every field; so fields that hold no
    comma, no quote and no outer white space are read back from their
    comma-separated line. *)
Theorem parseCsvLine_without_quotes (line : string) (fields : list string) :
  (countChar dquote line = 0 ->
   parseCsvLine line = map trim (split "," line))
  /\ (fields <> [] ->
      Forall (fun f => countChar dquote f = 0 /\ countChar "," f = 0
                       /\ trim f = f) fields ->
      parseCsvLine (String.concat "," fields) = fields).
Proof.
  assert (A : forall l, countChar dquote l = 0 ->
                        parseCsvLine l = map trim (split "," l)).
  { intros l Hq. unfold parseCsvLine. rewrite (unquoted_from l "" Hq).
    destruct (split_cons "," l) as (h & t & E). rewrite E. reflexivity. }
  split; [apply A|].
  intros Hne H.
  assert (Hq : countChar dquote (String.concat "," fields) = 0).
  { clear Hne. induction H as [|f fs (Hf & _) Hfs IH]; [reflexivity|].
    destruct fs as [|g fs]; [exact Hf|].
    change (String.concat "," (f :: g :: fs))
      with (f ++ String "," (String.concat "," (g :: fs))).
    rewrite countChar_append. cbn [countChar].
    change (Ascii.eqb dquote ",") with false. cbv iota. lia. }
  rewrite (A _ Hq), split_concat.
  - clear Hne Hq. induction H as [|f fs (_ & _ & Hf) Hfs IH]; [reflexivity|].
    simpl. now rewrite Hf, IH.
  - exact Hne.
  - eapply Forall_impl; [|exact H]. now intros f (_ & Hc & _).
Qed.

Lemma parseCsvLine_without_quotes_witness :
  parseCsvLine " Date , Class Type,Calories"
  = map trim (split "," " Date , Class Type,Calories")
  /\ parseCsvLine (String.concat "," ["2024-03-01"; "Orange 60"; "512"])
     = ["2024-03-01"; "Orange 60"; "512"].
Proof.
  split.
  - apply (proj1 (parseCsvLine_without_quotes " Date , Class Type,Calories" [])).
    reflexivity.
  - apply (proj2 (parseCsvLine_without_quotes ""
                    ["2024-03-01"; "Orange 60"; "512"])).
    + discriminate.
    + repeat constructor.
Defined.

(** X16. Fields written between double quotes and joined by commas are
    read back by [parseCsvLine], commas inside them included, when they
    hold no quote and no outer white space.  No field of any parsed line
    holds a double quote: quotes only toggle the quoting state, so a
    doubled quote inside a quoted field is dropped, not unescaped. *)
Theorem parseCsvLine_quoted_round_trip (fields : list string) (line : string) :
  (fields <> [] ->
   Forall (fun f => countChar dquote f = 0 /\ trim f = f) fields ->
   parseCsvLine
     (String.concat ","
        (map (fun f => String dquote (f ++ String dquote "")) fields))
   = fields)
  /\ Forall (fun f => countChar dquote f = 0) (parseCsvLine line).
Proof.
  split.
  - intros Hne H. rewrite quoted_fields.
    + clear Hne. induction H as [|f fs (_ & Hf) Hfs IH]; [reflexivity|].
      simpl. now rewrite Hf, IH.
    + exact Hne.
    + eapply Forall_impl; [|exact H]. now intros f (Hc & _).
  - now apply fields_unquoted.
Qed.

Lemma parseCsvLine_quoted_round_trip_witness :
  parseCsvLine
    (String.concat ","
       (map (fun f => String dquote (f ++ String dquote ""))
            ["Orange 60, Lift"; "512"]))
  = ["Orange 60, Lift"; "512"].
Proof.
  apply (proj1 (parseCsvLine_quoted_round_trip ["Orange 60, Lift"; "512"] "")).
  - discriminate.
  - repeat constructor.
Defined.

(** X17. [parseCsv] drops blank lines, returns nothing when fewer than
    two lines remain, and otherwise one row per line after the header
    line.  In a row the cell under a header is the field of the last
    column carrying that header, or the empty string when the line is too
    short; fields beyond the header are dropped, and the keys of a row
    are the headers.  The header [__proto__] is left aside: assigning a
    string to that name of a JavaScript object stores nothing. *)
Theorem parseCsv_rows (content : string) :
  let lines :=
    filter (fun line => negb (String.eqb (trim line) EmptyString))
           (split newline content) in
  let headers := parseCsvLine (hd EmptyString lines) in
  (length lines < 2 -> parseCsv content = [])
  /\ (2 <= length lines ->
      length (parseCsv content) = length lines - 1
      /\ (forall i j,
            i < length lines - 1 -> j < length headers ->
            nth j headers "" <> "__proto__" ->
            (forall k, j < k < length headers ->
                       nth k headers "" <> nth j headers "") ->
            obj_get (nth j headers "") (nth i (parseCsv content) [])
            = VStr (nth j (parseCsvLine (nth (S i) lines "")) ""))
      /\ Forall (fun row =>
                   forall k, k <> "__proto__" ->
                             (obj_has k row = true <-> In k headers))
                (parseCsv content)).
Proof.
  cbv zeta. unfold parseCsv.
  destruct (filter _ (split newline content)) as [|header [|l1 rest]].
  - split; [reflexivity | simpl; lia].
  - split; [reflexivity | simpl; lia].
  - split; [simpl; lia|]. intros _.
    cbn [hd]. split; [simpl; rewrite length_map; lia|].
    split.
    + intros i j Hi Hj _ Hlast. simpl length in Hi.
      assert (Hi' : i < length (l1 :: rest)) by (simpl; lia).
      change (nth (S i) (header :: l1 :: rest) "")
        with (nth i (l1 :: rest) "").
      set (f := fun line => csvRow (parseCsvLine header) (parseCsvLine line) []).
      rewrite (nth_indep _ [] (f "")) by (rewrite length_map; exact Hi').
      rewrite (map_nth f). unfold f.
      now apply csvRow_get.
    + apply Forall_forall. intros row Hrow k _.
      apply in_map_iff in Hrow as (line & <- & _).
      rewrite csvRow_has. simpl. split; [intros [H|H]|]; auto.
      discriminate.
Qed.

Lemma parseCsv_rows_witness :
  let content :=
    String.concat (String newline "")
      ["date,Calories Burned"; ""; "2024-03-01,512"; "2024-03-02"] in
  length (parseCsv content) = 2
  /\ obj_get "Calories Burned" (nth 0 (parseCsv content) []) = VStr "512"
  /\ obj_get "Calories Burned" (nth 1 (parseCsv content) []) = VStr "".
Proof.
  cbv zeta.
  set (content := String.concat _ _).
  destruct (parseCsv_rows content) as (_ & H).
  destruct H as (Hlen & Hcell & _); [vm_compute; lia|].
  split; [exact Hlen|].
  split.
  - apply (Hcell 0 1); vm_compute; solve [lia | discriminate | intros; lia].
  - apply (Hcell 1 1); vm_compute; solve [lia | discriminate | intros; lia].
Defined.

End CsvTheorems.

(** ** The source row of an import ([importFile]) *)

Module SourceFacts.
Import Pipeline Orchestrator ReimportFacts PrimitiveFacts PathFacts ImportFileFacts.

Section Sources.
Variable host : Host.

(** What a successful import has registered: the source row of the
    file, under the id the result reports. *)
#[local] Abbreviation Registered file user w w' r :=
  (exists src,
     sources (db w') = table_put s_id src (sources (db w))
     /\ s_id src = r_sourceId r
     /\ s_userId src = user
     /\ s_fileName src = f_name file
     /\ s_fileHash src = sha256 host (contentText file)
     /\ s_vendor src = r_vendor r
     /\ s_recordCounts src = recordCounts r).

Lemma genericPath_source file user prof cb det parsed w r w' :
  genericPath host file user prof cb det (contentText file) parsed w = (inr r, w') ->
  success r = true /\ Registered file user w w' r.
Proof.
  unfold genericPath. intros H. cbv beta zeta in H.
  mstep H as srcs w1 E1. apply getByHash_inv in E1 as [-> Ea].
  mstep H as sid w2 E2. apply generateId_inv in E2 as [Ed Ei].
  mstep H as u3 w3 E3. apply report_inv in E3; subst w3.
  mstep H as tr w4 E4. apply transformData_inv in E4.
  mstep H as u5 w5 E5. apply report_inv in E5; subst w5.
  mstep H as u6 w6 E6. apply report_inv in E6; subst w6.
  mstep H as ex w7 E7. apply getAll_inv in E7 as [-> Eg].
  mstep H as u8 w8 E8. apply report_inv in E8; subst w8.
  mstep H as u9 w9 E9. apply putSource_inv in E9 as (N1 & S1 & S2 & S3 & S4 & S5).
  mstep H as u10 w10 E10. apply putSleep_inv in E10 as (N2 & T1 & T2 & T3 & T4 & T5).
  mstep H as u11 w11 E11. apply putWorkouts_inv in E11 as (N3 & U1 & U2 & U3 & U4 & U5).
  mstep H as u12 w12 E12. apply putSeries_inv in E12 as (N4 & V1 & V2 & V3 & V4 & V5).
  mstep H as u13 w13 E13. apply report_inv in E13; subst w13.
  unfold ret in H. inversion H; subst r w'; clear H.
  split; [reflexivity|].
  eexists. split.
  { rewrite V1, U1, T1, S1, E4, Ed. reflexivity. }
  cbn [s_id s_userId s_fileName s_fileHash s_vendor s_recordCounts
       r_sourceId r_vendor recordCounts].
  repeat split; reflexivity.
Qed.

Lemma appleXmlPath_source file user cb w r w' :
  appleXmlPath host file user cb (contentText file) w = (inr r, w') ->
  success r = true /\ Registered file user w w' r.
Proof.
  unfold appleXmlPath. intros H. cbv beta zeta in H.
  mstep H as u1 w1 E1. apply report_inv in E1; subst w1.
  mstep H as sid w2 E2. apply generateId_inv in E2 as [Ed Ei].
  mstep H as ar w3 E3. apply runAppleParser_inv in E3.
  mstep H as u4 w4 E4. apply report_inv in E4; subst w4.
  mstep H as ex w5 E5. apply getAll_inv in E5 as [-> Eg].
  mstep H as u6 w6 E6. apply report_inv in E6; subst w6.
  mstep H as u7 w7 E7. apply putSource_inv in E7 as (N1 & S1 & S2 & S3 & S4 & S5).
  mstep H as u8 w8 E8. apply putSleep_inv in E8 as (N2 & T1 & T2 & T3 & T4 & T5).
  mstep H as u9 w9 E9. apply putWorkouts_inv in E9 as (N3 & U1 & U2 & U3 & U4 & U5).
  mstep H as u10 w10 E10. apply putMetrics_inv in E10 as (N4 & V1 & V2 & V3 & V4 & V5).
  mstep H as u11 w11 E11. apply report_inv in E11; subst w11.
  unfold ret in H. inversion H; subst r w'; clear H.
  split; [reflexivity|].
  eexists. split.
  { rewrite V1, U1, T1, S1, E3, Ed. reflexivity. }
  cbn [s_id s_userId s_fileName s_fileHash s_vendor s_recordCounts
       r_sourceId r_vendor recordCounts].
  repeat split; reflexivity.
Qed.

Lemma preParsedPath_source file user cb data w r w' :
  preParsedPath host file user cb (contentText file) data w = (inr r, w') ->
  success r = true /\ Registered file user w w' r.
Proof.
  unfold preParsedPath. intros H. cbv beta zeta in H.
  mstep H as u1 w1 E1. apply report_inv in E1; subst w1.
  mstep H as sid w2 E2.
  assert (Ed : db w2 = db w).
  { destruct (getKey "sourceId" data) as [| | | |s| |];
      try (apply generateId_inv in E2 as [Ed _]; exact Ed).
    destruct (String.eqb s EmptyString).
    - apply generateId_inv in E2 as [Ed _]; exact Ed.
    - unfold ret in E2. inversion E2. reflexivity. }
  clear E2.
  mstep H as u4 w4 E4. apply report_inv in E4; subst w4.
  mstep H as ex w5 E5. apply getAll_inv in E5 as [-> Eg].
  mstep H as u6 w6 E6. apply report_inv in E6; subst w6.
  mstep H as u7 w7 E7. apply putSource_inv in E7 as (N1 & S1 & S2 & S3 & S4 & S5).
  mstep H as u8 w8 E8. apply putSleep_inv in E8 as (N2 & T1 & T2 & T3 & T4 & T5).
  mstep H as u9 w9 E9. apply putWorkouts_inv in E9 as (N3 & U1 & U2 & U3 & U4 & U5).
  mstep H as u10 w10 E10. apply putMetrics_inv in E10 as (N4 & V1 & V2 & V3 & V4 & V5).
  mstep H as u11 w11 E11. apply report_inv in E11; subst w11.
  destruct (getKey "sources" data) as [| | | | |names|]; try discriminate H.
  unfold ret in H. inversion H; subst r w'; clear H.
  split; [reflexivity|].
  eexists. split.
  { rewrite V1, U1, T1, S1, Ed. reflexivity. }
  cbn [s_id s_userId s_fileName s_fileHash s_vendor s_recordCounts
       r_sourceId r_vendor recordCounts].
  repeat split; reflexivity.
Qed.

(** The steps either register the source and succeed, or return a
    failure and leave the world as it was. *)
Lemma importSteps_source file user profile cb w r w' :
  importSteps host file user profile cb w = (inr r, w') ->
  (success r = true /\ Registered file user w w' r)
  \/ (success r = false /\ w' = w).
Proof.
  unfold importSteps. intros H. cbv beta zeta in H.
  mstep H as u1 w1 E1. apply report_inv in E1; subst w1.
  assert (Fail : forall e w0 r0 w0',
            ret (createErrorResult e) w0 = (inr r0, w0') ->
            success r0 = false /\ w0' = w0).
  { intros e w0 r0 w0' E. unfold ret in E. inversion E. auto. }
  destruct (fileType (detectFileType host file)) eqn:Eft.
  - destruct (match profile with Some p => Some p | None => _ end) as [prof|];
      [|right; eapply Fail; exact H].
    mstep H as u2 w2 E2. apply report_inv in E2; subst w2.
    destruct (JSON_parse host (contentText file)) as [v|];
      [|right; eapply Fail; exact H].
    destruct (vendor_eqb _ _ && _).
    + left. eapply preParsedPath_source; exact H.
    + left. eapply genericPath_source; exact H.
  - destruct (match profile with Some p => Some p | None => _ end) as [prof|];
      [|right; eapply Fail; exact H].
    mstep H as u2 w2 E2. apply report_inv in E2; subst w2.
    left.
    assert (G : genericPath host file user prof cb (detectFileType host file)
                  (contentText file) (VArr (map VObj (parseCsv (contentText file)))) w
                = (inr r, w')).
    { destruct (suggestedVendor (detectFileType host file)); exact H. }
    eapply genericPath_source; exact G.
  - right.
    destruct (match profile with Some p => Some p | None => _ end) as [prof|];
      [|eapply Fail; exact H].
    mstep H as u2 w2 E2. apply report_inv in E2; subst w2.
    destruct (suggestedVendor (detectFileType host file));
      eapply Fail; exact H.
  - destruct (match profile with Some p => Some p | None => _ end) as [prof|];
      [|right; eapply Fail; exact H].
    mstep H as u2 w2 E2. apply report_inv in E2; subst w2.
    destruct (suggestedVendor (detectFileType host file)) eqn:Ev;
      try (right; eapply Fail; exact H).
    left. eapply appleXmlPath_source; exact H.
  - right. eapply Fail; exact H.
Qed.

Lemma table_put_stored {R} (key : R -> string) r t : In r (table_put key r t).
Proof.
  induction t as [|x t IH]; simpl; [now left|].
  destruct (String.compare (key r) (key x)); simpl; auto.
Qed.

End Sources.

End SourceFacts.

Module SourceTheorems.
Import Pipeline Orchestrator ReimportFacts PrimitiveFacts PathFacts ImportFileFacts
       SourceFacts.

(** X18. A successful import registers its file: the store then holds a
    source row under the id the result reports, with the user, the file
    name, the hash of the content and the record counts of the result, so
    the file counts as already imported and a later successful import of
    it carries a duplicate warning.  A failure that is not a storage
    error leaves the store and the id counter as they were. *)
Theorem successful_import_registers_its_source
  (host : Host) (file : ImportFile) (user : string)
  (profile : option ImporterProfile) (onProgress : option ProgressCallback)
  (w w' : World) (r : ImportResult) :
  importFile host file user profile onProgress w = (inr r, w') ->
  (success r = true ->
     (exists src,
        In src (sources (db w'))
        /\ s_id src = r_sourceId r /\ s_userId src = user
        /\ s_fileName src = f_name file
        /\ s_fileHash src = sha256 host (contentText file)
        /\ s_recordCounts src = recordCounts r)
     /\ alreadyImported host file w' = true
     /\ (forall profile2 cb2 r2 w2,
           importFile host file user profile2 cb2 w' = (inr r2, w2) ->
           success r2 = true -> hasDuplicateWarning r2))
  /\ (success r = false ->
      (forall e, In e (errors r) -> e_type e <> storage_error) -> w' = w).
Proof.
  intros H.
  destruct (importFile_inv host _ _ _ _ _ _ _ H) as [Hs|(e & He & Hr)].
  - destruct (importSteps_source host _ _ _ _ _ _ _ Hs)
      as [(Hok & src & Hst & Hid & Hu & Hn & Hh & Hv & Hc)|(Hko & Hw)].
    + split; [|congruence]. intros _.
      assert (Hin : In src (sources (db w'))).
      { rewrite Hst. apply table_put_stored. }
      assert (Hal : alreadyImported host file w' = true).
      { unfold alreadyImported. apply existsb_exists. exists src.
        split; [exact Hin|]. rewrite Hh. apply String.eqb_refl. }
      split; [exists src; auto 10|]. split; [exact Hal|].
      intros profile2 cb2 r2 w2 H2 Hok2.
      destruct (importFile_inv host _ _ _ _ _ _ _ H2) as [Hs2|(e2 & _ & Hr2)];
        [|subst r2; discriminate].
      destruct (importSteps_inv host _ _ _ _ _ _ _ Hs2)
        as [(e2 & Hr2 & _)|(_ & Hd)]; [subst r2; discriminate|].
      exact (Hd Hal).
    + split; [congruence|]. intros _ _. exact Hw.
  - subst r. split; [discriminate|]. intros _ Hne.
    exfalso. apply (Hne (caughtError e)); [now left | reflexivity].
Qed.

Lemma successful_import_registers_its_source_witness :
  exists r w',
    importFile Demo.demoHost Demo.preParsedFile "u" None None Demo.emptyWorld
    = (inr r, w')
    /\ alreadyImported Demo.demoHost Demo.preParsedFile w' = true.
Proof.
  eexists _, _. split; [vm_compute; reflexivity|].
  refine (proj1 (proj2 (proj1
    (successful_import_registers_its_source Demo.demoHost Demo.preParsedFile "u"
       None None Demo.emptyWorld _ _ eq_refl) eq_refl))).
Defined.

End SourceTheorems.

(** ** The scanner's buffer and counters
       ([scripts/importAppleHealthStream.ts]) *)

Module ScannerFacts.
Import JsString Stream PatternFacts ExecFacts HandlerFacts.
Local Open Scope nat_scope.

Ltac simple_test c :=
  lazymatch c with
  | context [if _ then _ else _] => fail
  | context [match _ with Some _ => _ | None => _ end] => fail
  | _ => idtac
  end.

Ltac case_tests :=
  repeat match goal with
         | |- context [if ?c then _ else _] => simple_test c; destruct c
         | |- context [match ?c with Some _ => _ | None => _ end] =>
             simple_test c; destruct c
         end.

(** *** The buffer *)

Lemma handled_before_cut buffer m :
  In m (execAll recordRegex buffer) \/ In m (execAll workoutRegex buffer) ->
  matchEnd m <= safePoint buffer.
Proof.
  unfold safePoint, lastMatchEnd, execAll, recordRegex, workoutRegex.
  pose proof (execFrom_sorted _ (matchElement_bounds "Record") buffer 0 0)
    as [_ Hsorted].
  set (Rs := execFrom (matchElement "Record") 0 0 buffer) in *.
  set (Ws := execFrom (matchElement "Workout") 0 0 buffer).
  destruct (lastEnd_ge Rs 0) as [_ HR]; [|exact Hsorted|].
  { apply Forall_forall. intros; lia. }
  set (A := fold_left (fun _ m => matchEnd m) Rs 0) in *.
  destruct (maxEnd_ge Ws A) as [HA HW].
  intros [H|H].
  - specialize (HR m H). lia.
  - specialize (HW m H). lia.
Qed.

Section Chunks.
Variable parseFloat : string -> num.
Variable toISOString : string -> option string.
Variable heartRateStatistics : text -> num * num.
Variable cleanWorkoutType : option string -> string.

#[local] Abbreviation processChunk :=
  (processChunk parseFloat toISOString heartRateStatistics cleanWorkoutType).

Lemma processChunk_buffer st chunk :
  snd (processChunk st chunk)
  = skipn (safePoint (snd st ++ chunk)) (snd st ++ chunk).
Proof. destruct st as [acc buffer]. reflexivity. Qed.

Lemma buffer_bound st chunk :
  length (snd (processChunk st chunk)) <= SAFETY_MARGIN.
Proof.
  rewrite processChunk_buffer, length_skipn. unfold safePoint. lia.
Qed.

Lemma buffer_suffix chunks : forall st seen c,
  c <= length seen -> snd st = skipn c seen ->
  exists c', c' <= length (seen ++ concat chunks)
             /\ snd (fold_left processChunk chunks st)
                = skipn c' (seen ++ concat chunks).
Proof.
  induction chunks as [|chunk chunks IH]; intros st seen c Hc Hs.
  - simpl. rewrite app_nil_r. eauto.
  - cbn [fold_left concat].
    set (buffer := (snd st ++ chunk)%list).
    assert (Hb : buffer = skipn c (seen ++ chunk)).
    { unfold buffer. rewrite Hs. symmetry. now apply skipn_app_le. }
    set (k := Nat.min (safePoint buffer) (length buffer)).
    destruct (IH (processChunk st chunk) (seen ++ chunk)%list (c + k))
      as (c' & Hc' & E).
    + unfold k. rewrite Hb, length_skipn, !length_app. lia.
    + rewrite processChunk_buffer.
      change (skipn (safePoint buffer) buffer = skipn (c + k) (seen ++ chunk)).
      assert (Ek : skipn (safePoint buffer) buffer = skipn k buffer).
      { unfold k. destruct (Nat.le_ge_cases (safePoint buffer) (length buffer)).
        - now rewrite Nat.min_l.
        - rewrite Nat.min_r by assumption.
          rewrite skipn_all, skipn_all2; [reflexivity | assumption]. }
      rewrite Ek, Hb, skipn_skipn. f_equal. lia.
    + exists c'. rewrite <- app_assoc in *. auto.
Qed.

End Chunks.

(** *** The counters *)

(** What every state of a run satisfies. *)
#[local] Abbreviation Sound a :=
  (length (workoutSessions a) <= workouts (recordCounts a)
   /\ length (dailyMetrics a) <= weight (recordCounts a)
   /\ NoDup (sources a)
   /\ ~ In EmptyString (sources a)
   /\ Forall (fun w => (300 <= w_durationSeconds w)%Q) (workoutSessions a)).

Lemma Set_add_sound x s :
  x <> EmptyString -> NoDup s -> ~ In EmptyString s ->
  NoDup (Set_add x s) /\ ~ In EmptyString (Set_add x s).
Proof.
  intros Hx Hnd Hne. unfold Set_add.
  destruct (existsb (String.eqb x) s) eqn:E; [auto|].
  split.
  - apply NoDup_app; [assumption | repeat constructor; simpl; tauto |].
    intros y Hy [<-|[]].
    apply Bool.not_true_iff_false in E. apply E.
    apply existsb_exists. exists x. split; [assumption | apply String.eqb_refl].
  - rewrite in_app_iff. simpl. intros [H|[H|[]]]; [contradiction | congruence].
Qed.

Lemma strOr_nonempty a d : d <> EmptyString -> strOr a d <> EmptyString.
Proof.
  intros Hd. unfold strOr. destruct a as [s|]; [|exact Hd].
  destruct (String.eqb s EmptyString) eqn:E; [exact Hd|].
  now apply String.eqb_neq in E.
Qed.

Section Records.
Variable parseFloat : string -> num.

#[local] Abbreviation processRecord := (processRecord parseFloat).
#[local] Abbreviation handleRecords := (handleRecords parseFloat).

Lemma processRecord_sound attrs a : Sound a -> Sound (processRecord attrs a).
Proof.
  intros (H1 & H2 & H3 & H4 & H5).
  destruct (Set_add_sound (strOr (Map_get "sourceName" attrs) "Unknown")
              (sources a)) as [S1 S2]; auto.
  { apply strOr_nonempty. discriminate. }
  destruct a as [[] ? ? ? ? ? ?]. unfold Stream.processRecord.
  cbn in *.
  case_tests; cbn; rewrite ?length_app; cbn; repeat split; auto; lia.
Qed.

Lemma handleRecords_sound ms : forall st a',
  (forall a, st = Some a -> Sound a) ->
  handleRecords ms st = Some a' -> Sound a'.
Proof.
  unfold Stream.handleRecords.
  induction ms as [|m ms IH]; intros st a' Hst; cbn [fold_left].
  - intros ->. now apply Hst.
  - apply IH. intros a Ha. destruct st as [a0|]; [|discriminate].
    inversion Ha; subst. apply processRecord_sound. now apply Hst.
Qed.

End Records.

Section Workouts.
Variable parseFloat : string -> num.
Variable toISOString : string -> option string.
Variable heartRateStatistics : text -> num * num.
Variable cleanWorkoutType : option string -> string.

#[local] Abbreviation processWorkout :=
  (processWorkout parseFloat toISOString heartRateStatistics cleanWorkoutType).
#[local] Abbreviation handleWorkouts :=
  (handleWorkouts parseFloat toISOString heartRateStatistics cleanWorkoutType).
#[local] Abbreviation processChunk' :=
  (Stream.processChunk parseFloat toISOString heartRateStatistics cleanWorkoutType).

Lemma processWorkout_sound g w a a' :
  Sound a -> processWorkout g w a = Some a' -> Sound a'.
Proof.
  intros (H1 & H2 & H3 & H4 & H5).
  destruct (Set_add_sound
              (strOr (Map_get "sourceName" (parseAttributes g)) "Unknown")
              (sources a)) as [S1 S2]; auto.
  { apply strOr_nonempty. discriminate. }
  destruct a as [[] ? ? ? ? ? ?]. unfold Stream.processWorkout.
  cbn in *.
  destruct (heartRateStatistics w) as [avgHR maxHR].
  destruct (negb (strTruthy (Map_get "startDate" (parseAttributes g)))).
  { intros H; inversion H; subst; cbn. repeat split; auto; lia. }
  destruct (Qltb _ 300) eqn:Ed.
  { intros H; inversion H; subst; cbn. repeat split; auto; lia. }
  apply Qltb_ge in Ed.
  destruct (toISOString _) as [startedAt|]; [|discriminate].
  destruct (if strTruthy _ then _ else _) as [endedAt|]; [|discriminate].
  intros H; inversion H; subst; cbn. rewrite length_app. cbn.
  repeat split; auto; try lia.
  apply Forall_app. split; [assumption|]. repeat constructor. exact Ed.
Qed.

Lemma handleWorkouts_sound ms : forall st a',
  (forall a, st = Some a -> Sound a) ->
  handleWorkouts ms st = Some a' -> Sound a'.
Proof.
  unfold Stream.handleWorkouts.
  induction ms as [|m ms IH]; intros st a' Hst; cbn [fold_left].
  - intros ->. now apply Hst.
  - apply IH. intros a Ha. destruct st as [a0|]; [|discriminate].
    eapply processWorkout_sound; [|exact Ha]. now apply Hst.
Qed.

Lemma processChunk_sound st chunk :
  (forall a, fst st = Some a -> Sound a) ->
  forall a, fst (processChunk' st chunk) = Some a -> Sound a.
Proof.
  destruct st as [acc buffer]. cbn [fst]. intros Hst a Ha.
  unfold Stream.processChunk in Ha. cbn [fst] in Ha.
  eapply handleWorkouts_sound; [|exact Ha].
  intros b Hb. exact (handleRecords_sound parseFloat _ _ b Hst Hb).
Qed.

Lemma chunks_sound chunks : forall st,
  (forall a, fst st = Some a -> Sound a) ->
  forall a, fst (fold_left processChunk' chunks st) = Some a -> Sound a.
Proof.
  induction chunks as [|chunk chunks IH]; intros st Hst; cbn [fold_left].
  - exact Hst.
  - apply IH. now apply processChunk_sound.
Qed.

End Workouts.

Lemma emptyAcc_sound : Sound emptyAcc.
Proof. cbn. repeat split; auto; constructor. Qed.


End ScannerFacts.

(** ** Attributes read back ([parseAttributes]) *)

Module AttributeFacts.
Import JsString Stream PatternFacts ExecFacts.
Local Open Scope nat_scope.

Lemma execFrom_skip {G} (matchAt : text -> option (G * nat)) a rest pos :
  execFrom matchAt (length a) pos (a ++ rest)
  = execFrom matchAt 0 (pos + length a) rest.
Proof.
  revert pos. induction a as [|c a IH]; intros pos; simpl.
  - now rewrite Nat.add_0_r.
  - destruct rest as [|d rest'] eqn:Er.
    + rewrite app_nil_r. rewrite <- (app_nil_r a) at 2. rewrite IH.
      simpl. reflexivity.
    + rewrite IH. f_equal. lia.
Qed.

Lemma wordRun_app n rest :
  forallb isWord n = true ->
  match rest with c :: _ => isWord c = false | [] => True end ->
  wordRun (n ++ rest) = length n.
Proof.
  intros Hn Hr. induction n as [|c n IH]; simpl.
  - destruct rest as [|d rest]; [reflexivity|]. simpl. now rewrite Hr.
  - simpl in Hn. apply andb_true_iff in Hn as [Hc Hn]. rewrite Hc.
    f_equal. now apply IH.
Qed.

Lemma indexOfChar_app_first c v rest :
  ~ In c v -> indexOfChar c (v ++ c :: rest) = Some (length v).
Proof.
  intros Hn. induction v as [|d v IH]; simpl.
  - now rewrite Ascii.eqb_refl.
  - destruct (Ascii.eqb c d) eqn:E.
    + apply Ascii.eqb_eq in E. exfalso. apply Hn. now left.
    + rewrite IH; [reflexivity|]. intros H. apply Hn. now right.
Qed.

(** The text of one attribute: the name, an equals sign and the value
    between double quotes. *)
#[local] Abbreviation render nv :=
  (lit (fst nv) ++ "="%char :: dquote :: lit (snd nv) ++ [dquote])%list.

Lemma matchAttribute_rendered nv rest :
  fst nv <> EmptyString -> forallb isWord (lit (fst nv)) = true ->
  ~ In dquote (lit (snd nv)) ->
  matchAttribute (render nv ++ rest) = Some (nv, length (render nv)).
Proof.
  intros Hne Hw Hq. destruct nv as [n v]. cbn [fst snd] in *.
  unfold matchAttribute.
  rewrite <- app_assoc. cbn [app].
  rewrite (wordRun_app (lit n)) by (auto; reflexivity).
  assert (Hl : length (lit n) <> 0).
  { destruct n; [congruence | simpl; lia]. }
  apply Nat.eqb_neq in Hl. rewrite Hl.
  rewrite skipn_app_le, skipn_all by lia. cbn [app stripPrefix].
  change (Ascii.eqb "=" "=") with true. cbv iota.
  rewrite Ascii.eqb_refl.
  rewrite <- app_assoc. cbn [app].
  rewrite (indexOfChar_app_first dquote (lit v)) by assumption.
  rewrite firstn_app_le, firstn_all by lia.
  rewrite firstn_app_le, firstn_all by lia.
  unfold lit. rewrite !string_of_list_ascii_of_string.
  f_equal. f_equal. rewrite !length_app. simpl. rewrite length_app. simpl. lia.
Qed.

Lemma execFrom_match {G} (matchAt : text -> option (G * nat)) a rest pos g :
  a <> [] -> matchAt (a ++ rest) = Some (g, length a) ->
  map group (execFrom matchAt 0 pos (a ++ rest))
  = g :: map group (execFrom matchAt 0 (pos + length a) rest).
Proof.
  intros Hne E. destruct a as [|c a]; [congruence|].
  cbn [app execFrom] in E |- *. rewrite E. cbn [map group]. f_equal.
  cbn [length]. rewrite Nat.sub_succ, Nat.sub_0_r, execFrom_skip.
  f_equal. f_equal. lia.
Qed.

Lemma execFrom_rendered nv rest pos :
  fst nv <> EmptyString -> forallb isWord (lit (fst nv)) = true ->
  ~ In dquote (lit (snd nv)) ->
  map group (execFrom matchAttribute 0 pos (render nv ++ rest))
  = nv :: map group (execFrom matchAttribute 0 (pos + length (render nv)) rest).
Proof.
  intros Hne Hw Hq. apply execFrom_match.
  - destruct nv as [[|a n] v]; [now elim Hne | discriminate].
  - now apply matchAttribute_rendered.
Qed.

Lemma execFrom_space rest pos :
  execFrom matchAttribute 0 pos (" "%char :: rest)
  = execFrom matchAttribute 0 (S pos) rest.
Proof. reflexivity. Qed.

Lemma Map_set_new {V} k (v : V) m :
  ~ In k (map fst m) -> Map_set k v m = (m ++ [(k, v)])%list.
Proof.
  induction m as [|[k0 v0] m IH]; simpl; [reflexivity|].
  intros Hn. destruct (String.eqb k k0) eqn:E.
  - apply String.eqb_eq in E. subst k0. exfalso. apply Hn. now left.
  - f_equal. apply IH. intros H. apply Hn. now right.
Qed.

Lemma fold_left_through {A B C} (f : A -> B -> A) (g : C -> B) l a :
  fold_left f (map g l) a = fold_left (fun a x => f a (g x)) l a.
Proof. revert a. induction l as [|x l IH]; intros a; simpl; auto. Qed.

Lemma collect_distinct (gs acc : list (string * string)) :
  NoDup (map fst acc ++ map fst gs) ->
  fold_left (fun attrs g => Map_set (fst g) (snd g) attrs) gs acc
  = (acc ++ gs)%list.
Proof.
  revert acc. induction gs as [|[k v] gs IH]; intros acc Hnd; simpl.
  - now rewrite app_nil_r.
  - assert (Hk : ~ In k (map fst acc)).
    { simpl in Hnd. apply NoDup_remove_2 in Hnd. intros H. apply Hnd.
      apply in_or_app. now left. }
    rewrite (Map_set_new k v acc Hk), IH.
    + now rewrite <- app_assoc.
    + rewrite map_app, <- app_assoc. exact Hnd.
Qed.

Lemma parseAttributes_rendered
  (first : string * string) (others : list (string * string)) :
  Forall (fun nv => fst nv <> EmptyString
                    /\ forallb isWord (lit (fst nv)) = true
                    /\ ~ In dquote (lit (snd nv))) (first :: others) ->
  NoDup (map fst (first :: others)) ->
  parseAttributes
    (render first ++ flat_map (fun nv => " "%char :: render nv) others)
  = first :: others.
Proof.
  intros Hall Hnd. unfold parseAttributes, execAll.
  rewrite <- (fold_left_through (fun attrs g => Map_set (fst g) (snd g) attrs) group).
  assert (G : forall l pos,
            Forall (fun nv => fst nv <> EmptyString
                              /\ forallb isWord (lit (fst nv)) = true
                              /\ ~ In dquote (lit (snd nv))) l ->
            map group (execFrom matchAttribute 0 pos
                         (flat_map (fun nv => " "%char :: (lit (fst nv) ++ "="%char
                                      :: dquote :: lit (snd nv) ++ [dquote])%list) l))
            = l).
  { induction l as [|nv l IH]; intros pos Hl; [reflexivity|].
    inversion Hl as [|? ? (H1 & H2 & H3) Hl']; subst.
    cbn [flat_map]. rewrite <- app_comm_cons, execFrom_space.
    rewrite (execFrom_rendered nv _ _ H1 H2 H3). f_equal. now apply IH. }
  inversion Hall as [|? ? (H1 & H2 & H3) Hall']; subst.
  rewrite (execFrom_rendered first _ _ H1 H2 H3), G by assumption.
  now apply (collect_distinct (first :: others) []).
Qed.

End AttributeFacts.

Module ScannerTheorems.
Import JsString Stream PatternFacts ExecFacts HandlerFacts ScannerFacts
       AttributeFacts.
Local Open Scope nat_scope.

(** X19. Between two chunks the scanner keeps a suffix of the text read
    so far that is never longer than the margin of 50000 characters, and
    every element handled in a round ends at or before the point where
    the buffer is cut, so it is not seen again. *)
Theorem scanner_buffer_is_a_bounded_suffix
  (parseFloat : string -> num) (toISOString : string -> option string)
  (heartRateStatistics : text -> num * num)
  (cleanWorkoutType : option string -> string)
  (chunks : list text) (st : option Acc) :
  let buffer :=
    snd (fold_left (processChunk parseFloat toISOString heartRateStatistics
                      cleanWorkoutType) chunks (st, [])) in
  length buffer <= SAFETY_MARGIN
  /\ (exists c, c <= length (concat chunks) /\ buffer = skipn c (concat chunks))
  /\ (forall b m,
        In m (execAll recordRegex b) \/ In m (execAll workoutRegex b) ->
        matchEnd m <= safePoint b).
Proof.
  cbv zeta. split; [|split].
  - destruct chunks as [|chunk chunks] using rev_ind; [simpl; lia|].
    rewrite fold_left_app. cbn [fold_left]. apply buffer_bound.
  - destruct (buffer_suffix parseFloat toISOString heartRateStatistics
                cleanWorkoutType chunks (st, []) [] 0) as (c & Hc & E);
      [simpl; lia | reflexivity |].
    exists c. auto.
  - intros b m. apply handled_before_cut.
Qed.

(** X20. Whatever the chunks, a run of the scanner that ends normally
    writes no more workouts than it counted [Workout] elements and no
    more daily metrics than it counted body-mass records, names every
    source once and never under the empty name, and stores no workout
    shorter than five minutes. *)
Theorem scanner_output_is_consistent
  (parseFloat : string -> num) (toISOString : string -> option string)
  (heartRateStatistics : text -> num * num)
  (cleanWorkoutType : option string -> string)
  (buildSleepSessions :
     Map (list SleepSegment) -> Map (list num) -> Map (list num)
     -> option (list SleepSession))
  (chunks : list text) (o : Output) :
  main parseFloat toISOString heartRateStatistics cleanWorkoutType
       buildSleepSessions chunks = Some o ->
  length (out_workoutSessions o) <= workouts (out_recordCounts o)
  /\ length (out_dailyMetrics o) <= weight (out_recordCounts o)
  /\ NoDup (out_sources o)
  /\ ~ In EmptyString (out_sources o)
  /\ Forall (fun w => (300 <= w_durationSeconds w)%Q) (out_workoutSessions o).
Proof.
  unfold main.
  destruct (fold_left (processChunk parseFloat toISOString heartRateStatistics
                         cleanWorkoutType) chunks (Some emptyAcc, []))
    as [acc buffer] eqn:Ef.
  assert (Hacc : forall a, acc = Some a ->
            length (workoutSessions a) <= workouts (recordCounts a)
            /\ length (dailyMetrics a) <= weight (recordCounts a)
            /\ NoDup (sources a)
            /\ ~ In EmptyString (sources a)
            /\ Forall (fun w => (300 <= w_durationSeconds w)%Q) (workoutSessions a)).
  { intros a Ha.
    apply (chunks_sound parseFloat toISOString heartRateStatistics
             cleanWorkoutType chunks (Some emptyAcc, [])).
    - intros b Hb. inversion Hb. apply emptyAcc_sound.
    - rewrite Ef. exact Ha. }
  intros Ho. unfold finish in Ho.
  destruct (handleWorkouts parseFloat toISOString heartRateStatistics
              cleanWorkoutType (execAll workoutRegex buffer)
              (handleRecords parseFloat (execAll recordRegex buffer) acc))
    as [a|] eqn:Ea; [|discriminate].
  destruct (buildSleepSessions _ _ _) as [ss|]; [|discriminate].
  inversion Ho; subst o; cbn [out_workoutSessions out_recordCounts
                                out_dailyMetrics out_sources].
  refine (handleWorkouts_sound parseFloat toISOString heartRateStatistics
            cleanWorkoutType _ _ a _ Ea).
  intros b Hb.
  exact (handleRecords_sound parseFloat _ _ b Hacc Hb).
Qed.

Lemma scanner_output_is_consistent_witness :
  exists o,
    Demo.run Demo.shortChunks = Some o
    /\ length (out_workoutSessions o) <= workouts (out_recordCounts o)
    /\ length (out_dailyMetrics o) <= weight (out_recordCounts o)
    /\ NoDup (out_sources o)
    /\ ~ In EmptyString (out_sources o)
    /\ Forall (fun w => (300 <= w_durationSeconds w)%Q) (out_workoutSessions o).
Proof.
  eexists. split; [vm_compute; reflexivity|].
  apply (scanner_output_is_consistent Demo.parseFloat Demo.toISOString
           Demo.heartRateStatistics Demo.cleanWorkoutType
           Demo.buildSleepSessions Demo.shortChunks).
  vm_compute. reflexivity.
Defined.

(** X21. [parseAttributes] reads back a list of attributes written as
    [name="value"] and separated by single spaces, when the names are
    non-empty words, pairwise distinct, and the values hold no double
    quote: every name carries its value.  The name [__proto__] is left
    aside: assigning a string to that name of a JavaScript object stores
    nothing. *)
Theorem parseAttributes_reads_back
  (first : string * string) (others : list (string * string)) :
  let render nv :=
    (lit (fst nv) ++ "="%char :: dquote :: lit (snd nv) ++ [dquote])%list in
  let attrs :=
    parseAttributes
      (render first ++ flat_map (fun nv => " "%char :: render nv) others) in
  Forall (fun nv => fst nv <> EmptyString
                    /\ forallb isWord (lit (fst nv)) = true
                    /\ ~ In dquote (lit (snd nv))) (first :: others) ->
  NoDup (map fst (first :: others)) ->
  forall name value,
    In (name, value) (first :: others) -> name <> "__proto__"%string ->
    Map_get name attrs = Some value.
Proof.
  cbv beta zeta. intros Hall Hnd name value Hin _.
  rewrite (parseAttributes_rendered first others Hall Hnd).
  now apply Map_In_get.
Qed.

Lemma parseAttributes_reads_back_witness :
  Map_get "value"
    (parseAttributes
       (lit ("type=" ++ Demo.quoted "HKQuantityTypeIdentifierHeartRate"
               ++ " value=" ++ Demo.quoted "72")))
  = Some "72"%string.
Proof.
  apply (parseAttributes_reads_back
           ("type", "HKQuantityTypeIdentifierHeartRate")%string
           [("value", "72")%string]).
  - repeat constructor; try discriminate; try reflexivity;
      cbn; intuition discriminate.
  - repeat constructor; cbn; intuition discriminate.
  - simpl. tauto.
  - discriminate.
Defined.

End ScannerTheorems.

(** ** Nights and their time series ([importers/eightSleep.ts]) *)

Module NightSeriesFacts.
Import DataQuality StatisticsFacts SampleFacts BaselineFacts EightSleep
       EightSleepFacts EightSleepSeries.

(** *** Minimum, mean and maximum of a series *)

Lemma Qmin_le a b : Qmin a b <= a /\ Qmin a b <= b.
Proof.
  unfold Qmin. destruct (Qle_bool a b) eqn:E.
  - apply Qle_bool_iff in E. split; [apply Qle_refl | exact E].
  - split; [|apply Qle_refl]. apply Qle_bool_iff. now apply Qle_bool_false.
Qed.

Lemma Qmax_ge a b : a <= Qmax a b /\ b <= Qmax a b.
Proof.
  unfold Qmax. destruct (Qle_bool a b) eqn:E.
  - apply Qle_bool_iff in E. split; [exact E | apply Qle_refl].
  - split; [apply Qle_refl|]. apply Qle_bool_iff. now apply Qle_bool_false.
Qed.

Lemma fold_Qmin_le vs v :
  fold_left Qmin vs v <= v /\ Forall (fun x => fold_left Qmin vs v <= x) vs.
Proof.
  revert v. induction vs as [|x vs IH]; intros v; simpl.
  - split; [apply Qle_refl | constructor].
  - destruct (IH (Qmin v x)) as [H1 H2]. destruct (Qmin_le v x) as [M1 M2].
    split; [eapply Qle_trans; eauto|].
    constructor; [eapply Qle_trans; eauto | exact H2].
Qed.

Lemma fold_Qmax_ge vs v :
  v <= fold_left Qmax vs v /\ Forall (fun x => x <= fold_left Qmax vs v) vs.
Proof.
  revert v. induction vs as [|x vs IH]; intros v; simpl.
  - split; [apply Qle_refl | constructor].
  - destruct (IH (Qmax v x)) as [H1 H2]. destruct (Qmax_ge v x) as [M1 M2].
    split; [eapply Qle_trans; eauto|].
    constructor; [eapply Qle_trans; eauto | exact H2].
Qed.

Lemma min_max_bound vs :
  Math_min vs <= Math_max vs
  /\ Forall (fun x => Math_min vs <= x /\ x <= Math_max vs) vs.
Proof.
  destruct vs as [|v vs]; [split; [apply Qle_refl | constructor]|].
  destruct (fold_Qmin_le vs v) as [m1 m2].
  destruct (fold_Qmax_ge vs v) as [M1 M2].
  split; [eapply Qle_trans; eassumption|].
  constructor; [split; assumption|].
  rewrite Forall_forall in *. intros x Hx. split; [apply m2 | apply M2]; exact Hx.
Qed.

(** *** The sampling interval *)

Lemma estimate_cases data :
  let intervals :=
    map (fun i => fst (nth i data (0, None)) - fst (nth (i - 1) data (0, None)))
        (seq 1 (Nat.min 10 (length data) - 1)) in
  let picked := nth (length (sort intervals) / 2) (sort intervals) 0 in
  ((length data < 2)%nat /\ estimateInterval data = 300)
  \/ ((2 <= length data)%nat /\ picked == 0 /\ estimateInterval data = 300)
  \/ ((2 <= length data)%nat /\ ~ picked == 0 /\ estimateInterval data = picked).
Proof.
  cbv zeta. unfold estimateInterval.
  destruct (Nat.ltb_spec (length data) 2) as [H|H]; [left; auto|].
  right. destruct (Qeq_bool _ 0) eqn:E.
  - left. apply Qeq_bool_iff in E. auto.
  - right. repeat split; auto. intros Hq. apply Qeq_bool_iff in Hq. congruence.
Qed.

Lemma estimate_nonzero data : Qeq_bool (estimateInterval data) 0 = false.
Proof.
  destruct (estimate_cases data) as [(_ & ->)|[(_ & _ & ->)|(_ & Hn & ->)]];
    try reflexivity.
  destruct (Qeq_bool _ 0) eqn:E; [|reflexivity].
  apply Qeq_bool_iff in E. contradiction.
Qed.

Lemma estimate_first_ten data :
  estimateInterval data = estimateInterval (firstn 10 data).
Proof.
  unfold estimateInterval. rewrite length_firstn.
  destruct (Nat.ltb_spec (length data) 2) as [H|H].
  - rewrite Nat.min_r by lia.
    assert (E : (length data <? 2)%nat = true) by (apply Nat.ltb_lt; lia).
    now rewrite E.
  - assert (E : (Nat.min 10 (length data) <? 2)%nat = false)
      by (apply Nat.ltb_ge; lia).
    rewrite E.
    replace (Nat.min 10 (Nat.min 10 (length data))) with (Nat.min 10 (length data))
      by lia.
    assert (M : map (fun i => fst (nth i data (0, None))
                              - fst (nth (i - 1) data (0, None)))
                    (seq 1 (Nat.min 10 (length data) - 1))
                = map (fun i => fst (nth i (firstn 10 data) (0, None))
                                - fst (nth (i - 1) (firstn 10 data) (0, None)))
                      (seq 1 (Nat.min 10 (length data) - 1))).
    { apply map_ext_in. intros i Hi. apply in_seq in Hi.
      rewrite !nth_firstn.
      assert (A : (i <? 10)%nat = true) by (apply Nat.ltb_lt; lia).
      assert (B : (i - 1 <? 10)%nat = true) by (apply Nat.ltb_lt; lia).
      now rewrite A, B. }
    now rewrite M.
Qed.

Lemma sampled_length start step vs : length (sampled start step vs) = length vs.
Proof.
  unfold sampled. rewrite length_map, length_combine, length_seq. lia.
Qed.

Lemma sampled_nth start step vs i :
  (i < length vs)%nat ->
  fst (nth i (sampled start step vs) (0, None))
  = start + inject_Z (Z.of_nat i) * step.
Proof.
  intros Hi. unfold sampled.
  set (f := fun iv : nat * option Q =>
              (start + inject_Z (Z.of_nat (fst iv)) * step, snd iv)).
  rewrite (nth_indep _ (0, None) (f (0%nat, None)))
    by (rewrite length_map, length_combine, length_seq; lia).
  rewrite map_nth, combine_nth by (now rewrite length_seq).
  rewrite seq_nth by assumption. reflexivity.
Qed.

Lemma estimate_regular start step vs :
  (2 <= length vs)%nat -> ~ step == 0 ->
  estimateInterval (sampled start step vs) == step.
Proof.
  intros Hn Hs.
  destruct (estimate_cases (sampled start step vs)) as [(H & _)|H].
  { rewrite sampled_length in H. lia. }
  cbv zeta in H. rewrite sampled_length in H.
  set (intervals := map _ (seq 1 (Nat.min 10 (length vs) - 1))) in H.
  assert (Hall : Forall (fun x => x == step) intervals).
  { apply Forall_forall. intros x Hx. apply in_map_iff in Hx as (i & <- & Hi).
    apply in_seq in Hi.
    rewrite !sampled_nth by lia.
    replace (Z.of_nat i) with (Z.of_nat (i - 1) + 1)%Z by lia.
    rewrite inject_Z_plus. change (inject_Z 1) with 1. ring. }
  assert (Hlen : (0 < length (sort intervals))%nat).
  { rewrite sort_length. unfold intervals. rewrite length_map, length_seq. lia. }
  assert (Hp : nth (length (sort intervals) / 2) (sort intervals) 0 == step).
  { apply sort_Forall in Hall. rewrite Forall_forall in Hall.
    apply Hall, nth_In. now apply half_lt. }
  destruct H as [(_ & H0 & _)|(_ & _ & ->)]; [|exact Hp].
  exfalso. apply Hs. now rewrite <- Hp.
Qed.

(** *** The stored series *)

Lemma gaps_and_values pts :
  (length (filter isNull (map snd pts))
   + length (extractTimeseriesValues (Some pts)) = length pts)%nat.
Proof.
  unfold extractTimeseriesValues.
  induction pts as [|[t [v|]] pts IH]; simpl; [reflexivity| |]; lia.
Qed.

End NightSeriesFacts.

Module NightSeriesTheorems.
Import DataQuality StatisticsFacts SampleFacts BaselineFacts EightSleep
       EightSleepFacts EightSleepSeries NightSeriesFacts.

(** X22. A night that [transformRawSession] accepts is coherent: its
    duration is the sum of the light, deep and REM totals and at least
    three hours, its time in bed is that duration plus the awake total,
    which is also its wake after sleep onset; when the awake total is not
    negative its efficiency lies in (0, 100]; and its minimum, average
    and maximum heart rate are defined together, the minimum and the
    maximum bounding every heart-rate reading of the night. *)
Theorem accepted_night_is_coherent
  (tz : Z) (raw : EightSleepSession) (src usr : string) (i : nat)
  (fid : string) (s : SleepSession) :
  transformRawSession tz raw src usr i fid = Some s ->
  (exists d a de r l,
     durationSeconds s = Some d /\ awakeSeconds s = Some a
     /\ deepSeconds s = Some de /\ remSeconds s = Some r
     /\ lightSeconds s = Some l
     /\ d = l + de + r /\ 3 * 60 * 60 <= d
     /\ timeInBedSeconds s = Some (d + a)
     /\ wakeAfterSleepOnset s = Some a
     /\ (0 <= a -> exists e, efficiency s = Some e /\ 0 < e /\ e <= 100))
  /\ (forall lo hi,
        minHeartRate s = Some lo -> maxHeartRate s = Some hi ->
        lo <= hi
        /\ Forall (fun v => lo <= v /\ v <= hi)
             (extractTimeseriesValues
                (match timeseries raw with
                 | Some t => ts_heartRate t
                 | None => None
                 end)))
  /\ (minHeartRate s = None <-> avgHeartRate s = None)
  /\ (maxHeartRate s = None <-> avgHeartRate s = None)
  /\ dataQuality s = defaultQualityFlags.
Proof.
  unfold transformRawSession.
  destruct (stages raw) as [[|st rest]|] eqn:Es; try discriminate.
  set (t := fold_left addStage (st :: rest) _).
  destruct (Qltb (light t + deep t + rem t) (3 * 60 * 60)) eqn:Eshort;
    [discriminate|].
  apply Qltb_ge in Eshort.
  intros H. inversion H; subst s; clear H.
  cbn [durationSeconds awakeSeconds deepSeconds remSeconds lightSeconds
       timeInBedSeconds wakeAfterSleepOnset efficiency minHeartRate
       avgHeartRate maxHeartRate dataQuality].
  split.
  { exists (light t + deep t + rem t), (awake t), (deep t), (rem t), (light t).
    repeat split; auto.
    intros Ha.
    assert (Hd : 0 < light t + deep t + rem t) by lra.
    assert (Hb : 0 < light t + deep t + rem t + awake t) by lra.
    apply Qltb_lt in Hb as Hb'. rewrite Hb'.
    eexists. split; [reflexivity|].
    set (d := light t + deep t + rem t) in *. set (b := d + awake t) in *.
    assert (Hq1 : 0 < d / b) by (apply Qlt_shift_div_l; [exact Hb | lra]).
    assert (Hq2 : d / b <= 1) by (apply Qle_shift_div_r; [exact Hb | unfold b; lra]).
    split; lra. }
  set (hr := extractTimeseriesValues _).
  unfold ifNonEmpty. destruct hr as [|v vs] eqn:Ehr.
  - repeat split; try discriminate; reflexivity.
  - split.
    + intros lo hi E1 E2.
      injection E1 as <-. injection E2 as <-.
      apply (min_max_bound (v :: vs)).
    + repeat split; discriminate.
Qed.

Lemma accepted_night_is_coherent_witness :
  exists s, transformRawSession 0 nightWithGap "src" "user" 0 "id-1" = Some s
            /\ dataQuality s = defaultQualityFlags.
Proof.
  eexists. split; [vm_compute; reflexivity|].
  refine (proj2 (proj2 (proj2 (proj2
    (accepted_night_is_coherent 0 nightWithGap "src" "user" 0 "id-1" _ _))))).
  vm_compute. reflexivity.
Defined.

(** X23. [estimateInterval] never returns 0: with fewer than two points,
    or when the median difference is 0, it returns 300.  It reads the
    first ten points only, and for time stamps a fixed non-zero step
    apart it returns that step. *)
Theorem estimateInterval_is_the_sampling_step
  (data : list (Q * option Q)) (start step : Q) (vs : list (option Q)) :
  Qeq_bool (estimateInterval data) 0 = false
  /\ ((length data < 2)%nat -> estimateInterval data = 300)
  /\ estimateInterval data = estimateInterval (firstn 10 data)
  /\ ((2 <= length vs)%nat -> ~ step == 0 ->
      estimateInterval (sampled start step vs) == step).
Proof.
  split; [apply estimate_nonzero|].
  split.
  { intros H. unfold estimateInterval.
    apply Nat.ltb_lt in H. now rewrite H. }
  split; [apply estimate_first_ten | apply estimate_regular].
Qed.

Lemma estimateInterval_is_the_sampling_step_witness :
  estimateInterval (sampled 1709334000 300 [Some 52; None; Some 54]) == 300.
Proof.
  apply (proj2 (proj2 (proj2
    (estimateInterval_is_the_sampling_step [] 1709334000 300
       [Some 52; None; Some 54])))).
  - simpl; lia.
  - discriminate.
Defined.

(** X24. [extractTimeSeries] stores at most one series for each of heart
    rate, HRV, respiratory rate and bed temperature (never the room
    temperature), under consecutive fresh ids.  Every stored series
    belongs to the session, starts at the start of the night as
    [transformRawSession] dates it, has a non-zero interval, and holds
    every point of the non-empty raw series: its gap count and the number
    of values [transformRawSession] averages add up to the number of
    points. *)
Theorem series_account_for_every_point
  (genId : nat -> string) (raw : EightSleepSession)
  (night src usr : string) (nextId : nat) :
  let r := extractTimeSeries genId raw night src usr nextId in
  snd r = (nextId + length (fst r))%nat
  /\ map series_id (fst r) = map genId (seq nextId (length (fst r)))
  /\ NoDup (map metricType (fst r))
  /\ Forall (fun x =>
               series_sessionId x = night
               /\ series_sourceId x = src
               /\ series_userId x = usr
               /\ series_startedAt x
                  = JsDate.toISOString (JsDate.timeClip (ts raw * 1000))
               /\ Qeq_bool (intervalSeconds x) 0 = false
               /\ exists t pts,
                    timeseries raw = Some t
                    /\ seriesData t (metricType x) = Some pts
                    /\ values x = map snd pts /\ values x <> []
                    /\ intervalSeconds x = estimateInterval pts
                    /\ (gapCount x + length (extractTimeseriesValues (Some pts))
                        = length pts)%nat)
            (fst r)
  /\ (forall tz i fid s,
        transformRawSession tz raw src usr i fid = Some s ->
        Forall (fun x => series_startedAt x = startedAt s
                         /\ series_userId x = userId s) (fst r)).
Proof.
  cbv zeta.
  assert (Start : forall tz i fid s,
            transformRawSession tz raw src usr i fid = Some s ->
            startedAt s = JsDate.toISOString (JsDate.timeClip (ts raw * 1000))
            /\ userId s = usr).
  { intros tz i fid s. unfold transformRawSession.
    destruct (stages raw) as [[|st rest]|]; try discriminate.
    destruct (Qltb _ _); [discriminate|].
    intros H; inversion H; subst s. split; reflexivity. }
  unfold extractTimeSeries.
  destruct (timeseries raw) as [t|] eqn:Et.
  2:{ cbn. repeat split; try constructor. lia. }
  assert (One : forall metric pts0 pts1,
            seriesData t metric = Some (pts0 :: pts1) ->
            exists t' pts,
              Some t = Some t'
              /\ seriesData t' metric = Some pts
              /\ map snd (pts0 :: pts1) = map snd pts
              /\ map snd (pts0 :: pts1) <> []
              /\ estimateInterval (pts0 :: pts1) = estimateInterval pts
              /\ (length (filter isNull (map snd (pts0 :: pts1)))
                  + length (extractTimeseriesValues (Some pts)) = length pts)%nat).
  { intros metric pts0 pts1 E. exists t, (pts0 :: pts1).
    repeat split; auto; [discriminate | apply gaps_and_values]. }
  unfold pushSeries.
  destruct (ts_heartRate t) as [[|h0 h1]|] eqn:E1;
    destruct (ts_hrv t) as [[|v0 v1]|] eqn:E2;
    destruct (ts_respiratoryRate t) as [[|r0 r1]|] eqn:E3;
    destruct (ts_tempBedC t) as [[|b0 b1]|] eqn:E4;
    cbn [fst snd app length map seq metricType series_id];
    (split; [lia|]);
    (split; [repeat (f_equal; try lia)|]);
    (split; [repeat constructor; cbn; intuition discriminate|]);
    (split;
     [repeat constructor;
        cbn [series_sessionId series_sourceId series_userId series_startedAt
             intervalSeconds values gapCount metricType];
        try apply estimate_nonzero;
        apply One; unfold seriesData; cbn; assumption
     |intros tz i fid s Hs; destruct (Start tz i fid s Hs) as [-> ->];
      repeat constructor]).
Qed.

End NightSeriesTheorems.

(** ** Columns and dates of an Orangetheory export
       ([importers/pipeline.ts]) *)

Module ColumnFacts.
Import JsString Orangetheory.
Local Open Scope string_scope.
Local Open Scope nat_scope.

Lemma aliases_lower :
  Forall (fun entry => Forall (fun a => toLowerCase a = a /\ a <> "") (snd entry))
         COLUMN_ALIASES.
Proof. repeat constructor; discriminate. Qed.

Lemma canonical_distinct : NoDup (map fst COLUMN_ALIASES).
Proof.
  repeat constructor; cbn; intuition discriminate.
Qed.

Lemma includes_empty a : a <> "" -> includes "" a = false.
Proof. destruct a; [congruence | reflexivity]. Qed.

Lemma normalise_empty : normalise "" = "".
Proof. reflexivity. Qed.

Lemma find_found {A} (f : A -> bool) l x :
  In x l -> f x = true -> exists y, find f l = Some y.
Proof.
  induction l as [|a l IH]; simpl; [tauto|].
  intros [->|Hin] Hx.
  - rewrite Hx. eauto.
  - destruct (f a); eauto.
Qed.

(** What the loop over the aliases of one field finds. *)
Lemma columnFor_sound keys aliases col :
  Forall (fun a => toLowerCase a = a /\ a <> "") aliases ->
  columnFor keys (map normalise keys) aliases = Some col ->
  In col keys
  /\ exists alias, In alias aliases
       /\ (normalise col = alias \/ includes (normalise col) alias = true).
Proof.
  induction 1 as [|alias aliases [Hl Hne] Hall IH]; simpl; [discriminate|].
  destruct (matchingHeader (map normalise keys) alias) as [m|] eqn:Em.
  2:{ intros H. destruct (IH H) as (Hin & a & Ha & Hm). eauto 6. }
  destruct (nonEmpty m) eqn:En.
  2:{ intros H. destruct (IH H) as (Hin & a & Ha & Hm). eauto 6. }
  destruct (originalHeader keys m) as [o|] eqn:Eo.
  2:{ intros H. destruct (IH H) as (Hin & a & Ha & Hm). eauto 6. }
  destruct (nonEmpty o) eqn:Eno.
  2:{ intros H. destruct (IH H) as (Hin & a & Ha & Hm). eauto 6. }
  intros H; inversion H; subst o.
  unfold matchingHeader in Em. apply find_some in Em as [_ Hm].
  unfold originalHeader in Eo. apply find_some in Eo as [Hin Ho].
  apply String.eqb_eq in Ho. rewrite Hl in Hm.
  split; [exact Hin|]. exists alias. split; [now left|].
  rewrite Ho. apply orb_true_iff in Hm as [Hm|Hm]; [left | now right].
  now apply String.eqb_eq in Hm.
Qed.

Lemma columnFor_complete keys aliases key alias :
  Forall (fun a => toLowerCase a = a /\ a <> "") aliases ->
  In key keys -> In alias aliases ->
  normalise key = alias \/ includes (normalise key) alias = true ->
  exists col, columnFor keys (map normalise keys) aliases = Some col.
Proof.
  intros Hall Hkey. revert alias.
  induction Hall as [|a aliases [Hl Hne] Hall IH]; intros alias Ha Hm;
    [contradiction|].
  cbn [columnFor].
  assert (Step : (exists m, matchingHeader (map normalise keys) a = Some m)
                 \/ matchingHeader (map normalise keys) a = None).
  { destruct (matchingHeader _ a); eauto. }
  destruct Step as [(m & Em)|Em].
  - rewrite Em. unfold matchingHeader in Em.
    apply find_some in Em as [Hmin Hmm]. rewrite Hl in Hmm.
    assert (Hmne : nonEmpty m = true).
    { unfold nonEmpty. apply negb_true_iff, String.eqb_neq. intros ->.
      apply orb_true_iff in Hmm as [Hmm|Hmm].
      - apply String.eqb_eq in Hmm. congruence.
      - rewrite includes_empty in Hmm by assumption. discriminate. }
    rewrite Hmne.
    apply in_map_iff in Hmin as (k & Ek & Hk).
    destruct (find_found (fun h => String.eqb (normalise h) m) keys k Hk)
      as (o & Eo).
    { now apply String.eqb_eq. }
    unfold originalHeader. rewrite Eo.
    apply find_some in Eo as [_ Ho]. apply String.eqb_eq in Ho.
    assert (Hone : nonEmpty o = true).
    { unfold nonEmpty. apply negb_true_iff, String.eqb_neq. intros ->.
      rewrite normalise_empty in Ho. rewrite <- Ho in Hmne. discriminate Hmne. }
    rewrite Hone. eauto.
  - rewrite Em. destruct Ha as [->|Ha]; [|now apply (IH alias)].
    exfalso. unfold matchingHeader in Em.
    pose proof (find_none _ _ Em (normalise key) (in_map normalise _ _ Hkey)) as F.
    cbv beta in F. rewrite Hl in F.
    destruct Hm as [Hm|Hm].
    + rewrite Hm, String.eqb_refl in F. discriminate F.
    + rewrite Hm, orb_true_r in F. discriminate F.
Qed.

(** The map holds, for each canonical field, what the loop over its
    aliases found. *)
Lemma columns_fold keys headers table : forall acc c,
  NoDup (map fst table) ->
  Map_get c
    (fold_left (fun m entry =>
                  match columnFor keys headers (snd entry) with
                  | Some original => Map_set (fst entry) original m
                  | None => m
                  end) table acc)
  = match find (fun entry => String.eqb c (fst entry)) table with
    | Some entry =>
        match columnFor keys headers (snd entry) with
        | Some original => Some original
        | None => Map_get c acc
        end
    | None => Map_get c acc
    end.
Proof.
  induction table as [|[k al] table IH]; intros acc c Hnd; [reflexivity|].
  inversion Hnd as [|? ? Hnot Hnd']; subst.
  cbn [fold_left find fst snd]. rewrite IH by assumption.
  destruct (String.eqb c k) eqn:E.
  - apply String.eqb_eq in E. subst k.
    assert (F : find (fun entry => String.eqb c (fst entry)) table = None).
    { destruct (find _ table) as [[k' al']|] eqn:Ef; [|reflexivity].
      apply find_some in Ef as [Hin Hk]. apply String.eqb_eq in Hk.
      simpl in Hk. subst k'. exfalso. apply Hnot.
      change c with (fst (c, al')). now apply in_map. }
    rewrite F. cbn [fst snd]. destruct (columnFor keys headers al); [|reflexivity].
    apply Map_get_set_same.
  - apply String.eqb_neq in E.
    destruct (find _ table) as [[k' al']|]; cbn [snd].
    + destruct (columnFor keys headers al'); [reflexivity|].
      destruct (columnFor keys headers al); [|reflexivity].
      now apply Map_get_set_other.
    + destruct (columnFor keys headers al); [|reflexivity].
      now apply Map_get_set_other.
Qed.

Lemma buildColumnMap_get keys canonical aliases :
  In (canonical, aliases) COLUMN_ALIASES ->
  Map_get canonical (buildColumnMap keys)
  = columnFor keys (map normalise keys) aliases.
Proof.
  intros Hin. unfold buildColumnMap.
  rewrite columns_fold by apply canonical_distinct.
  destruct (find_found (fun entry => String.eqb canonical (fst entry))
              COLUMN_ALIASES (canonical, aliases) Hin (String.eqb_refl _))
    as ([k al] & Ef).
  rewrite Ef. apply find_some in Ef as [Hin' Hk].
  apply String.eqb_eq in Hk. simpl in Hk. subst k.
  assert (al = aliases).
  { pose proof canonical_distinct as Hnd.
    clear - Hin Hin' Hnd.
    induction COLUMN_ALIASES as [|[k a] l IH]; [contradiction|].
    inversion Hnd as [|? ? Hnot Hnd']; subst.
    destruct Hin as [E|Hin], Hin' as [E'|Hin'].
    - congruence.
    - inversion E; subst. exfalso. apply Hnot.
      change canonical with (fst (canonical, al)). now apply in_map.
    - inversion E'; subst. exfalso. apply Hnot.
      change canonical with (fst (canonical, aliases)). now apply in_map.
    - now apply IH. }
  subst al. cbn [snd]. destruct (columnFor _ _ aliases); reflexivity.
Qed.

End ColumnFacts.

Module DateFacts.
Import JsString Orangetheory CsvFacts.
Local Open Scope string_scope.
Local Open Scope nat_scope.

Lemma digits_out n : forall s d rest,
  digits n s = Some (d, rest) ->
  s = d ++ rest /\ String.length d = n /\ allDigits d = true.
Proof.
  induction n as [|n IH]; intros s d rest; simpl.
  - intros H; inversion H; subst. auto.
  - destruct s as [|c s]; [discriminate|].
    destruct (isDigit c) eqn:Ec; [|discriminate].
    destruct (digits n s) as [[d' rest']|] eqn:E; [|discriminate].
    intros H; inversion H; subst.
    destruct (IH _ _ _ E) as (-> & <- & Hd).
    repeat split. unfold allDigits. simpl. now rewrite Ec.
Qed.

Lemma digits_in d rest :
  allDigits d = true -> digits (String.length d) (d ++ rest) = Some (d, rest).
Proof.
  unfold allDigits. induction d as [|c d IH]; simpl; [reflexivity|].
  intros H. apply andb_true_iff in H as [Hc Hd]. now rewrite Hc, IH.
Qed.

Lemma digits_short n d c rest :
  allDigits d = true -> String.length d < n -> isDigit c = false ->
  digits n (d ++ String c rest) = None.
Proof.
  unfold allDigits. revert n. induction d as [|x d IH]; intros n Hd Hn Hc.
  - destruct n; [simpl in Hn; lia|]. simpl. now rewrite Hc.
  - destruct n; [simpl in Hn; lia|]. simpl in Hd |- *.
    apply andb_true_iff in Hd as [Hx Hd]. rewrite Hx.
    rewrite IH; auto. simpl in Hn. lia.
Qed.

Lemma after_in c rest : after c (String c rest) = Some rest.
Proof. simpl. now rewrite Ascii.eqb_refl. Qed.

Lemma after_out c s rest : after c s = Some rest -> s = String c rest.
Proof.
  destruct s as [|d s]; simpl; [discriminate|].
  destruct (Ascii.eqb c d) eqn:E; [|discriminate].
  apply Ascii.eqb_eq in E. intros H; inversion H. congruence.
Qed.

Lemma digits12_out sep s d rest :
  digits12 sep s = Some (d, rest) ->
  s = d ++ String sep rest
  /\ (String.length d = 1 \/ String.length d = 2) /\ allDigits d = true.
Proof.
  unfold digits12.
  destruct (digits 2 s) as [[d2 r2]|] eqn:E2.
  - destruct (after sep r2) as [r|] eqn:Ea; [|discriminate].
    intros H; inversion H; subst.
    destruct (digits_out _ _ _ _ E2) as (-> & Hl & Hd).
    apply after_out in Ea. subst r2. auto.
  - destruct (digits 1 s) as [[d1 r1]|] eqn:E1; [|discriminate].
    destruct (after sep r1) as [r|] eqn:Ea; [|discriminate].
    intros H; inversion H; subst.
    destruct (digits_out _ _ _ _ E1) as (-> & Hl & Hd).
    apply after_out in Ea. subst r1. auto.
Qed.

Lemma digits12_in sep d rest :
  allDigits d = true -> String.length d = 1 \/ String.length d = 2 ->
  isDigit sep = false ->
  digits12 sep (d ++ String sep rest) = Some (d, rest).
Proof.
  intros Hd Hl Hs. unfold digits12. destruct Hl as [Hl|Hl].
  - rewrite (digits_short 2 d sep rest Hd) by (auto; lia).
    rewrite <- Hl, digits_in by assumption. now rewrite after_in.
  - rewrite <- Hl, digits_in by assumption. now rewrite after_in.
Qed.

(** With another separator next the pattern does not match. *)
Lemma digits12_other sep c d rest :
  allDigits d = true -> String.length d = 1 \/ String.length d = 2 ->
  isDigit c = false -> c <> sep ->
  digits12 sep (d ++ String c rest) = None.
Proof.
  intros Hd Hl Hc Hne. unfold digits12.
  assert (A : after sep (String c rest) = None).
  { simpl. destruct (Ascii.eqb sep c) eqn:E; [|reflexivity].
    apply Ascii.eqb_eq in E. congruence. }
  destruct Hl as [Hl|Hl].
  - rewrite (digits_short 2 d c rest Hd) by (auto; lia).
    rewrite <- Hl, digits_in by assumption. now rewrite A.
  - rewrite <- Hl, digits_in by assumption. now rewrite A.
Qed.

Lemma allDigits_append a b :
  allDigits (a ++ b) = allDigits a && allDigits b.
Proof.
  unfold allDigits. induction a as [|c a IH]; simpl; [reflexivity|].
  now rewrite IH, andb_assoc.
Qed.

Lemma length_append a b :
  String.length (a ++ b) = String.length a + String.length b.
Proof. induction a as [|c a IH]; simpl; congruence. Qed.

Lemma padStart2_shape d :
  allDigits d = true -> String.length d = 1 \/ String.length d = 2 ->
  allDigits (padStart2 d) = true /\ String.length (padStart2 d) = 2.
Proof.
  intros Hd [Hl|Hl]; destruct d as [|a [|b [|c d]]]; try discriminate Hl.
  - unfold allDigits in *. simpl in *. split; [|reflexivity].
    now rewrite Hd.
  - simpl. auto.
Qed.

Lemma padStart2_two d : String.length d = 2 -> padStart2 d = d.
Proof. destruct d as [|a [|b [|c d]]]; try discriminate; reflexivity. Qed.

Lemma digits_exact n d rest :
  allDigits d = true -> String.length d = n ->
  digits n (d ++ rest) = Some (d, rest).
Proof. intros Hd <-. now apply digits_in. Qed.

Lemma dateShaped_build y m d :
  allDigits y = true -> String.length y = 4 ->
  allDigits m = true -> String.length m = 2 ->
  allDigits d = true -> String.length d = 2 ->
  dateShaped (y ++ "-" ++ m ++ "-" ++ d) = true.
Proof.
  intros Hy Ly Hm Lm Hd Ld. unfold dateShaped.
  rewrite (digits_exact 4 y) by assumption.
  change ("-" ++ m ++ "-" ++ d) with (String "-" (m ++ String "-" d)).
  rewrite after_in, (digits_exact 2 m), after_in by assumption.
  rewrite <- (append_nil_r d).
  rewrite (digits_exact 2 d) by assumption. reflexivity.
Qed.

Lemma isoFormat_none d c rest :
  allDigits d = true -> String.length d < 4 -> isDigit c = false ->
  isoFormat (d ++ String c rest) = None.
Proof.
  intros Hd Hl Hc. unfold isoFormat. now rewrite digits_short.
Qed.

Section Native.
Variable nativeDate : string -> option string.

Lemma parseDate_shape value r :
  parseDate nativeDate value = Some r ->
  dateShaped r = true \/ exists v, value = Some v /\ nativeDate v = Some r.
Proof.
  unfold parseDate. destruct value as [v|]; [|discriminate].
  destruct (String.eqb v ""); [discriminate|].
  destruct (isoFormat v) as [[[y m] d]|] eqn:Eiso.
  { intros H; inversion H; subst r. left.
    unfold isoFormat in Eiso.
    destruct (digits 4 v) as [[y' r1]|] eqn:E1; [|discriminate].
    destruct (after "-" r1) as [r2|]; [|discriminate].
    destruct (digits 2 r2) as [[m' r3]|] eqn:E2; [|discriminate].
    destruct (after "-" r3) as [r4|]; [|discriminate].
    destruct (digits 2 r4) as [[d' r5]|] eqn:E3; [|discriminate].
    inversion Eiso; subst.
    destruct (digits_out _ _ _ _ E1) as (_ & Ly & Hy).
    destruct (digits_out _ _ _ _ E2) as (_ & Lm & Hm).
    destruct (digits_out _ _ _ _ E3) as (_ & Ld & Hd).
    rewrite !padStart2_two by assumption.
    now apply dateShaped_build. }
  assert (Sep : forall sep n a b c,
            separated sep n v = Some (a, b, c) ->
            (allDigits (padStart2 a) = true /\ String.length (padStart2 a) = 2)
            /\ (allDigits (padStart2 b) = true /\ String.length (padStart2 b) = 2)
            /\ allDigits c = true /\ String.length c = n).
  { intros sep n a b c. unfold separated.
    destruct (digits12 sep v) as [[a' r1]|] eqn:E1; [|discriminate].
    destruct (digits12 sep r1) as [[b' r2]|] eqn:E2; [|discriminate].
    destruct (digits n r2) as [[c' r3]|] eqn:E3; [|discriminate].
    intros H; inversion H; subst.
    destruct (digits12_out _ _ _ _ E1) as (_ & La & Ha).
    destruct (digits12_out _ _ _ _ E2) as (_ & Lb & Hb).
    destruct (digits_out _ _ _ _ E3) as (_ & Lc & Hc).
    split; [now apply padStart2_shape|]. split; [now apply padStart2_shape|].
    auto. }
  destruct (match separated "/" 4 v with Some g => Some g | None => _ end)
    as [[[month day] year]|] eqn:Eus.
  { intros H; inversion H; subst r. left.
    assert (Hy : exists n, (n = 4 \/ n = 2)
                           /\ separated "/" n v = Some (month, day, year)).
    { destruct (separated "/" 4 v) as [g|] eqn:E4.
      - inversion Eus; subst g. exists 4. auto.
      - exists 2. auto. }
    destruct Hy as (n & Hn & Es).
    destruct (Sep _ _ _ _ _ Es) as ((Hm & Lm) & (Hd & Ld) & Hyr & Lyr).
    apply dateShaped_build; auto.
    - destruct Hn as [-> | ->]; rewrite Lyr; simpl; [exact Hyr|].
      destruct (50 <? twoDigits year); unfold allDigits in *; simpl;
        exact Hyr.
    - destruct Hn as [-> | ->]; rewrite Lyr; simpl; [exact Lyr|].
      destruct (50 <? twoDigits year); simpl; now rewrite Lyr. }
  destruct (separated "." 4 v) as [[[day month] year]|] eqn:Eeu.
  { intros H; inversion H; subst r. left.
    destruct (Sep _ _ _ _ _ Eeu) as ((Hd & Ld) & (Hm & Lm) & Hyr & Lyr).
    now apply dateShaped_build. }
  intros H. right. eauto.
Qed.

End Native.

End DateFacts.

Module FormatFacts.
Import JsString Orangetheory CsvFacts DateFacts.
Local Open Scope string_scope.
Local Open Scope nat_scope.

Lemma starts_nonempty s t :
  0 < String.length s -> String.eqb (s ++ t) "" = false.
Proof. destruct s; simpl; [lia | reflexivity]. Qed.

Lemma isoFormat_in y m d rest :
  allDigits y = true -> String.length y = 4 ->
  allDigits m = true -> String.length m = 2 ->
  allDigits d = true -> String.length d = 2 ->
  isoFormat (y ++ "-" ++ m ++ "-" ++ d ++ rest) = Some (y, m, d).
Proof.
  intros Hy Ly Hm Lm Hd Ld. unfold isoFormat.
  rewrite (digits_exact 4 y) by assumption.
  change ("-" ++ m ++ "-" ++ d ++ rest)
    with (String "-" (m ++ String "-" (d ++ rest))).
  rewrite after_in, (digits_exact 2 m), after_in by assumption.
  now rewrite (digits_exact 2 d) by assumption.
Qed.

Lemma dateShaped_inv r :
  dateShaped r = true ->
  exists y m d,
    r = y ++ "-" ++ m ++ "-" ++ d
    /\ (allDigits y = true /\ String.length y = 4)
    /\ (allDigits m = true /\ String.length m = 2)
    /\ (allDigits d = true /\ String.length d = 2).
Proof.
  unfold dateShaped.
  destruct (digits 4 r) as [[y r1]|] eqn:E1; [|discriminate].
  destruct (after "-" r1) as [r2|] eqn:A1; [|discriminate].
  destruct (digits 2 r2) as [[m r3]|] eqn:E2; [|discriminate].
  destruct (after "-" r3) as [r4|] eqn:A2; [|discriminate].
  destruct (digits 2 r4) as [[d [|? ?]]|] eqn:E3; try discriminate.
  intros _.
  destruct (digits_out _ _ _ _ E1) as (-> & Ly & Hy).
  destruct (digits_out _ _ _ _ E2) as (-> & Lm & Hm).
  destruct (digits_out _ _ _ _ E3) as (-> & Ld & Hd).
  apply after_out in A1, A2. subst r1 r3.
  exists y, m, d. rewrite append_nil_r. repeat split; auto.
Qed.

Lemma separated_in sep n a b c rest :
  isDigit sep = false ->
  allDigits a = true -> String.length a = 1 \/ String.length a = 2 ->
  allDigits b = true -> String.length b = 1 \/ String.length b = 2 ->
  allDigits c = true -> String.length c = n ->
  separated sep n (a ++ String sep (b ++ String sep (c ++ rest)))
  = Some (a, b, c).
Proof.
  intros Hs Ha La Hb Lb Hc Lc. unfold separated.
  rewrite !digits12_in by assumption.
  now rewrite (digits_exact n c) by assumption.
Qed.

Lemma separated_other sep c n a rest :
  isDigit c = false -> c <> sep ->
  allDigits a = true -> String.length a = 1 \/ String.length a = 2 ->
  separated sep n (a ++ String c rest) = None.
Proof.
  intros Hc Hne Ha La. unfold separated.
  now rewrite digits12_other.
Qed.

(** The third group wants more digits than there are. *)
Lemma separated_year_short sep n a b c rest :
  isDigit sep = false ->
  allDigits a = true -> String.length a = 1 \/ String.length a = 2 ->
  allDigits b = true -> String.length b = 1 \/ String.length b = 2 ->
  digits n (c ++ rest) = None ->
  separated sep n (a ++ String sep (b ++ String sep (c ++ rest))) = None.
Proof.
  intros Hs Ha La Hb Lb Hc. unfold separated.
  rewrite !digits12_in by assumption. now rewrite Hc.
Qed.

Lemma digits_add n k : forall d rest,
  allDigits d = true -> String.length d = n ->
  digits (n + k) (d ++ rest)
  = match digits k rest with
    | Some (e, rest') => Some (d ++ e, rest')
    | None => None
    end.
Proof.
  unfold allDigits.
  induction n as [|n IH]; intros d rest Hd Ld.
  - destruct d; [|discriminate]. simpl.
    destruct (digits k rest) as [[e r]|]; reflexivity.
  - destruct d as [|x d]; [discriminate|]. simpl in Hd, Ld |- *.
    apply andb_true_iff in Hd as [Hx Hd]. rewrite Hx.
    rewrite IH by (auto; lia).
    destruct (digits k rest) as [[e r]|]; reflexivity.
Qed.

End FormatFacts.

Module OrangetheoryTheorems.
Import JsString Orangetheory CsvFacts ColumnFacts DateFacts FormatFacts.
Local Open Scope string_scope.
Local Open Scope nat_scope.

(** X25.  [buildColumnMap]: a canonical field gets a column exactly when
    some header of the row, lower-cased and trimmed, equals or contains
    one of the aliases of the field; the column it gets is a header of
    the row that equals or contains an alias of the field.  Nothing keeps
    one header from serving two fields. *)
Theorem buildColumnMap_finds_aliased_columns keys canonical aliases :
  In (canonical, aliases) COLUMN_ALIASES ->
  (forall col,
      Map_get canonical (buildColumnMap keys) = Some col ->
      In col keys
      /\ exists alias, In alias aliases
           /\ (normalise col = alias \/ includes (normalise col) alias = true))
  /\ ((exists key alias,
          In key keys /\ In alias aliases
          /\ (normalise key = alias \/ includes (normalise key) alias = true))
      <-> exists col, Map_get canonical (buildColumnMap keys) = Some col).
Proof.
  intros Hin. rewrite (buildColumnMap_get keys _ _ Hin).
  assert (Hl : Forall (fun a => toLowerCase a = a /\ a <> "") aliases).
  { pose proof aliases_lower as H. rewrite Forall_forall in H.
    exact (H _ Hin). }
  split; [|split].
  - intros col Hc. now apply columnFor_sound.
  - intros (key & alias & Hk & Ha & Hm).
    now apply (columnFor_complete keys aliases key alias).
  - intros (col & Hc).
    destruct (columnFor_sound keys aliases col Hl Hc) as (Hk & alias & Ha & Hm).
    eauto.
Qed.

Lemma buildColumnMap_finds_aliased_columns_witness :
  Map_get "class_type" (buildColumnMap ["Class Date"; "Splats"])
  = Some "Class Date"
  /\ Map_get "date" (buildColumnMap ["Class Date"; "Splats"])
     = Some "Class Date"
  /\ exists col,
       Map_get "class_type" (buildColumnMap ["Class Date"; "Splats"]) = Some col.
Proof.
  split; [reflexivity|]. split; [reflexivity|].
  apply (buildColumnMap_finds_aliased_columns ["Class Date"; "Splats"]
           "class_type"
           ["class_type"; "class type"; "workout_type"; "workout type";
            "type"; "class"]).
  - simpl. tauto.
  - exists "Class Date", "class". simpl. split; [tauto|]. split; [tauto|].
    right. reflexivity.
Defined.

(** X26.  [parseDate]: nothing is read from a missing or empty value;
    and whatever one of the four patterns reads has the shape YYYY-MM-DD,
    so that a result of another shape comes from the native [Date]
    parser. *)
Theorem parseDate_result_is_date_shaped nativeDate :
  parseDate nativeDate None = None
  /\ parseDate nativeDate (Some "") = None
  /\ forall value r,
       parseDate nativeDate value = Some r ->
       dateShaped r = true
       \/ exists v, value = Some v /\ nativeDate v = Some r.
Proof.
  split; [reflexivity|]. split; [reflexivity|].
  intros value r. apply parseDate_shape.
Qed.

(** X27.  [parseDate] keeps a date of the shape YYYY-MM-DD as it is and
    cuts whatever follows it (the time of a timestamp): its results of
    that shape are fixed points. *)
Theorem parseDate_keeps_iso_dates nativeDate r rest :
  dateShaped r = true ->
  parseDate nativeDate (Some (r ++ rest)) = Some r.
Proof.
  intros Hr.
  destruct (dateShaped_inv r Hr)
    as (y & m & d & -> & (Hy & Ly) & (Hm & Lm) & (Hd & Ld)).
  unfold parseDate.
  rewrite !append_assoc.
  rewrite starts_nonempty by lia.
  rewrite isoFormat_in by assumption.
  now rewrite !padStart2_two by assumption.
Qed.

Lemma parseDate_keeps_iso_dates_witness :
  parseDate (fun _ => None) (Some "2024-03-09T22:15:00Z") = Some "2024-03-09".
Proof.
  apply (parseDate_keeps_iso_dates (fun _ => None) "2024-03-09" "T22:15:00Z").
  reflexivity.
Defined.

(** X28.  [parseDate] reads M/D/YYYY as month, day, year and D.M.YYYY as
    day, month, year, pads month and day to two digits and ignores what
    follows the year.  The numbers are not checked: a month 13 or a day
    45 goes through. *)
Theorem parseDate_slash_and_dot_dates nativeDate m d y rest :
  allDigits m = true -> String.length m = 1 \/ String.length m = 2 ->
  allDigits d = true -> String.length d = 1 \/ String.length d = 2 ->
  allDigits y = true -> String.length y = 4 ->
  parseDate nativeDate (Some (m ++ "/" ++ d ++ "/" ++ y ++ rest))
  = Some (y ++ "-" ++ padStart2 m ++ "-" ++ padStart2 d)
  /\ parseDate nativeDate (Some (d ++ "." ++ m ++ "." ++ y ++ rest))
     = Some (y ++ "-" ++ padStart2 m ++ "-" ++ padStart2 d).
Proof.
  intros Hm Lm Hd Ld Hy Ly. unfold parseDate. split.
  - rewrite starts_nonempty by lia.
    change (m ++ "/" ++ d ++ "/" ++ y ++ rest)
      with (m ++ String "/" (d ++ String "/" (y ++ rest))).
    rewrite isoFormat_none by (auto; lia).
    rewrite (separated_in "/" 4) by auto.
    rewrite Ly. reflexivity.
  - rewrite starts_nonempty by lia.
    change (d ++ "." ++ m ++ "." ++ y ++ rest)
      with (d ++ String "." (m ++ String "." (y ++ rest))).
    rewrite isoFormat_none by (auto; lia).
    rewrite !(separated_other "/" ".") by (auto; discriminate).
    now rewrite (separated_in "." 4) by auto.
Qed.

Lemma parseDate_slash_and_dot_dates_witness :
  parseDate (fun _ => None) (Some "13/45/2024 6:15 AM") = Some "2024-13-45"
  /\ parseDate (fun _ => None) (Some "45.13.2024 6:15 AM") = Some "2024-13-45".
Proof.
  apply (parseDate_slash_and_dot_dates (fun _ => None) "13" "45" "2024"
           " 6:15 AM");
    solve [reflexivity | right; reflexivity].
Defined.

(** X29.  [parseDate] on M/D/YY, when the year is not followed by two
    more digits: a two-digit year above 50 is put in the 1900s, a year up
    to 50 (50 itself too) in the 2000s. *)
Theorem parseDate_two_digit_year nativeDate m d y rest :
  allDigits m = true -> String.length m = 1 \/ String.length m = 2 ->
  allDigits d = true -> String.length d = 1 \/ String.length d = 2 ->
  allDigits y = true -> String.length y = 2 ->
  digits 2 rest = None ->
  parseDate nativeDate (Some (m ++ "/" ++ d ++ "/" ++ y ++ rest))
  = Some ((if 50 <? twoDigits y then "19" else "20")
            ++ y ++ "-" ++ padStart2 m ++ "-" ++ padStart2 d).
Proof.
  intros Hm Lm Hd Ld Hy Ly Hrest. unfold parseDate.
  rewrite starts_nonempty by lia.
  change (m ++ "/" ++ d ++ "/" ++ y ++ rest)
    with (m ++ String "/" (d ++ String "/" (y ++ rest))).
  rewrite isoFormat_none by (auto; lia).
  rewrite (separated_year_short "/" 4)
    by (auto; rewrite (digits_add 2 2) by assumption; now rewrite Hrest).
  rewrite (separated_in "/" 2) by auto.
  rewrite Ly. cbn [Nat.eqb].
  destruct (50 <? twoDigits y); reflexivity.
Qed.

Lemma parseDate_two_digit_year_witness :
  parseDate (fun _ => None) (Some "3/9/50") = Some "2050-03-09"
  /\ parseDate (fun _ => None) (Some "3/9/51") = Some "1951-03-09".
Proof.
  split.
  - apply (parseDate_two_digit_year (fun _ => None) "3" "9" "50" "");
      solve [reflexivity | left; reflexivity].
  - apply (parseDate_two_digit_year (fun _ => None) "3" "9" "51" "");
      solve [reflexivity | left; reflexivity].
Defined.

End OrangetheoryTheorems.

(** ** Rows of a user-defined mapping *)

Module MappingFacts.
Import Generic CsvFacts.
Local Open Scope string_scope.

Section Row.
Variable FieldTransform : Type.
Variable extractValue : jsval -> string -> option jsval.
Variable applyTransform : jsval -> FieldTransform -> jsval -> option jsval.

#[local] Abbreviation mapField_ :=
  (mapField FieldTransform extractValue applyTransform).

(** The mapping assigns its target: the source has a value and the
    transform, if any, returns. *)
#[local] Abbreviation assigns row m :=
  (exists v, extractValue row (source _ m) = Some v /\ isMissing v = false
             /\ match transform _ m with
                | Some t => applyTransform v t row <> None
                | None => True
                end).

Lemma mapField_flags row result req dflt m :
  mapField_ row result (withFlags _ req dflt m) = mapField_ row result m.
Proof.
  unfold mapField, mapFieldBody. simpl.
  destruct (extractValue row (source _ m)) as [v|]; [|reflexivity].
  destruct (isMissing v); [|reflexivity].
  destruct req, (required _ m); reflexivity.
Qed.

Lemma mapField_has row result m k :
  obj_has k (mapField_ row result m) = true
  <-> obj_has k result = true \/ (target _ m = k /\ assigns row m).
Proof.
  unfold mapField, mapFieldBody.
  destruct (extractValue row (source _ m)) as [v|].
  2:{ split; [auto|]. intros [H|(_ & v & Hv & _)]; [exact H|discriminate]. }
  destruct (isMissing v) eqn:Ev.
  { assert (G : obj_has k (match (if required _ m
                                  then inl (Orchestrator.JsError
                                              ("Required field missing: "
                                                 ++ source _ m))
                                  else inr result)
                           with inr r => r | inl _ => result end)
                = obj_has k result) by (destruct (required _ m); reflexivity).
    cbv zeta. rewrite G. split; [auto|].
    intros [H|(_ & v' & Hv & Hm & _)]; [exact H|]. congruence. }
  destruct (transform _ m) as [t|] eqn:Et.
  - destruct (applyTransform v t row) as [v'|] eqn:Ea.
    + rewrite obj_has_set, orb_true_iff, String.eqb_eq. split.
      * intros [->|H]; [right|now left]. split; [reflexivity|].
        exists v. rewrite Ea. repeat split; auto. discriminate.
      * intros [H|(<- & _)]; auto.
    + split; [auto|]. intros [H|(_ & v' & Hv & _ & Hne)]; [exact H|].
      inversion Hv; subst v'. now rewrite Ea in Hne.
  - rewrite obj_has_set, orb_true_iff, String.eqb_eq. split.
    + intros [->|H]; [right|now left]. split; [reflexivity|].
      exists v. auto.
    + intros [H|(<- & _)]; auto.
Qed.

Lemma fold_has row mappings : forall result k,
  obj_has k (fold_left (mapField_ row) mappings result) = true
  <-> obj_has k result = true
      \/ exists m, In m mappings /\ target _ m = k /\ assigns row m.
Proof.
  induction mappings as [|m ms IH]; intros result k; simpl.
  - split; [auto|]. intros [H|(m & [] & _)]. exact H.
  - rewrite IH, mapField_has. split.
    + intros [[H|H]|(m' & Hin & H)]; eauto 6.
    + intros [H|(m' & [->|Hin] & H)]; eauto 6.
Qed.

End Row.

End MappingFacts.

Module MappingTheorems.
Import Generic MappingFacts.
Local Open Scope string_scope.

(** X30.  [transformRow]: the result has a key exactly when it is the
    target of a mapping whose source has a value (neither undefined nor
    null) and whose transform, if it has one, returns.  The [required]
    flag and the default value of a mapping make no difference to the
    result: a missing required field is skipped like any other, and a
    default value is never written. *)
Theorem transformRow_skips_missing_fields
  (FieldTransform : Type)
  (extractValue : jsval -> string -> option jsval)
  (applyTransform : jsval -> FieldTransform -> jsval -> option jsval)
  (row : jsval) (mappings : list (FieldMapping FieldTransform))
  (sourceId userId : string) :
  (forall k,
      obj_has k (transformRow _ extractValue applyTransform row mappings
                   sourceId userId) = true
      <-> exists m, In m mappings /\ target _ m = k
            /\ exists v, extractValue row (source _ m) = Some v
                 /\ isMissing v = false
                 /\ match transform _ m with
                    | Some t => applyTransform v t row <> None
                    | None => True
                    end)
  /\ (forall req dflt,
         transformRow _ extractValue applyTransform row
           (map (withFlags _ req dflt) mappings) sourceId userId
         = transformRow _ extractValue applyTransform row mappings
             sourceId userId).
Proof.
  unfold transformRow. split.
  - intros k. rewrite fold_has. simpl. split.
    + intros [H|H]; [discriminate|exact H].
    + auto.
  - intros req dflt. generalize (@nil (string * jsval)).
    induction mappings as [|m ms IH]; intros acc; [reflexivity|].
    simpl. rewrite mapField_flags. apply IH.
Qed.

End MappingTheorems.

Module QualityPolicyFacts.
Import DataQuality StatisticsFacts QualityCheckFacts QualityPolicy.

(** One entry of the table of ranges. *)
#[local] Abbreviation violating entry :=
  (let '(name, value, key) := entry in
   match value with
   | Some x => if outOfRange key x then [name] else []
   | None => []
   end).

Lemma checkHardLimits_field value field key :
  map v_field (match checkHardLimits value field key with
               | Some v => [v]
               | None => []
               end)
  = match value with
    | Some x => if outOfRange key x then [field] else []
    | None => []
    end.
Proof.
  unfold checkHardLimits, outOfRange. destruct value as [x|]; [|reflexivity].
  cbv zeta.
  destruct (Qltb x (lmin (HARD_LIMITS key))); [reflexivity|].
  destruct (Qltb (lmax (HARD_LIMITS key)) x); reflexivity.
Qed.

Lemma violationsOf_fields cs :
  map v_field (flat_map violationsOf cs)
  = flat_map (fun c => match c_value c with
                       | Some x => if outOfRange (c_limitKey c) x
                                   then [c_field c] else []
                       | None => []
                       end) cs.
Proof.
  induction cs as [|c cs IH]; [reflexivity|].
  cbn [flat_map]. rewrite map_app, IH. f_equal.
  unfold violationsOf. apply checkHardLimits_field.
Qed.

Lemma stageChecks_fields s viol :
  map v_field (stageChecks s viol)
  = (map v_field viol
     ++ match stageShare (deepSeconds s) s with
        | Some x => if outOfRange deepPercent x then ["deepPercent"%string] else []
        | None => []
        end
     ++ match stageShare (remSeconds s) s with
        | Some x => if outOfRange remPercent x then ["remPercent"%string] else []
        | None => []
        end)%list.
Proof.
  unfold stageChecks, stageShare, num_add.
  destruct (deepSeconds s) as [d|]; [|now rewrite app_nil_r].
  destruct (remSeconds s) as [r|]; [|now rewrite app_nil_r].
  destruct (lightSeconds s) as [l|]; [|now rewrite app_nil_r].
  destruct (Qltb 0 (d + r + l)); [|now rewrite app_nil_r].
  cbv zeta. unfold opt_push.
  pose proof (checkHardLimits_field (Some (d / (d + r + l) * 100))
                "deepPercent" deepPercent) as Hd.
  pose proof (checkHardLimits_field (Some (r / (d + r + l) * 100))
                "remPercent" remPercent) as Hr.
  cbv beta iota in Hd, Hr. rewrite <- Hd, <- Hr.
  destruct (checkHardLimits (Some (d / (d + r + l) * 100)) _ _),
           (checkHardLimits (Some (r / (d + r + l) * 100)) _ _);
    rewrite ?map_app, <- ?app_assoc, ?app_nil_r; reflexivity.
Qed.

(** The violations of the report name the out-of-range values. *)
Lemma report_names_violations s b thr :
  map v_field (hardLimitViolations (checkSleepSessionQuality s b thr))
  = hardViolations s.
Proof.
  destruct (report_fields s b thr) as (-> & _).
  rewrite stageChecks_fields, violationsOf_fields.
  unfold hardViolations, limitedValues, checks.
  cbn [flat_map c_value c_field c_limitKey].
  rewrite <- !app_assoc, !app_nil_r. reflexivity.
Qed.

Lemma outlierScan_spec b thr ms : forall out,
  outlierScan b thr ms out
  = (out ++ flat_map (fun metric : string * num =>
                        match snd metric, baseline_get (fst metric) b with
                        | Some v, Some e =>
                            if Qltb thr (Qabs (robustZScore v (b_median e) (b_mad e)))
                            then [fst metric] else []
                        | _, _ => []
                        end) ms)%list.
Proof.
  induction ms as [|[field value] ms IH]; intros out; simpl.
  - now rewrite app_nil_r.
  - destruct value as [v|]; [|apply IH].
    destruct (baseline_get field b) as [e|]; [|apply IH].
    destruct (Qltb thr _); rewrite IH; [now rewrite <- app_assoc | reflexivity].
Qed.

Lemma report_names_outliers s b thr :
  r_outlierFields (checkSleepSessionQuality s b thr)
  = statisticalOutliers s b thr.
Proof.
  unfold checkSleepSessionQuality.
  destruct (runChecks (checks s) [] []) as [viol0 missing].
  cbv beta iota zeta.
  destruct (if Nat.ltb 0 _ then _ else _) as [q a]. cbn [r_outlierFields].
  destruct b as [b|]; [|reflexivity].
  unfold statisticalOutliers. now rewrite outlierScan_spec.
Qed.

Lemma report_complete s b thr :
  r_isComplete (checkSleepSessionQuality s b thr) = negb (missingRequired s).
Proof.
  destruct (report_fields s b thr) as (_ & Hm & Hc & _).
  rewrite Hc, Hm. unfold missingRequired.
  pose proof (missing_iff_duration s) as Hd.
  destruct (durationSeconds s) as [d|].
  - rewrite (proj2 Hd) by discriminate. reflexivity.
  - destruct (flat_map missingOf (checks s)) eqn:E; [|reflexivity].
    exfalso. now apply (proj1 Hd).
Qed.

End QualityPolicyFacts.

Module QualityPolicyTheorems.
Import DataQuality StatisticsFacts QualityCheckFacts QualityPolicy
       QualityPolicyFacts.



End QualityPolicyTheorems.

(** ** What an import writes, in terms of what its parser returned *)

Module ParsedFacts.
Import JsString Pipeline Orchestrator ReimportFacts PrimitiveFacts PathFacts
       ImportFileFacts Parsed.

Section Paths.
Variable host : Host.

Lemma generateId_step w i w' :
  generateId host w = (inr i, w') ->
  i = genId host (nextId w) /\ w' = {| db := db w; nextId := S (nextId w) |}.
Proof. unfold generateId. intros H; inversion H. auto. Qed.

Lemma genericPath_parsed file user prof cb det parsed w r w' :
  genericPath host file user prof cb det (contentText file) parsed w = (inr r, w') ->
  exists p,
    genericRecords host user prof cb parsed w = Some p
    /\ Wrote user w w' r (po_sleepSessions p) (po_workoutSessions p)
         (po_dailyMetrics p) (po_timeSeries p).
Proof.
  unfold genericPath. intros H. cbv beta zeta in H.
  mstep H as srcs w1 E1. apply getByHash_inv in E1 as [-> Ea].
  mstep H as sid w2 E2. apply generateId_step in E2 as [-> ->].
  mstep H as u3 w3 E3. apply report_inv in E3; subst w3.
  mstep H as tr w4 E4.
  assert (Ed : db w4 = db w) by (now apply transformData_inv in E4).
  mstep H as u5 w5 E5. apply report_inv in E5; subst w5.
  mstep H as u6 w6 E6. apply report_inv in E6; subst w6.
  mstep H as ex w7 E7. apply getAll_inv in E7 as [-> Eg].
  mstep H as u8 w8 E8. apply report_inv in E8; subst w8.
  mstep H as u9 w9 E9. apply putSource_inv in E9 as (N1 & S1 & S2 & S3 & S4 & S5).
  mstep H as u10 w10 E10. apply putSleep_inv in E10 as (N2 & T1 & T2 & T3 & T4 & T5).
  mstep H as u11 w11 E11. apply putWorkouts_inv in E11 as (N3 & U1 & U2 & U3 & U4 & U5).
  mstep H as u12 w12 E12. apply putSeries_inv in E12 as (N4 & V1 & V2 & V3 & V4 & V5).
  mstep H as u13 w13 E13. apply report_inv in E13; subst w13.
  unfold ret in H. inversion H; subst r w'; clear H.
  unfold genericRecords. rewrite E4. eexists. split; [reflexivity|].
  unfold Wrote. cbn [success errors recordCounts po_sleepSessions
                       po_workoutSessions po_dailyMetrics po_timeSeries].
  split; [reflexivity|]. split; [reflexivity|].
  split.
  { rewrite V2, U2, T2, S2, Eg, Ed. reflexivity. }
  split.
  { rewrite V3, <- U3. f_equal. now rewrite T3, S3, Ed. }
  split.
  { simpl. f_equal. now rewrite V4, U4, T4, S4, Ed. }
  split.
  { rewrite <- V5. f_equal. now rewrite U5, T5, S5, Ed. }
  rewrite Eg, Ed. reflexivity.
Qed.

Lemma appleXmlPath_parsed file user cb content w r w' :
  appleXmlPath host file user cb content w = (inr r, w') ->
  exists p,
    appleXmlRecords host user cb content w = Some p
    /\ Wrote user w w' r (po_sleepSessions p) (po_workoutSessions p)
         (po_dailyMetrics p) (po_timeSeries p).
Proof.
  unfold appleXmlPath. intros H. cbv beta zeta in H.
  mstep H as u1 w1 E1. apply report_inv in E1; subst w1.
  mstep H as sid w2 E2. apply generateId_step in E2 as [-> ->].
  mstep H as ar w3 E3.
  assert (Ed : db w3 = db w) by (now apply runAppleParser_inv in E3).
  mstep H as u4 w4 E4. apply report_inv in E4; subst w4.
  mstep H as ex w5 E5. apply getAll_inv in E5 as [-> Eg].
  mstep H as u6 w6 E6. apply report_inv in E6; subst w6.
  mstep H as u7 w7 E7. apply putSource_inv in E7 as (N1 & S1 & S2 & S3 & S4 & S5).
  mstep H as u8 w8 E8. apply putSleep_inv in E8 as (N2 & T1 & T2 & T3 & T4 & T5).
  mstep H as u9 w9 E9. apply putWorkouts_inv in E9 as (N3 & U1 & U2 & U3 & U4 & U5).
  mstep H as u10 w10 E10. apply putMetrics_inv in E10 as (N4 & V1 & V2 & V3 & V4 & V5).
  mstep H as u11 w11 E11. apply report_inv in E11; subst w11.
  unfold ret in H. inversion H; subst r w'; clear H.
  unfold appleXmlRecords. rewrite E3. eexists. split; [reflexivity|].
  unfold Wrote. cbn [success errors recordCounts po_sleepSessions
                       po_workoutSessions po_dailyMetrics po_timeSeries].
  split; [reflexivity|]. split; [reflexivity|].
  split.
  { rewrite V2, U2, T2, S2, Eg, Ed. reflexivity. }
  split.
  { rewrite V3, <- U3. f_equal. now rewrite T3, S3, Ed. }
  split.
  { rewrite <- V4. f_equal. now rewrite U4, T4, S4, Ed. }
  split.
  { simpl. f_equal. now rewrite V5, U5, T5, S5, Ed. }
  rewrite Eg, Ed. reflexivity.
Qed.

Lemma preParsedPath_parsed file user cb content data w r w' :
  preParsedPath host file user cb content data w = (inr r, w') ->
  r_sourceId r = preParsedSourceId host data w
  /\ Wrote user w w' r
       (po_sleepSessions (preParsedRecords host user data w))
       (po_workoutSessions (preParsedRecords host user data w))
       (po_dailyMetrics (preParsedRecords host user data w))
       (po_timeSeries (preParsedRecords host user data w)).
Proof.
  unfold preParsedPath. intros H. cbv beta zeta in H.
  mstep H as u1 w1 E1. apply report_inv in E1; subst w1.
  mstep H as sid w2 E2.
  assert (Es : sid = preParsedSourceId host data w /\ db w2 = db w).
  { unfold preParsedSourceId.
    destruct (getKey "sourceId" data) as [| | | |s| |];
      try (apply generateId_step in E2 as [-> ->]; split; reflexivity).
    destruct (String.eqb s EmptyString).
    - apply generateId_step in E2 as [-> ->]; split; reflexivity.
    - unfold ret in E2. inversion E2. split; reflexivity. }
  destruct Es as [-> Ed]. clear E2.
  mstep H as u4 w4 E4. apply report_inv in E4; subst w4.
  mstep H as ex w5 E5. apply getAll_inv in E5 as [-> Eg].
  mstep H as u6 w6 E6. apply report_inv in E6; subst w6.
  mstep H as u7 w7 E7. apply putSource_inv in E7 as (N1 & S1 & S2 & S3 & S4 & S5).
  mstep H as u8 w8 E8. apply putSleep_inv in E8 as (N2 & T1 & T2 & T3 & T4 & T5).
  mstep H as u9 w9 E9. apply putWorkouts_inv in E9 as (N3 & U1 & U2 & U3 & U4 & U5).
  mstep H as u10 w10 E10. apply putMetrics_inv in E10 as (N4 & V1 & V2 & V3 & V4 & V5).
  mstep H as u11 w11 E11. apply report_inv in E11; subst w11.
  destruct (getKey "sources" data) as [| | | | |names|]; try discriminate H.
  unfold ret in H. inversion H; subst r w'; clear H.
  split; [reflexivity|].
  unfold Wrote, preParsedRecords.
  cbn [success errors recordCounts r_sourceId po_sleepSessions
       po_workoutSessions po_dailyMetrics po_timeSeries].
  split; [reflexivity|]. split; [reflexivity|].
  split.
  { rewrite V2, U2, T2, S2, Eg, Ed. reflexivity. }
  split.
  { rewrite V3, <- U3. f_equal. now rewrite T3, S3, Ed. }
  split.
  { rewrite <- V4. f_equal. now rewrite U4, T4, S4, Ed. }
  split.
  { simpl. f_equal. now rewrite V5, U5, T5, S5, Ed. }
  rewrite Eg, Ed. reflexivity.
Qed.

(** A successful import wrote what its parser returned. *)
Lemma importSteps_parsed file user profile cb w r w' :
  importSteps host file user profile cb w = (inr r, w') ->
  success r = true ->
  exists p,
    parserOutput host file user profile cb w = Some p
    /\ Wrote user w w' r (po_sleepSessions p) (po_workoutSessions p)
         (po_dailyMetrics p) (po_timeSeries p).
Proof.
  unfold importSteps, parserOutput. intros H Hs. cbv beta zeta in H |- *.
  mstep H as u1 w1 E1. apply report_inv in E1; subst w1.
  destruct (fileType (detectFileType host file)) eqn:Eft.
  - (* json *)
    destruct (match profile with Some p => Some p | None => _ end) as [prof|].
    2:{ unfold ret in H. inversion H; subst r. discriminate Hs. }
    mstep H as u2 w2 E2. apply report_inv in E2; subst w2.
    destruct (JSON_parse host (contentText file)) as [v|].
    2:{ unfold ret in H. inversion H; subst r. discriminate Hs. }
    destruct (vendor_eqb _ _ && _).
    + apply preParsedPath_parsed in H as [_ Hw]. eauto.
    + now apply genericPath_parsed in H.
  - (* csv *)
    destruct (match profile with Some p => Some p | None => _ end) as [prof|].
    2:{ unfold ret in H. inversion H; subst r. discriminate Hs. }
    mstep H as u2 w2 E2. apply report_inv in E2; subst w2.
    assert (G : genericPath host file user prof cb (detectFileType host file)
                  (contentText file) (VArr (map VObj (parseCsv (contentText file)))) w
                = (inr r, w')).
    { destruct (suggestedVendor (detectFileType host file)); exact H. }
    apply genericPath_parsed in G.
    destruct (suggestedVendor (detectFileType host file)); exact G.
  - (* zip *)
    exfalso.
    destruct (match profile with Some p => Some p | None => _ end) as [prof|].
    + mstep H as u2 w2 E2.
      destruct (suggestedVendor (detectFileType host file));
        unfold ret in H; inversion H; subst r; discriminate Hs.
    + unfold ret in H. inversion H; subst r. discriminate Hs.
  - (* xml *)
    destruct (match profile with Some p => Some p | None => _ end) as [prof|].
    2:{ unfold ret in H. inversion H; subst r. discriminate Hs. }
    mstep H as u2 w2 E2. apply report_inv in E2; subst w2.
    destruct (suggestedVendor (detectFileType host file)) eqn:Ev;
      try (exfalso; unfold ret in H; inversion H; subst r; discriminate Hs).
    now apply appleXmlPath_parsed in H.
  - (* unknown *)
    unfold ret in H. inversion H; subst r. discriminate Hs.
Qed.

Lemma importFile_parsed file user profile cb w r w' :
  importFile host file user profile cb w = (inr r, w') ->
  success r = true ->
  exists p,
    parserOutput host file user profile cb w = Some p
    /\ Wrote user w w' r (po_sleepSessions p) (po_workoutSessions p)
         (po_dailyMetrics p) (po_timeSeries p).
Proof.
  intros E Hs.
  apply importFile_inv in E as [E|(e & _ & ->)]; [|discriminate].
  now apply importSteps_parsed.
Qed.

(** The parser is given the file, the user and the position of the id
    generator: what it returns does not depend on the store. *)
Lemma parserOutput_store file user profile cb w d :
  parserOutput host file user profile cb {| db := d; nextId := nextId w |}
  = parserOutput host file user profile cb w.
Proof.
  assert (G : forall prof data,
            genericRecords host user prof cb data {| db := d; nextId := nextId w |}
            = genericRecords host user prof cb data w).
  { intros prof data. unfold genericRecords, transformData. cbn [nextId db].
    destruct (match pr_vendor prof with eight_sleep => _ | _ => _ end) as [[e|t] n];
      reflexivity. }
  unfold parserOutput. cbv zeta.
  destruct (match profile with Some p => Some p | None => _ end) as [prof|];
    [|reflexivity].
  destruct (fileType (detectFileType host file)); try reflexivity.
  - destruct (JSON_parse host (contentText file)) as [v|]; [|reflexivity].
    destruct (vendor_eqb _ _ && _); [reflexivity | apply G].
  - destruct (suggestedVendor (detectFileType host file)); apply G.
  - destruct (suggestedVendor (detectFileType host file)); try reflexivity.
    unfold appleXmlRecords, runAppleParser. cbn [nextId db].
    destruct (parseAppleHealthXML host _ _ _ _ _) as [[e|t] n]; reflexivity.
Qed.

Lemma parserOutput_preParsed file user profile cb w data :
  isPreParsedImport host file data ->
  parserOutput host file user profile cb w
  = Some (preParsedRecords host user data w).
Proof.
  intros (Hft & Hv & Hp & Hpre). unfold parserOutput. cbv zeta.
  rewrite Hft, Hv, Hp, Hpre. cbn [getBuiltInProfile].
  destruct profile; reflexivity.
Qed.

Lemma importFile_preParsed_source file user profile cb w r w' data :
  isPreParsedImport host file data ->
  importFile host file user profile cb w = (inr r, w') ->
  success r = true ->
  r_sourceId r = preParsedSourceId host data w.
Proof.
  intros (Hft & Hv & Hp & Hpre) E Hs.
  apply importFile_inv in E as [E|(e & _ & ->)]; [|discriminate].
  unfold importSteps in E. cbv beta zeta in E.
  mstep E as u1 w1 E1. apply report_inv in E1; subst w1.
  rewrite Hft, Hv in E. cbn [getBuiltInProfile] in E.
  assert (P : exists prof, match profile with
                           | Some p => Some p
                           | None => Some APPLE_HEALTH_PROFILE
                           end = Some prof)
    by (destruct profile; eauto).
  destruct P as (prof & P). rewrite P in E.
  mstep E as u2 w2 E2. apply report_inv in E2; subst w2.
  rewrite Hp, Hpre in E.
  change (vendor_eqb apple_health apple_health && true) with true in E.
  cbv iota in E.
  now apply preParsedPath_parsed in E as [Hsid _].
Qed.

Local Open Scope string_scope.

(** The result of a successful import reports the sessions that the
    deduplication skipped. *)
Lemma skipped_reported (first : list ImportWarning) suffix d :
  (0 < skippedCount d)%nat ->
  In (duplicateWarning ("Skipped " ++ ofNat (skippedCount d)
                          ++ " duplicate sessions" ++ suffix))
     (app first
        (app (if Nat.ltb 0 (mergedCount d)
              then [duplicateWarning ("Merged " ++ ofNat (mergedCount d)
                                        ++ " sessions with existing data")]
              else [])
             (if Nat.ltb 0 (skippedCount d)
              then [duplicateWarning ("Skipped " ++ ofNat (skippedCount d)
                                        ++ " duplicate sessions" ++ suffix)]
              else []))).
Proof.
  intros Hk. apply Nat.ltb_lt in Hk. rewrite Hk.
  apply in_or_app. right. apply in_or_app. right. now left.
Qed.

Lemma genericPath_skips file user prof cb det parsed w r w' p :
  genericPath host file user prof cb det (contentText file) parsed w = (inr r, w') ->
  genericRecords host user prof cb parsed w = Some p ->
  let d := deduplicateSessions (sleepSessions (db w)) (po_sleepSessions p) user in
  (0 < skippedCount d)%nat ->
  In (duplicateWarning ("Skipped " ++ ofNat (skippedCount d)
                          ++ " duplicate sessions"))
     (warnings r).
Proof.
  unfold genericPath. intros H. cbv beta zeta in H.
  mstep H as srcs w1 E1. apply getByHash_inv in E1 as [-> Ea].
  mstep H as sid w2 E2. apply generateId_step in E2 as [-> ->].
  mstep H as u3 w3 E3. apply report_inv in E3; subst w3.
  mstep H as tr w4 E4.
  assert (Ed : db w4 = db w) by (now apply transformData_inv in E4).
  mstep H as u5 w5 E5. apply report_inv in E5; subst w5.
  mstep H as u6 w6 E6. apply report_inv in E6; subst w6.
  mstep H as ex w7 E7. apply getAll_inv in E7 as [-> Eg].
  mstep H as u8 w8 E8.
  mstep H as u9 w9 E9.
  mstep H as u10 w10 E10.
  mstep H as u11 w11 E11.
  mstep H as u12 w12 E12.
  mstep H as u13 w13 E13.
  unfold ret in H. inversion H; subst r w'; clear H.
  unfold genericRecords. rewrite E4. intros Hp. inversion Hp; subst p; clear Hp.
  cbn [po_sleepSessions warnings]. rewrite Eg, Ed. intros Hk.
  apply (skipped_reported _ EmptyString _ Hk).
Qed.

Lemma appleXmlPath_skips file user cb content w r w' p :
  appleXmlPath host file user cb content w = (inr r, w') ->
  appleXmlRecords host user cb content w = Some p ->
  let d := deduplicateSessions (sleepSessions (db w)) (po_sleepSessions p) user in
  (0 < skippedCount d)%nat ->
  In (duplicateWarning ("Skipped " ++ ofNat (skippedCount d)
                          ++ " duplicate sessions"
                          ++ " (existing data was more complete)"))
     (warnings r).
Proof.
  unfold appleXmlPath. intros H. cbv beta zeta in H.
  mstep H as u1 w1 E1. apply report_inv in E1; subst w1.
  mstep H as sid w2 E2. apply generateId_step in E2 as [-> ->].
  mstep H as ar w3 E3.
  assert (Ed : db w3 = db w) by (now apply runAppleParser_inv in E3).
  mstep H as u4 w4 E4. apply report_inv in E4; subst w4.
  mstep H as ex w5 E5. apply getAll_inv in E5 as [-> Eg].
  mstep H as u6 w6 E6.
  mstep H as u7 w7 E7.
  mstep H as u8 w8 E8.
  mstep H as u9 w9 E9.
  mstep H as u10 w10 E10.
  mstep H as u11 w11 E11.
  unfold ret in H. inversion H; subst r w'; clear H.
  unfold appleXmlRecords. rewrite E3. intros Hp. inversion Hp; subst p; clear Hp.
  cbn [po_sleepSessions warnings]. rewrite Eg, Ed. intros Hk.
  unfold dedupWarnings.
  apply (skipped_reported [_] " (existing data was more complete)" _ Hk).
Qed.

Lemma preParsedPath_skips file user cb content data w r w' :
  preParsedPath host file user cb content data w = (inr r, w') ->
  let d := deduplicateSessions (sleepSessions (db w))
             (po_sleepSessions (preParsedRecords host user data w)) user in
  (0 < skippedCount d)%nat ->
  In (duplicateWarning ("Skipped " ++ ofNat (skippedCount d)
                          ++ " duplicate sessions"))
     (warnings r).
Proof.
  unfold preParsedPath. intros H. cbv beta zeta in H.
  mstep H as u1 w1 E1. apply report_inv in E1; subst w1.
  mstep H as sid w2 E2.
  assert (Es : sid = preParsedSourceId host data w /\ db w2 = db w).
  { unfold preParsedSourceId.
    destruct (getKey "sourceId" data) as [| | | |s| |];
      try (apply generateId_step in E2 as [-> ->]; split; reflexivity).
    destruct (String.eqb s EmptyString).
    - apply generateId_step in E2 as [-> ->]; split; reflexivity.
    - unfold ret in E2. inversion E2. split; reflexivity. }
  destruct Es as [-> Ed]. clear E2.
  mstep H as u4 w4 E4. apply report_inv in E4; subst w4.
  mstep H as ex w5 E5. apply getAll_inv in E5 as [-> Eg].
  mstep H as u6 w6 E6.
  mstep H as u7 w7 E7.
  mstep H as u8 w8 E8.
  mstep H as u9 w9 E9.
  mstep H as u10 w10 E10.
  mstep H as u11 w11 E11.
  destruct (getKey "sources" data) as [| | | | |names|]; try discriminate H.
  unfold ret in H. inversion H; subst r w'; clear H.
  unfold preParsedRecords. cbn [po_sleepSessions warnings].
  rewrite Eg, Ed. intros Hk. unfold dedupWarnings.
  apply (skipped_reported [_] EmptyString _ Hk).
Qed.

Lemma importFile_skips file user profile cb w r w' p :
  importFile host file user profile cb w = (inr r, w') ->
  success r = true ->
  parserOutput host file user profile cb w = Some p ->
  let d := deduplicateSessions (sleepSessions (db w)) (po_sleepSessions p) user in
  (0 < skippedCount d)%nat ->
  exists suffix,
    In (duplicateWarning ("Skipped " ++ ofNat (skippedCount d)
                            ++ " duplicate sessions" ++ suffix))
       (warnings r).
Proof.
  intros E Hs.
  apply importFile_inv in E as [H|(e & _ & ->)]; [|discriminate].
  unfold importSteps, parserOutput in *. cbv beta zeta in H |- *.
  mstep H as u1 w1 E1. apply report_inv in E1; subst w1.
  destruct (fileType (detectFileType host file)) eqn:Eft.
  - (* json *)
    destruct (match profile with Some p => Some p | None => _ end) as [prof|];
      [|discriminate].
    mstep H as u2 w2 E2. apply report_inv in E2; subst w2.
    destruct (JSON_parse host (contentText file)) as [v|]; [|discriminate].
    destruct (vendor_eqb _ _ && _).
    + intros Hp. inversion Hp; subst p. intros Hk. exists EmptyString.
      exact (preParsedPath_skips _ _ _ _ _ _ _ _ H Hk).
    + intros Hp Hk. exists EmptyString.
      exact (genericPath_skips _ _ _ _ _ _ _ _ _ _ H Hp Hk).
  - (* csv *)
    destruct (match profile with Some p => Some p | None => _ end) as [prof|];
      [|discriminate].
    mstep H as u2 w2 E2. apply report_inv in E2; subst w2.
    assert (G : genericPath host file user prof cb (detectFileType host file)
                  (contentText file) (VArr (map VObj (parseCsv (contentText file)))) w
                = (inr r, w')).
    { destruct (suggestedVendor (detectFileType host file)); exact H. }
    intros Hp Hk. exists EmptyString.
    refine (genericPath_skips _ _ _ _ _ _ _ _ _ _ G _ Hk).
    destruct (suggestedVendor (detectFileType host file)); exact Hp.
  - destruct (match profile with Some p => Some p | None => _ end) as [prof|];
      [|discriminate].
    destruct (suggestedVendor (detectFileType host file)); discriminate.
  - (* xml *)
    destruct (match profile with Some p => Some p | None => _ end) as [prof|];
      [|discriminate].
    mstep H as u2 w2 E2. apply report_inv in E2; subst w2.
    destruct (suggestedVendor (detectFileType host file)) eqn:Ev;
      try discriminate.
    intros Hp Hk. exists " (existing data was more complete)"%string.
    exact (appleXmlPath_skips _ _ _ _ _ _ _ _ H Hp Hk).
  - destruct (match profile with Some p => Some p | None => _ end) as [prof|];
      discriminate.
Qed.

End Paths.

End ParsedFacts.

Module WorkoutWriteTheorems.
Import Pipeline Orchestrator ReimportFacts PrimitiveFacts PathFacts
       ImportFileFacts StoreFacts Parsed ParsedFacts Demo.
Local Open Scope string_scope.

(** C9 (amended).  A successful import passes only the sleep sessions
    through deduplication.  The workouts, daily metrics and time series
    are those the parser of the file returned, and the parser is not
    given the store: with any other store it returns the same records.
    They are written one after the other, each under the id it came with
    and without any look-up of stored records, so every one of them is in
    the store afterwards.  When those ids are fresh and distinct the
    workout store grows by the number of workouts, so a re-import whose
    parser generates new ids duplicates them.  On the pre-parsed Apple
    Health JSON path the ids are those of the file (only [sourceId] and
    [userId] are overwritten), and writing workouts whose ids are all
    stored already leaves the size of the store unchanged. *)
Theorem C9_workouts_stored_as_parsed
  (host : Host) (file : ImportFile) (user : string)
  (profile : option ImporterProfile) (onProgress : option ProgressCallback)
  (w w' : World) (r : ImportResult) :
  importFile host file user profile onProgress w = (inr r, w') ->
  success r = true ->
  exists p,
    parserOutput host file user profile onProgress w = Some p
    /\ (forall stored,
          parserOutput host file user profile onProgress
            {| db := stored; nextId := nextId w |} = Some p)
    /\ Wrote user w w' r (po_sleepSessions p) (po_workoutSessions p)
         (po_dailyMetrics p) (po_timeSeries p)
    /\ (NoDup (map objKey (po_workoutSessions p)) ->
        (forall x, In x (po_workoutSessions p) ->
           ~ In (objKey x) (map objKey (workoutSessions (db w)))) ->
        length (workoutSessions (db w'))
        = (length (workoutSessions (db w)) + length (po_workoutSessions p))%nat)
    /\ (InKeyOrder objKey (workoutSessions (db w)) ->
        (forall x, In x (po_workoutSessions p) ->
           In (objKey x) (map objKey (workoutSessions (db w'))))
        /\ ((forall x, In x (po_workoutSessions p) ->
               In (objKey x) (map objKey (workoutSessions (db w)))) ->
            length (workoutSessions (db w')) = length (workoutSessions (db w))))
    /\ (forall data, isPreParsedImport host file data ->
        po_workoutSessions p
        = map (stampObject (r_sourceId r) user)
              (arrayItems (getKey "workoutSessions" data))
        /\ map keyOf (po_workoutSessions p)
           = map (fun item => keyOf (match item with VObj o => o | _ => [] end))
                 (arrayItems (getKey "workoutSessions" data))).
Proof.
  intros E Hs.
  destruct (importFile_parsed host _ _ _ _ _ _ _ E Hs) as (p & Hp & Hw).
  exists p. split; [exact Hp|].
  split; [intros stored; now rewrite parserOutput_store|].
  split; [exact Hw|].
  pose proof Hw as (_ & _ & _ & Hput & _).
  split.
  { intros Hnd Hfresh. exact (obj_putMany_fresh _ _ _ Hput Hnd Hfresh). }
  split.
  { intros Hord. split.
    - exact (proj1 (proj2 (obj_putMany_stores _ _ _ Hord Hput))).
    - intros Hin. exact (proj1 (obj_putMany_present _ _ _ Hord Hput Hin)). }
  intros data Hd.
  rewrite (parserOutput_preParsed host _ user profile onProgress w data Hd) in Hp.
  inversion Hp; subst p. cbn [preParsedRecords po_workoutSessions].
  rewrite (importFile_preParsed_source host _ _ _ _ _ _ _ _ Hd E Hs).
  split; [reflexivity|].
  rewrite map_map. apply map_ext. intros it. apply stampObject_key.
Qed.

Lemma C9_witness :
  exists p,
    parserOutput demoHost preParsedFile "u" None None emptyWorld = Some p
    /\ map keyOf (po_workoutSessions p) = [Some "w1"]
    /\ map keyOf
         (workoutSessions
            (db (snd (importFile demoHost preParsedFile "u" None None emptyWorld))))
       = [Some "w1"].
Proof.
  destruct (C9_workouts_stored_as_parsed demoHost preParsedFile "u" None None
              emptyWorld
              (snd (importFile demoHost preParsedFile "u" None None emptyWorld))
              (match fst (importFile demoHost preParsedFile "u" None None emptyWorld)
               with inr r => r | inl _ => createErrorResult [] end))
    as (p & Hp & _ & _ & _ & _ & Hpre).
  - vm_compute. reflexivity.
  - vm_compute. reflexivity.
  - exists p. split; [exact Hp|].
    destruct (Hpre preParsedJson) as [_ ->].
    + repeat split; vm_compute; reflexivity.
    + split; vm_compute; reflexivity.
Defined.

End WorkoutWriteTheorems.

Module SecondImportTheorems.
Import JsString Pipeline MergeFacts DedupFacts DedupTheorems Orchestrator ReimportFacts
       TwoImportsFacts ReimportTheorems PrimitiveFacts PathFacts ImportFileFacts
       Parsed ParsedFacts Demo.
Local Open Scope string_scope.




End SecondImportTheorems.

(** ** Imports that nothing interrupts

    The JSON and CSV branch of [importFile] is the one that looks the
    hash of the file up.  When the store accepts every operation, the
    progress callback returns and the transformer returns records that
    carry their ids, every step of that branch returns: a stored hash
    adds a warning and stops nothing. *)

Module QuietRunFacts.
Import Pipeline Orchestrator ReimportFacts PrimitiveFacts PathFacts
       ImportFileFacts Parsed.
Local Open Scope string_scope.

Lemma bind_runs {A B} (c : M A) (k : A -> M B) w a w1 :
  c w = (inr a, w1) ->
  (exists b w', k a w1 = (inr b, w')) ->
  exists b w', bind c k w = (inr b, w').
Proof. intros E (b & w' & K). exists b, w'. unfold bind. now rewrite E. Qed.

Lemma obj_putMany_keyed rs : forall t,
  Forall (fun o => keyOf o <> None) rs -> fst (obj_putMany rs t) = None.
Proof.
  induction rs as [|r rs IH]; intros t H; [reflexivity|].
  inversion H as [|? ? Hr Hrs]; subst. cbn [obj_putMany].
  destruct (keyOf r); [now apply IH | congruence].
Qed.

Section Quiet.
Variable host : Host.
Hypothesis storeAccepts : forall op d, storageFault host op d = None.

Lemma guard_runs op w : guard host op w = (inr tt, w).
Proof. unfold guard. now rewrite storeAccepts. Qed.

Lemma getByHash_runs h w :
  getSourcesByFileHash host h w
  = (inr (filter (fun s => String.eqb (s_fileHash s) h) (sources (db w))), w).
Proof. unfold getSourcesByFileHash, bind. now rewrite guard_runs. Qed.

Lemma getAll_runs w :
  getAllSleepSessions host w = (inr (sleepSessions (db w)), w).
Proof. unfold getAllSleepSessions, bind. now rewrite guard_runs. Qed.

Lemma putSource_runs s w : exists w', putSource host s w = (inr tt, w').
Proof. unfold putSource, bind. rewrite guard_runs. unfold updateDb. eauto. Qed.

Lemma putSleep_runs rs w :
  exists w', whenNonEmpty rs (putManySleepSessions host rs) w = (inr tt, w').
Proof.
  destruct rs as [|r rs]; [unfold whenNonEmpty, ret; eauto|].
  cbn [whenNonEmpty]. unfold putManySleepSessions, bind.
  rewrite guard_runs. unfold updateDb. eauto.
Qed.

Lemma putWorkouts_runs rs w :
  Forall (fun o => keyOf o <> None) rs ->
  exists w', whenNonEmpty rs (putManyWorkoutSessions host rs) w = (inr tt, w').
Proof.
  intros H. destruct rs as [|r rs]; [unfold whenNonEmpty, ret; eauto|].
  cbn [whenNonEmpty]. unfold putManyWorkoutSessions, bind.
  rewrite guard_runs.
  pose proof (obj_putMany_keyed (r :: rs) (workoutSessions (db w)) H) as K.
  destruct (obj_putMany (r :: rs) (workoutSessions (db w))) as [err t].
  cbn [fst] in K. subst err. eauto.
Qed.

Lemma putSeries_runs rs w :
  Forall (fun o => keyOf o <> None) rs ->
  exists w', whenNonEmpty rs (putManyTimeSeries host rs) w = (inr tt, w').
Proof.
  intros H. destruct rs as [|r rs]; [unfold whenNonEmpty, ret; eauto|].
  cbn [whenNonEmpty]. unfold putManyTimeSeries, bind.
  rewrite guard_runs.
  pose proof (obj_putMany_keyed (r :: rs) (timeSeries (db w)) H) as K.
  destruct (obj_putMany (r :: rs) (timeSeries (db w))) as [err t].
  cbn [fst] in K. subst err. eauto.
Qed.

Lemma genericPath_runs file user prof cb det parsed w p :
  (forall st pc m, reportPure cb st pc m = None) ->
  genericRecords host user prof cb parsed w = Some p ->
  Forall (fun o => keyOf o <> None) (po_workoutSessions p) ->
  Forall (fun o => keyOf o <> None) (po_timeSeries p) ->
  exists r w',
    genericPath host file user prof cb det (contentText file) parsed w
    = (inr r, w').
Proof.
  intros Hq Hp Hw Ht. unfold genericRecords in Hp.
  destruct (transformData host parsed prof _ user _ _) as [[e|tr] w4] eqn:E4;
    [discriminate|].
  inversion Hp; subst p; clear Hp.
  cbn [po_workoutSessions po_timeSeries] in Hw, Ht.
  unfold genericPath. cbv beta zeta.
  eapply bind_runs; [apply getByHash_runs|].
  eapply bind_runs; [reflexivity|].
  eapply bind_runs; [apply report_quiet, Hq|].
  eapply bind_runs; [exact E4|].
  eapply bind_runs; [apply report_quiet, Hq|].
  eapply bind_runs; [apply report_quiet, Hq|].
  eapply bind_runs; [apply getAll_runs|].
  eapply bind_runs; [apply report_quiet, Hq|].
  match goal with
  | |- exists b w', bind (putSource host ?s) _ ?w0 = _ =>
      destruct (putSource_runs s w0) as [w9 E9]
  end.
  eapply bind_runs; [exact E9|].
  match goal with
  | |- exists b w', bind (whenNonEmpty ?l _) _ ?w0 = _ =>
      destruct (putSleep_runs l w0) as [w10 E10]
  end.
  eapply bind_runs; [exact E10|].
  destruct (putWorkouts_runs (t_workoutSessions tr) w10 Hw) as [w11 E11].
  eapply bind_runs; [exact E11|].
  destruct (putSeries_runs (t_timeSeries tr) w11 Ht) as [w12 E12].
  eapply bind_runs; [exact E12|].
  eapply bind_runs; [apply report_quiet, Hq|].
  unfold ret. eauto.
Qed.

Lemma genericPath_warns file user prof cb det parsed w r w' :
  genericPath host file user prof cb det (contentText file) parsed w = (inr r, w') ->
  alreadyImported host file w = true ->
  In (duplicateWarning "This file has already been imported") (warnings r).
Proof.
  unfold genericPath. intros H. cbv beta zeta in H.
  mstep H as srcs w1 E1. apply getByHash_inv in E1 as [-> Ea].
  mstep H as sid w2 E2.
  mstep H as u3 w3 E3.
  mstep H as tr w4 E4.
  mstep H as u5 w5 E5.
  mstep H as u6 w6 E6.
  mstep H as ex w7 E7.
  mstep H as u8 w8 E8.
  mstep H as u9 w9 E9.
  mstep H as u10 w10 E10.
  mstep H as u11 w11 E11.
  mstep H as u12 w12 E12.
  mstep H as u13 w13 E13.
  unfold ret in H. inversion H; subst r w'; clear H.
  intros Hdup. unfold alreadyImported in Hdup.
  apply existsb_filter in Hdup. subst srcs. rewrite Hdup.
  cbn [warnings]. apply in_or_app. left. apply in_or_app. left.
  apply in_or_app. left. now left.
Qed.

(** A file that is not taken for an Apple Health export and reaches a
    parser goes down the JSON and CSV branch. *)
Lemma importFile_runs file user profile cb w p :
  (forall st pc m, reportPure cb st pc m = None) ->
  suggestedVendor (detectFileType host file) <> apple_health ->
  parserOutput host file user profile cb w = Some p ->
  Forall (fun o => keyOf o <> None) (po_workoutSessions p) ->
  Forall (fun o => keyOf o <> None) (po_timeSeries p) ->
  exists r w',
    importFile host file user profile cb w = (inr r, w')
    /\ success r = true
    /\ (alreadyImported host file w = true ->
        In (duplicateWarning "This file has already been imported") (warnings r)).
Proof.
  intros Hq Hv Hp Hw Ht.
  assert (G : forall prof det parsed,
            genericRecords host user prof cb parsed w = Some p ->
            exists r w',
              genericPath host file user prof cb det (contentText file) parsed w
              = (inr r, w')
              /\ success r = true
              /\ (alreadyImported host file w = true ->
                  In (duplicateWarning "This file has already been imported")
                     (warnings r))).
  { intros prof det parsed Hg.
    destruct (genericPath_runs file user prof cb det parsed w p Hq Hg Hw Ht)
      as (r & w' & E).
    exists r, w'. split; [exact E|]. split.
    - apply genericPath_inv in E as [(ss & ws & ts & Hs & _) _]. exact Hs.
    - now apply (genericPath_warns _ _ _ _ _ _ _ _ _ E). }
  unfold importFile, tryCatch, importSteps, bind.
  rewrite (report_quiet cb detecting 5 _ w (Hq _ _ _)).
  unfold parserOutput in Hp. cbv zeta in Hp.
  destruct (match profile with
            | Some p0 => Some p0
            | None => getBuiltInProfile (suggestedVendor (detectFileType host file))
            end) as [prof|] eqn:Eprof; [|discriminate].
  destruct (fileType (detectFileType host file)) eqn:Eft.
  - (* json *)
    rewrite (report_quiet cb parsing 20 _ w (Hq _ _ _)).
    destruct (JSON_parse host (contentText file)) as [data|]; [|discriminate].
    assert (Ev : vendor_eqb (suggestedVendor (detectFileType host file)) apple_health
                 = false).
    { destruct (suggestedVendor (detectFileType host file)); try reflexivity.
      now elim Hv. }
    rewrite Ev in Hp |- *. cbn [andb] in Hp |- *.
    destruct (G prof (detectFileType host file) data Hp) as (r & w' & E & Hs & Hd).
    rewrite E. eauto.
  - (* csv *)
    rewrite (report_quiet cb parsing 20 _ w (Hq _ _ _)).
    assert (Hp' : genericRecords host user prof cb
                    (VArr (map VObj (parseCsv (contentText file)))) w = Some p).
    { destruct (suggestedVendor (detectFileType host file)); exact Hp. }
    destruct (G prof (detectFileType host file) _ Hp') as (r & w' & E & Hs & Hd).
    assert (E' : match suggestedVendor (detectFileType host file) with
                 | _ => genericPath host file user prof cb (detectFileType host file)
                          (contentText file)
                          (VArr (map VObj (parseCsv (contentText file))))
                 end w = (inr r, w')).
    { destruct (suggestedVendor (detectFileType host file)); exact E. }
    destruct (suggestedVendor (detectFileType host file)); rewrite E; eauto.
  - destruct (suggestedVendor (detectFileType host file)); discriminate.
  - destruct (suggestedVendor (detectFileType host file)); try discriminate.
    now elim Hv.
  - destruct (suggestedVendor (detectFileType host file)); discriminate.
Qed.

End Quiet.

End QuietRunFacts.

Module ParseErrorTheorems.
Import Pipeline Orchestrator ReimportFacts PrimitiveFacts PathFacts
       ImportFileFacts StoreFacts ImportFileTheorems Demo Parsed QuietRunFacts.
Local Open Scope string_scope.

(** C8, evaluated.  The text of [brokenJsonFile] is one that [JSON.parse]
    rejects.  [importFile] returns the [invalid_format] failure for it,
    not [parse_error]: [detectFileType] has parsed the text before and
    does not classify it as JSON, so the branch of [importFile] that
    builds the [parse_error] result is never taken, whatever the host,
    the file and the store.  The rest is as the claim has it.
    [importFile] always returns a result; a failure carries one typed
    error, no warning and zero counts: [invalid_format] when the file
    type is unknown, [unsupported_vendor] when no profile is found, and
    [storage_error] for whatever was thrown.  A stored hash stops
    nothing: on the JSON and CSV branch, which looks the hash up, the
    import succeeds whenever the store accepts every operation, the
    callback returns and the transformer returns records with their ids,
    and the result then carries the warning that the file has already
    been imported; [classesFile] imported twice succeeds twice, the
    second time with that warning. *)
Theorem C8_unparsable_json_is_invalid_format :
  JSON_parse demoHost (contentText brokenJsonFile) = None
  /\ importFile demoHost brokenJsonFile "u" None None emptyWorld
     = (inr (createErrorResult
               [errorOf invalid_format "Could not determine file format" None]),
        emptyWorld)
  /\ (forall host file,
         JSON_parse host (contentText file) = None ->
         fileType (detectFileType host file) <> ft_json)
  /\ (forall host file user profile onProgress w r w',
         importFile host file user profile onProgress w = (inr r, w') ->
         forall e, In e (errors r) -> e_type e <> parse_error)
  /\ (forall host file user profile onProgress w,
         exists r w',
           importFile host file user profile onProgress w = (inr r, w')
           /\ (success r = false ->
               exists e, r = createErrorResult [e]
                         /\ warnings r = []
                         /\ recordCounts r
                            = {| n_sleepSessions := 0; n_workoutSessions := 0;
                                 n_dailyMetrics := 0; n_timeSeries := 0 |})
           /\ (reportPure onProgress detecting 5 "Analyzing file..." = None ->
               fileType (detectFileType host file) = ft_unknown ->
               r = createErrorResult
                     [errorOf invalid_format "Could not determine file format" None])
           /\ (reportPure onProgress detecting 5 "Analyzing file..." = None ->
               fileType (detectFileType host file) <> ft_unknown ->
               profile = None ->
               getBuiltInProfile (suggestedVendor (detectFileType host file)) = None ->
               exists message,
                 r = createErrorResult [errorOf unsupported_vendor message None])
           /\ (forall e w0,
                 importSteps host file user profile onProgress w = (inl e, w0) ->
                 r = createErrorResult [caughtError e]
                 /\ e_type (caughtError e) = storage_error))
  /\ (forall host file user profile onProgress w p,
         (forall op d, storageFault host op d = None) ->
         (forall stage percent message,
             reportPure onProgress stage percent message = None) ->
         suggestedVendor (detectFileType host file) <> apple_health ->
         parserOutput host file user profile onProgress w = Some p ->
         Forall (fun o => keyOf o <> None)
                (po_workoutSessions p ++ po_timeSeries p) ->
         exists r w',
           importFile host file user profile onProgress w = (inr r, w')
           /\ success r = true
           /\ (alreadyImported host file w = true ->
               In (duplicateWarning "This file has already been imported")
                  (warnings r)))
  /\ (exists r1 w1 r2 w2,
         importFile demoHost classesFile "u" None None emptyWorld = (inr r1, w1)
         /\ importFile demoHost classesFile "u" None None w1 = (inr r2, w2)
         /\ success r1 = true /\ warnings r1 = []
         /\ alreadyImported demoHost classesFile w1 = true
         /\ success r2 = true
         /\ warnings r2
            = [duplicateWarning "This file has already been imported"]
         /\ length (sources (db w2)) = 2%nat).
Proof.
  split; [reflexivity|].
  split; [vm_compute; reflexivity|].
  split.
  { intros host file Hn Hj.
    destruct (detect_json_parses host file Hj) as (v & Hv). congruence. }
  split.
  { intros host file user profile onProgress w r w' E.
    destruct (importFile_result_shapes host file user profile onProgress w)
      as (r0 & w0 & E0 & _ & _ & _ & _ & _ & _ & Hne & _).
    rewrite E in E0. inversion E0; subst r0 w0. exact Hne. }
  split.
  { intros host file user profile onProgress w.
    destruct (importFile_result_shapes host file user profile onProgress w)
      as (r & w' & E & Hf & _ & Hu & Hv & Hc & _).
    exists r, w'. split; [exact E|]. split.
    { intros Hs. destruct (Hf Hs) as (e & ->). exists e. auto. }
    split.
    { intros Hq Ht. now destruct (Hu Hq Ht). }
    split.
    { intros Hq Ht Hp Hb. destruct (Hv Hq Ht Hp Hb) as [-> _]. eauto. }
    intros e w0 Hs. destruct (Hc e w0 Hs) as (-> & Ht & _). auto. }
  split.
  { intros host file user profile onProgress w p Hstore Hq Hv Hp Hk.
    apply Forall_app in Hk as [Hw Ht].
    now apply (importFile_runs host Hstore file user profile onProgress w p). }
  vm_compute. do 4 eexists. repeat split.
Qed.

End ParseErrorTheorems.
